(* ===== verification/_CoqProject ===== *)
-Q . S2P
Prelude.v
MemoryPool.v
LFQueue.v
LFQueueLin.v
LFQueueOrders.v
Types.v
Messages.v
Logger.v
LogFiles.v
Threads.v
Times.v
Ring.v
Orders.v
OrderBook.v
BookLevels.v
BookModel.v
BookRep.v
BookSpec.v
BookTheorems.v
BookTyping.v
BookStray.v
BookFaults.v
BookPrint.v
MatchingEngine.v
MarketData.v
Main.v
FIFOSequencer.v
TCPSocket.v
SocketUtils.v
TCPServer.v
OrderGateway.v
System.v
Exchange.v
