(* ===== verification/Prelude.v ===== *)
(** * HFT_sys: a verification library

    HFT_sys is a small exchange in C++: clients send orders over TCP to the order
    gateway, the gateway's sequencer puts them in time order into a lock-free
    queue, the matching engine takes them from there into one limit order book
    per ticker, and the books' responses go back through a second queue to the
    gateway while market updates go into a third.  Books and server take their
    objects from fixed memory pools, and every part writes to one asynchronous
    logger.  This library models the program file by file and proves what each
    part does.

    ** Parts and files

    Shared by all:
    - Prelude.v (this file): machine integers, the state and error monad, the
      faults a computation can end in ([fault]; ASSERT_CONDITION and FATAL of
      src/src/lib/assertion.h are [require] with [AssertFailed] and [FatalExit]),
      the total-correctness judgement [wp] with its rules and tactics.

    Library layer (src/src/lib):
    - MemoryPool.v: memory_pool.h.  A pointer is the index of its block; [live]
      is the map of live objects, the abstraction everything above uses.
    - LFQueue.v: lock_free_queue.h, sequentially and cut at the atomic accesses.
      LFQueueLin.v: push and pop are atomic for one producer and one consumer.
      LFQueueOrders.v: its memory orders, happens-before along the interleavings.
    - Logger.v: the messages, the formatting and the logger thread of logger.h and
      logger.cpp.  LogFiles.v: the static stream, setLogFile, the constructor,
      getInstance and the destructor.
    - Threads.v: thread_utils.h.  Times.v: time_utils.h.
    - TCPSocket.v: tcp_socket.h and tcp_socket.cpp but for connect.
      SocketUtils.v: socket_utils.h and TCPSocket::connect.
    - TCPServer.v: tcp_server.h and tcp_server.cpp.

    Exchange layer (src/src/core/exchange):
    - Types.v: types.h.  Messages.v: order_server_request.h,
      order_server_response.h, market_data.h, with their packed layouts.
    - Orders.v: matching_engine_order.h; Ring.v: the theory of circular lists,
      on the interface [Linked] that orders and price levels implement.

    Matching engine (src/src/core/matching_engine):
    - OrderBook.v: order_book.h and order_book.cpp, member by member, with the
      engine behind the interface [OmeSink].
    - BookLevels.v, BookRep.v: the representation, the levels of a side and the
      orders of a level as lists.  BookModel.v: the reference model of a book,
      lists only.  BookSpec.v: every operation simulates the model's.
      BookTheorems.v: what follows for the operations and for whole sessions.
      BookTyping.v: widths.  BookStray.v: matchOrder's read of the stack.
      BookFaults.v: requests the code does not guard against.  BookPrint.v:
      toString and the destructor.
    - MatchingEngine.v: matching_engine.h and matching_engine.cpp.
    - MarketData.v: a reader of the market updates, for one book and for the
      engine's queue.

    Gateway (src/src/core/gateway) and the whole:
    - FIFOSequencer.v: fifo_Sequencer.h.
    - OrderGateway.v: order_gateway_server.h and order_gateway_server.cpp, the
      client of the server's interface [ServerClient].
    - Main.v: src/src/core/main.cpp, its thread, the engine's and the signal
      handler interleaved.
    - System.v: gateway and engine on their shared queues.  Exchange.v: the same
      with MarketData.v's reader on the queue of market updates.

    ** How the code is rendered

    A member function is a computation in [M S A]: from a state to a result and a
    new state, or to a fault.  The state is a record with the object's fields
    under their names.  Unsigned arithmetic is wrapped with [u32] and [u64] where
    the code computes; null and dangling dereferences, accesses out of range,
    failed assertions and exceptions leaving a noexcept function are faults, so
    that a theorem that gives an [Ok] or a [wp] also says that none of them
    happens.  Arrays and vectors are sparse maps over their initial value.  What
    the outside world supplies, clock readings, epoll events, accepted
    connections, bytes of the kernel, answers of system calls, is an argument.
    std::sort is a parameter of which [sort_spec], the standard's promise, is
    assumed.  matchOrder reads through a pointer it has moved past its variable,
    to which C++ gives no meaning; the words of the stack that it reads, and which
    of them are mapped, are the parameter [StrayMemory], the theorems hold for
    all, and the read of an unmapped word is the fault [BadRead].

    ** What the theorems show

    - Pools and queues.  The pool refines an allocator of distinct live cells;
      the queue refines a bounded FIFO, and with one producer and one consumer
      every interleaving is a run of that FIFO whose operations take effect at
      once, and the two never use one slot at a time.  With two producers it is
      not.  In C++ that is not enough: with the code's relaxed count no slot access
      of one thread happens before one of the other, so every successful pop is a
      data race; with release order, which the code does not have, there is none
      along the interleavings.
    - The book.  addOrder and cancelOrder refine the reference model, so any
      session of acceptable requests ends in the model's state without a fault;
      findMatch ends in any memory, and on a side in price order it removes exactly
      the orders the price reaches; its stray read is the one way in which a
      session that is acceptable otherwise can fail; the visible book keeps its invariants: time priority
      in a level, distinct market ids, a client map that points into the book,
      values within their types.  The market updates describe the book: a reader
      that applies them has exactly its orders, and one that reads the engine's
      queue at its own pace converges to the books of all tickers as long as no
      update finds the queue full.  Acceptability ([acceptable]) is what the code
      relies on without checking; an executable test decides it, the price-window
      theorem gives one simple sufficient condition, and BookFaults.v shows what
      happens outside it: an unknown client writes out of bounds, a repeated order
      id orphans the first order, colliding prices share a level, and an order can
      join a level of the other side; BookStray.v shows what a fill larger than
      the mapped stack does.
    - What the book promises and does not keep is part of the model: the taker's
      quantity is never reduced and rests whole, and a new level can land out of
      price order; theorems state exactly when.
    - The engine handles queued requests in order, routes them to their book, and
      sends on what the book sends in order, up to the room in its queues.  Once
      started it cannot be stopped.
    - The sequencer publishes a batch sorted by reception time and bounded by the
      queue's room.  The receive callback forwards exactly the requests that pass
      its checks, independently of how the stream is cut into reads.  The response
      loop writes each response to its client's socket; the next pass over the
      socket hands the bytes to the kernel once, and what it has no room for is
      lost.  On what epoll may report
      for the registered sockets poll keeps the server's lists; no socket is ever
      registered for output, so the send list stays empty.  A client socket is only created when connect fails.
    - The logger's formatting equals left-to-right substitution, and the thread
      writes in order until stopped.
    - The whole.  Interleaved in any order, the gateway's calls and the engine's
      turns never fault on acceptable input; queued requests are answered on their
      clients' sockets, up to the capacity of the response queue; and the bytes of a
      request read from the wire come back on the wire as the bytes of its book's
      responses.  A reader of the market updates that runs along
      ends with the books.  The program main builds has no gateway, and
      in every state it reaches the engine is idle and every book new.

    ** Fuel

    Loops over the heap and over indices take fuel; [OutOfFuel] is a fault, so
    every theorem that gives [Ok] shows the fuel enough.  matchFuel bounds the fills
    that all live orders can take, plus one; the level search runs at most once
    around the levels and has one unit per block of their pool; the pool's scan
    visits each block once; rxLoop takes one unit for every 38 bytes received,
    respondLoop one for every queued response, formatLoop one for every character
    of the format string, and toString's loops one for every live order or level.

    ** Not modelled

    - Executions in which a load sees an older store: LFQueueOrders.v tells which
      executions are data races, and of those C++ says nothing more.  System.v
      interleaves whole operations, which LFQueueLin.v justifies for the queues.
    - The clock, the calendar and sleeping: readings of the clock are arguments,
      to_time_t and localtime_r parameters.  main never creates the gateway.
    - The kqueue branch of the server that is compiled on macOS.
    - The text of assertion messages; the order of log lines of different
      components: each component's model keeps its own sequence.
    - std::bad_alloc, and the time anything takes. *)

From stdpp Require Export base tactics list gmap strings pretty.
From Stdlib Require Export ZArith Lia.

Declare Scope hft_scope.
Delimit Scope hft_scope with hft.
#[global] Open Scope Z_scope.

(** ** Machine integers

    A w-bit unsigned value is a [Z] in [[0, 2^w)]; arithmetic that the C++ does
    on it is followed by [wrapU w].  A signed value is wrapped with [wrapS w]. *)
Definition wrapU (w z : Z) : Z := z mod 2 ^ w.
Definition wrapS (w z : Z) : Z := (z + 2 ^ (w - 1)) mod 2 ^ w - 2 ^ (w - 1).
Abbreviation u8 := (wrapU 8).
Abbreviation u32 := (wrapU 32).
Abbreviation u64 := (wrapU 64).
Abbreviation s8 := (wrapS 8).
Abbreviation s64 := (wrapS 64).
Definition maxU (w : Z) : Z := 2 ^ w - 1.
Definition maxS (w : Z) : Z := 2 ^ (w - 1) - 1.
Definition minS (w : Z) : Z := - 2 ^ (w - 1).

(** The value an element of a std::vector<T>(n) is constructed with. *)
Class Default (T : Type) := dflt : T.
#[export] Instance Default_Z : Default Z := 0.

(** ** Outcomes of a computation

    [fault] lists the ways the program leaves its defined behaviour or dies:
    the first group is undefined behaviour ([BadRead] is a read where no memory
    is mapped), [AssertFailed] is
    ASSERT_CONDITION's std::terminate, [Terminate] an exception that leaves a
    noexcept function, [FatalExit] the exit of FATAL.  [OutOfFuel] belongs to
    the model: the termination theorems show it is never the outcome. *)
Inductive fault :=
  | NullDeref
  | DanglingDeref
  | OutOfBounds
  | BadRead
  | DivByZero
  | Overlap
  | AssertFailed
  | Terminate
  | FatalExit
  | OutOfFuel.

Inductive res (A : Type) :=
  | Ok (a : A)
  | Err (f : fault).
Arguments Ok {A} a.
Arguments Err {A} f.

Definition is_Ok {A} (r : res A) : Prop := match r with Ok _ => True | Err _ => False end.

(** A pointer into a pool or an array: [None] is nullptr. *)
Abbreviation ptr := (option Z).

(** ** State and error monad *)
Definition M (S A : Type) : Type := S -> res (A * S).

#[export] Instance M_ret {S} : MRet (M S) := fun A a s => Ok (a, s).
#[export] Instance M_bind {S} : MBind (M S) := fun A B f m s =>
  match m s with
  | Ok (a, s') => f a s'
  | Err e => Err e
  end.

Definition fail {S A} (e : fault) : M S A := fun _ => Err e.
Definition get {S} : M S S := fun s => Ok (s, s).
Definition gets {S A} (f : S -> A) : M S A := fun s => Ok (f s, s).
Definition modify {S} (f : S -> S) : M S unit := fun s => Ok (tt, f s).
Definition require {S} (b : bool) (e : fault) : M S unit :=
  if b then mret tt else fail e.
(** Run a computation on a component of the state. *)
Definition zoom {S T A} (getter : S -> T) (setter : T -> S -> S) (m : M T A) : M S A :=
  fun s => match m (getter s) with
           | Ok (a, t) => Ok (a, setter t s)
           | Err e => Err e
           end.

(** The pointer itself, or undefined behaviour when it is null. *)
Definition nonnull {S} (p : ptr) : M S Z :=
  match p with
  | Some i => mret i
  | None => fail NullDeref
  end.

(** ** Total correctness: [wp m Q s] says that [m] run from [s] does not
    fault and that its result and final state satisfy [Q]. *)
Definition wp {S A} (m : M S A) (Q : A -> S -> Prop) (s : S) : Prop :=
  match m s with
  | Ok (a, s') => Q a s'
  | Err _ => False
  end.

(** [faults m s e]: [m] run from [s] ends in the fault [e]. *)
Definition faults {S A} (m : M S A) (s : S) (e : fault) : Prop := m s = Err e.

Create HintDb wpdb.
Create HintDb hft.
Create Rewrite HintDb hft_live.

Section WpRules.
Context {S : Type}.

Lemma wp_ret {A} (a : A) (Q : A -> S -> Prop) s : Q a s -> wp (mret a) Q s.
Proof. done. Qed.

Lemma wp_bind {A B} (m : M S A) (f : A -> M S B) Q s :
  wp m (fun a s' => wp (f a) Q s') s -> wp (m ≫= f) Q s.
Proof. unfold wp, mbind, M_bind. by destruct (m s) as [[a s']|]. Qed.

Lemma wp_mono {A} (m : M S A) (P Q : A -> S -> Prop) s :
  wp m P s -> (forall a s', P a s' -> Q a s') -> wp m Q s.
Proof. unfold wp. destruct (m s) as [[a s']|]; [|done]. intros HP HQ. by apply HQ. Qed.

Lemma wp_get (Q : S -> S -> Prop) s : Q s s -> wp get Q s.
Proof. done. Qed.

Lemma wp_gets {A} (f : S -> A) (Q : A -> S -> Prop) s : Q (f s) s -> wp (gets f) Q s.
Proof. done. Qed.

Lemma wp_modify (f : S -> S) (Q : unit -> S -> Prop) s : Q tt (f s) -> wp (modify f) Q s.
Proof. done. Qed.

Lemma wp_require b e (Q : unit -> S -> Prop) s : b = true -> Q tt s -> wp (require b e) Q s.
Proof. by intros ->. Qed.

Lemma wp_nonnull i (Q : Z -> S -> Prop) s : Q i s -> wp (nonnull (Some i)) Q s.
Proof. done. Qed.

Lemma wp_zoom {T A} (g : S -> T) (st : T -> S -> S) (m : M T A) (Q : A -> S -> Prop) s :
  wp m (fun a t => Q a (st t s)) (g s) -> wp (zoom g st m) Q s.
Proof. unfold wp, zoom. by destruct (m (g s)) as [[a t]|]. Qed.

Lemma wp_ok {A} (m : M S A) Q s :
  wp m Q s <-> exists a s', m s = Ok (a, s') /\ Q a s'.
Proof.
  unfold wp. destruct (m s) as [[a s']|e]; split.
  - eauto.
  - by intros (? & ? & [= <- <-] & ?).
  - done.
  - by intros (? & ? & ? & ?).
Qed.

Lemma bind_inv {A B} (m : M S A) (f : A -> M S B) s b s'' :
  (m ≫= f) s = Ok (b, s'') -> exists a s', m s = Ok (a, s') /\ f a s' = Ok (b, s'').
Proof. unfold mbind, M_bind. destruct (m s) as [[a s']|]; [eauto|done]. Qed.

Lemma bind_ok {A B} (m : M S A) (f : A -> M S B) s a s' :
  m s = Ok (a, s') -> (m ≫= f) s = f a s'.
Proof. unfold mbind, M_bind. by intros ->. Qed.

(** Faults propagate through a sequence. *)
Lemma faults_bind {A B} (m : M S A) (f : A -> M S B) s e :
  wp m (fun a s' => faults (f a) s' e) s -> faults (m ≫= f) s e.
Proof. unfold wp, faults, mbind, M_bind. by destruct (m s) as [[a s']|]. Qed.

Lemma faults_bind_l {A B} (m : M S A) (f : A -> M S B) s e :
  faults m s e -> faults (m ≫= f) s e.
Proof. unfold faults, mbind, M_bind. by intros ->. Qed.

Lemma wp_conj {A} (m : M S A) (P Q : A -> S -> Prop) s :
  wp m P s -> wp m Q s -> wp m (fun a s' => P a s' /\ Q a s') s.
Proof. unfold wp. by destruct (m s) as [[a s']|]. Qed.

End WpRules.

#[export] Hint Resolve wp_ret wp_get wp_gets wp_modify wp_nonnull : wpdb.

(** Symbolic execution of the monadic control structure. *)
Ltac wp_step :=
  lazymatch goal with
  | |- wp (mret _) _ _ => apply wp_ret
  | |- wp (_ ≫= _) _ _ => apply wp_bind
  | |- wp get _ _ => apply wp_get
  | |- wp (gets _) _ _ => apply wp_gets
  | |- wp (modify _) _ _ => apply wp_modify
  | |- wp (nonnull (Some _)) _ _ => apply wp_nonnull
  | |- wp (require _ _) _ _ => apply wp_require
  | |- wp (zoom _ _ _) _ _ => apply wp_zoom
  end.
Ltac wp_steps := repeat (wp_step; cbn beta iota).

(** Destruct every existential and conjunction of the context. *)
Ltac split_hyps :=
  repeat match goal with
         | H : exists x, _ |- _ => let y := fresh x in destruct H as [y H]
         | H : _ /\ _ |- _ => destruct H
         end.

Section Words.

Lemma wrapU_range w z : 0 <= w -> 0 <= wrapU w z < 2 ^ w.
Proof. intros Hw. apply Z.mod_pos_bound. by apply Z.pow_pos_nonneg. Qed.

Lemma wrapU_small w z : 0 <= z < 2 ^ w -> wrapU w z = z.
Proof. intros Hz. by apply Z.mod_small. Qed.

Lemma wrapS_range w z : 1 <= w -> minS w <= wrapS w z <= maxS w.
Proof.
  intros Hw. unfold wrapS, minS, maxS.
  assert (Hp : 2 ^ w = 2 * 2 ^ (w - 1)).
  { rewrite <- Z.pow_succ_r by lia. f_equal. lia. }
  pose proof (Z.mod_pos_bound (z + 2 ^ (w - 1)) (2 ^ w)). lia.
Qed.

Lemma wrapS_small w z : 1 <= w -> minS w <= z <= maxS w -> wrapS w z = z.
Proof.
  intros Hw Hz. unfold wrapS, minS, maxS in *.
  assert (Hp : 2 ^ w = 2 * 2 ^ (w - 1)).
  { rewrite <- Z.pow_succ_r by lia. f_equal. lia. }
  rewrite Z.mod_small by lia. lia.
Qed.

Lemma wrapU_idem w z : 0 <= w -> wrapU w (wrapU w z) = wrapU w z.
Proof. intros Hw. apply wrapU_small. by apply wrapU_range. Qed.

Lemma wrapS_wrapU w z : 1 <= w -> wrapS w (wrapU w z) = wrapS w z.
Proof.
  intros Hw. unfold wrapS, wrapU. rewrite Zplus_mod_idemp_l. done.
Qed.

End Words.

(** ** Lists *)
Lemma filter_id {A} (P : A -> Prop) `{!forall x, Decision (P x)} (l : list A) :
  Forall P l -> filter P l = l.
Proof.
  induction 1 as [|x l Hx _ IH]; [done|]. rewrite filter_cons_True by done. by rewrite IH.
Qed.

Lemma forallb_elem {A} (f : A -> bool) (l : list A) :
  forallb f l = true -> forall x, x ∈ l -> f x = true.
Proof. rewrite forallb_forall. intros Hf x Hx. by apply Hf, list_elem_of_In. Qed.
