(* ===== verification/MemoryPool.v ===== *)
(** The fixed-size object pool of src/src/lib/memory_pool.h.

    A pointer handed out by a pool is modelled by the index of its block.  The
    vector memoryBlocks_ is a sparse map: a block that was never written is in
    the state the constructor gives it, free and without an object.  [live] is
    the abstract heap of the pool, the objects whose lifetime has begun and not
    ended; the theorems say that the operations implement a partial map with
    fresh allocation on [live], whatever the free-index bookkeeping does. *)

From S2P Require Import Prelude.

(** ** Data *)
Record MemoryBlock (T : Type) := mkBlock {
  storage : option T;
  isFree : bool;
}.
Arguments mkBlock {T} _ _.
Arguments storage {T} _.
Arguments isFree {T} _.

Record MemoryPool (T : Type) := mkPool {
  memoryBlocks_ : gmap Z (MemoryBlock T);
  totalBlocks_ : Z;
  nextFreeIndex_ : Z;
  freeBlocksCount_ : Z;
  lastFreedIndex_ : Z;
}.
Arguments mkPool {T} _ _ _ _ _.
Arguments memoryBlocks_ {T} _.
Arguments totalBlocks_ {T} _.
Arguments nextFreeIndex_ {T} _.
Arguments freeBlocksCount_ {T} _.
Arguments lastFreedIndex_ {T} _.

Section Operations.
Context {T : Type}.
Implicit Types (p : MemoryPool T) (i : Z) (x : T).

Definition fresh_block : MemoryBlock T := mkBlock None true.

Definition block p i : MemoryBlock T := default fresh_block (memoryBlocks_ p !! i).

Definition set_block i (b : MemoryBlock T) p : MemoryPool T :=
  mkPool (<[i := b]> (memoryBlocks_ p)) (totalBlocks_ p) (nextFreeIndex_ p)
         (freeBlocksCount_ p) (lastFreedIndex_ p).
Definition set_nextFree i p : MemoryPool T :=
  mkPool (memoryBlocks_ p) (totalBlocks_ p) i (freeBlocksCount_ p) (lastFreedIndex_ p).
Definition set_freeCount n p : MemoryPool T :=
  mkPool (memoryBlocks_ p) (totalBlocks_ p) (nextFreeIndex_ p) n (lastFreedIndex_ p).
Definition set_lastFreed i p : MemoryPool T :=
  mkPool (memoryBlocks_ p) (totalBlocks_ p) (nextFreeIndex_ p) (freeBlocksCount_ p) i.

Definition in_range p i : bool := (0 <=? i) && (i <? totalBlocks_ p).

(** The constructor takes the address of block 0, which must exist. *)
Definition construct (size : Z) : res (MemoryPool T) :=
  if 0 <? size then Ok (mkPool ∅ size 0 size 0) else Err OutOfBounds.

Definition getFreeBlocksCount p : Z := freeBlocksCount_ p.
Definition getTotalBlocksCount p : Z := totalBlocks_ p.

(** The do-while loop of updateNextFreeIndex; one unit of fuel per iteration. *)
Fixpoint scanFree (fuel : nat) (startIndex : Z) p : res (MemoryPool T) :=
  match fuel with
  | O => Err OutOfFuel
  | S fuel' =>
      let i := u64 (nextFreeIndex_ p + 1) mod totalBlocks_ p in
      let p' := set_nextFree i p in
      if isFree (block p' i) then Ok p'
      else if i =? startIndex then Err AssertFailed
      else scanFree fuel' startIndex p'
  end.

Definition updateNextFreeIndex : M (MemoryPool T) unit := fun p =>
  if isFree (block p (nextFreeIndex_ p)) then Ok (tt, p)
  else match scanFree (Z.to_nat (totalBlocks_ p)) (nextFreeIndex_ p) p with
       | Ok p' => Ok (tt, p')
       | Err e => Err e
       end.

(** [allocate x] constructs [x] in the block at nextFreeIndex_; the result is
    nullptr when the pool is full. *)
Definition allocate x : M (MemoryPool T) ptr :=
  p ← get;
  if freeBlocksCount_ p =? 0 then mret None
  else
    let i := nextFreeIndex_ p in
    require (in_range p i) OutOfBounds;;
    require (isFree (block p i)) AssertFailed;;
    modify (set_block i (mkBlock (Some x) false));;
    modify (set_freeCount (u64 (freeBlocksCount_ p - 1)));;
    n ← gets freeBlocksCount_;
    (if 0 <? n then updateNextFreeIndex else mret tt);;
    mret (Some i).

(** [deallocate i] ends the lifetime of the object in block [i].  An address
    outside the pool has an index of at least size() as a size_t. *)
Definition deallocate i : M (MemoryPool T) unit :=
  p ← get;
  require (in_range p i) AssertFailed;;
  require (negb (isFree (block p i))) AssertFailed;;
  modify (set_block i (mkBlock None true));;
  modify (set_freeCount (u64 (freeBlocksCount_ p + 1)));;
  modify (set_lastFreed i);;
  modify (fun q => set_nextFree (lastFreedIndex_ q) q).

(** Reading and updating an object through a pointer into the pool. *)
Definition load i : M (MemoryPool T) T :=
  p ← get;
  match storage (block p i) with
  | Some x => mret x
  | None => fail DanglingDeref
  end.

Definition update i (f : T -> T) : M (MemoryPool T) unit :=
  x ← load i;
  modify (set_block i (mkBlock (Some (f x)) false)).

(** ** The abstract heap and the pool invariant *)
Definition live p : gmap Z T := omap storage (memoryBlocks_ p).

Record pool_ok p : Prop := {
  ok_size : 0 < totalBlocks_ p < 2 ^ 64;
  ok_next : 0 <= nextFreeIndex_ p < totalBlocks_ p;
  ok_flag : forall i b, memoryBlocks_ p !! i = Some b ->
              isFree b = bool_decide (storage b = None);
  ok_live : forall i x, live p !! i = Some x -> 0 <= i < totalBlocks_ p;
  ok_count : freeBlocksCount_ p = totalBlocks_ p - Z.of_nat (size (live p));
  ok_free : 0 < freeBlocksCount_ p -> live p !! nextFreeIndex_ p = None;
}.

End Operations.

Section Facts.
Context {T : Type}.
Implicit Types (p : MemoryPool T) (i : Z) (x : T).

Lemma lookup_live p i : live p !! i = storage (block p i).
Proof.
  unfold live, block. rewrite lookup_omap. by destruct (memoryBlocks_ p !! i).
Qed.

Lemma live_set_nextFree i p : live (set_nextFree i p) = live p.
Proof. done. Qed.
Lemma live_set_freeCount n p : live (set_freeCount n p) = live p.
Proof. done. Qed.
Lemma live_set_lastFreed i p : live (set_lastFreed i p) = live p.
Proof. done. Qed.

Lemma live_set_some i x f p : live (set_block i (mkBlock (Some x) f) p) = <[i := x]> (live p).
Proof. unfold live. cbn. by apply omap_insert_Some. Qed.

Lemma live_set_none i f p : live (set_block i (mkBlock None f) p) = delete i (live p).
Proof. unfold live. cbn. by apply omap_insert_None. Qed.

Lemma isFree_live p i :
  pool_ok p -> isFree (block p i) = bool_decide (live p !! i = None).
Proof.
  intros Hok. rewrite lookup_live. unfold block.
  destruct (memoryBlocks_ p !! i) as [b|] eqn:E; [|done].
  by apply Hok in E.
Qed.

Lemma pool_size_bound p : pool_ok p -> 0 <= Z.of_nat (size (live p)) <= totalBlocks_ p.
Proof.
  intros Hok. split; [lia|].
  assert (Hsub : dom (live p) ⊆ list_to_set (seqZ 0 (totalBlocks_ p))).
  { intros i [x Hx]%elem_of_dom. apply elem_of_list_to_set, elem_of_seqZ.
    pose proof (ok_live _ Hok _ _ Hx). lia. }
  apply subseteq_size in Hsub. rewrite size_dom, size_list_to_set in Hsub.
  - rewrite length_seqZ in Hsub. destruct Hok. lia.
  - apply NoDup_seqZ.
Qed.

(** A pool with a free block has an index that is not live. *)
Lemma exists_free p :
  Z.of_nat (size (live p)) < totalBlocks_ p ->
  exists j, 0 <= j < totalBlocks_ p /\ live p !! j = None.
Proof.
  intros Hlt.
  destruct (decide (Exists (fun j => live p !! j = None) (seqZ 0 (totalBlocks_ p))))
    as [(j & Hj & Hn)%Exists_exists|Hno].
  - apply elem_of_seqZ in Hj. exists j. split; [lia|done].
  - exfalso.
    assert (Hsub : list_to_set (seqZ 0 (totalBlocks_ p)) ⊆ dom (live p)).
    { intros j Hj%elem_of_list_to_set. apply elem_of_dom, not_eq_None_Some.
      intros Hn. apply Hno, Exists_exists. eauto. }
    apply subseteq_size in Hsub. rewrite size_dom, size_list_to_set in Hsub.
    + rewrite length_seqZ in Hsub. lia.
    + apply NoDup_seqZ.
Qed.

(** The scan stops at the first free block at distance [d] of its start. *)
Lemma scanFree_finds fuel : forall k d start p,
  (forall i, isFree (block p i) = bool_decide (live p !! i = None)) ->
  0 < totalBlocks_ p < 2 ^ 64 ->
  nextFreeIndex_ p = (start + k) mod totalBlocks_ p ->
  0 <= start < totalBlocks_ p ->
  0 <= k < d -> d < totalBlocks_ p -> d - k <= Z.of_nat fuel ->
  live p !! ((start + d) mod totalBlocks_ p) = None ->
  exists i, scanFree fuel start p = Ok (set_nextFree i p) /\
            0 <= i < totalBlocks_ p /\ live p !! i = None.
Proof.
  induction fuel as [|fuel IH]; intros k d start p Hfl Hsz Hnx Hst Hk Hd Hfu Hlv; [lia|].
  assert (Hu : u64 (nextFreeIndex_ p + 1) mod totalBlocks_ p
               = (start + (k + 1)) mod totalBlocks_ p).
  { assert (0 <= nextFreeIndex_ p < totalBlocks_ p)
      by (rewrite Hnx; apply Z.mod_pos_bound; lia).
    rewrite wrapU_small by lia. rewrite Hnx, Zplus_mod_idemp_l. f_equal. lia. }
  cbn [scanFree]. rewrite Hu.
  set (i := (start + (k + 1)) mod totalBlocks_ p).
  assert (Hi : 0 <= i < totalBlocks_ p) by (apply Z.mod_pos_bound; lia).
  change (block (set_nextFree i p) i) with (block p i). rewrite Hfl.
  case_bool_decide as Hfree; [by exists i|].
  destruct (decide (k + 1 = d)) as [<-|Hne]; [done|].
  assert (Hns : i <> start).
  { unfold i. intros Heq. destruct (decide (start + (k + 1) < totalBlocks_ p)) as [Hlt|Hge].
    - rewrite Z.mod_small in Heq by lia. lia.
    - rewrite (Z.mod_eq _ (totalBlocks_ p)) in Heq by lia.
      assert ((start + (k + 1)) / totalBlocks_ p = 1).
      { symmetry. apply Z.div_unique with (start + (k + 1) - totalBlocks_ p); lia. }
      lia. }
  apply Z.eqb_neq in Hns. rewrite Hns.
  apply (IH (k + 1) d start (set_nextFree i p)); cbn; try done; lia.
Qed.

(** updateNextFreeIndex terminates and lands on a free block. *)
Lemma updateNextFreeIndex_spec p :
  (forall i, isFree (block p i) = bool_decide (live p !! i = None)) ->
  0 < totalBlocks_ p < 2 ^ 64 -> 0 <= nextFreeIndex_ p < totalBlocks_ p ->
  (exists j, 0 <= j < totalBlocks_ p /\ live p !! j = None) ->
  exists i, updateNextFreeIndex p = Ok (tt, set_nextFree i p) /\
            0 <= i < totalBlocks_ p /\ live p !! i = None.
Proof.
  intros Hfl Hsz Hnx (j & Hj & Hlj). unfold updateNextFreeIndex. rewrite Hfl.
  case_bool_decide as Hcur.
  { exists (nextFreeIndex_ p). by destruct p. }
  set (n := totalBlocks_ p) in *. set (st := nextFreeIndex_ p) in *.
  set (d := (j - st) mod n).
  assert (Hd : 0 <= d < n) by (apply Z.mod_pos_bound; lia).
  assert (Hjd : (st + d) mod n = j).
  { unfold d. rewrite Zplus_mod_idemp_r. rewrite Z.mod_small by lia. lia. }
  assert (d <> 0).
  { intros H0. rewrite H0, Z.add_0_r, Z.mod_small in Hjd by lia. congruence. }
  edestruct (scanFree_finds (Z.to_nat n) 0 d st p) as (i & -> & Hi & Hli);
    [done|done| |done|lia|lia|lia|by fold n; rewrite Hjd|by exists i].
  fold n st. by rewrite Z.add_0_r, Z.mod_small.
Qed.

Lemma block_set_block i b p j :
  block (set_block i b p) j = if decide (i = j) then b else block p j.
Proof. unfold block. cbn. rewrite lookup_insert. by case_decide. Qed.

End Facts.

(** ** The operations on the abstract heap *)
Section Specs.
Context {T : Type}.
Implicit Types (p : MemoryPool T) (i : Z) (x : T).

Lemma construct_ok size :
  0 < size < 2 ^ 64 ->
  exists p, construct (T:=T) size = Ok p /\ pool_ok p /\ live p = ∅ /\
            totalBlocks_ p = size /\ freeBlocksCount_ p = size.
Proof.
  intros Hs. unfold construct. destruct (Z.ltb_spec 0 size); [|lia].
  eexists. split; [done|]. unfold live. cbn. rewrite omap_empty.
  split; [|done]. split; cbn; unfold live; cbn; rewrite ?omap_empty; try done; try lia.
  rewrite map_size_empty. lia.
Qed.

Lemma allocate_full x p :
  freeBlocksCount_ p = 0 -> allocate x p = Ok (None, p).
Proof. intros H. unfold allocate, mbind, M_bind, get. by rewrite H. Qed.

(** Allocation adds one fresh object to the abstract heap. *)
Lemma allocate_fresh x p :
  pool_ok p -> 0 < freeBlocksCount_ p ->
  let i := nextFreeIndex_ p in
  exists p', allocate x p = Ok (Some i, p') /\ pool_ok p' /\
    live p !! i = None /\ live p' = <[i := x]> (live p) /\
    totalBlocks_ p' = totalBlocks_ p /\
    freeBlocksCount_ p' = freeBlocksCount_ p - 1.
Proof.
  intros Hok Hf. cbn zeta. pose proof Hok as [Hsz Hnx Hfl Hlv Hct Hfr].
  pose proof (Hfr Hf) as Hni. pose proof (pool_size_bound p Hok).
  set (p1 := set_freeCount (u64 (freeBlocksCount_ p - 1))
               (set_block (nextFreeIndex_ p) (mkBlock (Some x) false) p)).
  assert (Hl1 : live p1 = <[nextFreeIndex_ p := x]> (live p)) by apply live_set_some.
  assert (Hc1 : freeBlocksCount_ p1 = freeBlocksCount_ p - 1).
  { cbn. apply wrapU_small. lia. }
  assert (Hs1 : Z.of_nat (size (live p1)) = Z.of_nat (size (live p)) + 1).
  { rewrite Hl1, map_size_insert_None by done. lia. }
  assert (Hf1 : forall j b, memoryBlocks_ p1 !! j = Some b ->
                  isFree b = bool_decide (storage b = None)).
  { cbn. intros j b. rewrite lookup_insert. case_decide; [|apply Hfl]. by intros [= <-]. }
  assert (Hv1 : forall j y, live p1 !! j = Some y -> 0 <= j < totalBlocks_ p1).
  { intros j y. rewrite Hl1, lookup_insert. case_decide; [by intros _; subst|apply Hlv]. }
  unfold allocate, mbind, M_bind, get, require, modify, gets, mret, M_ret.
  destruct (Z.eqb_spec (freeBlocksCount_ p) 0); [lia|].
  unfold in_range. destruct (Z.leb_spec 0 (nextFreeIndex_ p)); [|lia].
  destruct (Z.ltb_spec (nextFreeIndex_ p) (totalBlocks_ p)); [|lia]. cbn.
  rewrite (isFree_live p _ Hok), bool_decide_true by done. fold p1.
  rewrite wrapU_small by lia.
  destruct (Z.ltb_spec 0 (freeBlocksCount_ p - 1)) as [Hpos|Hz].
  - assert (Hok0 : forall j, isFree (block p1 j) = bool_decide (live p1 !! j = None)).
    { intros j. rewrite lookup_live. unfold block.
      destruct (memoryBlocks_ p1 !! j) as [b|] eqn:E; [by apply (Hf1 j)|done]. }
    destruct (updateNextFreeIndex_spec p1) as (i & Hup & Hi & Hli); [done|done|done| |].
    { apply exists_free. rewrite Hs1. cbn. lia. }
    rewrite Hup. eexists. split; [done|].
    rewrite live_set_nextFree, Hl1. split; [|done].
    assert (Hlp : live (set_nextFree i p1) = live p1) by done.
    assert (Ht1 : totalBlocks_ p1 = totalBlocks_ p) by done.
    split; rewrite ?Hlp; try done; cbn -[p1]; rewrite ?Ht1; lia.
  - eexists. split; [done|]. split; [|done].
    assert (Ht1 : totalBlocks_ p1 = totalBlocks_ p) by done.
    split; try done; rewrite ?Ht1; lia.
Qed.

(** Deallocation removes exactly the object pointed to, and the next
    allocation reuses its block. *)
Lemma deallocate_live i x p :
  pool_ok p -> live p !! i = Some x ->
  exists p', deallocate i p = Ok (tt, p') /\ pool_ok p' /\
    live p' = delete i (live p) /\
    totalBlocks_ p' = totalBlocks_ p /\
    freeBlocksCount_ p' = freeBlocksCount_ p + 1 /\ nextFreeIndex_ p' = i.
Proof.
  intros Hok Hx. pose proof Hok as [Hsz Hnx Hfl Hlv Hct Hfr].
  pose proof (Hlv _ _ Hx) as Hi. pose proof (pool_size_bound p Hok).
  assert (Hsd : Z.of_nat (size (delete i (live p))) = Z.of_nat (size (live p)) - 1).
  { rewrite map_size_delete_Some by eauto.
    assert (size (live p) <> 0%nat) by (intros He; apply map_size_empty_inv in He;
      by rewrite He in Hx). lia. }
  pose proof (live_set_none i true p) as Hl1.
  unfold deallocate, mbind, M_bind, get, require, modify, mret, M_ret.
  unfold in_range. destruct (Z.leb_spec 0 i); [|lia].
  destruct (Z.ltb_spec i (totalBlocks_ p)); [|lia]. cbn.
  rewrite (isFree_live p _ Hok), bool_decide_false by congruence. cbn.
  rewrite wrapU_small by lia.
  eexists. split; [done|]. split; [|by cbn].
  split; cbn; try done; unfold live; cbn; change (omap storage _) with (live (set_block i (mkBlock None true) p)); rewrite ?Hl1; try lia.
  - intros j b. rewrite lookup_insert. case_decide; [|apply Hfl]. by intros [= <-].
  - intros j y. rewrite lookup_delete. case_decide; [done|apply Hlv].
  - intros _. by rewrite lookup_delete_eq.
Qed.

Lemma load_live i x p (Q : T -> MemoryPool T -> Prop) :
  live p !! i = Some x -> Q x p -> wp (load i) Q p.
Proof.
  intros Hx HQ. unfold load. wp_steps. rewrite lookup_live in Hx. by rewrite Hx.
Qed.

Lemma load_dead i p : live p !! i = None -> faults (load i) p DanglingDeref.
Proof.
  intros Hx. unfold load, faults, mbind, M_bind, get. rewrite lookup_live in Hx.
  by rewrite Hx.
Qed.

(** [update] is total on live objects; its effect on the heap is [alter]. *)
Definition updated i (f : T -> T) p : MemoryPool T :=
  match live p !! i with
  | Some x => set_block i (mkBlock (Some (f x)) false) p
  | None => p
  end.

Lemma update_live i f p (Q : unit -> MemoryPool T -> Prop) :
  is_Some (live p !! i) -> Q tt (updated i f p) -> wp (update i f) Q p.
Proof.
  intros [x Hx] HQ. unfold update. wp_step. apply (load_live _ x); [done|].
  wp_steps. unfold updated in HQ. by rewrite Hx in HQ.
Qed.

Lemma live_updated i f p : live (updated i f p) = alter f i (live p).
Proof.
  unfold updated. destruct (live p !! i) as [x|] eqn:Hx.
  - rewrite live_set_some. apply map_eq. intros j.
    rewrite lookup_insert, lookup_alter. case_decide; subst; [by rewrite Hx|done].
  - apply map_eq. intros j. rewrite lookup_alter. case_decide; subst; [by rewrite Hx|done].
Qed.

Lemma updated_fields i f p :
  totalBlocks_ (updated i f p) = totalBlocks_ p /\
  freeBlocksCount_ (updated i f p) = freeBlocksCount_ p /\
  nextFreeIndex_ (updated i f p) = nextFreeIndex_ p.
Proof. unfold updated. by destruct (live p !! i). Qed.

Lemma pool_ok_updated i f p : pool_ok p -> pool_ok (updated i f p).
Proof.
  intros Hok. pose proof Hok as [Hsz Hnx Hfl Hlv Hct Hfr].
  destruct (updated_fields i f p) as (Ht & Hf & Hn).
  assert (Hd : dom (live (updated i f p)) = dom (live p)) by (rewrite live_updated; apply dom_alter_L).
  split; rewrite ?Ht, ?Hf, ?Hn; try done.
  - intros j b. unfold updated. destruct (live p !! i) as [x|]; [|apply Hfl].
    cbn. rewrite lookup_insert. case_decide; [|apply Hfl]. by intros [= <-].
  - intros j y Hj. apply elem_of_dom_2 in Hj. rewrite Hd in Hj.
    apply elem_of_dom in Hj as [z Hz]. by apply Hlv in Hz.
  - rewrite <- !size_dom, Hd, size_dom. done.
  - intros Hp. apply not_elem_of_dom. rewrite Hd. by apply not_elem_of_dom, Hfr.
Qed.

End Specs.

Arguments updated : simpl never.
Arguments live : simpl never.
#[export] Hint Resolve pool_ok_updated : hft.
#[export] Hint Rewrite @live_updated : hft_live.

(** ** The contract of a fixed-capacity allocator

    The abstract state is the heap of live objects; a call either allocates at
    some address that is not live, or reports exhaustion, which it may do only
    when every block is in use, or ends the lifetime of a live object. *)
Section Refinement.
Context {T : Type}.
Implicit Types (p : MemoryPool T) (h : gmap Z T).

Inductive pool_call := CAlloc (x : T) | CFree (i : Z).
Inductive pool_ret := RPtr (q : ptr) | RUnit.

Definition run_call (c : pool_call) : M (MemoryPool T) pool_ret :=
  match c with
  | CAlloc x => q ← allocate x; mret (RPtr q)
  | CFree i => deallocate i;; mret RUnit
  end.

Inductive alloc_spec (cap : Z) : gmap Z T -> pool_call -> pool_ret -> gmap Z T -> Prop :=
  | spec_alloc h x i :
      h !! i = None -> 0 <= i < cap -> Z.of_nat (size h) < cap ->
      alloc_spec cap h (CAlloc x) (RPtr (Some i)) (<[i := x]> h)
  | spec_full h x :
      Z.of_nat (size h) = cap -> alloc_spec cap h (CAlloc x) (RPtr None) h
  | spec_free h i x :
      h !! i = Some x -> alloc_spec cap h (CFree i) RUnit (delete i h).

(** A client obeys the contract when it frees only live objects. *)
Definition call_enabled h (c : pool_call) : Prop :=
  match c with
  | CAlloc _ => True
  | CFree i => is_Some (h !! i)
  end.

Lemma run_call_refines c p :
  pool_ok p -> call_enabled (live p) c ->
  exists r p', run_call c p = Ok (r, p') /\ pool_ok p' /\
    totalBlocks_ p' = totalBlocks_ p /\
    alloc_spec (totalBlocks_ p) (live p) c r (live p').
Proof.
  intros Hok Hen. pose proof (pool_size_bound p Hok). pose proof (ok_count p Hok) as Hc.
  destruct c as [x|i]; cbn [run_call].
  - destruct (decide (freeBlocksCount_ p = 0)) as [Hz|Hnz].
    + exists (RPtr None), p. unfold mbind, M_bind. rewrite allocate_full by done.
      split_and!; try done. constructor. lia.
    + destruct (allocate_fresh x p Hok ltac:(lia)) as (p' & Ha & Hok' & Hn & Hl & Ht & _).
      exists (RPtr (Some (nextFreeIndex_ p))), p'. unfold mbind, M_bind. rewrite Ha, Hl.
      split_and!; try done. constructor; [done|apply Hok|lia].
  - destruct Hen as [x Hx].
    destruct (deallocate_live i x p Hok Hx) as (p' & Ha & Hok' & Hl & Ht & _).
    exists RUnit, p'. unfold mbind, M_bind. rewrite Ha, Hl.
    split_and!; try done. by econstructor.
Qed.

(** Runs of a list of calls, concrete and abstract. *)
Fixpoint run_calls (cs : list pool_call) : M (MemoryPool T) (list pool_ret) :=
  match cs with
  | [] => mret []
  | c :: cs => r ← run_call c; rs ← run_calls cs; mret (r :: rs)
  end.

Inductive spec_run (cap : Z) : gmap Z T -> list pool_call -> list pool_ret -> gmap Z T -> Prop :=
  | spec_run_nil h : spec_run cap h [] [] h
  | spec_run_cons h c r h' cs rs h'' :
      alloc_spec cap h c r h' -> spec_run cap h' cs rs h'' ->
      spec_run cap h (c :: cs) (r :: rs) h''.

(** A list of calls frees only what is live at that point of the run. *)
Fixpoint client_ok (cs : list pool_call) p : Prop :=
  match cs with
  | [] => True
  | c :: cs =>
      call_enabled (live p) c /\
      match run_call c p with
      | Ok (_, p') => client_ok cs p'
      | Err _ => False
      end
  end.

(** C11. Starting from the constructor, every sequence of allocations and
    deallocations of live objects runs without an assertion failure or
    undefined behaviour, and its results are those of the abstract
    allocator: fresh addresses while a block is free, nullptr exactly when
    all blocks are in use. *)
Theorem pool_refines_allocator size cs :
  0 < size < 2 ^ 64 ->
  exists p0, construct size = Ok p0 /\
    (client_ok cs p0 ->
     exists rs p', run_calls cs p0 = Ok (rs, p') /\ pool_ok p' /\
       spec_run size ∅ cs rs (live p')).
Proof.
  intros Hs. destruct (construct_ok (T:=T) size Hs) as (p0 & -> & Hok & Hl & Ht & _).
  exists p0. split; [done|]. rewrite <- Hl, <- Ht. clear Hl Ht Hs.
  revert p0 Hok. induction cs as [|c cs IH]; intros p Hok.
  - intros _. exists [], p. split_and!; [done|done|constructor].
  - intros [Hen Hcl]. destruct (run_call_refines c p Hok Hen) as (r & p1 & Hr & Hok1 & Ht & Hsp).
    rewrite Hr in Hcl. destruct (IH p1 Hok1 Hcl) as (rs & p' & Hrs & Hok' & Hrun).
    exists (r :: rs), p'. cbn [run_calls]. unfold mbind, M_bind. rewrite Hr, Hrs.
    split_and!; [done|done|]. rewrite Ht in Hrun. by econstructor.
Qed.

(** Deallocation undoes the most recent allocation state: the freed block is
    the one the next allocation returns, holding the new object, and every
    other live object is untouched. *)
Theorem pool_reuses_freed_block i x y p :
  pool_ok p -> live p !! i = Some x ->
  exists p1 p2, deallocate i p = Ok (tt, p1) /\ live p1 !! i = None /\
    allocate y p1 = Ok (Some i, p2) /\ live p2 = <[i := y]> (live p) /\
    freeBlocksCount_ p2 = freeBlocksCount_ p.
Proof.
  intros Hok Hx. pose proof (pool_size_bound p Hok). pose proof (ok_count p Hok).
  destruct (deallocate_live i x p Hok Hx) as (p1 & H1 & Hok1 & Hl1 & _ & Hc1 & Hn1).
  destruct (allocate_fresh y p1 Hok1 ltac:(lia)) as (p2 & H2 & _ & _ & Hl2 & _ & Hc2).
  exists p1, p2. rewrite Hn1 in *. split_and!; try done.
  - by rewrite Hl1, lookup_delete_eq.
  - by rewrite Hl2, Hl1, insert_delete_eq.
  - lia.
Qed.

(** A pointer whose object is not live (a double free, a foreign pointer) is
    caught by an assertion before the pool is changed. *)
Theorem pool_rejects_dead_pointer i p :
  pool_ok p -> live p !! i = None -> faults (deallocate i) p AssertFailed.
Proof.
  intros Hok Hx. unfold faults, deallocate, mbind, M_bind, get, require.
  destruct (in_range p i); [|done]. cbn.
  by rewrite (isFree_live p _ Hok), bool_decide_true.
Qed.

End Refinement.
Arguments pool_call T : clear implicits.

(** *** Witnesses *)
Example pool_refines_allocator_witness :
  exists p0, construct 2 = Ok p0 /\
    exists rs p', run_calls [CAlloc 10; CAlloc 20; CAlloc 30; CFree 0; CAlloc 40] p0 = Ok (rs, p')
      /\ pool_ok p'
      /\ spec_run 2 ∅ [CAlloc 10; CAlloc 20; CAlloc 30; CFree 0; CAlloc 40] rs (live p').
Proof.
  destruct (pool_refines_allocator 2 [CAlloc 10; CAlloc 20; CAlloc 30; CFree 0; CAlloc 40])
    as (p0 & Hp & Hrun); [lia|].
  exists p0. split; [done|]. apply Hrun.
  injection Hp as <-. vm_compute. eauto 20.
Defined.

(** A pool of two blocks with one object in block 0. *)
Definition demo_pool : MemoryPool Z :=
  mkPool {[0 := mkBlock (Some 7) false]} 2 1 1 0.

Lemma demo_pool_ok : pool_ok demo_pool.
Proof.
  split; cbn; try lia.
  - intros i b. rewrite lookup_singleton. case_decide; [|done]. by intros [= <-].
  - intros i x. unfold live. cbn. rewrite lookup_omap, lookup_singleton.
    case_decide; [|done]. intros _. lia.
  - done.
  - done.
Qed.

Example pool_reuses_freed_block_witness :
  exists p1 p2, deallocate 0 demo_pool = Ok (tt, p1) /\ live p1 !! 0 = None /\
    allocate 9 p1 = Ok (Some 0, p2) /\ live p2 = <[0 := 9]> (live demo_pool) /\
    freeBlocksCount_ p2 = freeBlocksCount_ demo_pool.
Proof. apply (pool_reuses_freed_block 0 7 9 demo_pool demo_pool_ok). reflexivity. Defined.

Example pool_rejects_dead_pointer_witness : faults (deallocate 1) demo_pool AssertFailed.
Proof. apply (pool_rejects_dead_pointer 1 demo_pool demo_pool_ok). reflexivity. Defined.
