(* ===== verification/LFQueue.v ===== *)
(** The bounded queue of src/src/lib/lock_free_queue.h.

    First the queue as one thread sees it: every operation, the representation
    invariant and the refinement to a bounded FIFO list.  Then the same
    operations cut at their atomic accesses and interleaved: with one producer
    and one consumer the queue is FIFO and the two never use one slot at the same
    time; with two producers it is not.  Here every load sees the last store;
    LFQueueOrders.v adds the memory orders.

    The vector queue_ is a sparse map over its default-constructed elements. *)

From S2P Require Import Prelude.

(** ** Data and operations *)
Record LFQueue (T : Type) := mkQueue {
  nextIndexToRead_ : Z;
  nextIndexToWrite_ : Z;
  numElements_ : Z;
  queue_ : gmap Z T;
  capacity_ : Z;  (* queue_.size() *)
}.
Arguments mkQueue {T} _ _ _ _ _.
Arguments nextIndexToRead_ {T} _.
Arguments nextIndexToWrite_ {T} _.
Arguments numElements_ {T} _.
Arguments queue_ {T} _.
Arguments capacity_ {T} _.

Section Operations.
Context {T : Type} `{Default T}.
Implicit Types (q : LFQueue T) (v : T).

Definition newQueue (size : Z) : LFQueue T := mkQueue 0 0 0 ∅ size.

(** queue_[i]: the default-constructed element until it is written. *)
Definition slot q (i : Z) : T := default dflt (queue_ q !! i).

Definition setSlot (i : Z) v q : LFQueue T :=
  mkQueue (nextIndexToRead_ q) (nextIndexToWrite_ q) (numElements_ q)
          (<[i := v]> (queue_ q)) (capacity_ q).
Definition setRead (i : Z) q : LFQueue T :=
  mkQueue i (nextIndexToWrite_ q) (numElements_ q) (queue_ q) (capacity_ q).
Definition setWrite (i : Z) q : LFQueue T :=
  mkQueue (nextIndexToRead_ q) i (numElements_ q) (queue_ q) (capacity_ q).
Definition setNum (n : Z) q : LFQueue T :=
  mkQueue (nextIndexToRead_ q) (nextIndexToWrite_ q) n (queue_ q) (capacity_ q).

Definition size q : Z := numElements_ q.

(** (i + 1) % queue_.size() on size_t. *)
Definition nextIndex q (i : Z) : Z := u64 (i + 1) mod capacity_ q.

Definition getNextToWrite q : ptr :=
  if numElements_ q <? capacity_ q then Some (nextIndexToWrite_ q) else None.

Definition getNextToRead q : ptr :=
  if 0 <? numElements_ q then Some (nextIndexToRead_ q) else None.

Definition updateWriteIndex : M (LFQueue T) unit :=
  q ← get;
  require (negb (capacity_ q =? 0)) DivByZero;;
  modify (setWrite (nextIndex q (nextIndexToWrite_ q)));;
  modify (setNum (u64 (numElements_ q + 1))).

Definition updateReadIndex : M (LFQueue T) unit :=
  q ← get;
  require (0 <? numElements_ q) AssertFailed;;
  require (negb (capacity_ q =? 0)) DivByZero;;
  modify (setRead (nextIndex q (nextIndexToRead_ q)));;
  modify (setNum (u64 (numElements_ q - 1))).

Definition push v : M (LFQueue T) bool :=
  q ← get;
  match getNextToWrite q with
  | None => mret false
  | Some i => modify (setSlot i v);; updateWriteIndex;; mret true
  end.

Definition pop : M (LFQueue T) (option T) :=
  q ← get;
  match getNextToRead q with
  | None => mret None
  | Some i => let v := slot q i in updateReadIndex;; mret (Some v)
  end.

(** ** Representation *)
Definition contents q : list T :=
  (fun k => slot q ((nextIndexToRead_ q + k) mod capacity_ q)) <$> seqZ 0 (numElements_ q).

Record queue_ok q : Prop := {
  qok_cap : 0 <= capacity_ q < 2 ^ 64;
  qok_num : 0 <= numElements_ q <= capacity_ q;
  qok_read : capacity_ q <> 0 -> 0 <= nextIndexToRead_ q < capacity_ q;
  qok_write : capacity_ q <> 0 ->
    nextIndexToWrite_ q = (nextIndexToRead_ q + numElements_ q) mod capacity_ q;
}.

End Operations.

Section Facts.
Context {T : Type} `{Default T}.
Implicit Types (q : LFQueue T) (v : T).

Lemma mod_inj_window c a j k :
  0 < c -> 0 <= j < c -> 0 <= k < c -> (a + j) mod c = (a + k) mod c -> j = k.
Proof.
  intros Hc Hj Hk Heq.
  assert (Hd : (j - k) mod c = 0).
  { replace (j - k) with ((a + j) - (a + k)) by lia.
    rewrite Zminus_mod, Heq, Z.sub_diag. by rewrite Zmod_0_l. }
  destruct (Z_lt_le_dec j k).
  - replace (j - k) with (- (k - j)) in Hd by lia.
    rewrite Z.mod_opp_l_nz in Hd; rewrite ?(Z.mod_small (k - j)) in * by lia; lia.
  - rewrite Z.mod_small in Hd by lia. lia.
Qed.

Lemma slot_setSlot i v q j : slot (setSlot i v q) j = if decide (i = j) then v else slot q j.
Proof. unfold slot. cbn. rewrite lookup_insert. by case_decide. Qed.

Lemma nextIndex_mod q i :
  0 < capacity_ q < 2 ^ 64 -> 0 <= i < capacity_ q -> nextIndex q i = (i + 1) mod capacity_ q.
Proof. intros Hc Hi. unfold nextIndex. rewrite wrapU_small by lia. done. Qed.

Lemma length_contents q : queue_ok q -> Z.of_nat (length (contents q)) = numElements_ q.
Proof. intros Hq. unfold contents. rewrite length_fmap, length_seqZ. destruct Hq. lia. Qed.

Lemma newQueue_ok n : 0 <= n < 2 ^ 64 -> queue_ok (newQueue (T:=T) n).
Proof.
  intros Hn. split; cbn; try done; lia.
Qed.

Lemma seqZ_snoc n : 0 <= n -> seqZ 0 (n + 1) = seqZ 0 n ++ [n].
Proof. intros Hn. rewrite seqZ_app by lia. cbn. by rewrite Z.add_0_l. Qed.

Lemma push_room v q :
  queue_ok q -> numElements_ q < capacity_ q ->
  exists q', push v q = Ok (true, q') /\ queue_ok q' /\
    contents q' = contents q ++ [v] /\ capacity_ q' = capacity_ q.
Proof.
  intros Hq Hlt. pose proof Hq as [Hc Hn Hr Hw].
  assert (Hcz : capacity_ q <> 0) by lia. specialize (Hr Hcz). specialize (Hw Hcz).
  assert (Hwr : 0 <= nextIndexToWrite_ q < capacity_ q) by (rewrite Hw; apply Z.mod_pos_bound; lia).
  unfold push, updateWriteIndex, mbind, M_bind, get, modify, require, getNextToWrite, mret, M_ret.
  destruct (Z.ltb_spec (numElements_ q) (capacity_ q)); [|lia]. cbn.
  destruct (Z.eqb_spec (capacity_ q) 0); [done|]. cbn.
  eexists. split; [done|]. split; [|split; [|done]].
  - split; cbn; try done; rewrite wrapU_small by lia; [lia|].
    intros _. change (nextIndex _ _) with (nextIndex q (nextIndexToWrite_ q)).
    rewrite nextIndex_mod by lia. rewrite Hw, Zplus_mod_idemp_l. f_equal. lia.
  - unfold contents. cbn. rewrite wrapU_small by lia. rewrite seqZ_snoc by lia.
    rewrite fmap_app. cbn. f_equal.
    + apply list_fmap_ext. intros j k Hk. apply lookup_seqZ in Hk as [-> Hk].
      unfold slot. cbn. rewrite lookup_insert_ne; [done|]. rewrite Hw.
      intros Heq%mod_inj_window; lia.
    + unfold slot. cbn. by rewrite <- Hw, lookup_insert_eq.
Qed.

Lemma push_full v q :
  numElements_ q = capacity_ q -> push v q = Ok (false, q).
Proof.
  intros He. unfold push, mbind, M_bind, get, getNextToWrite.
  destruct (Z.ltb_spec (numElements_ q) (capacity_ q)); [lia|done].
Qed.

Lemma contents_cons q :
  queue_ok q -> 0 < numElements_ q ->
  contents q = slot q (nextIndexToRead_ q) ::
    ((fun k => slot q ((nextIndexToRead_ q + (1 + k)) mod capacity_ q))
       <$> seqZ 0 (numElements_ q - 1)).
Proof.
  intros Hq Hp. pose proof Hq as [Hc Hn Hr Hw]. unfold contents.
  rewrite seqZ_cons by lia. cbn. f_equal.
  - f_equal. rewrite Z.add_0_r, Z.mod_small; [done|]. apply Hr. lia.
  - rewrite <- (fmap_add_seqZ 1 0), <- list_fmap_compose.
    replace (Z.pred (numElements_ q)) with (numElements_ q - 1) by lia. done.
Qed.

Lemma updateReadIndex_spec q :
  queue_ok q -> 0 < numElements_ q ->
  exists q', updateReadIndex q = Ok (tt, q') /\ queue_ok q' /\
    contents q = slot q (nextIndexToRead_ q) :: contents q' /\ capacity_ q' = capacity_ q.
Proof.
  intros Hq Hp. pose proof Hq as [Hc Hn Hr Hw].
  assert (Hcz : capacity_ q <> 0) by lia. specialize (Hr Hcz). specialize (Hw Hcz).
  unfold updateReadIndex, mbind, M_bind, get, modify, require, mret, M_ret.
  destruct (Z.ltb_spec 0 (numElements_ q)); [|lia]. cbn.
  destruct (Z.eqb_spec (capacity_ q) 0); [done|]. cbn.
  rewrite nextIndex_mod by lia. rewrite wrapU_small by lia.
  eexists. split; [done|]. split; [|split; [|done]].
  - split; cbn; try done; try lia.
    + intros _. apply Z.mod_pos_bound. lia.
    + intros _. rewrite Zplus_mod_idemp_l. rewrite Hw. f_equal. lia.
  - rewrite contents_cons by done. f_equal. unfold contents. cbn.
    apply list_fmap_ext. intros j k _. unfold slot. cbn.
    rewrite Zplus_mod_idemp_l. do 3 f_equal. lia.
Qed.

Lemma pop_nonempty q :
  queue_ok q -> 0 < numElements_ q ->
  exists v q', pop q = Ok (Some v, q') /\ queue_ok q' /\
    contents q = v :: contents q' /\ capacity_ q' = capacity_ q.
Proof.
  intros Hq Hp. destruct (updateReadIndex_spec q Hq Hp) as (q' & Hu & Hok & Hco & Hca).
  exists (slot q (nextIndexToRead_ q)), q'. unfold pop, mbind, M_bind, get, getNextToRead.
  destruct (Z.ltb_spec 0 (numElements_ q)); [|lia]. by rewrite Hu.
Qed.

Lemma pop_empty q : numElements_ q = 0 -> pop q = Ok (None, q).
Proof. intros He. unfold pop, mbind, M_bind, get, getNextToRead. by rewrite He. Qed.

End Facts.

(** ** Refinement to a bounded FIFO list *)
Section Fifo.
Context {T : Type} `{Default T}.
Implicit Types (q : LFQueue T) (v : T) (l : list T).

Definition fifo_push (cap : Z) v l : bool * list T :=
  if Z.of_nat (length l) <? cap then (true, l ++ [v]) else (false, l).

Definition fifo_pop l : option T * list T :=
  match l with
  | [] => (None, [])
  | v :: l => (Some v, l)
  end.

Lemma push_spec v q :
  queue_ok q ->
  exists q', push v q = Ok ((fifo_push (capacity_ q) v (contents q)).1, q') /\
    queue_ok q' /\ capacity_ q' = capacity_ q /\
    contents q' = (fifo_push (capacity_ q) v (contents q)).2.
Proof.
  intros Hq. unfold fifo_push. rewrite length_contents by done.
  destruct (Z.ltb_spec (numElements_ q) (capacity_ q)).
  - destruct (push_room v q Hq) as (q' & ? & ? & ? & ?); [done|]. by exists q'.
  - exists q. destruct Hq. rewrite push_full by lia. by split_and!.
Qed.

Lemma pop_spec q :
  queue_ok q ->
  exists q', pop q = Ok ((fifo_pop (contents q)).1, q') /\
    queue_ok q' /\ capacity_ q' = capacity_ q /\ contents q' = (fifo_pop (contents q)).2.
Proof.
  intros Hq. pose proof (length_contents q Hq) as Hlen.
  destruct (decide (numElements_ q = 0)) as [Hz|Hnz].
  - exists q. rewrite pop_empty by done. destruct (contents q); [done|cbn in Hlen; lia].
  - destruct (pop_nonempty q Hq) as (v & q' & ? & ? & -> & ?); [destruct Hq; lia|]. by exists q'.
Qed.

(** The calls a client makes, and what they return. *)
Inductive queue_call := QPush (v : T) | QPop | QSize.
Inductive queue_ret := RBool (b : bool) | RVal (o : option T) | RSize (n : Z).

Definition run_qcall (c : queue_call) : M (LFQueue T) queue_ret :=
  match c with
  | QPush v => b ← push v; mret (RBool b)
  | QPop => o ← pop; mret (RVal o)
  | QSize => n ← gets size; mret (RSize n)
  end.

Fixpoint run_qcalls (cs : list queue_call) : M (LFQueue T) (list queue_ret) :=
  match cs with
  | [] => mret []
  | c :: cs => r ← run_qcall c; rs ← run_qcalls cs; mret (r :: rs)
  end.

Definition fifo_call (cap : Z) (c : queue_call) l : queue_ret * list T :=
  match c with
  | QPush v => let '(b, l') := fifo_push cap v l in (RBool b, l')
  | QPop => let '(o, l') := fifo_pop l in (RVal o, l')
  | QSize => (RSize (Z.of_nat (length l)), l)
  end.

Fixpoint fifo_calls (cap : Z) (cs : list queue_call) l : list queue_ret * list T :=
  match cs with
  | [] => ([], l)
  | c :: cs =>
      let '(r, l') := fifo_call cap c l in
      let '(rs, l'') := fifo_calls cap cs l' in (r :: rs, l'')
  end.

Lemma run_qcall_refines c q :
  queue_ok q ->
  exists q', run_qcall c q = Ok ((fifo_call (capacity_ q) c (contents q)).1, q') /\
    queue_ok q' /\ capacity_ q' = capacity_ q /\
    contents q' = (fifo_call (capacity_ q) c (contents q)).2.
Proof.
  intros Hq. destruct c as [v| |]; cbn [run_qcall fifo_call].
  - destruct (push_spec v q Hq) as (q' & Hp & Hok & Hc & Hl).
    destruct (fifo_push _ _ _) as [b l'] eqn:E. exists q'. unfold mbind, M_bind. by rewrite Hp.
  - destruct (pop_spec q Hq) as (q' & Hp & Hok & Hc & Hl).
    destruct (fifo_pop _) as [o l'] eqn:E. exists q'. unfold mbind, M_bind. by rewrite Hp.
  - exists q. unfold mbind, M_bind, gets. cbn. by rewrite length_contents.
Qed.

(** C12. From the constructor on, any sequence of push, pop and size calls made
    one after the other returns exactly what a FIFO list bounded by the
    capacity returns: push fails only when full, pop yields the oldest value
    and nullopt only when empty; no assertion fails, for every capacity
    including zero. *)
Theorem queue_refines_bounded_fifo cap cs :
  0 <= cap < 2 ^ 64 ->
  exists q', run_qcalls cs (newQueue cap) = Ok ((fifo_calls cap cs []).1, q') /\
    queue_ok q' /\ contents q' = (fifo_calls cap cs []).2.
Proof.
  intros Hc. pose proof (newQueue_ok (T:=T) cap Hc) as Hq.
  assert (Hcap : capacity_ (newQueue (T:=T) cap) = cap) by done.
  assert (Hl : contents (newQueue (T:=T) cap) = []) by done.
  revert Hq Hcap Hl. generalize (newQueue (T:=T) cap) as q. generalize (@nil T) as l.
  induction cs as [|c cs IH]; intros l q Hq Hcap Hl; [by exists q|].
  destruct (run_qcall_refines c q Hq) as (q1 & Hr & Hq1 & Hc1 & Hl1).
  rewrite Hcap, Hl in *. cbn [run_qcalls fifo_calls].
  destruct (fifo_call cap c l) as [r l1] eqn:E1. cbn in Hl1.
  destruct (IH l1 q1 Hq1 Hc1 Hl1) as (q' & Hr' & Hq' & Hl').
  destruct (fifo_calls cap cs l1) as [rs l2] eqn:E2.
  exists q'. unfold mbind, M_bind. by rewrite Hr, Hr'.
Qed.

End Fifo.
Arguments queue_call T : clear implicits.
Arguments queue_ret T : clear implicits.

(** ** Runs of pushes *)

(** What a bounded queue keeps of a sequence of pushes. *)
Definition kept {T} (cap : Z) (old new : list T) : list T :=
  old ++ take (Z.to_nat cap - length old) new.

Section Kept.
Context {T : Type} `{Default T}.

Lemma contents_bounded (q : LFQueue T) :
  queue_ok q -> (length (contents q) <= Z.to_nat (capacity_ q))%nat.
Proof. intros Hq. pose proof (length_contents q Hq). destruct Hq. lia. Qed.

Lemma kept_cons cap (old : list T) v (new : list T) :
  0 <= cap -> kept cap old (v :: new) = kept cap (fifo_push cap v old).2 new.
Proof.
  intros Hc. unfold kept, fifo_push. destruct (Z.ltb_spec (Z.of_nat (length old)) cap); cbn [snd].
  - rewrite length_app. cbn [length].
    replace (Z.to_nat cap - length old)%nat with (S (Z.to_nat cap - (length old + 1)))%nat by lia.
    cbn [take]. by rewrite <- app_assoc.
  - by replace (Z.to_nat cap - length old)%nat with 0%nat by lia.
Qed.

Lemma length_kept (q : LFQueue T) new :
  queue_ok q -> Z.of_nat (length (kept (capacity_ q) (contents q) new)) <= capacity_ q.
Proof.
  intros Hq. pose proof (contents_bounded q Hq). unfold kept. rewrite length_app, length_take.
  destruct Hq. lia.
Qed.

Lemma kept_nil cap (old : list T) : kept cap old [] = old.
Proof. unfold kept. by rewrite take_nil, app_nil_r. Qed.

Lemma kept_app cap (old n1 n2 : list T) :
  0 <= cap -> kept cap (kept cap old n1) n2 = kept cap old (n1 ++ n2).
Proof.
  intros Hc. revert old. induction n1 as [|v n1 IH]; intros old; [by rewrite kept_nil|].
  cbn [app]. by rewrite !kept_cons by done.
Qed.

(** Pushes refused by a queue that holds [old]. *)
Definition refused (cap : Z) (old new : list T) : nat :=
  (length new - (Z.to_nat cap - length old))%nat.

Lemma refused_cons cap (old : list T) v (new : list T) :
  0 <= cap ->
  refused cap old (v :: new) =
    ((if (fifo_push cap v old).1 then 0 else 1) + refused cap (fifo_push cap v old).2 new)%nat.
Proof.
  intros Hc. unfold refused, fifo_push.
  destruct (Z.ltb_spec (Z.of_nat (length old)) cap); cbn [fst snd]; rewrite ?length_app; cbn; lia.
Qed.

End Kept.

(** ** Producers and a consumer interleaved

    A push is cut at its atomic accesses: the load of numElements_, the load of
    nextIndexToWrite_ that gives the slot, the (non-atomic) write of the slot,
    the load and the store of nextIndexToWrite_, and the fetch_add.  A pop is
    cut in the same way.  A thread owns its program counter; the queue is
    shared. *)
Section Interleaving.
Context {T : Type} `{Default T}.
Implicit Types (q : LFQueue T) (v : T).

Inductive prod_pc :=
  | PIdle
  | PSlot (v : T)               (* the queue was not full *)
  | PWrite (v : T) (i : Z)      (* the slot pointer is &queue_[i] *)
  | PLoad (v : T)               (* the slot is written *)
  | PStore (v : T) (w : Z)      (* nextIndexToWrite_ was read as w *)
  | PAdd (v : T).               (* nextIndexToWrite_ is stored *)

Record producer := mkProducer {
  p_pc : prod_pc;
  p_todo : list T;       (* arguments of the pushes still to come *)
  p_sent : list T;       (* values whose push returned true *)
  p_refused : list T;    (* values whose push returned false *)
}.

Inductive cons_pc :=
  | CIdle
  | CSlot                       (* the queue was not empty *)
  | CRead (i : Z)               (* the element pointer is &queue_[i] *)
  | CAssert (v : T)             (* the value is copied *)
  | CLoad (v : T)               (* the assertion of updateReadIndex passed *)
  | CStore (v : T) (r : Z)
  | CSub (v : T).

Record consumer := mkConsumer {
  c_pc : cons_pc;
  c_got : list T;        (* values returned by pop, oldest first *)
}.

Record conf := mkConf {
  shared : LFQueue T;
  prods : list producer;
  cons : consumer;
}.

(** One atomic step of a producer; [None] when it has nothing to do. *)
Definition prod_step (p : producer) q : option (producer * LFQueue T) :=
  let 'mkProducer pc todo sent refused := p in
  match pc with
  | PIdle =>
      match todo with
      | [] => None
      | v :: todo' =>
          if numElements_ q <? capacity_ q
          then Some (mkProducer (PSlot v) todo' sent refused, q)
          else Some (mkProducer PIdle todo' sent (refused ++ [v]), q)
      end
  | PSlot v => Some (mkProducer (PWrite v (nextIndexToWrite_ q)) todo sent refused, q)
  | PWrite v i => Some (mkProducer (PLoad v) todo sent refused, setSlot i v q)
  | PLoad v => Some (mkProducer (PStore v (nextIndexToWrite_ q)) todo sent refused, q)
  | PStore v w => Some (mkProducer (PAdd v) todo sent refused, setWrite (nextIndex q w) q)
  | PAdd v =>
      Some (mkProducer PIdle todo (sent ++ [v]) refused, setNum (u64 (numElements_ q + 1)) q)
  end.

(** One atomic step of the consumer, which polls forever; the assertion of
    updateReadIndex can fail. *)
Definition cons_step (c : consumer) q : res (consumer * LFQueue T) :=
  let 'mkConsumer pc got := c in
  match pc with
  | CIdle =>
      if 0 <? numElements_ q then Ok (mkConsumer CSlot got, q) else Ok (mkConsumer CIdle got, q)
  | CSlot => Ok (mkConsumer (CRead (nextIndexToRead_ q)) got, q)
  | CRead i => Ok (mkConsumer (CAssert (slot q i)) got, q)
  | CAssert v =>
      if 0 <? numElements_ q then Ok (mkConsumer (CLoad v) got, q) else Err AssertFailed
  | CLoad v => Ok (mkConsumer (CStore v (nextIndexToRead_ q)) got, q)
  | CStore v r => Ok (mkConsumer (CSub v) got, setRead (nextIndex q r) q)
  | CSub v => Ok (mkConsumer CIdle (got ++ [v]), setNum (u64 (numElements_ q - 1)) q)
  end.

Inductive conf_step : conf -> conf -> Prop :=
  | step_producer q ps c i p p' q' :
      ps !! i = Some p -> prod_step p q = Some (p', q') ->
      conf_step (mkConf q ps c) (mkConf q' (<[i := p']> ps) c)
  | step_consumer q ps c c' q' :
      cons_step c q = Ok (c', q') ->
      conf_step (mkConf q ps c) (mkConf q' ps c').

Definition init_conf (cap : Z) (inputs : list (list T)) : conf :=
  mkConf (newQueue cap) ((fun l => mkProducer PIdle l [] []) <$> inputs) (mkConsumer CIdle []).

Definition reachable (cap : Z) (inputs : list (list T)) (s : conf) : Prop :=
  rtc conf_step (init_conf cap inputs) s.

(** The slot a producer is about to write and the one the consumer is about to
    read: a data race when they are the same. *)
Definition writing (p : producer) : ptr :=
  match p_pc p with
  | PWrite _ i => Some i
  | _ => None
  end.
Definition reading (c : consumer) : ptr :=
  match c_pc c with
  | CRead i => Some i
  | _ => None
  end.

(** A schedule names the thread of each step: [Some i] producer i, [None] the
    consumer. *)
Fixpoint run_schedule (sch : list (option nat)) (s : conf) : option conf :=
  match sch with
  | [] => Some s
  | Some i :: sch =>
      p ← prods s !! i;
      '(p', q') ← prod_step p (shared s);
      run_schedule sch (mkConf q' (<[i := p']> (prods s)) (cons s))
  | None :: sch =>
      match cons_step (cons s) (shared s) with
      | Ok (c', q') => run_schedule sch (mkConf q' (prods s) c')
      | Err _ => None
      end
  end.

Lemma run_schedule_reach sch : forall s s',
  run_schedule sch s = Some s' -> rtc conf_step s s'.
Proof.
  induction sch as [|[i|] sch IH]; intros [q ps c] s'; cbn.
  - intros [= <-]. apply rtc_refl.
  - destruct (ps !! i) as [p|] eqn:Ei; cbn; [|done].
    destruct (prod_step p q) as [[p' q']|] eqn:Ep; cbn; [|done].
    intros Hr%IH. eapply rtc_l; [|done]. by econstructor.
  - destruct (cons_step c q) as [[c' q']|] eqn:Ec; [|done].
    intros Hr%IH. eapply rtc_l; [|done]. by econstructor.
Qed.

End Interleaving.
Arguments producer T : clear implicits.
Arguments consumer T : clear implicits.
Arguments conf T : clear implicits.

(** ** One producer, one consumer *)
Section SPSC.
Context {T : Type} `{Default T}.
Implicit Types (q : LFQueue T) (v : T).

Definition Zlen {A} (l : list A) : Z := Z.of_nat (length l).

Definition in_flight (pc : prod_pc (T:=T)) : list T :=
  match pc with
  | PIdle => []
  | PSlot v | PWrite v _ | PLoad v | PStore v _ | PAdd v => [v]
  end.

(** What each program counter knows, with [n] the number of completed pushes
    (pops for the consumer). *)
Definition prod_knows (pc : prod_pc) q (n : Z) : Prop :=
  let c := capacity_ q in
  nextIndexToWrite_ q = (n + (match pc with PAdd _ => 1 | _ => 0 end)) mod c /\
  match pc with
  | PIdle => True
  | PSlot _ => numElements_ q < c
  | PWrite _ i => numElements_ q < c /\ i = n mod c
  | PLoad v => numElements_ q < c /\ slot q (n mod c) = v
  | PStore v w => numElements_ q < c /\ slot q (n mod c) = v /\ w = n mod c
  | PAdd v => numElements_ q < c /\ slot q (n mod c) = v
  end.

Definition cons_knows (pc : cons_pc) q (n : Z) (sent : list T) : Prop :=
  let c := capacity_ q in
  nextIndexToRead_ q = (n + (match pc with CSub _ => 1 | _ => 0 end)) mod c /\
  match pc with
  | CIdle => True
  | CSlot => 0 < numElements_ q
  | CRead i => 0 < numElements_ q /\ i = n mod c
  | CAssert v | CLoad v | CSub v => 0 < numElements_ q /\ sent !! Z.to_nat n = Some v
  | CStore v r => 0 < numElements_ q /\ sent !! Z.to_nat n = Some v /\ r = n mod c
  end.

Record spsc_inv (input : list T) q (p : producer T) (c : consumer T) : Prop := {
  si_cap : 0 < capacity_ q < 2 ^ 64;
  si_num : numElements_ q = Zlen (p_sent p) - Zlen (c_got c);
  si_bound : 0 <= numElements_ q <= capacity_ q;
  si_prefix : c_got c `prefix_of` p_sent p;
  si_slots : forall k v, Zlen (c_got c) <= Z.of_nat k -> p_sent p !! k = Some v ->
               slot q (Z.of_nat k mod capacity_ q) = v;
  si_prod : prod_knows (p_pc p) q (Zlen (p_sent p));
  si_cons : cons_knows (c_pc c) q (Zlen (c_got c)) (p_sent p);
  si_sub : (p_sent p ++ in_flight (p_pc p) ++ p_todo p) `sublist_of` input;
  si_all : (length (p_sent p) + length (p_refused p) + length (in_flight (p_pc p))
              + length (p_todo p))%nat = length input;
}.

Lemma spsc_inv_init cap input :
  0 < cap < 2 ^ 64 ->
  spsc_inv input (newQueue cap) (mkProducer PIdle input [] []) (mkConsumer CIdle []).
Proof.
  intros Hc. split; cbn; try done; lia.
Qed.

Lemma Zlen_snoc {A} (l : list A) (v : A) : Zlen (l ++ [v]) = Zlen l + 1.
Proof. unfold Zlen. rewrite length_app. cbn. lia. Qed.
Lemma Zlen_nonneg {A} (l : list A) : 0 <= Zlen l.
Proof. unfold Zlen. lia. Qed.

(** A slot outside the window of unread elements can be written. *)
Lemma window_slot cap a b k :
  0 < cap -> a <= k < b -> b - a < cap -> b mod cap <> k mod cap.
Proof.
  intros Hc Hk Hb Heq.
  pose proof (mod_inj_window cap a (k - a) (b - a)) as Hw.
  replace (a + (k - a)) with k in Hw by lia. replace (a + (b - a)) with b in Hw by lia.
  lia.
Qed.

Lemma spsc_prod_step input q p c p' q' :
  spsc_inv input q p c -> prod_step p q = Some (p', q') -> spsc_inv input q' p' c.
Proof.
  intros [Hcap Hnum Hbd Hpre Hsl [Hw Hp] [Hr Hcn] Hsub Hall].
  pose proof (Zlen_nonneg (p_sent p)) as HP. pose proof (Zlen_nonneg (c_got c)) as HC.
  destruct p as [pc todo sent refused]; cbn [p_pc p_sent p_todo p_refused] in *.
  cbn [prod_step]. destruct pc as [|v|v i|v|v w|v].
  - destruct todo as [|v todo]; [done|].
    destruct (Z.ltb_spec (numElements_ q) (capacity_ q)) as [Hlt|Hge]; intros [= <- <-];
      split; cbn; try done.
    + cbn in *. lia.
    + etrans; [|exact Hsub]. cbn. apply sublist_app; [done|]. by apply sublist_cons.
    + rewrite length_app. cbn in *. lia.
  - intros [= <- <-]. split; cbn; try done. split; [done|]. split; [done|].
    by rewrite Hw, Z.add_0_r.
  - destruct Hp as [Hlt ->]. intros [= <- <-]. split; cbn; try done.
    + intros k u Hk Hu. pose proof (lookup_lt_Some _ _ _ Hu).
      rewrite slot_setSlot, decide_False; [by apply Hsl|].
      apply (window_slot (capacity_ q) (Zlen (c_got c))); unfold Zlen in *; lia.
    + split; [done|]. split; [done|]. by rewrite slot_setSlot, decide_True.
  - intros [= <- <-]. split; cbn; try done. split; [done|].
    destruct Hp. split_and!; [done..|]. by rewrite Hw, Z.add_0_r.
  - destruct Hp as (Hlt & Hs & ->). intros [= <- <-]. split; cbn; try done.
    split; [|done].
    rewrite nextIndex_mod by (try apply Z.mod_pos_bound; lia). by rewrite Zplus_mod_idemp_l.
  - destruct Hp as [Hlt Hs]. intros [= <- <-]. rewrite wrapU_small by lia.
    split; cbn; try done; rewrite ?Zlen_snoc; try lia.
    + by apply prefix_app_r.
    + intros k u Hk Hu. change (slot _ _) with (slot q (Z.of_nat k mod capacity_ q)).
      apply lookup_snoc_Some in Hu as [[? Hu]|[-> <-]]; [by apply Hsl|done].
    + split; [|done]. by rewrite Z.add_0_r.
    + split; [done|]. assert (Hlt' : (Z.to_nat (Zlen (c_got c)) <= length sent)%nat).
      { apply prefix_length in Hpre. unfold Zlen. lia. }
      destruct (c_pc c); cbn; destruct_and?; split_and?; try done; try lia;
        by apply lookup_app_l_Some.
    + by rewrite <- app_assoc.
    + rewrite length_app. cbn in *. lia.
Qed.

Lemma spsc_cons_step input q p c c' q' :
  spsc_inv input q p c -> cons_step c q = Ok (c', q') -> spsc_inv input q' p c'.
Proof.
  intros [Hcap Hnum Hbd Hpre Hsl [Hw Hp] [Hr Hcn] Hsub Hall].
  pose proof (Zlen_nonneg (p_sent p)) as HP. pose proof (Zlen_nonneg (c_got c)) as HC.
  destruct c as [pc got]; cbn [c_pc c_got] in *.
  cbn [cons_step]. destruct pc as [| |i|v|v|v r|v].
  - destruct (Z.ltb_spec 0 (numElements_ q)); intros [= <- <-]; by split.
  - intros [= <- <-]. split; try done. split; [done|]. split; [done|].
    by rewrite Hr, Z.add_0_r.
  - destruct Hcn as [Hlt ->]. intros [= <- <-]. split; try done. split; [done|].
    split; [done|].
    assert (Hk : (Z.to_nat (Zlen got) < length (p_sent p))%nat) by (unfold Zlen in *; lia).
    apply lookup_lt_is_Some in Hk as [v Hv]. cbn [c_got].
    pose proof (Hsl (Z.to_nat (Zlen got)) v ltac:(lia) Hv) as Hsv.
    rewrite Z2Nat.id in Hsv by lia. by rewrite Hsv.
  - destruct (Z.ltb_spec 0 (numElements_ q)); intros [= <- <-]. by split.
  - intros [= <- <-]. split; try done. split; [done|].
    destruct Hcn. split_and!; [done..|]. by rewrite Hr, Z.add_0_r.
  - destruct Hcn as (Hlt & Hs & ->). intros [= <- <-]. split; try done.
    split; [|done]. cbn.
    rewrite nextIndex_mod by (try apply Z.mod_pos_bound; lia). by rewrite Zplus_mod_idemp_l.
  - destruct Hcn as [Hlt Hs]. intros [= <- <-].
    split; cbn; try done; try (rewrite wrapU_small by lia); rewrite ?Zlen_snoc; try lia.
    + destruct Hpre as [k Hk]. rewrite Hk in Hs |- *. unfold Zlen in Hs. rewrite Nat2Z.id in Hs.
      rewrite lookup_app_r, Nat.sub_diag in Hs by lia.
      destruct k as [|u k]; [done|]. injection Hs as ->.
      exists k. by rewrite <- app_assoc.
    + intros k u Hk. apply Hsl. cbn in *. lia.
    + split; [done|]. cbn. destruct (p_pc p); cbn; destruct_and?; split_and?; try done; lia.
    + split; [|done]. by rewrite Z.add_0_r.
Qed.

(** The invariant holds in every reachable configuration. *)
Lemma spsc_reachable cap input s :
  0 < cap < 2 ^ 64 -> reachable cap [input] s ->
  exists p, prods s = [p] /\ capacity_ (shared s) = cap /\ spsc_inv input (shared s) p (cons s).
Proof.
  intros Hc Hr.
  assert (Hgen : forall s0, rtc conf_step s0 s ->
    (exists p, prods s0 = [p] /\ capacity_ (shared s0) = cap /\ spsc_inv input (shared s0) p (cons s0)) ->
    exists p, prods s = [p] /\ capacity_ (shared s) = cap /\ spsc_inv input (shared s) p (cons s)).
  { clear Hr. intros s0 Hr. induction Hr as [s|s1 s2 s3 Hst _ IH]; [done|].
    intros (p & Hp & Hcap & Hinv). apply IH. clear IH.
    destruct Hst as [q ps c i p1 p' q' Hi Hps|q ps c c' q' Hcs]; cbn in *; subst ps.
    - destruct i as [|[|i]]; simplify_eq/=. exists p'. split; [done|].
      split; [|by eapply spsc_prod_step].
      destruct p1 as [[] [|? ?] ? ?]; cbn in Hps; try case_match; by simplify_eq.
    - exists p. split; [done|]. split; [|by eapply spsc_cons_step].
      destruct c as [[] ?]; cbn in Hcs; try case_match; by simplify_eq. }
  apply (Hgen _ Hr). eexists. split; [done|]. split; [done|]. by apply spsc_inv_init.
Qed.

(** C13. With one producer and one consumer, in every interleaving: the values
    popped are a prefix of the values whose push returned true, in order; these
    are a subsequence of the values offered, the others having been refused;
    the element count is their difference and never exceeds the capacity; the
    producer never writes the slot the consumer is reading; and the assertion
    of updateReadIndex does not fail. *)
Theorem spsc_fifo_race_free cap (input : list T) (s : conf T) :
  0 < cap < 2 ^ 64 -> reachable cap [input] s ->
  exists p, prods s = [p] /\
    c_got (cons s) `prefix_of` p_sent p /\
    p_sent p `sublist_of` input /\
    numElements_ (shared s) = Zlen (p_sent p) - Zlen (c_got (cons s)) /\
    0 <= numElements_ (shared s) <= cap /\
    (forall i j, writing p = Some i -> reading (cons s) = Some j -> i <> j) /\
    is_Ok (cons_step (cons s) (shared s)).
Proof.
  intros Hc Hr. destruct (spsc_reachable cap input s Hc Hr) as (p & Hp & <- & Hinv).
  exists p. destruct Hinv as [_ Hnum Hbd Hpre _ [_ Hpk] [_ Hck] Hsub _].
  split_and!; try done; try lia.
  - etrans; [|exact Hsub]. by apply sublist_inserts_r.
  - intros i j Hi Hj. unfold writing, reading in *.
    destruct (p_pc p); simplify_eq. destruct (c_pc (cons s)); simplify_eq.
    destruct Hpk as [Hlt ->], Hck as [Hpos ->].
    apply (window_slot (capacity_ (shared s)) (Zlen (c_got (cons s)))); lia.
  - destruct (cons s) as [pc got]. destruct pc; cbn in *; try exact I.
    + destruct (0 <? _); exact I.
    + destruct Hck as [Hpos%Z.ltb_lt _]. rewrite Hpos. exact I.
Qed.

End SPSC.

(** ** Two producers *)
Section TwoProducers.
Context {T : Type} `{Default T}.
Implicit Types (q : LFQueue T) (v : T).

(** [n] steps of one producer on its own. *)
Fixpoint prod_steps (n : nat) (p : producer T) q : option (producer T * LFQueue T) :=
  match n with
  | O => Some (p, q)
  | S n => '(p', q') ← prod_step p q; prod_steps n p' q'
  end.

Lemma prod_steps_reach n i c : forall p q ps p' q',
  ps !! i = Some p -> prod_steps n p q = Some (p', q') ->
  rtc conf_step (mkConf q ps c) (mkConf q' (<[i := p']> ps) c).
Proof.
  induction n as [|n IH]; intros p q ps p' q' Hi; cbn.
  - intros [= <- <-]. by rewrite list_insert_id.
  - destruct (prod_step p q) as [[p1 q1]|] eqn:Hp; cbn; [|done]. intros Hn.
    eapply rtc_l; [by apply step_producer with (i := i) (p := p)|].
    rewrite <- (list_insert_insert_eq ps i p' p1). apply (IH p1); [|done].
    apply list_lookup_insert_eq. by eapply lookup_lt_Some.
Qed.

(** The queue after a push that found room. *)
Definition pushed v q : LFQueue T :=
  setNum (u64 (numElements_ q + 1))
    (setWrite (nextIndex q (nextIndexToWrite_ q)) (setSlot (nextIndexToWrite_ q) v q)).

Lemma pushed_spec v q :
  queue_ok q -> numElements_ q < capacity_ q ->
  queue_ok (pushed v q) /\ contents (pushed v q) = contents q ++ [v].
Proof.
  intros Hq Hlt. destruct (push_room v q Hq Hlt) as (q' & Hp & Hok & Hc & _).
  assert (q' = pushed v q) as ->; [|done].
  unfold push, updateWriteIndex, mbind, M_bind, get, modify, require, getNextToWrite, mret, M_ret in Hp.
  rewrite (proj2 (Z.ltb_lt _ _) Hlt) in Hp. cbn in Hp.
  destruct (capacity_ q =? 0); [done|]. cbn in Hp. by injection Hp.
Qed.

(** A push that takes the slot of another one, after that one is complete. *)
Definition overwritten v w q : LFQueue T :=
  setNum (u64 (numElements_ (pushed w q) + 1))
    (setWrite (nextIndex q (nextIndexToWrite_ (pushed w q))) (setSlot (nextIndexToWrite_ q) v (pushed w q))).

Lemma overwritten_spec v w q :
  queue_ok q -> numElements_ q + 2 <= capacity_ q ->
  queue_ok (overwritten v w q) /\
  contents (overwritten v w q) = contents q ++ [v; slot q (nextIndex q (nextIndexToWrite_ q))].
Proof.
  intros Hq Hlt. set (old := slot q (nextIndex q (nextIndexToWrite_ q))).
  destruct (pushed_spec v q Hq) as [Hq1 Hc1]; [lia|]. pose proof Hq as [Hc Hn Hr Hw].
  assert (Hw0 : 0 <= nextIndexToWrite_ q < capacity_ q) by (rewrite Hw by lia; apply Z.mod_pos_bound; lia).
  destruct (pushed_spec old (pushed v q) Hq1) as [Hq2 Hc2]; [cbn; rewrite wrapU_small; lia|].
  assert (He : forall i, slot (overwritten v w q) i = slot (pushed old (pushed v q)) i).
  { intros i. unfold overwritten, pushed, old, slot. cbn. rewrite !lookup_insert, nextIndex_mod by lia.
    repeat case_decide; simplify_eq/=; try done. exfalso.
    assert (Hne : (nextIndexToWrite_ q + 1) mod capacity_ q <> nextIndexToWrite_ q); [|done].
    rewrite <- (Z.mod_small (nextIndexToWrite_ q) (capacity_ q)) at 2 by lia.
    rewrite <- (Z.add_0_r (nextIndexToWrite_ q)) at 2. intros Hm%mod_inj_window; lia. }
  split; [by destruct Hq2|].
  transitivity (contents (pushed old (pushed v q))); [|by rewrite Hc2, Hc1, <- app_assoc].
  unfold contents. apply list_fmap_ext. intros j k _. apply He.
Qed.

(** C40. The queue is not safe for two producers.  Whatever the queue holds, two
    producers that are about to push and find two free places can interleave so
    that both pushes return true and the queue is well formed, yet only one of
    the two values was added: behind it comes what a slot outside the queue
    last held, an element popped long ago or the default-constructed one. *)
Theorem two_producers_lose_a_value q ps c i j v w (ti tj si sj ri rj : list T) :
  queue_ok q -> numElements_ q + 2 <= capacity_ q -> i <> j ->
  ps !! i = Some (mkProducer PIdle (v :: ti) si ri) ->
  ps !! j = Some (mkProducer PIdle (w :: tj) sj rj) ->
  exists q', rtc conf_step (mkConf q ps c)
      (mkConf q' (<[i := mkProducer PIdle ti (si ++ [v]) ri]>
                   (<[j := mkProducer PIdle tj (sj ++ [w]) rj]> ps)) c) /\
    queue_ok q' /\
    contents q' = contents q ++ [v; slot q (nextIndex q (nextIndexToWrite_ q))].
Proof.
  intros Hq Hroom Hne Hi Hj. pose proof Hq as [Hc Hn _ _].
  assert (Hlt : numElements_ q <? capacity_ q = true) by (apply Z.ltb_lt; lia).
  exists (overwritten v w q). split; [|by apply overwritten_spec].
  etrans; [apply (prod_steps_reach 2 i c _ q ps (mkProducer (PWrite v (nextIndexToWrite_ q)) ti si ri) q Hi)|].
  { cbn. by rewrite Hlt. }
  etrans; [apply (prod_steps_reach 6 j c (mkProducer PIdle (w :: tj) sj rj) q _ (mkProducer PIdle tj (sj ++ [w]) rj)
    (pushed w q)); [by rewrite list_lookup_insert_ne|cbn; by rewrite Hlt]|].
  rewrite (list_insert_insert_ne ps j i) by done. set (ps1 := <[j := _]> ps).
  rewrite <- (list_insert_insert_eq ps1 i (mkProducer PIdle ti (si ++ [v]) ri)
    (mkProducer (PWrite v (nextIndexToWrite_ q)) ti si ri)).
  apply (prod_steps_reach 4 i c (mkProducer (PWrite v (nextIndexToWrite_ q)) ti si ri)); [|done].
  apply list_lookup_insert_eq. unfold ps1. rewrite length_insert. by eapply lookup_lt_Some.
Qed.

End TwoProducers.

(** From an empty queue the consumer then gets a value nobody pushed. *)
Example two_producers_yield_default :
  exists s : conf Z, reachable 2 [[1]; [2]] s /\
    (p_sent <$> prods s) = [[1]; [2]] /\ c_got (cons s) = [2; 0] /\ contents (shared s) = [].
Proof.
  set (sch := [Some 0; Some 0; Some 1; Some 1; Some 0; Some 1; Some 0; Some 0; Some 0;
               Some 1; Some 1; Some 1]%nat ++ replicate 14 None).
  eexists. split; [apply (run_schedule_reach sch); vm_compute; reflexivity|].
  vm_compute. split_and!; reflexivity.
Qed.

(** *** Witnesses *)
Example queue_refines_bounded_fifo_witness :
  exists q', run_qcalls [QPush 1; QPush 2; QPush 3; QPop; QSize; QPop; QPop] (newQueue 2)
      = Ok ([RBool true; RBool true; RBool false; RVal (Some 1); RSize 1; RVal (Some 2);
             RVal None], q') /\
    queue_ok q' /\ contents q' = [].
Proof.
  apply (queue_refines_bounded_fifo 2 [QPush 1; QPush 2; QPush 3; QPop; QSize; QPop; QPop]).
  lia.
Defined.

(** After one full push, at the moment the consumer is about to read. *)
Example spsc_fifo_race_free_witness :
  exists s : conf Z, reachable 1 [[7; 8]] s /\ reading (cons s) = Some 0 /\
    exists p, prods s = [p] /\
      c_got (cons s) `prefix_of` p_sent p /\
      p_sent p `sublist_of` [7; 8] /\
      numElements_ (shared s) = Zlen (p_sent p) - Zlen (c_got (cons s)) /\
      0 <= numElements_ (shared s) <= 1 /\
      (forall i j, writing p = Some i -> reading (cons s) = Some j -> i <> j) /\
      is_Ok (cons_step (cons s) (shared s)).
Proof.
  set (sch := replicate 6 (Some 0%nat) ++ [None; None]).
  assert (Hr : exists s : conf Z, reachable 1 [[7; 8]] s /\ reading (cons s) = Some 0).
  { eexists. split; [apply (run_schedule_reach sch); vm_compute; reflexivity|].
    reflexivity. }
  destruct Hr as (s & Hr & Hrd).
  exists s. split; [done|]. split; [done|]. apply spsc_fifo_race_free; [lia|done].
Defined.

(** The loggers of two threads on a queue that holds one message. *)
Example two_producers_lose_a_value_witness :
  exists q', rtc conf_step
      (mkConf (pushed 7 (newQueue 4)) [mkProducer PIdle [1] [] []; mkProducer PIdle [2] [7] []] (mkConsumer CIdle []))
      (mkConf q' [mkProducer PIdle [] [1] []; mkProducer PIdle [] [7; 2] []] (mkConsumer CIdle [])) /\
    queue_ok q' /\ contents q' = [7; 1; 0].
Proof.
  apply (two_producers_lose_a_value (pushed 7 (newQueue 4))
    [mkProducer PIdle [1] [] []; mkProducer PIdle [2] [7] []] (mkConsumer CIdle []) 0 1 1 2 [] [] [] [7] [] []).
  - apply pushed_spec; [by apply newQueue_ok|reflexivity].
  - vm_compute. discriminate.
  - discriminate.
  - reflexivity.
  - reflexivity.
Defined.
