(* ===== verification/LFQueueLin.v ===== *)
(** push and pop of lock_free_queue.h are atomic for one producer and one consumer.

    Every interleaving of their accesses is an execution of a bounded FIFO list
    whose operations take effect at once: a push that succeeds at its fetch_add, a
    pop that returns a value at its fetch_sub, and a push or a pop that finds the
    queue full or empty at its load of the count.  Each of these accesses lies
    inside the call it stands for, so the calls can be treated as single steps. *)

From S2P Require Import Prelude LFQueue.
#[local] Open Scope Z_scope.

(** What an access means for the list. *)
Inductive effect (T : Type) := Internal | Pushed (v : T) | Refused (v : T) | Popped (v : T) | Empty.
Arguments Internal {T}. Arguments Pushed {T} v. Arguments Refused {T} v.
Arguments Popped {T} v. Arguments Empty {T}.

Section Linear.
Context {T : Type} `{Default T}.
Implicit Types (l : list T) (p : producer T) (c : consumer T) (q : LFQueue T).

Definition prod_effect p q : effect T :=
  match p_pc p, p_todo p with
  | PIdle, v :: _ => if numElements_ q <? capacity_ q then Internal else Refused v
  | PAdd v, _ => Pushed v
  | _, _ => Internal
  end.
Definition cons_effect c q : effect T :=
  match c_pc c with
  | CIdle => if 0 <? numElements_ q then Internal else Empty
  | CSub v => Popped v
  | _ => Internal
  end.

(** The list goes from [l] to [l'] with that effect. *)
Definition fifo_effect (cap : Z) l (a : effect T) l' : Prop :=
  match a with
  | Internal => l' = l
  | Pushed v => fifo_push cap v l = (true, l')
  | Refused v => fifo_push cap v l = (false, l')
  | Popped v => fifo_pop l = (Some v, l')
  | Empty => fifo_pop l = (None, l')
  end.
Inductive fifo_run (cap : Z) l : list (effect T) -> list T -> Prop :=
  | run_nil : fifo_run cap l [] l
  | run_snoc tr l1 a l2 : fifo_run cap l tr l1 -> fifo_effect cap l1 a l2 -> fifo_run cap l (tr ++ [a]) l2.

(** Interleavings of the two threads with the effects of their steps. *)
Inductive execution (cap : Z) (input : list T) : list (effect T) -> producer T -> consumer T -> LFQueue T -> Prop :=
  | ex_init : execution cap input [] (mkProducer PIdle input [] []) (mkConsumer CIdle []) (newQueue cap)
  | ex_prod tr p p' c q q' :
      execution cap input tr p c q -> prod_step p q = Some (p', q') ->
      execution cap input (tr ++ [prod_effect p q]) p' c q'
  | ex_cons tr p c c' q q' :
      execution cap input tr p c q -> cons_step c q = Ok (c', q') ->
      execution cap input (tr ++ [cons_effect c q]) p c' q'.

(** What the calls returned so far. *)
Definition pushed (a : effect T) : option T := match a with Pushed v => Some v | _ => None end.
Definition refused_by (a : effect T) : option T := match a with Refused v => Some v | _ => None end.
Definition popped (a : effect T) : option T := match a with Popped v => Some v | _ => None end.

(** The list that the shared state stands for. *)
Definition unread p c : list T := drop (length (c_got c)) (p_sent p).

Lemma Zlen_unread input q p c : spsc_inv input q p c -> Zlen (unread p c) = numElements_ q.
Proof.
  intros [_ Hn Hb Hpre _ _ _ _ _]. apply prefix_length in Hpre. unfold unread, Zlen in *.
  rewrite length_drop. lia.
Qed.

Lemma prod_step_effect input q p p' c q' :
  spsc_inv input q p c -> prod_step p q = Some (p', q') ->
  fifo_effect (capacity_ q) (unread p c) (prod_effect p q) (unread p' c) /\ capacity_ q' = capacity_ q /\
  p_sent p' = p_sent p ++ omap pushed [prod_effect p q] /\
  p_refused p' = p_refused p ++ omap refused_by [prod_effect p q].
Proof.
  intros Hi Hst. pose proof (Zlen_unread _ _ _ _ Hi) as Hlen.
  destruct Hi as [_ Hn _ Hpre _ [_ Hpk] _ _ _]. apply prefix_length in Hpre.
  destruct p as [pc todo sent refused]. unfold prod_effect, unread, fifo_push in *.
  cbn [prod_step p_pc p_todo p_sent p_refused] in *.
  destruct pc as [|v|v i|v|v w|v];
    [destruct todo as [|v todo]; [done|destruct (Z.ltb_spec (numElements_ q) (capacity_ q))]|..];
    injection Hst as <- <-; cbn -[Z.ltb]; rewrite ?app_nil_r; split_and!; try done.
  - unfold fifo_push, Zlen in *. rewrite Hlen. by rewrite (proj2 (Z.ltb_ge _ _)).
  - destruct Hpk as [Hroom _]. unfold fifo_push, Zlen in *. rewrite Hlen, (proj2 (Z.ltb_lt _ _)) by done.
    by rewrite drop_app_le by lia.
Qed.

Lemma cons_step_effect input q p c c' q' :
  spsc_inv input q p c -> cons_step c q = Ok (c', q') ->
  fifo_effect (capacity_ q) (unread p c) (cons_effect c q) (unread p c') /\ capacity_ q' = capacity_ q /\
  c_got c' = c_got c ++ omap popped [cons_effect c q].
Proof.
  intros Hi Hst. pose proof (Zlen_unread _ _ _ _ Hi) as Hlen.
  destruct Hi as [_ Hn Hb Hpre _ _ [_ Hck] _ _]. apply prefix_length in Hpre.
  destruct c as [pc got]. unfold cons_effect, unread, fifo_pop in *.
  cbn [cons_step c_pc c_got] in *.
  destruct pc as [| |i|v|v|v r|v]; [destruct (Z.ltb_spec 0 (numElements_ q))|..];
    try (case_match; [|done]); injection Hst as <- <-; cbn; rewrite ?app_nil_r; split_and!; try done.
  - destruct (drop (length got) (p_sent p)) as [|x l]; [done|]. unfold Zlen in Hlen. cbn in Hlen. lia.
  - destruct Hck as [_ Hv]. unfold Zlen in Hv. rewrite Nat2Z.id in Hv.
    rewrite (drop_S _ _ _ Hv), length_app. cbn. by rewrite Nat.add_1_r.
Qed.

Lemma execution_spsc cap input tr p c q :
  0 < cap < 2 ^ 64 -> execution cap input tr p c q ->
  spsc_inv input q p c /\ capacity_ q = cap /\ fifo_run cap [] tr (unread p c) /\
  p_sent p = omap pushed tr /\ p_refused p = omap refused_by tr /\ c_got c = omap popped tr.
Proof.
  intros Hc. induction 1 as [|tr p p' c q q' _ (Hi & Hcap & Hr & Hs & Hre & Hg) Hst
                             |tr p c c' q q' _ (Hi & Hcap & Hr & Hs & Hre & Hg) Hst].
  - split_and!; try done; [by apply spsc_inv_init|constructor].
  - destruct (prod_step_effect _ _ _ _ _ _ Hi Hst) as (He & Hcap' & Hs' & Hre').
    rewrite !omap_app, <- Hs, <- Hre, <- Hg, Hs', Hre', Hcap', Hcap. split_and!; try done.
    + by eapply spsc_prod_step.
    + rewrite Hcap in He. by econstructor.
    + destruct (prod_effect p q) eqn:E; cbn; rewrite ?app_nil_r; try done.
      unfold prod_effect in E. repeat case_match; done.
  - destruct (cons_step_effect _ _ _ _ _ _ Hi Hst) as (He & Hcap' & Hg').
    rewrite !omap_app, <- Hs, <- Hre, <- Hg, Hg', Hcap', Hcap. split_and!; try done.
    + by eapply spsc_cons_step.
    + rewrite Hcap in He. by econstructor.
    + unfold cons_effect. repeat case_match; cbn; by rewrite ?app_nil_r.
    + unfold cons_effect. repeat case_match; cbn; by rewrite ?app_nil_r.
Qed.

(** C14. The queue is linearizable for one producer and one consumer.  In every
    interleaving of the accesses of push and pop, the effects of the steps taken
    are, in their order, a run of the bounded FIFO list from the empty list: a push
    returns false only when the list is full and appends otherwise, and a pop
    returns nothing only when it is empty and takes the oldest value otherwise.
    What the calls have returned is exactly what the effects say. *)
Theorem spsc_linearizable cap (input : list T) tr p c q :
  0 < cap < 2 ^ 64 -> execution cap input tr p c q ->
  fifo_run cap [] tr (unread p c) /\
  p_sent p = omap pushed tr /\ p_refused p = omap refused_by tr /\ c_got c = omap popped tr /\
  Zlen (unread p c) = numElements_ q.
Proof.
  intros Hc Hex. destruct (execution_spsc _ _ _ _ _ _ Hc Hex) as (Hi & _ & Hr & Hs & Hre & Hg).
  split_and!; try done. by eapply Zlen_unread.
Qed.

(** Executions from schedules: [true] for a step of the producer. *)
Fixpoint run_effects (sch : list bool) (tr : list (effect T)) p c q :
    option (list (effect T) * producer T * consumer T * LFQueue T) :=
  match sch with
  | [] => Some (tr, p, c, q)
  | true :: sch' =>
      '(p', q') ← prod_step p q; run_effects sch' (tr ++ [prod_effect p q]) p' c q'
  | false :: sch' =>
      match cons_step c q with
      | Ok (c', q') => run_effects sch' (tr ++ [cons_effect c q]) p c' q'
      | Err _ => None
      end
  end.

Lemma run_effects_execution cap input sch : forall tr p c q tr' p' c' q',
  execution cap input tr p c q -> run_effects sch tr p c q = Some (tr', p', c', q') ->
  execution cap input tr' p' c' q'.
Proof.
  induction sch as [|[] sch IH]; intros tr p c q tr' p' c' q' Hex; cbn.
  - by intros [= <- <- <- <-].
  - destruct (prod_step p q) as [[p1 q1]|] eqn:Ep; cbn; [|done]. apply IH. by econstructor.
  - destruct (cons_step c q) as [[c1 q1]|] eqn:Ec; [|done]. apply IH. by econstructor.
Qed.

End Linear.

(** A queue of capacity one: a pop on the empty queue, two pushes of which the
    second overlaps the pop of the first and is refused. *)
Definition demo_schedule : list bool :=
  [false] ++ replicate 6 true ++ replicate 3 false ++ [true] ++ replicate 4 false.

Example spsc_linearizable_witness :
  exists p c q tr, execution 1 [7; 8] tr p c q /\ fifo_run 1 [] tr (unread p c) /\
    omap pushed tr = [7] /\ omap refused_by tr = [8] /\ omap popped tr = [7].
Proof.
  assert (Hr : exists p c q tr, execution (T:=Z) 1 [7; 8] tr p c q /\
    tr = [Empty; Internal; Internal; Internal; Internal; Internal; Pushed 7; Internal; Internal; Internal;
          Refused 8; Internal; Internal; Internal; Popped 7]).
  { eexists _, _, _, _. split; [|shelve].
    eapply (run_effects_execution 1 [7; 8] demo_schedule); [apply ex_init|]. vm_compute. reflexivity.
    Unshelve. reflexivity. }
  destruct Hr as (p & c & q & tr & Hex & Htr). exists p, c, q, tr. split; [exact Hex|].
  destruct (spsc_linearizable 1 [7; 8] tr p c q) as [Hrun _]; [lia|exact Hex|].
  split; [exact Hrun|]. rewrite Htr. split; [reflexivity|]. split; reflexivity.
Defined.
