(* ===== verification/LFQueueOrders.v ===== *)
(** The memory orders of lock_free_queue.h.

    LFQueue.v interleaves the atomic accesses of push and pop; every load there
    sees the last store.  In C++ that does not yet order the plain accesses to the
    slots: a read of a slot races with the write of it unless the write happens
    before the read, and only an acquire load that reads from a release store or
    read-modify-write of another thread makes it so.  This file carries
    happens-before along the interleavings: each thread knows up to which step it
    has observed the other, and each atomic variable carries what an acquire load
    of it observes.  The orders of the two fetch operations are a parameter; the
    code's are relaxed. *)

From S2P Require Import Prelude LFQueue.
#[local] Open Scope Z_scope.

(** ** Accesses *)
Inductive memory_order := relaxed | acquire | release | acq_rel | seq_cst.

Definition acquires (o : memory_order) : bool :=
  match o with acquire | acq_rel | seq_cst => true | _ => false end.
Definition releases (o : memory_order) : bool :=
  match o with release | acq_rel | seq_cst => true | _ => false end.

(** The atomic variables of the queue. *)
Inductive variable := ReadIndex | WriteIndex | NumElements.

Inductive access :=
  | Load (x : variable) (o : memory_order)
  | Store (x : variable) (o : memory_order)
  | ReadModifyWrite (x : variable) (o : memory_order)
  | WriteSlot (i : Z)
  | ReadSlot (i : Z).

(** The orders of fetch_add and fetch_sub on numElements_. *)
Record orders := mkOrders { order_add : memory_order; order_sub : memory_order }.
Definition code_orders : orders := mkOrders relaxed relaxed.

(** The next access of each thread.  Reading or assigning a std::atomic without
    naming an order is sequentially consistent. *)
Definition prod_access {T} (os : orders) (p : producer T) : access :=
  match p_pc p with
  | PIdle => Load NumElements seq_cst
  | PSlot _ | PLoad _ => Load WriteIndex seq_cst
  | PWrite _ i => WriteSlot i
  | PStore _ _ => Store WriteIndex seq_cst
  | PAdd _ => ReadModifyWrite NumElements (order_add os)
  end.
Definition cons_access {T} (os : orders) (c : consumer T) : access :=
  match c_pc c with
  | CIdle | CAssert _ => Load NumElements seq_cst
  | CSlot | CLoad _ => Load ReadIndex seq_cst
  | CRead i => ReadSlot i
  | CStore _ _ => Store ReadIndex seq_cst
  | CSub _ => ReadModifyWrite NumElements (order_sub os)
  end.

(** ** Happens-before *)

(** A view: the steps of the producer and of the consumer that happened before. *)
Record view := mkView { by_prod : nat; by_cons : nat }.
Definition no_view : view := mkView 0 0.
Definition join (a b : view) : view :=
  mkView (Nat.max (by_prod a) (by_prod b)) (Nat.max (by_cons a) (by_cons b)).
Definition vle (a b : view) : Prop := (by_prod a <= by_prod b)%nat /\ (by_cons a <= by_cons b)%nat.

Inductive thread := Prod | Cons.
Definition own (who : thread) (v : view) : nat :=
  match who with Prod => by_prod v | Cons => by_cons v end.
Definition tick (who : thread) (v : view) : view :=
  match who with
  | Prod => mkView (S (by_prod v)) (by_cons v)
  | Cons => mkView (by_prod v) (S (by_cons v))
  end.

(** What the threads have observed, what the variables carry, and the step of the
    last write and of the last read of each slot. *)
Record history := mkHistory {
  observed : thread -> view;
  carried : variable -> view;
  written : gmap Z nat;
  read_at : gmap Z nat;
}.
Definition no_history : history := mkHistory (fun _ => no_view) (fun _ => no_view) ∅ ∅.

Definition upd_thread (f : thread -> view) (who : thread) (v : view) : thread -> view :=
  fun w => match who, w with Prod, Prod | Cons, Cons => v | _, _ => f w end.
Definition upd_variable (f : variable -> view) (x : variable) (v : view) : variable -> view :=
  fun y => match x, y with
           | ReadIndex, ReadIndex | WriteIndex, WriteIndex | NumElements, NumElements => v
           | _, _ => f y
           end.

(** One access.  A release store replaces what the variable carries, a relaxed one
    clears it; a read-modify-write keeps it, being part of the release sequence,
    and adds the thread's view if it is a release. *)
Definition perform (who : thread) (a : access) (h : history) : history :=
  let now := tick who (observed h who) in
  match a with
  | Load x o =>
      let v := if acquires o then join now (carried h x) else now in
      mkHistory (upd_thread (observed h) who v) (carried h) (written h) (read_at h)
  | Store x o =>
      mkHistory (upd_thread (observed h) who now)
        (upd_variable (carried h) x (if releases o then now else no_view)) (written h) (read_at h)
  | ReadModifyWrite x o =>
      let v := if acquires o then join now (carried h x) else now in
      mkHistory (upd_thread (observed h) who v)
        (upd_variable (carried h) x (if releases o then join (carried h x) v else carried h x))
        (written h) (read_at h)
  | WriteSlot i =>
      mkHistory (upd_thread (observed h) who now) (carried h)
        (<[i := by_prod now]> (written h)) (read_at h)
  | ReadSlot i =>
      mkHistory (upd_thread (observed h) who now) (carried h) (written h)
        (<[i := by_cons now]> (read_at h))
  end.

(** The access is to a slot whose last conflicting access by the other thread did
    not happen before: a data race, undefined behaviour in C++. *)
Definition races (who : thread) (a : access) (h : history) : Prop :=
  match who, a with
  | Prod, WriteSlot i => exists n, read_at h !! i = Some n /\ (by_cons (observed h Prod) < n)%nat
  | Cons, ReadSlot i => exists n, written h !! i = Some n /\ (by_prod (observed h Cons) < n)%nat
  | _, _ => False
  end.

(** ** Executions of one producer and one consumer *)
Section Executions.
Context {T : Type} `{Default T} (os : orders).

Record hconf := mkHConf {
  h_prod : producer T;
  h_cons : consumer T;
  h_queue : LFQueue T;
  h_hist : history;
}.

Inductive hstep : hconf -> hconf -> Prop :=
  | hstep_prod p p' c q q' h :
      prod_step p q = Some (p', q') ->
      hstep (mkHConf p c q h) (mkHConf p' c q' (perform Prod (prod_access os p) h))
  | hstep_cons p c c' q q' h :
      cons_step c q = Ok (c', q') ->
      hstep (mkHConf p c q h) (mkHConf p c' q' (perform Cons (cons_access os c) h)).

Definition hinit (cap : Z) (input : list T) : hconf :=
  mkHConf (mkProducer PIdle input [] []) (mkConsumer CIdle []) (newQueue cap) no_history.

Lemma hreach_ind (P : hconf -> Prop) cap input s :
  P (hinit cap input) -> (forall s1 s2, P s1 -> hstep s1 s2 -> P s2) ->
  rtc hstep (hinit cap input) s -> P s.
Proof.
  intros H0 Hst Hr. revert H0. induction Hr as [s|s1 s2 s3 H12 _ IH]; [done|].
  intros H1. apply IH. by eapply Hst.
Qed.

Lemma hreach_spsc cap input s :
  0 < cap < 2 ^ 64 -> rtc hstep (hinit cap input) s ->
  spsc_inv input (h_queue s) (h_prod s) (h_cons s).
Proof.
  intros Hc. apply (hreach_ind (fun s => spsc_inv input (h_queue s) (h_prod s) (h_cons s)));
    [by apply spsc_inv_init|].
  intros s1 s2 Hi Hst. destruct Hst; cbn in *; [by eapply spsc_prod_step|by eapply spsc_cons_step].
Qed.

End Executions.
Arguments hconf T : clear implicits.

(** ** The code's orders: the slots race *)
Section Relaxed.
Context {T : Type} `{Default T} (os : orders).
Hypothesis add_not_release : releases (order_add os) = false.
Hypothesis sub_not_release : releases (order_sub os) = false.
Implicit Types (s : hconf T) (h : history).

(** Neither thread observes a step of the other. *)
Record unordered h : Prop := {
  un_prod : by_cons (observed h Prod) = 0%nat;
  un_cons : by_prod (observed h Cons) = 0%nat;
  un_num : carried h NumElements = no_view;
  un_write : by_cons (carried h WriteIndex) = 0%nat;
  un_read : by_prod (carried h ReadIndex) = 0%nat;
  un_written i n : written h !! i = Some n -> (0 < n)%nat;
  un_read_at i n : read_at h !! i = Some n -> (0 < n)%nat;
}.

#[local] Ltac slot_entry :=
  let i := fresh in let n := fresh in
  intros i n; rewrite lookup_insert; case_decide; [intros [= <-]; lia|eauto].

Lemma unordered_prod (p : producer T) h : unordered h -> unordered (perform Prod (prod_access os p) h).
Proof.
  intros [Hp Hc Hn Hw Hr Hwp Hrp]. unfold prod_access.
  destruct (p_pc p); split; cbn; rewrite ?Hn, ?add_not_release; cbn; try done; try lia; try slot_entry.
  by destruct (acquires (order_add os)); cbn; rewrite ?Hp.
Qed.

Lemma unordered_cons (c : consumer T) h : unordered h -> unordered (perform Cons (cons_access os c) h).
Proof.
  intros [Hp Hc Hn Hw Hr Hwp Hrp]. unfold cons_access.
  destruct (c_pc c); split; cbn; rewrite ?Hn, ?sub_not_release; cbn; try done; try lia; try slot_entry.
  by destruct (acquires (order_sub os)); cbn; rewrite ?Hc.
Qed.

(** Every slot that holds a value sent was written, and the one of the push under
    way once its program counter is past the write. *)
Definition slots_written s : Prop :=
  (forall k, (k < length (p_sent (h_prod s)))%nat ->
     is_Some (written (h_hist s) !! (Z.of_nat k mod capacity_ (h_queue s)))) /\
  match p_pc (h_prod s) with
  | PLoad _ | PStore _ _ | PAdd _ =>
      is_Some (written (h_hist s) !! (Zlen (p_sent (h_prod s)) mod capacity_ (h_queue s)))
  | _ => True
  end.

Lemma slots_written_step input s1 s2 :
  spsc_inv input (h_queue s1) (h_prod s1) (h_cons s1) -> slots_written s1 -> hstep os s1 s2 -> slots_written s2.
Proof.
  intros Hi [Hk Hpc] Hst. destruct Hst as [p p' c q q' h Hps|p c c' q q' h Hcs]; cbn [h_hist h_prod h_cons h_queue] in *.
  - destruct Hi as [_ _ _ _ _ [_ Hpk] _ _ _]. destruct p as [pc todo sent refused]. unfold prod_access.
    cbn [prod_step p_pc p_sent p_todo] in *.
    destruct pc as [|v|v i|v|v w|v]; [destruct todo; [done|destruct (numElements_ q <? _)]|..];
      injection Hps as <- <-; split; cbn; try done.
    + destruct Hpk as [_ ->]. intros k Hlt. rewrite lookup_insert. case_decide; [done|by apply Hk].
    + destruct Hpk as [_ ->]. rewrite lookup_insert_eq. done.
    + intros k. rewrite length_app. cbn. intros Hlt. destruct (decide (k = length sent)) as [->|]; [done|].
      apply Hk. lia.
  - assert (Hq : capacity_ q' = capacity_ q /\ written (perform Cons (cons_access os c) h) = written h).
    { destruct c as [pc got]. unfold cons_access. cbn [cons_step c_pc] in *.
      destruct pc; try case_match; by simplify_eq/=. }
    unfold slots_written. cbn [h_hist h_prod h_cons h_queue]. destruct Hq as [-> ->]. by split.
Qed.

End Relaxed.

(** ** Releasing the count: the slots are ordered *)
Section Released.
Context {T : Type} `{Default T} (os : orders).
Hypothesis add_release : releases (order_add os) = true.
Hypothesis sub_release : releases (order_sub os) = true.
Implicit Types (p : producer T) (c : consumer T) (q : LFQueue T) (h : history).

(** What the count carries covers the writes of all unread values and the reads
    of all slots given back; a thread past its load of the count has observed
    what it needs for the slot it is about to touch. *)
Definition prod_ordered p q h : Prop :=
  let i := Zlen (p_sent p) mod capacity_ q in
  match p_pc p with
  | PIdle => True
  | PSlot _ | PWrite _ _ =>
      forall n, read_at h !! i = Some n -> (n <= by_cons (observed h Prod))%nat
  | PLoad _ | PStore _ _ | PAdd _ =>
      exists n, written h !! i = Some n /\ (n <= by_prod (observed h Prod))%nat
  end.
Definition cons_ordered c q h : Prop :=
  let i := Zlen (c_got c) mod capacity_ q in
  match c_pc c with
  | CSlot | CRead _ =>
      exists n, written h !! i = Some n /\ (n <= by_prod (observed h Cons))%nat
  | _ => True
  end.
Definition keeps_slot c q (i : Z) : Prop :=
  match c_pc c with
  | CAssert _ | CLoad _ | CStore _ _ | CSub _ => i = Zlen (c_got c) mod capacity_ q
  | _ => False
  end.

Record ordered p c q h : Prop := {
  or_sent k : Zlen (c_got c) <= k < Zlen (p_sent p) ->
    exists n, written h !! (k mod capacity_ q) = Some n /\ (n <= by_prod (carried h NumElements))%nat;
  or_prod : prod_ordered p q h;
  or_cons : cons_ordered c q h;
  or_observed i n : read_at h !! i = Some n -> (n <= by_cons (observed h Cons))%nat;
  or_given i n : read_at h !! i = Some n -> keeps_slot c q i \/ (n <= by_cons (carried h NumElements))%nat;
}.

(** The slot of the next push is not one of an unread value, when there is room. *)
Lemma next_slot_free input q p c k :
  spsc_inv input q p c -> numElements_ q < capacity_ q ->
  Zlen (c_got c) <= k < Zlen (p_sent p) ->
  Zlen (p_sent p) mod capacity_ q <> k mod capacity_ q.
Proof.
  intros [Hc Hn _ _ _ _ _ _ _] Hroom Hk. apply (window_slot _ (Zlen (c_got c))); [lia|done|lia].
Qed.

Lemma prod_room input q p c :
  spsc_inv input q p c -> p_pc p <> PIdle -> numElements_ q < capacity_ q.
Proof. intros [_ _ _ _ _ [_ Hp] _ _ _] Hne. by destruct (p_pc p); destruct_and?. Qed.

Lemma cons_some input q p c :
  spsc_inv input q p c -> c_pc c <> CIdle -> Zlen (c_got c) < Zlen (p_sent p).
Proof. intros [_ Hn _ _ _ _ [_ Hc] _ _] Hne. destruct (c_pc c); destruct_and?; done || lia. Qed.

Lemma ordered_prod input p p' c q q' h :
  spsc_inv input q p c -> ordered p c q h -> prod_step p q = Some (p', q') ->
  ordered p' c q' (perform Prod (prod_access os p) h).
Proof.
  intros Hi [Hs Hp Hc Ho Hg] Hps. pose proof (prod_room _ _ _ _ Hi) as Hroom.
  pose proof (fun k => next_slot_free _ _ _ _ k Hi) as Hfree.
  pose proof (cons_some _ _ _ _ Hi) as Hsome.
  destruct Hi as [Hcap Hnum Hbd _ _ [_ Hpk] [_ Hck] _ _].
  destruct p as [pc todo sent refused]. unfold prod_access, prod_ordered in *.
  cbn [prod_step p_pc p_sent p_todo] in *.
  destruct pc as [|v|v i|v|v w|v]; [destruct todo; [done|destruct (Z.ltb_spec (numElements_ q) (capacity_ q))]|..];
    injection Hps as <- <-.
  - split; cbn; try done. intros n Hn. destruct (Hg _ _ Hn) as [Hk|Hle]; [|lia].
    exfalso. unfold keeps_slot in Hk.
    destruct (c_pc c) eqn:Epc; try done;
      (apply (Hfree (Zlen (c_got c))); [done|split; [lia|by apply Hsome]|done]).
  - by split.
  - split; cbn; try done. intros n Hn. specialize (Hp n Hn). lia.
  - destruct Hpk as [Hlt ->]. split; cbn; try done.
    + intros k Hk. rewrite lookup_insert_ne by by apply Hfree. by apply Hs.
    + eexists. rewrite lookup_insert_eq. split; [done|lia].
    + unfold cons_ordered in *. cbn. destruct (c_pc c); try done;
        (rewrite lookup_insert_ne; [done|apply Hfree; [done|split; [lia|by apply Hsome]]]).
  - split; cbn; try done. destruct Hp as (n & Hn & Hle). exists n. split; [done|cbn; lia].
  - split; cbn; try done. destruct Hp as (n & Hn & Hle). exists n. split; [done|cbn; lia].
  - destruct Hp as (n & Hn & Hle). unfold perform. cbn. rewrite add_release.
    set (v' := if acquires _ then _ else _).
    assert (Hv : (by_prod (observed h Prod) <= by_prod v')%nat) by (unfold v'; destruct (acquires _); cbn; lia).
    split; cbn; try done.
    + intros k. rewrite Zlen_snoc. intros Hk. destruct (decide (k = Zlen sent)) as [->|Hne].
      * exists n. split; [done|lia].
      * destruct (Hs k) as (m & Hm & Hml); [cbn; lia|]. exists m. split; [done|lia].
    + intros i m Hm. destruct (Hg i m Hm); [by left|right; lia].
Qed.

Lemma ordered_cons input p c c' q q' h :
  spsc_inv input q p c -> ordered p c q h -> cons_step c q = Ok (c', q') ->
  ordered p c' q' (perform Cons (cons_access os c) h).
Proof.
  intros Hi [Hs Hp Hc Ho Hg] Hcs. pose proof (prod_room _ _ _ _ Hi) as Hroom.
  pose proof (fun k => next_slot_free _ _ _ _ k Hi) as Hfree.
  pose proof (cons_some _ _ _ _ Hi) as Hsome.
  destruct Hi as [Hcap Hnum Hbd _ _ [_ Hpk] [_ Hck] _ _].
  destruct c as [pc got]. unfold cons_access, cons_ordered, keeps_slot in *.
  cbn [cons_step c_pc c_got] in *.
  assert (Hle : forall i n, read_at h !! i = Some n -> (n <= S (by_cons (observed h Cons)))%nat).
  { intros i n Hn. specialize (Ho i n Hn). lia. }
  destruct pc as [| |i|v|v|v r|v].
  - destruct (Z.ltb_spec 0 (numElements_ q)); injection Hcs as <- <-; split; cbn; try done.
    + destruct (Hs (Zlen got)) as (n & Hn & Hl); [lia|]. exists n. split; [done|lia].
    + intros j n Hn. specialize (Hle j n Hn). lia.
    + intros j n Hn. specialize (Hle j n Hn). lia.
  - injection Hcs as <- <-. split; cbn; try done.
    + destruct Hc as (n & Hn & Hl). exists n. split; [done|lia].
    + intros j n Hn. specialize (Hle j n Hn). lia.
  - destruct Hck as [Hpos ->]. injection Hcs as <- <-. split; cbn; try done.
    + unfold prod_ordered in *. destruct (p_pc p); try done; cbn in *;
        (intros n; rewrite lookup_insert_ne; [apply Hp|intros E; symmetry in E; revert E; apply Hfree; [by apply Hroom|lia]]).
    + intros j n. rewrite lookup_insert. case_decide; [intros [= <-]; lia|apply Hle].
    + intros j n. rewrite lookup_insert. case_decide; [by left|]. intros Hn.
      destruct (Hg j n Hn); [done|by right].
  - destruct (Z.ltb_spec 0 (numElements_ q)); [|done]. injection Hcs as <- <-. split; cbn; try done.
    intros j n Hn. specialize (Hle j n Hn). lia.
  - injection Hcs as <- <-. split; cbn; try done. intros j n Hn. specialize (Hle j n Hn). lia.
  - injection Hcs as <- <-. by split.
  - injection Hcs as <- <-. unfold perform. cbn. rewrite sub_release.
    set (v' := if acquires _ then _ else _).
    assert (Hv : (by_cons (observed h Cons) <= by_cons v')%nat) by (unfold v'; destruct (acquires _); cbn; lia).
    split; cbn; try done.
    + intros k. rewrite Zlen_snoc. intros Hk. destruct (Hs k) as (n & Hn & Hl); [lia|].
      exists n. split; [done|lia].
    + intros j n Hn. specialize (Ho j n Hn). lia.
    + intros j n Hn. right. specialize (Ho j n Hn). lia.
Qed.

End Released.

(** ** The two results *)
Section Results.
Context {T : Type} `{Default T}.
Implicit Types (s : hconf T).

(** C15. As written, every successful pop is a data race.  numElements_ is updated
    with relaxed operations, and the two indices are each used by one thread only,
    so no access of one thread ever happens before an access of the other: in every
    execution of one producer and one consumer, whenever the consumer is about to
    copy a slot, the producer's write of that slot does not happen before the
    copy; and whenever the producer is about to write a slot that was read before,
    that read does not happen before the write. *)
Theorem relaxed_count_races cap (input : list T) s :
  0 < cap < 2 ^ 64 -> rtc (hstep code_orders) (hinit cap input) s ->
  (forall i, reading (h_cons s) = Some i -> races Cons (cons_access code_orders (h_cons s)) (h_hist s)) /\
  (forall i, writing (h_prod s) = Some i -> is_Some (read_at (h_hist s) !! i) ->
     races Prod (prod_access code_orders (h_prod s)) (h_hist s)).
Proof.
  intros Hc Hr. pose proof (hreach_spsc code_orders cap input s Hc Hr) as Hi.
  assert (Hu : unordered (h_hist s)).
  { revert Hr. apply (hreach_ind code_orders (fun s => unordered (h_hist s))); [by split|].
    intros s1 s2 Hu Hst. destruct Hst; [by apply unordered_prod|by apply unordered_cons]. }
  assert (Hw : slots_written s).
  { apply (hreach_ind code_orders (fun s =>
      spsc_inv input (h_queue s) (h_prod s) (h_cons s) /\ slots_written s) cap input); [..|exact Hr].
    - split; [by apply spsc_inv_init|]. split; [cbn; lia|done].
    - intros s1 s2 [Hi1 Hw1] Hst. split; [|by eapply slots_written_step].
      destruct Hst; [by eapply spsc_prod_step|by eapply spsc_cons_step]. }
  destruct Hu as [Hp Hco _ _ _ Hwp Hrp]. split.
  - intros i Hi'. pose proof (cons_some _ _ _ _ Hi) as Hsome. destruct Hi as [_ _ _ _ _ _ [_ Hck] _ _].
    unfold reading, cons_access in *. destruct (c_pc (h_cons s)) as [| |j| | | |]; try done.
    destruct Hck as [_ ->]. specialize (Hsome ltac:(done)). unfold races. rewrite Hco.
    destruct Hw as [Hk _]. destruct (Hk (length (c_got (h_cons s)))) as [n Hn]; [unfold Zlen in Hsome; lia|].
    exists n. split; [exact Hn|by eapply Hwp].
  - intros i Hi' [n Hn]. unfold writing, prod_access in *. destruct (p_pc (h_prod s)); try done.
    injection Hi' as ->. exists n. rewrite Hp. split; [done|by eapply Hrp].
Qed.

(** Releasing the count would be enough: a statement about the queue with other
    memory orders than the code's.  If the two fetch operations on numElements_
    had release order, whatever else they did, no execution of one producer and one
    consumer would have a data race on a slot: every copy of a slot is after the
    write of its value, and every write of a slot after the last copy of it. *)
Theorem release_count_orders_slots os cap (input : list T) s :
  releases (order_add os) = true -> releases (order_sub os) = true ->
  0 < cap < 2 ^ 64 -> rtc (hstep os) (hinit cap input) s ->
  ~ races Cons (cons_access os (h_cons s)) (h_hist s) /\
  ~ races Prod (prod_access os (h_prod s)) (h_hist s).
Proof.
  intros Ha Hsu Hc Hr.
  assert (Hinv : spsc_inv input (h_queue s) (h_prod s) (h_cons s) /\
    ordered (h_prod s) (h_cons s) (h_queue s) (h_hist s)).
  { revert Hr. apply (hreach_ind os (fun s => spsc_inv input (h_queue s) (h_prod s) (h_cons s) /\
      ordered (h_prod s) (h_cons s) (h_queue s) (h_hist s))).
    - split; [by apply spsc_inv_init|]. split; cbn; try done. intros k Hk. cbn in Hk. lia.
    - intros s1 s2 [Hi Ho] Hst. destruct Hst; (split; [|by eapply ordered_prod || by eapply ordered_cons]);
        [by eapply spsc_prod_step|by eapply spsc_cons_step]. }
  destruct Hinv as [[_ _ _ _ _ [_ Hpk] [_ Hck] _ _] [_ Hp Hco _ _]]. split.
  - unfold cons_access, cons_ordered in *. destruct (c_pc (h_cons s)); try (intros []; fail).
    destruct Hck as [_ ->]. destruct Hco as (n & Hn & Hle). intros (m & Hm & Hlt).
    rewrite Hn in Hm. injection Hm as <-. lia.
  - unfold prod_access, prod_ordered in *. destruct (p_pc (h_prod s)); try (intros []; fail).
    destruct Hpk as [_ ->]. intros (n & Hn & Hlt). specialize (Hp n Hn). lia.
Qed.

End Results.

(** ** Schedules *)
Section Schedules.
Context {T : Type} `{Default T} (os : orders).

Fixpoint hrun (sch : list thread) (s : hconf T) : option (hconf T) :=
  match sch with
  | [] => Some s
  | Prod :: sch' =>
      '(p', q') ← prod_step (h_prod s) (h_queue s);
      hrun sch' (mkHConf p' (h_cons s) q' (perform Prod (prod_access os (h_prod s)) (h_hist s)))
  | Cons :: sch' =>
      match cons_step (h_cons s) (h_queue s) with
      | Ok (c', q') =>
          hrun sch' (mkHConf (h_prod s) c' q' (perform Cons (cons_access os (h_cons s)) (h_hist s)))
      | Err _ => None
      end
  end.

Lemma hrun_reach sch : forall s s', hrun sch s = Some s' -> rtc (hstep os) s s'.
Proof.
  induction sch as [|[] sch IH]; intros [p c q h] s'; cbn.
  - intros [= <-]. apply rtc_refl.
  - destruct (prod_step p q) as [[p' q']|] eqn:Ep; cbn; [|done].
    intros Hr%IH. eapply rtc_l; [by apply hstep_prod|done].
  - destruct (cons_step c q) as [[c' q']|] eqn:Ec; [|done].
    intros Hr%IH. eapply rtc_l; [by apply hstep_cons|done].
Qed.

End Schedules.

(** *** Witnesses: one push, then a pop up to its copy of the slot *)
Definition push_then_read : list thread := replicate 6 Prod ++ replicate 2 Cons.

Example relaxed_count_races_witness :
  exists s : hconf Z, rtc (hstep code_orders) (hinit 2 [7]) s /\ reading (h_cons s) = Some 0 /\
    races Cons (cons_access code_orders (h_cons s)) (h_hist s).
Proof.
  assert (Hr : exists s : hconf Z, rtc (hstep code_orders) (hinit 2 [7]) s /\ reading (h_cons s) = Some 0).
  { eexists. split; [apply (hrun_reach _ push_then_read); vm_compute; reflexivity|reflexivity]. }
  destruct Hr as (s & Hr & Hrd). exists s. split; [exact Hr|]. split; [exact Hrd|].
  destruct (relaxed_count_races 2 [7] s) as [Hraces _]; [lia|exact Hr|]. exact (Hraces 0 Hrd).
Defined.

Example release_count_orders_slots_witness :
  exists s : hconf Z, rtc (hstep (mkOrders release release)) (hinit 2 [7]) s /\
    reading (h_cons s) = Some 0 /\
    ~ races Cons (cons_access (mkOrders release release) (h_cons s)) (h_hist s).
Proof.
  assert (Hr : exists s : hconf Z, rtc (hstep (mkOrders release release)) (hinit 2 [7]) s /\
    reading (h_cons s) = Some 0).
  { eexists. split; [apply (hrun_reach _ push_then_read); vm_compute; reflexivity|reflexivity]. }
  destruct Hr as (s & Hr & Hrd). exists s. split; [exact Hr|]. split; [exact Hrd|].
  destruct (release_count_orders_slots (mkOrders release release) 2 [7] s) as [Hraces _];
    [reflexivity|reflexivity|lia|exact Hr|]. exact Hraces.
Defined.
