(* ===== verification/Types.v ===== *)
(** Identifiers, limits and enumerations of src/src/core/exchange/types.h, and
    the wire representation shared by the packed message structs.

    An enum class with a fixed underlying type can hold every value of that
    type, so [Side.t] has a constructor for the values without a name. *)

From S2P Require Import Prelude.

(** ** Limits (namespace Types) *)
Definition IS_TEST_SUITE : bool := false.
Definition OME_SIZE : Z := if IS_TEST_SUITE then 16 else 256.
Definition MAX_TICKERS : Z := 8.
Definition MAX_CLIENT_UPDATES : Z := OME_SIZE * 1024.
Definition MAX_MARKET_UPDATES : Z := OME_SIZE * 1024.
Definition MAX_N_CLIENTS : Z := OME_SIZE.
Definition MAX_ORDER_IDS : Z := 1024 * 1024.
Definition MAX_PRICE_LEVELS : Z := OME_SIZE.
Definition MAX_PENDING_ORDER_REQUESTS : Z := 1024.

(** ** Identifier types: unsigned of the given width, except Price (int64) *)
Definition OrderID_INVALID : Z := maxU 64.
Definition TickerID_INVALID : Z := maxU 32.
Definition ClientID_INVALID : Z := maxU 32.
Definition Price_INVALID : Z := maxS 64.
Definition Qty_INVALID : Z := maxU 32.
Definition Priority_INVALID : Z := maxU 64.

(** numericToStr<T>: [invalid] is INVALID_ID<T>. *)
Definition numericToStr (invalid id : Z) : string :=
  if id =? invalid then "INVALID" else pretty id.
Definition orderIdToStr : Z -> string := numericToStr OrderID_INVALID.
Definition tickerIdToStr : Z -> string := numericToStr TickerID_INVALID.
Definition clientIdToStr : Z -> string := numericToStr ClientID_INVALID.
Definition priceToStr : Z -> string := numericToStr Price_INVALID.
Definition qtyToStr : Z -> string := numericToStr Qty_INVALID.
Definition priorityToStr : Z -> string := numericToStr Priority_INVALID.

Module Side.
Inductive t :=
  | INVALID
  | BUY
  | SELL
  | OTHER (z : Z).

#[export] Instance eq_dec : EqDecision t.
Proof. solve_decision. Defined.

Definition to_Z (s : t) : Z :=
  match s with INVALID => 0 | BUY => 1 | SELL => -1 | OTHER z => z end.
Definition of_Z (z : Z) : t :=
  if z =? 0 then INVALID else if z =? 1 then BUY else if z =? -1 then SELL else OTHER z.
Definition valid (s : t) : Prop :=
  match s with OTHER z => minS 8 <= z <= maxS 8 /\ z <> 0 /\ z <> 1 /\ z <> -1 | _ => True end.
End Side.
Export (hints) Side.

Definition sideToStr (s : Side.t) : string :=
  match s with
  | Side.BUY => "BUY"
  | Side.SELL => "SELL"
  | Side.INVALID => "INVALID"
  | Side.OTHER _ => "UNKNOWN"
  end.

(** ** Little-endian bytes

    A byte is a [Z] in [[0, 256)].  [le_bytes n z] is the object representation
    of the low [n] bytes of [z]. *)
Definition is_byte (b : Z) : Prop := 0 <= b < 256.

Fixpoint le_bytes (n : nat) (z : Z) : list Z :=
  match n with
  | O => []
  | S n' => u8 z :: le_bytes n' (Z.shiftr z 8)
  end.

Fixpoint le_value (bs : list Z) : Z :=
  match bs with
  | [] => 0
  | b :: bs' => b + Z.shiftl (le_value bs') 8
  end.

(** Reading the next [n]-byte unsigned field of a buffer. *)
Definition field (n : nat) : M (list Z) Z := fun bs =>
  if (n <=? length bs)%nat then Ok (le_value (take n bs), drop n bs) else Err OutOfBounds.

(** A packed struct: its size, its representation, its reading from a buffer,
    and the laws that make the cast between buffer and struct meaningful. *)
Class Wire (A : Type) := {
  wire_size : nat;
  wire_ok : A -> Prop;
  encode : A -> list Z;
  decode : M (list Z) A;
  encode_length a : length (encode a) = wire_size;
  encode_bytes a : Forall is_byte (encode a);
  decode_encode a rest : wire_ok a -> decode (encode a ++ rest) = Ok (a, rest);
  encode_decode a bs rest :
    Forall is_byte bs -> decode bs = Ok (a, rest) -> bs = encode a ++ rest /\ wire_ok a;
}.

Section LittleEndian.

Lemma length_le_bytes n : forall z, length (le_bytes n z) = n.
Proof. induction n as [|n IH]; intros z; cbn; [done|]. by rewrite IH. Qed.

Lemma le_bytes_byte n : forall z, Forall is_byte (le_bytes n z).
Proof.
  induction n as [|n IH]; intros z; cbn; [done|]. constructor; [|done].
  unfold is_byte. pose proof (wrapU_range 8 z). lia.
Qed.

Lemma le_value_bytes n : forall z, le_value (le_bytes n z) = wrapU (8 * Z.of_nat n) z.
Proof.
  induction n as [|n IH]; intros z; cbn [le_bytes le_value].
  - unfold wrapU. by rewrite Z.mod_1_r.
  - rewrite IH. unfold wrapU. rewrite Z.shiftl_mul_pow2, Z.shiftr_div_pow2 by lia.
    replace (8 * Z.of_nat (S n)) with (8 + 8 * Z.of_nat n) by lia.
    rewrite Z.pow_add_r by lia. rewrite Z.rem_mul_r by lia. lia.
Qed.

Lemma le_value_range bs : Forall is_byte bs -> 0 <= le_value bs < 2 ^ (8 * Z.of_nat (length bs)).
Proof.
  induction 1 as [|b bs Hb Hbs IH]; [cbn; lia|].
  cbn [le_value length]. rewrite Z.shiftl_mul_pow2 by lia.
  replace (8 * Z.of_nat (S (length bs))) with (8 + 8 * Z.of_nat (length bs)) by lia.
  rewrite Z.pow_add_r by lia. unfold is_byte in Hb. lia.
Qed.

Lemma le_bytes_value bs : Forall is_byte bs -> le_bytes (length bs) (le_value bs) = bs.
Proof.
  induction 1 as [|b bs Hb Hbs IH]; [done|]. unfold is_byte in Hb.
  cbn [length le_bytes le_value]. rewrite Z.shiftl_mul_pow2, Z.shiftr_div_pow2 by lia.
  unfold wrapU. rewrite Z_mod_plus_full, Z.mod_small by lia.
  rewrite Z.div_add, Z.div_small, Z.add_0_l, IH by lia. done.
Qed.

Lemma field_bytes n z rest :
  field n (le_bytes n z ++ rest) = Ok (wrapU (8 * Z.of_nat n) z, rest).
Proof.
  unfold field. rewrite length_app, length_le_bytes.
  destruct (Nat.leb_spec n (n + length rest)%nat); [|lia].
  rewrite take_app_length', drop_app_length' by (by rewrite length_le_bytes).
  by rewrite le_value_bytes.
Qed.

Lemma field_inv n bs z rest :
  Forall is_byte bs -> field n bs = Ok (z, rest) ->
  bs = le_bytes n z ++ rest /\ 0 <= z < 2 ^ (8 * Z.of_nat n) /\ Forall is_byte rest.
Proof.
  intros Hbs. unfold field. destruct (Nat.leb_spec n (length bs)); [|done].
  intros [= <- <-].
  assert (Hl : length (take n bs) = n) by (rewrite length_take; lia).
  assert (Ht : Forall is_byte (take n bs)) by (by apply Forall_take).
  split_and!.
  - pose proof (le_bytes_value _ Ht) as He. rewrite Hl in He. by rewrite He, take_drop.
  - by apply le_value_range.
  - pose proof (le_value_range _ Ht) as Hr. rewrite Hl in Hr. lia.
  - by apply Forall_drop.
Qed.

Lemma field_short n bs : (length bs < n)%nat -> field n bs = Err OutOfBounds.
Proof. intros Hl. unfold field. by destruct (Nat.leb_spec n (length bs)); [lia|]. Qed.

Lemma le_bytes_wrapU n z : le_bytes n (wrapU (8 * Z.of_nat n) z) = le_bytes n z.
Proof.
  pose proof (le_bytes_value (le_bytes n z) (le_bytes_byte n z)) as He.
  by rewrite length_le_bytes, le_value_bytes in He.
Qed.

Lemma le_bytes_wrapS n z :
  (0 < n)%nat -> le_bytes n (wrapS (8 * Z.of_nat n) z) = le_bytes n z.
Proof.
  intros Hn. rewrite <- le_bytes_wrapU, <- (le_bytes_wrapU n z). f_equal.
  unfold wrapU, wrapS. rewrite Zminus_mod_idemp_l. f_equal. lia.
Qed.

End LittleEndian.

Arguments le_bytes : simpl never.
Arguments field : simpl never.

Section Strings.

Lemma side_of_to s : Side.valid s -> Side.of_Z (Side.to_Z s) = s.
Proof.
  destruct s as [| | |z]; try done. intros (_ & ? & ? & ?). unfold Side.of_Z. cbn.
  by rewrite !(proj2 (Z.eqb_neq _ _)).
Qed.

Lemma side_to_of z : Side.to_Z (Side.of_Z z) = z.
Proof. unfold Side.of_Z. repeat case_match; cbn; lia. Qed.

Lemma side_of_valid z : minS 8 <= z <= maxS 8 -> Side.valid (Side.of_Z z).
Proof. intros Hz. unfold Side.of_Z. repeat case_match; cbn; try done; lia. Qed.

End Strings.
