(* ===== verification/Messages.v ===== *)
(** The messages of src/src/core/exchange/order_server_request.h,
    order_server_response.h and market_data.h: the packed structs, their
    default values, their printing and their layout on the wire
    (#pragma pack(push, 1): the fields in order, without padding). *)

From S2P Require Import Prelude Types.

Module RequestType.
Inductive t := INVALID | NEW | CANCEL | OTHER (z : Z).
#[export] Instance eq_dec : EqDecision t.
Proof. solve_decision. Defined.
Definition to_Z (x : t) : Z :=
  match x with INVALID => 0 | NEW => 1 | CANCEL => 2 | OTHER z => z end.
Definition of_Z (z : Z) : t :=
  if z =? 0 then INVALID else if z =? 1 then NEW else if z =? 2 then CANCEL else OTHER z.
Definition valid (x : t) : Prop := match x with OTHER z => 2 < z < 256 | _ => True end.
Definition typeToStr (x : t) : string :=
  match x with
  | NEW => "NEW" | CANCEL => "CANCEL" | INVALID => "INVALID" | OTHER _ => "UNKNOWN"
  end.
End RequestType.

Module ResponseType.
Inductive t := INVALID | ACCEPTED | CANCELLED | FILLED | CANCEL_REJECTED | OTHER (z : Z).
#[export] Instance eq_dec : EqDecision t.
Proof. solve_decision. Defined.
Definition to_Z (x : t) : Z :=
  match x with
  | INVALID => 0 | ACCEPTED => 1 | CANCELLED => 2 | FILLED => 3 | CANCEL_REJECTED => 4
  | OTHER z => z
  end.
Definition of_Z (z : Z) : t :=
  if z =? 0 then INVALID else if z =? 1 then ACCEPTED else if z =? 2 then CANCELLED
  else if z =? 3 then FILLED else if z =? 4 then CANCEL_REJECTED else OTHER z.
Definition valid (x : t) : Prop := match x with OTHER z => 4 < z < 256 | _ => True end.
Definition typeToStr (x : t) : string :=
  match x with
  | ACCEPTED => "ACCEPTED" | CANCELLED => "CANCELLED" | FILLED => "FILLED"
  | CANCEL_REJECTED => "CANCEL_REJECTED" | INVALID => "INVALID" | OTHER _ => "UNKNOWN"
  end.
End ResponseType.

Module UpdateType.
Inductive t :=
  | INVALID | CLEAR | ADD | MODIFY | CANCEL | TRADE | SNAPSHOT_START | SNAPSHOT_END
  | OTHER (z : Z).
#[export] Instance eq_dec : EqDecision t.
Proof. solve_decision. Defined.
Definition to_Z (x : t) : Z :=
  match x with
  | INVALID => 0 | CLEAR => 1 | ADD => 2 | MODIFY => 3 | CANCEL => 4 | TRADE => 5
  | SNAPSHOT_START => 6 | SNAPSHOT_END => 7 | OTHER z => z
  end.
Definition of_Z (z : Z) : t :=
  if z =? 0 then INVALID else if z =? 1 then CLEAR else if z =? 2 then ADD
  else if z =? 3 then MODIFY else if z =? 4 then CANCEL else if z =? 5 then TRADE
  else if z =? 6 then SNAPSHOT_START else if z =? 7 then SNAPSHOT_END else OTHER z.
Definition valid (x : t) : Prop := match x with OTHER z => 7 < z < 256 | _ => True end.
Definition typeToStr (x : t) : string :=
  match x with
  | CLEAR => "CLEAR" | ADD => "ADD" | MODIFY => "MODIFY" | CANCEL => "CANCEL"
  | TRADE => "TRADE" | SNAPSHOT_START => "SNAPSHOT_START" | SNAPSHOT_END => "SNAPSHOT_END"
  | INVALID => "INVALID" | OTHER _ => "UNKNOWN"
  end.
End UpdateType.
Export (hints) RequestType ResponseType UpdateType.

(** ** The structs *)
Record OMEClientRequest := mkRequest {
  rq_type : RequestType.t;
  rq_clientId : Z;
  rq_tickerId : Z;
  rq_orderId : Z;
  rq_side : Side.t;
  rq_price : Z;
  rq_qty : Z;
}.

Record OGSClientRequest := mkOGSRequest {
  og_nSeq : Z;
  og_omeRequest : OMEClientRequest;
}.

Record OMEClientResponse := mkResponse {
  rs_type : ResponseType.t;
  rs_clientId : Z;
  rs_tickerId : Z;
  rs_clientOrderId : Z;
  rs_marketOrderId : Z;
  rs_side : Side.t;
  rs_price : Z;
  rs_qtyExec : Z;
  rs_qtyRemain : Z;
}.

Record OGSClientResponse := mkOGSResponse {
  ogr_nSeq : Z;
  ogr_omeResponse : OMEClientResponse;
}.

Record OMEMarketUpdate := mkUpdate {
  mu_type : UpdateType.t;
  mu_orderId : Z;
  mu_tickerId : Z;
  mu_side : Side.t;
  mu_price : Z;
  mu_qty : Z;
  mu_priority : Z;
}.

Record MDPMarketUpdate := mkMDPUpdate {
  mdp_nSeq : Z;
  mdp_omeUpdate : OMEMarketUpdate;
}.

#[export] Instance OMEClientRequest_eq_dec : EqDecision OMEClientRequest.
Proof. solve_decision. Defined.
#[export] Instance OMEClientResponse_eq_dec : EqDecision OMEClientResponse.
Proof. solve_decision. Defined.
#[export] Instance OMEMarketUpdate_eq_dec : EqDecision OMEMarketUpdate.
Proof. solve_decision. Defined.

(** The default member initialisers. *)
#[export] Instance OMEClientRequest_default : Default OMEClientRequest :=
  mkRequest RequestType.INVALID ClientID_INVALID TickerID_INVALID OrderID_INVALID
            Side.INVALID Price_INVALID Qty_INVALID.
#[export] Instance OMEClientResponse_default : Default OMEClientResponse :=
  mkResponse ResponseType.INVALID ClientID_INVALID TickerID_INVALID OrderID_INVALID
             OrderID_INVALID Side.INVALID Price_INVALID Qty_INVALID Qty_INVALID.
#[export] Instance OMEMarketUpdate_default : Default OMEMarketUpdate :=
  mkUpdate UpdateType.INVALID OrderID_INVALID TickerID_INVALID Side.INVALID Price_INVALID
           Qty_INVALID Priority_INVALID.

(** ** Printing *)
Open Scope string_scope.

Definition OMEClientRequest_toStr (r : OMEClientRequest) : string :=
  "<OMEClientRequest> [type: " +:+ RequestType.typeToStr (rq_type r)
  +:+ ", clientId: " +:+ clientIdToStr (rq_clientId r)
  +:+ ", tickerId: " +:+ tickerIdToStr (rq_tickerId r)
  +:+ ", orderId: " +:+ orderIdToStr (rq_orderId r)
  +:+ ", side: " +:+ sideToStr (rq_side r)
  +:+ ", price: " +:+ priceToStr (rq_price r)
  +:+ ", qty: " +:+ qtyToStr (rq_qty r) +:+ "]".

(** nSeq is formatted by std::format itself. *)
Definition OGSClientRequest_toStr (r : OGSClientRequest) : string :=
  "<OGSClientRequest> [nSeq: " +:+ pretty (og_nSeq r)
  +:+ ", omeRequest: " +:+ OMEClientRequest_toStr (og_omeRequest r) +:+ "]".

Definition OMEClientResponse_toStr (r : OMEClientResponse) : string :=
  "<OMEClientResponse> [type: " +:+ ResponseType.typeToStr (rs_type r)
  +:+ ", client: " +:+ clientIdToStr (rs_clientId r)
  +:+ ", ticker: " +:+ tickerIdToStr (rs_tickerId r)
  +:+ ", oid_client: " +:+ orderIdToStr (rs_clientOrderId r)
  +:+ ", oid_market: " +:+ orderIdToStr (rs_marketOrderId r)
  +:+ ", side: " +:+ sideToStr (rs_side r)
  +:+ ", qty_exec: " +:+ qtyToStr (rs_qtyExec r)
  +:+ ", qty_remain: " +:+ qtyToStr (rs_qtyRemain r)
  +:+ ", price: " +:+ priceToStr (rs_price r) +:+ "]".

Definition OGSClientResponse_toString (r : OGSClientResponse) : string :=
  "<OGSClientResponse> [n: " +:+ pretty (ogr_nSeq r)
  +:+ ", " +:+ OMEClientResponse_toStr (ogr_omeResponse r) +:+ "]".

Definition OMEMarketUpdate_toStr (u : OMEMarketUpdate) : string :=
  "<OMEMarketUpdate> [type: " +:+ UpdateType.typeToStr (mu_type u)
  +:+ ", ticker: " +:+ tickerIdToStr (mu_tickerId u)
  +:+ ", oid: " +:+ orderIdToStr (mu_orderId u)
  +:+ ", side: " +:+ sideToStr (mu_side u)
  +:+ ", qty: " +:+ qtyToStr (mu_qty u)
  +:+ ", price: " +:+ priceToStr (mu_price u)
  +:+ ", priority: " +:+ priorityToStr (mu_priority u) +:+ "]".

Definition MDPMarketUpdate_toStr (u : MDPMarketUpdate) : string :=
  "<MDPMarketUpdate> [nSeq: " +:+ pretty (mdp_nSeq u)
  +:+ ", " +:+ OMEMarketUpdate_toStr (mdp_omeUpdate u) +:+ "]".

Close Scope string_scope.

(** ** Wire layout *)
Definition in_u (w z : Z) : Prop := 0 <= z < 2 ^ w.
Definition in_s64 (z : Z) : Prop := minS 64 <= z <= maxS 64.

Definition request_ok (r : OMEClientRequest) : Prop :=
  RequestType.valid (rq_type r) /\ in_u 32 (rq_clientId r) /\ in_u 32 (rq_tickerId r) /\
  in_u 64 (rq_orderId r) /\ Side.valid (rq_side r) /\ in_s64 (rq_price r) /\ in_u 32 (rq_qty r).

Definition request_encode (r : OMEClientRequest) : list Z :=
  le_bytes 1 (RequestType.to_Z (rq_type r)) ++ le_bytes 4 (rq_clientId r) ++
  le_bytes 4 (rq_tickerId r) ++ le_bytes 8 (rq_orderId r) ++
  le_bytes 1 (Side.to_Z (rq_side r)) ++ le_bytes 8 (rq_price r) ++ le_bytes 4 (rq_qty r).

Definition request_decode : M (list Z) OMEClientRequest :=
  ty ← field 1; cid ← field 4; tid ← field 4; oid ← field 8;
  sd ← field 1; px ← field 8; qt ← field 4;
  mret (mkRequest (RequestType.of_Z ty) cid tid oid (Side.of_Z (s8 sd)) (s64 px) qt).

Definition ogs_request_ok (r : OGSClientRequest) : Prop :=
  in_u 64 (og_nSeq r) /\ request_ok (og_omeRequest r).
Definition ogs_request_encode (r : OGSClientRequest) : list Z :=
  le_bytes 8 (og_nSeq r) ++ request_encode (og_omeRequest r).
Definition ogs_request_decode : M (list Z) OGSClientRequest :=
  n ← field 8; r ← request_decode; mret (mkOGSRequest n r).

Definition response_ok (r : OMEClientResponse) : Prop :=
  ResponseType.valid (rs_type r) /\ in_u 32 (rs_clientId r) /\ in_u 32 (rs_tickerId r) /\
  in_u 64 (rs_clientOrderId r) /\ in_u 64 (rs_marketOrderId r) /\ Side.valid (rs_side r) /\
  in_s64 (rs_price r) /\ in_u 32 (rs_qtyExec r) /\ in_u 32 (rs_qtyRemain r).

Definition response_encode (r : OMEClientResponse) : list Z :=
  le_bytes 1 (ResponseType.to_Z (rs_type r)) ++ le_bytes 4 (rs_clientId r) ++
  le_bytes 4 (rs_tickerId r) ++ le_bytes 8 (rs_clientOrderId r) ++
  le_bytes 8 (rs_marketOrderId r) ++ le_bytes 1 (Side.to_Z (rs_side r)) ++
  le_bytes 8 (rs_price r) ++ le_bytes 4 (rs_qtyExec r) ++ le_bytes 4 (rs_qtyRemain r).

Definition response_decode : M (list Z) OMEClientResponse :=
  ty ← field 1; cid ← field 4; tid ← field 4; coid ← field 8; moid ← field 8;
  sd ← field 1; px ← field 8; qe ← field 4; qr ← field 4;
  mret (mkResponse (ResponseType.of_Z ty) cid tid coid moid (Side.of_Z (s8 sd)) (s64 px) qe qr).

Definition update_ok (u : OMEMarketUpdate) : Prop :=
  UpdateType.valid (mu_type u) /\ in_u 64 (mu_orderId u) /\ in_u 32 (mu_tickerId u) /\
  Side.valid (mu_side u) /\ in_s64 (mu_price u) /\ in_u 32 (mu_qty u) /\ in_u 64 (mu_priority u).

Definition update_encode (u : OMEMarketUpdate) : list Z :=
  le_bytes 1 (UpdateType.to_Z (mu_type u)) ++ le_bytes 8 (mu_orderId u) ++
  le_bytes 4 (mu_tickerId u) ++ le_bytes 1 (Side.to_Z (mu_side u)) ++
  le_bytes 8 (mu_price u) ++ le_bytes 4 (mu_qty u) ++ le_bytes 8 (mu_priority u).

Definition update_decode : M (list Z) OMEMarketUpdate :=
  ty ← field 1; oid ← field 8; tid ← field 4; sd ← field 1; px ← field 8; qt ← field 4;
  pr ← field 8;
  mret (mkUpdate (UpdateType.of_Z ty) oid tid (Side.of_Z (s8 sd)) (s64 px) qt pr).

Section RoundTrip.

Lemma rqtype_of_to x : RequestType.valid x -> RequestType.of_Z (RequestType.to_Z x) = x.
Proof.
  destruct x as [| | |z]; try done. cbn. intros Hz. unfold RequestType.of_Z.
  by rewrite !(proj2 (Z.eqb_neq _ _)) by lia.
Qed.
Lemma rqtype_to_of z : RequestType.to_Z (RequestType.of_Z z) = z.
Proof. unfold RequestType.of_Z. repeat case_match; cbn; lia. Qed.
Lemma rqtype_valid z : 0 <= z < 256 -> RequestType.valid (RequestType.of_Z z).
Proof. intros. unfold RequestType.of_Z. repeat case_match; cbn; try done; lia. Qed.
Lemma rqtype_range x : RequestType.valid x -> 0 <= RequestType.to_Z x < 256.
Proof. destruct x; cbn; lia. Qed.

Lemma rstype_of_to x : ResponseType.valid x -> ResponseType.of_Z (ResponseType.to_Z x) = x.
Proof.
  destruct x as [| | | | |z]; try done. cbn. intros Hz. unfold ResponseType.of_Z.
  by rewrite !(proj2 (Z.eqb_neq _ _)) by lia.
Qed.
Lemma rstype_to_of z : ResponseType.to_Z (ResponseType.of_Z z) = z.
Proof. unfold ResponseType.of_Z. repeat case_match; cbn; lia. Qed.
Lemma rstype_valid z : 0 <= z < 256 -> ResponseType.valid (ResponseType.of_Z z).
Proof. intros. unfold ResponseType.of_Z. repeat case_match; cbn; try done; lia. Qed.
Lemma rstype_range x : ResponseType.valid x -> 0 <= ResponseType.to_Z x < 256.
Proof. destruct x; cbn; lia. Qed.

Lemma mutype_of_to x : UpdateType.valid x -> UpdateType.of_Z (UpdateType.to_Z x) = x.
Proof.
  destruct x as [| | | | | | | |z]; try done. cbn. intros Hz. unfold UpdateType.of_Z.
  by rewrite !(proj2 (Z.eqb_neq _ _)) by lia.
Qed.
Lemma mutype_to_of z : UpdateType.to_Z (UpdateType.of_Z z) = z.
Proof. unfold UpdateType.of_Z. repeat case_match; cbn; lia. Qed.
Lemma mutype_valid z : 0 <= z < 256 -> UpdateType.valid (UpdateType.of_Z z).
Proof. intros. unfold UpdateType.of_Z. repeat case_match; cbn; try done; lia. Qed.
Lemma mutype_range x : UpdateType.valid x -> 0 <= UpdateType.to_Z x < 256.
Proof. destruct x; cbn; lia. Qed.

Lemma wrapS_wrapU_small w z :
  1 <= w -> minS w <= z <= maxS w -> wrapS w (wrapU w z) = z.
Proof. intros. rewrite wrapS_wrapU by done. by apply wrapS_small. Qed.

Lemma side_wire s : Side.valid s -> Side.of_Z (s8 (wrapU 8 (Side.to_Z s))) = s.
Proof.
  intros Hs. rewrite wrapS_wrapU_small; [by apply side_of_to|lia|].
  unfold minS, maxS. destruct s; cbn in *; unfold minS, maxS in *; lia.
Qed.

End RoundTrip.

(** Decoding what was encoded: consume the fields one by one. *)
Ltac wire_fwd :=
  rewrite <- ?app_assoc;
  repeat (erewrite bind_ok; [|apply field_bytes]);
  cbn [Z.of_nat Pos.of_succ_nat Pos.succ Z.mul Pos.mul Pos.add];
  cbv [mret M_ret]; do 2 f_equal.

(** Encoding what was decoded: the buffer splits field by field. *)
Ltac wire_inv :=
  repeat match goal with
    | H : (_ ≫= _) _ = Ok _ |- _ =>
        let z := fresh "z" in let r := fresh "r" in let H1 := fresh "Hf" in
        apply bind_inv in H as (z & r & H1 & H)
    | Hb : Forall is_byte ?bs, H : field _ ?bs = Ok (_, _) |- _ =>
        let H1 := fresh "Hs" in let H2 := fresh "Hr" in let H3 := fresh "Hb" in
        apply (field_inv _ _ _ _ Hb) in H as (H1 & H2 & H3); clear Hb
    end.

Ltac wire_length := intros; by rewrite !length_app, !length_le_bytes.
Ltac wire_bytes := intros; rewrite !Forall_app; split_and!; apply le_bytes_byte.
Ltac wire_back :=
  cbv [mret M_ret] in *; simplify_eq; cbn;
  rewrite ?rqtype_to_of, ?rstype_to_of, ?mutype_to_of, ?side_to_of,
    ?(le_bytes_wrapS 1), ?(le_bytes_wrapS 8), <- ?app_assoc by lia;
  split; [done|];
  split_and?; try done;
  first [ by apply rqtype_valid | by apply rstype_valid | by apply mutype_valid
        | by apply side_of_valid, wrapS_range | by apply wrapS_range ].

Section WireInstances.

Lemma request_length r : length (request_encode r) = 30%nat.
Proof. unfold request_encode. wire_length. Qed.
Lemma request_bytes r : Forall is_byte (request_encode r).
Proof. unfold request_encode. wire_bytes. Qed.

Lemma request_decode_encode r rest :
  request_ok r -> request_decode (request_encode r ++ rest) = Ok (r, rest).
Proof.
  destruct r. intros (H1 & H2 & H3 & H4 & H5 & H6 & H7). cbn in *.
  unfold request_encode, request_decode. cbn [rq_type rq_clientId rq_tickerId rq_orderId
    rq_side rq_price rq_qty]. wire_fwd.
  f_equal; try (by apply wrapU_small).
  - pose proof (rqtype_range _ H1). rewrite wrapU_small by lia. by apply rqtype_of_to.
  - by apply side_wire.
  - by apply wrapS_wrapU_small.
Qed.

Lemma request_encode_decode r bs rest :
  Forall is_byte bs -> request_decode bs = Ok (r, rest) ->
  bs = request_encode r ++ rest /\ request_ok r.
Proof.
  intros Hb Hd. unfold request_decode in Hd. wire_inv.
  unfold request_encode, request_ok. wire_back.
Qed.

Lemma response_length r : length (response_encode r) = 42%nat.
Proof. unfold response_encode. wire_length. Qed.
Lemma response_bytes r : Forall is_byte (response_encode r).
Proof. unfold response_encode. wire_bytes. Qed.

Lemma response_decode_encode r rest :
  response_ok r -> response_decode (response_encode r ++ rest) = Ok (r, rest).
Proof.
  destruct r. intros (H1 & H2 & H3 & H4 & H5 & H6 & H7 & H8 & H9). cbn in *.
  unfold response_encode, response_decode. cbn [rs_type rs_clientId rs_tickerId
    rs_clientOrderId rs_marketOrderId rs_side rs_price rs_qtyExec rs_qtyRemain]. wire_fwd.
  f_equal; try (by apply wrapU_small).
  - pose proof (rstype_range _ H1). rewrite wrapU_small by lia. by apply rstype_of_to.
  - by apply side_wire.
  - by apply wrapS_wrapU_small.
Qed.

Lemma response_encode_decode r bs rest :
  Forall is_byte bs -> response_decode bs = Ok (r, rest) ->
  bs = response_encode r ++ rest /\ response_ok r.
Proof.
  intros Hb Hd. unfold response_decode in Hd. wire_inv.
  unfold response_encode, response_ok. wire_back.
Qed.

Lemma update_length u : length (update_encode u) = 34%nat.
Proof. unfold update_encode. wire_length. Qed.
Lemma update_bytes u : Forall is_byte (update_encode u).
Proof. unfold update_encode. wire_bytes. Qed.

Lemma update_decode_encode u rest :
  update_ok u -> update_decode (update_encode u ++ rest) = Ok (u, rest).
Proof.
  destruct u. intros (H1 & H2 & H3 & H4 & H5 & H6 & H7). cbn in *.
  unfold update_encode, update_decode. cbn [mu_type mu_orderId mu_tickerId mu_side
    mu_price mu_qty mu_priority]. wire_fwd.
  f_equal; try (by apply wrapU_small).
  - pose proof (mutype_range _ H1). rewrite wrapU_small by lia. by apply mutype_of_to.
  - by apply side_wire.
  - by apply wrapS_wrapU_small.
Qed.

Lemma update_encode_decode u bs rest :
  Forall is_byte bs -> update_decode bs = Ok (u, rest) ->
  bs = update_encode u ++ rest /\ update_ok u.
Proof.
  intros Hb Hd. unfold update_decode in Hd. wire_inv.
  unfold update_encode, update_ok. wire_back.
Qed.

Lemma ogs_request_length r : length (ogs_request_encode r) = 38%nat.
Proof. unfold ogs_request_encode. by rewrite length_app, length_le_bytes, request_length. Qed.
Lemma ogs_request_bytes r : Forall is_byte (ogs_request_encode r).
Proof.
  unfold ogs_request_encode. rewrite Forall_app.
  split; [apply le_bytes_byte|apply request_bytes].
Qed.

Lemma ogs_request_decode_encode r rest :
  ogs_request_ok r -> ogs_request_decode (ogs_request_encode r ++ rest) = Ok (r, rest).
Proof.
  destruct r as [n r]. intros (H1 & H2). cbn in *.
  unfold ogs_request_encode, ogs_request_decode. cbn [og_nSeq og_omeRequest].
  rewrite <- app_assoc. erewrite bind_ok by apply field_bytes.
  rewrite (bind_ok _ _ _ _ _ (request_decode_encode r rest H2)).
  cbv [mret M_ret]. do 3 f_equal. by apply wrapU_small.
Qed.

Lemma ogs_request_encode_decode r bs rest :
  Forall is_byte bs -> ogs_request_decode bs = Ok (r, rest) ->
  bs = ogs_request_encode r ++ rest /\ ogs_request_ok r.
Proof.
  intros Hb Hd. unfold ogs_request_decode in Hd.
  apply bind_inv in Hd as (n & bs1 & Hn & Hd). apply bind_inv in Hd as (q & bs2 & Hq & Hd).
  apply (field_inv _ _ _ _ Hb) in Hn as (-> & Hrg & Hb1).
  apply (request_encode_decode _ _ _ Hb1) in Hq as (-> & Hok).
  cbv [mret M_ret] in Hd. simplify_eq. unfold ogs_request_encode. cbn.
  by rewrite <- app_assoc.
Qed.

End WireInstances.

#[export] Instance request_wire : Wire OMEClientRequest :=
  Build_Wire _ 30 request_ok request_encode request_decode
    request_length request_bytes request_decode_encode request_encode_decode.
#[export] Instance response_wire : Wire OMEClientResponse :=
  Build_Wire _ 42 response_ok response_encode response_decode
    response_length response_bytes response_decode_encode response_encode_decode.
#[export] Instance update_wire : Wire OMEMarketUpdate :=
  Build_Wire _ 34 update_ok update_encode update_decode
    update_length update_bytes update_decode_encode update_encode_decode.
#[export] Instance ogs_request_wire : Wire OGSClientRequest :=
  Build_Wire _ 38 ogs_request_ok ogs_request_encode ogs_request_decode
    ogs_request_length ogs_request_bytes ogs_request_decode_encode ogs_request_encode_decode.

Lemma ogs_request_window bs :
  length bs = 38%nat -> Forall is_byte bs ->
  exists r, ogs_request_decode bs = Ok (r, []) /\ ogs_request_ok r /\ ogs_request_encode r = bs.
Proof.
  intros Hl Hb. do 38 (destruct bs as [|? bs]; [done|]). destruct bs; [|done].
  edestruct (ogs_request_decode _) as [[r rest]|] eqn:Hd; [|done].
  destruct (ogs_request_encode_decode _ _ _ Hb Hd) as [He Hok].
  pose proof (f_equal length He) as Hlen. rewrite length_app, ogs_request_length in Hlen.
  destruct rest; [|cbn in Hlen; lia]. rewrite app_nil_r in He. eauto.
Qed.

(** C27. The 38-byte buffer window the gateway casts to an OGSClientRequest and
    the struct determine each other: every window of bytes is a request (there
    is no parse error), reading what was written gives the request back, and
    writing what was read gives the window back. *)
Theorem ogs_request_wire_bijective :
  (forall r, ogs_request_ok r ->
     length (ogs_request_encode r) = 38%nat /\
     ogs_request_decode (ogs_request_encode r) = Ok (r, [])) /\
  (forall bs, length bs = 38%nat -> Forall is_byte bs ->
     exists r, ogs_request_decode bs = Ok (r, []) /\ ogs_request_ok r /\
               ogs_request_encode r = bs).
Proof.
  split.
  - intros r Hr. split; [apply ogs_request_length|].
    by rewrite <- (app_nil_r (ogs_request_encode r)), ogs_request_decode_encode.
  - apply ogs_request_window.
Qed.
