(* ===== verification/Logger.v ===== *)
(** The logger: src/src/lib/logger.h and logger.cpp.

    Logger::log enqueues an element; the logger thread drains the queue in
    batches, formats each element and appends the batch to the file.  The file is
    the text written so far.  The current time, std::to_string of floating point
    values and std::type_info::name are parameters ([LogEnv]). *)

From Stdlib Require Import Ascii String.
From S2P Require Import Prelude LFQueue.
#[local] Open Scope Z_scope.

Abbreviation text := (list ascii).
Abbreviation chars := list_ascii_of_string.

(** ** Data *)
Inductive LogLevel := DEBUG | INFO | WARNING | ERROR.

(** A std::any, by the static types the program logs or anyToString tests
    (Nanos is long on the LP64 targets); the values of floating point arguments
    are their bit patterns. *)
Inductive Any :=
  | AInt (z : Z)
  | ASize (z : Z)
  | ADouble (bits : Z)
  | ALong (z : Z)
  | AFloat (bits : Z)
  | AChar (c : ascii)
  | ABool (b : bool)
  | AString (s : string)
  | ACStr (s : string)
  | AUInt (z : Z)
  | AStringView (s : string).

Record LogElement := mkLog {
  lg_level : LogLevel;
  lg_formatString : string;
  lg_args : list Any;
}.
#[export] Instance LogElement_default : Default LogElement := mkLog DEBUG EmptyString [].

Class LogEnv := {
  double_to_string : Z -> string;
  float_to_string : Z -> string;
  type_name : Any -> string;
}.

Record Logger := mkLogger {
  logQueue_ : LFQueue LogElement;
  running_ : bool;
  logFile_ : text;
  logFile_good : bool;      (* the stream accepts output *)
  cerr_ : list string;      (* diagnostics *)
}.

Definition LOG_QUEUE_SIZE : Z := 8 * 1024 * 1024.

Definition newLogger (file : text) : Logger := mkLogger (newQueue LOG_QUEUE_SIZE) true file true [].

Definition set_logQueue (q : LFQueue LogElement) (l : Logger) : Logger :=
  mkLogger q (running_ l) (logFile_ l) (logFile_good l) (cerr_ l).
Definition set_logRunning (r : bool) (l : Logger) : Logger :=
  mkLogger (logQueue_ l) r (logFile_ l) (logFile_good l) (cerr_ l).

(** ** Operations *)
Section Operations.
Context `{LogEnv}.

(** Logger::log; the result of the push is ignored. *)
Definition logger_log (level : LogLevel) (formatString : string) (args : list Any) : M Logger unit :=
  _ ← zoom logQueue_ set_logQueue (push (mkLog level formatString args)); mret tt.

(** std::string{1, c} is the two-character string of code 1 and c. *)
Definition anyToString (arg : Any) : string :=
  match arg with
  | AInt z | ASize z | ALong z => pretty z
  | ADouble d => double_to_string d
  | AFloat d => float_to_string d
  | AChar c => String (ascii_of_nat 1) (String c EmptyString)
  | ABool b => if b then "true" else "false"
  | AString s | ACStr s => s
  | AUInt _ | AStringView _ => String.append "Unsupported type: " (type_name arg)
  end%string.

(** result.replace(i, 2, s) *)
Definition replace2 (result : text) (i : Z) (s : text) : text :=
  take (Z.to_nat i) result ++ s ++ drop (Z.to_nat i + 2) result.

Definition char_at (result : text) (i : Z) (c : ascii) : bool :=
  bool_decide (result !! Z.to_nat i = Some c).

Definition text_len (t : text) : Z := Z.of_nat (length t).

(** The for loop of formatMessage, one unit of fuel per iteration; i and the
    length arithmetic are size_t. *)
Fixpoint formatLoop (fuel : nat) (args : list Any) (result : text) (i : Z) (arg_index : nat)
    : res text :=
  match fuel with
  | O => Err OutOfFuel
  | S fuel' =>
      if i <? text_len result then
        match args !! arg_index with
        | Some arg =>
            if char_at result i "{" && (i + 1 <? text_len result) && char_at result (i + 1) "}" then
              let s := chars (anyToString arg) in
              let i' := u64 (i + u64 (text_len s - 1)) in
              formatLoop fuel' args (replace2 result i s) (u64 (i' + 1)) (S arg_index)
            else formatLoop fuel' args result (u64 (i + 1)) arg_index
        | None => formatLoop fuel' args result (u64 (i + 1)) arg_index
        end
      else Ok result
  end.

Definition formatMessage (format_string : string) (args : list Any) : res text :=
  formatLoop (S (String.length format_string)) args (chars format_string) 0 0.

Definition levelName (level : LogLevel) : string :=
  match level with
  | DEBUG => "DEBUG" | INFO => "INFO" | WARNING => "WARNING" | ERROR => "ERROR"
  end%string.

Definition appendToBuffer (now : string) (elem : LogElement) (buffer : text) : res text :=
  match formatMessage (lg_formatString elem) (lg_args elem) with
  | Ok m =>
      Ok (buffer ++ chars "[" ++ chars now ++ chars "] [" ++ chars (levelName (lg_level elem)) ++
          chars "] " ++ m ++ [ascii_of_nat 10])
  | Err e => Err e
  end.

Definition writeToFile (buffer : text) (l : Logger) : Logger :=
  if logFile_good l
  then mkLogger (logQueue_ l) (running_ l) (logFile_ l ++ buffer) true (cerr_ l)
  else mkLogger (logQueue_ l) (running_ l) (logFile_ l) false
         (cerr_ l ++ ["I/O error writing to log file: Stream error"%string]).

(** for (i = 0; i < 100 && logQueue_.size(); ++i), from iteration [i] with [n]
    iterations left; [now i] is the time read in iteration i. *)
Fixpoint flushBatch (n i : nat) (now : nat -> string) (buffer : text) : M Logger text :=
  match n with
  | O => mret buffer
  | S n' =>
      l ← get;
      if LFQueue.size (logQueue_ l) =? 0 then mret buffer
      else
        next ← zoom logQueue_ set_logQueue pop;
        match next with
        | Some elem =>
            match appendToBuffer (now i) elem buffer with
            | Ok buffer' => flushBatch n' (S i) now buffer'
            | Err e => fail e
            end
        | None => flushBatch n' (S i) now buffer
        end
  end.

(** One iteration of flushQueue's while loop. *)
Definition flushPass (now : nat -> string) : M Logger unit :=
  buffer ← flushBatch 100 0 now [];
  match buffer with
  | [] => mret tt
  | _ => modify (writeToFile buffer)
  end.

(** flushQueue, for as many iterations as [clock] has entries.  running_ is read
    between the passes only: a pass that is under way when it is cleared ends. *)
Fixpoint flushQueue (clock : list (nat -> string)) : M Logger unit :=
  match clock with
  | [] => mret tt
  | now :: clock' =>
      l ← get;
      if running_ l then flushPass now;; flushQueue clock' else mret tt
  end.

End Operations.

(** ** Formatting *)

(** The reference: "{}" is replaced from left to right while arguments last. *)
Fixpoint render (fmt : text) (args : list text) : text :=
  match fmt, args with
  | c1 :: ((c2 :: rest) as tl), a :: args' =>
      if bool_decide (c1 = "{"%char) && bool_decide (c2 = "}"%char)
      then a ++ render rest args'
      else c1 :: render tl args
  | _, _ => fmt
  end.

Section Formatting.
Context `{LogEnv}.

Definition arg_texts (args : list Any) : list text := (fun a => chars (anyToString a)) <$> args.
Definition total_len (ts : list text) : Z := Z.of_nat (length (concat ts)).

Lemma char_at_pre (pre t : text) k c :
  char_at (pre ++ t) (text_len pre + Z.of_nat k) c = bool_decide (t !! k = Some c).
Proof.
  unfold char_at, text_len. rewrite <- Nat2Z.inj_add, Nat2Z.id.
  by rewrite lookup_app_r, Nat.add_sub' by lia.
Qed.

Lemma bool_decide_Some (a b : ascii) : bool_decide (Some a = Some b) = bool_decide (a = b).
Proof. apply bool_decide_ext. split; congruence. Qed.

Lemma replace2_pre (pre : text) c1 c2 (rest s : text) :
  replace2 (pre ++ c1 :: c2 :: rest) (text_len pre) s = (pre ++ s) ++ rest.
Proof.
  unfold replace2, text_len. rewrite Nat2Z.id, take_app_length, <- app_assoc.
  f_equal. f_equal. rewrite <- drop_drop, drop_app_length. done.
Qed.

Lemma render_nil (fmt : text) : render fmt [] = fmt.
Proof. destruct fmt as [|? [|? ?]]; done. Qed.

Lemma text_len_app (s t : text) : text_len (s ++ t) = text_len s + text_len t.
Proof. unfold text_len. rewrite length_app. lia. Qed.

(** The index after a replacement is past the inserted text, the wrap-around of
    [length() - 1] on an empty argument included. *)
Lemma skip_index i n :
  0 <= i -> 0 <= n -> i + n < 2 ^ 64 -> u64 (u64 (i + u64 (n - 1)) + 1) = i + n.
Proof.
  intros Hi Hn Hb. unfold wrapU. rewrite Zplus_mod_idemp_r, Zplus_mod_idemp_l.
  replace (i + (n - 1) + 1) with (i + n) by lia. apply Z.mod_small. lia.
Qed.

Lemma formatLoop_spec args fuel : forall (pre fmt : text) k,
  (length fmt < fuel)%nat ->
  text_len pre + text_len fmt + total_len (drop k (arg_texts args)) < 2 ^ 64 ->
  formatLoop fuel args (pre ++ fmt) (text_len pre) k = Ok (pre ++ render fmt (drop k (arg_texts args))).
Proof.
  induction fuel as [|fuel IH]; intros pre fmt k Hf Hb; [lia|]. cbn [formatLoop].
  rewrite text_len_app. destruct fmt as [|c fmt].
  { rewrite Z.add_0_r, Z.ltb_irrefl. cbn [render]. by rewrite app_nil_r. }
  assert (Hstep : render (c :: fmt) (drop k (arg_texts args)) = c :: render fmt (drop k (arg_texts args)) ->
    formatLoop fuel args (pre ++ c :: fmt) (u64 (text_len pre + 1)) k
      = Ok (pre ++ render (c :: fmt) (drop k (arg_texts args)))).
  { intros ->. cbn [length] in Hf. rewrite wrapU_small by (unfold text_len, total_len in *; cbn in *; lia).
    replace (text_len pre + 1) with (text_len (pre ++ [c])) by (rewrite text_len_app; done).
    replace (pre ++ c :: fmt) with ((pre ++ [c]) ++ fmt) by (by rewrite <- app_assoc).
    rewrite IH; [by rewrite <- app_assoc|lia|].
    rewrite text_len_app. unfold text_len in *. cbn in *. lia. }
  destruct (Z.ltb_spec (text_len pre) (text_len pre + text_len (c :: fmt)));
    [|unfold text_len in *; cbn in *; lia].
  assert (Hk : drop k (arg_texts args) =
    match args !! k with
    | Some a => chars (anyToString a) :: drop (S k) (arg_texts args)
    | None => []
    end).
  { destruct (args !! k) as [a|] eqn:Ha.
    - apply drop_S. unfold arg_texts. by rewrite list_lookup_fmap, Ha.
    - apply drop_ge. unfold arg_texts. rewrite length_fmap. by apply lookup_ge_None. }
  destruct (args !! k) as [a|]; [|apply Hstep; by rewrite Hk, !render_nil].
  replace (text_len pre) with (text_len pre + Z.of_nat 0) at 1 by lia.
  rewrite char_at_pre, (char_at_pre pre _ 1). cbn [lookup list_lookup].
  destruct fmt as [|c2 rest].
  { destruct (_ && _ && _) eqn:Hc; [|apply Hstep; by rewrite Hk].
    apply andb_true_iff in Hc as [_ Hc]. by apply bool_decide_eq_true in Hc. }
  destruct (Z.ltb_spec (text_len pre + 1) (text_len pre + text_len (c :: c2 :: rest)));
    [|unfold text_len in *; cbn in *; lia].
  rewrite Hk in *. cbn [render] in *. rewrite andb_true_r.
  cbn [lookup list_lookup]. rewrite !bool_decide_Some.
  destruct (bool_decide (c = "{"%char) && bool_decide (c2 = "}"%char)); [|by apply Hstep].
  unfold text_len, total_len in Hb. rewrite !length_cons in Hb, Hf. cbn [concat] in Hb.
  rewrite length_app in Hb.
  rewrite skip_index, replace2_pre by (unfold text_len; lia).
  rewrite <- text_len_app, IH; [by rewrite <- app_assoc|lia|].
  rewrite text_len_app. unfold text_len, total_len. lia.
Qed.

(** The texts of a message fit the address space. *)
Definition message_fits (fmt : string) (args : list Any) : Prop :=
  text_len (chars fmt) + total_len (arg_texts args) < 2 ^ 64.

Lemma length_chars s : length (chars s) = String.length s.
Proof. induction s as [|c s IH]; [done|]. cbn. by rewrite IH. Qed.

Lemma formatMessage_spec fmt args :
  message_fits fmt args -> formatMessage fmt args = Ok (render (chars fmt) (arg_texts args)).
Proof.
  intros Hb. unfold formatMessage.
  pose proof (formatLoop_spec args (S (String.length fmt)) [] (chars fmt) 0) as Hl.
  rewrite drop_0 in Hl. apply Hl; [rewrite length_chars; lia|].
  unfold message_fits in Hb. change (text_len []) with 0. lia.
Qed.

(** C29. formatMessage terminates and equals the left-to-right substitution
    [render]: each "{}" of the format string is replaced by the next argument
    while arguments last, the text of an argument is never scanned again, and
    the index arithmetic, which wraps around on an empty argument, stays
    right. *)
Theorem format_message_is_render fmt args :
  message_fits fmt args -> formatMessage fmt args = Ok (render (chars fmt) (arg_texts args)).
Proof. apply formatMessage_spec. Qed.

(** ** Flushing *)
Definition line (now : string) (e : LogElement) : text :=
  chars "[" ++ chars now ++ chars "] [" ++ chars (levelName (lg_level e)) ++ chars "] " ++
  render (chars (lg_formatString e)) (arg_texts (lg_args e)) ++ [ascii_of_nat 10].

Definition element_fits (e : LogElement) : Prop := message_fits (lg_formatString e) (lg_args e).

(** The lines of consecutive elements, the first in iteration [i]. *)
Fixpoint lines (now : nat -> string) (i : nat) (es : list LogElement) : text :=
  match es with
  | [] => []
  | e :: es' => line (now i) e ++ lines now (S i) es'
  end.

(** What a sequence of passes writes when [es] is pending. *)
Fixpoint flushed (clock : list (nat -> string)) (es : list LogElement) : text :=
  match clock with
  | [] => []
  | now :: clock' => lines now 0 (take 100 es) ++ flushed clock' (drop 100 es)
  end.

(** [l'] is [l] but for the queue, which holds [es]. *)
Definition pending_is (es : list LogElement) (l l' : Logger) : Prop :=
  queue_ok (logQueue_ l') /\ contents (logQueue_ l') = es /\ l' = set_logQueue (logQueue_ l') l.

Lemma appendToBuffer_spec now e buffer :
  element_fits e -> appendToBuffer now e buffer = Ok (buffer ++ line now e).
Proof. intros He. unfold appendToBuffer, line. by rewrite formatMessage_spec. Qed.

Lemma wp_flushBatch now n : forall i buffer l es (Q : text -> Logger -> Prop),
  queue_ok (logQueue_ l) -> contents (logQueue_ l) = es -> Forall element_fits es ->
  (forall l', pending_is (drop n es) l l' -> Q (buffer ++ lines now i (take n es)) l') ->
  wp (flushBatch n i now buffer) Q l.
Proof.
  induction n as [|n IH]; intros i buffer l es Q Hq Hc Hfit HQ; cbn [flushBatch].
  { apply wp_ret. specialize (HQ l). rewrite take_0, app_nil_r in HQ. apply HQ. by destruct l. }
  wp_step. apply wp_get. unfold LFQueue.size. pose proof (length_contents _ Hq) as Hlen.
  rewrite Hc in Hlen. rewrite <- Hlen. destruct es as [|e es].
  { apply wp_ret. specialize (HQ l). rewrite app_nil_r in HQ. apply HQ. by destruct l. }
  destruct (Z.eqb_spec (Z.of_nat (length (e :: es))) 0); [cbn in *; lia|].
  wp_step. apply wp_zoom. destruct (pop_spec _ Hq) as (q' & Hp & Hq' & _ & Hl).
  rewrite Hc in Hp, Hl. cbn [fifo_pop fst snd] in Hp, Hl. apply wp_ok. do 2 eexists.
  split; [exact Hp|]. apply Forall_cons in Hfit as [He Hfit].
  rewrite appendToBuffer_spec by done.
  apply (IH _ _ _ es); [done|done|done|]. intros l' (Hq'' & Hc' & Heq).
  specialize (HQ l'). cbn [take drop lines] in HQ. rewrite app_assoc in HQ. apply HQ.
  split; [done|]. split; [done|]. rewrite Heq. by destruct l.
Qed.

Lemma wp_flushPass now l es (Q : unit -> Logger -> Prop) :
  queue_ok (logQueue_ l) -> contents (logQueue_ l) = es -> Forall element_fits es ->
  logFile_good l = true ->
  (forall l', queue_ok (logQueue_ l') -> contents (logQueue_ l') = drop 100 es ->
     running_ l' = running_ l -> logFile_good l' = true ->
     logFile_ l' = logFile_ l ++ lines now 0 (take 100 es) -> Q tt l') ->
  wp (flushPass now) Q l.
Proof.
  intros Hq Hc Hfit Hg HQ. unfold flushPass. wp_step.
  apply (wp_flushBatch now 100 0 [] l es); [done|done|done|]. intros l' (Hq' & Hc' & Heq).
  cbn [app]. destruct (lines now 0 (take 100 es)) as [|c t] eqn:Ht.
  - apply wp_ret. apply HQ; [done|done|by rewrite Heq|by rewrite Heq|].
    by rewrite Heq, app_nil_r.
  - apply wp_modify. unfold writeToFile.
    assert (Hg' : logFile_good l' = true) by (by rewrite Heq). rewrite Hg'.
    apply HQ; [done|done|by rewrite Heq|done|]. cbn [logFile_]. by rewrite Heq.
Qed.

Lemma wp_flushQueue clock : forall l es (Q : unit -> Logger -> Prop),
  queue_ok (logQueue_ l) -> contents (logQueue_ l) = es -> Forall element_fits es ->
  logFile_good l = true -> running_ l = true ->
  (forall l', queue_ok (logQueue_ l') -> contents (logQueue_ l') = drop (100 * length clock) es ->
     logFile_ l' = logFile_ l ++ flushed clock es -> Q tt l') ->
  wp (flushQueue clock) Q l.
Proof.
  induction clock as [|now clock IH]; intros l es Q Hq Hc Hfit Hg Hr HQ; cbn [flushQueue].
  { apply wp_ret. apply HQ; [done|done|by rewrite app_nil_r]. }
  wp_step. apply wp_get. rewrite Hr. wp_step.
  apply (wp_flushPass now l es); [done..|]. intros l1 Hq1 Hc1 Hr1 Hg1 Hf1.
  apply (IH l1 (drop 100 es)); [done|done|by apply Forall_drop|done|by rewrite Hr1|].
  intros l' Hq' Hc' Hf'. apply HQ; [done| |].
  - rewrite Hc', drop_drop. f_equal. cbn [length]. lia.
  - rewrite Hf', Hf1. cbn [flushed]. by rewrite <- app_assoc.
Qed.

(** C30. The logger writes in order, in batches of at most a hundred, and only
    until it is told to stop.  From a running logger with [es] pending, the
    passes of flushQueue append the lines of the first hundred elements per
    pass, in the order they were logged; once the destructor has cleared
    running_ no number of further iterations writes anything, and the elements
    still queued are lost. *)
Theorem logger_writes_in_order_until_stopped l es clock clock' :
  queue_ok (logQueue_ l) -> contents (logQueue_ l) = es -> Forall element_fits es ->
  logFile_good l = true -> running_ l = true ->
  exists l', (flushQueue clock;; modify (set_logRunning false);; flushQueue clock') l = Ok (tt, l') /\
    logFile_ l' = logFile_ l ++ flushed clock es /\
    contents (logQueue_ l') = drop (100 * length clock) es.
Proof.
  intros Hq Hc Hfit Hg Hr.
  assert (Hw : wp (flushQueue clock;; modify (set_logRunning false);; flushQueue clock')
    (fun _ l' => logFile_ l' = logFile_ l ++ flushed clock es /\
       contents (logQueue_ l') = drop (100 * length clock) es) l).
  { wp_step. apply (wp_flushQueue clock l es); [done..|]. intros l1 Hq1 Hc1 Hf1.
    wp_step. apply wp_modify. destruct clock' as [|now clock']; cbn [flushQueue].
    - by apply wp_ret.
    - wp_step. apply wp_get. cbn [running_ set_logRunning]. by apply wp_ret. }
  apply wp_ok in Hw as ([] & l' & Hrun & ?). by exists l'.
Qed.

End Formatting.

(** *** Witnesses *)
#[local] Instance demo_env : LogEnv := {
  double_to_string _ := "0.000000"%string;
  float_to_string _ := "0.000000"%string;
  type_name a := match a with AUInt _ => "j" | _ => "St17basic_string_view" end%string;
}.

(** An empty argument, an argument that looks like a placeholder, an
    unsupported one, a char, and a placeholder left over. *)
Example format_message_is_render_witness :
  formatMessage "{}{} a={} {}." [AString ""; ACStr "{}"; AUInt 7; AInt (-3); ABool true]
    = Ok (chars "{} a=Unsupported type: j -3.") /\
  formatMessage "{} {}" [AInt 1] = Ok (chars "1 {}").
Proof.
  split.
  - exact (format_message_is_render "{}{} a={} {}."
      [AString ""; ACStr "{}"; AUInt 7; AInt (-3); ABool true] eq_refl).
  - exact (format_message_is_render "{} {}" [AInt 1] eq_refl).
Defined.

Definition demo_log (n : nat) : Logger :=
  match foldl (fun r _ => match r with
                          | Ok (_, l) => logger_log INFO "tick {}" [AInt 5] l
                          | Err e => Err e
                          end) (Ok (tt, newLogger [])) (seq 0 n) with
  | Ok (_, l) => l
  | Err _ => newLogger []
  end.

(** Of 103 messages one pass before the stop writes a hundred. *)
Example logger_writes_in_order_until_stopped_witness :
  exists l', (flushQueue [fun _ => "09:00"%string];; modify (set_logRunning false);;
              flushQueue [fun _ => "09:01"%string]) (demo_log 103) = Ok (tt, l') /\
    length (contents (logQueue_ l')) = 3%nat.
Proof.
  destruct (logger_writes_in_order_until_stopped (demo_log 103)
    (replicate 103 (mkLog INFO "tick {}" [AInt 5])) [fun _ => "09:00"%string]
    [fun _ => "09:01"%string]) as (l' & Hrun & _ & Hc).
  - split; vm_compute; try done; intros; by split.
  - vm_compute. reflexivity.
  - apply Forall_replicate. vm_compute. reflexivity.
  - reflexivity.
  - vm_compute. reflexivity.
  - exists l'. split; [exact Hrun|]. rewrite Hc. reflexivity.
Defined.
