(* ===== verification/LogFiles.v ===== *)
(** Where the log goes: the static members, the constructor, the destructor and
    the singleton of src/src/lib/logger.h and logger.cpp.

    [Statics] is the static state: the files of the disk, the path logFile_ is open
    on, and the text and state of that stream.  A live [Logger] holds the stream
    itself, so that an operation on both sees the statics through [statics_of].
    Which paths the system lets the program open is a parameter. *)

From S2P Require Import Prelude LFQueue Logger.
#[local] Open Scope Z_scope.

(** ** State *)
Record Statics := mkStatics {
  files : gmap string text;       (* as they are when not open *)
  open_path : option string;
  stream_text : text;
  stream_good : bool;
}.

Class FileSystem := can_open : string -> bool.

(** The process: the disk with the open path, and the instance of getInstance. *)
Record Disk := mkDisk { dk_files : gmap string text; dk_path : option string }.
Definition statics_of (w : Disk * Logger) : Statics :=
  mkStatics (dk_files w.1) (dk_path w.1) (logFile_ w.2) (logFile_good w.2).
Definition put_statics (s : Statics) (w : Disk * Logger) : Disk * Logger :=
  (mkDisk (files s) (open_path s),
   mkLogger (logQueue_ w.2) (running_ w.2) (stream_text s) (stream_good s) (cerr_ w.2)).

(** What a file holds, open or not. *)
Definition content (w : Disk * Logger) (path : string) : text :=
  if decide (dk_path w.1 = Some path) then logFile_ w.2 else default [] (dk_files w.1 !! path).

Section Operations.
Context `{FileSystem}.

(** ** Operations *)

(** logFile_.close(), and open in append mode. *)
Definition closeStream (s : Statics) : Statics :=
  match open_path s with
  | Some p => mkStatics (<[p := stream_text s]> (files s)) None [] (stream_good s)
  | None => s
  end.
Definition openStream (path : string) (s : Statics) : Statics :=
  if can_open path
  then mkStatics (files s) (Some path) (default [] (files s !! path)) true
  else mkStatics (files s) None [] false.
Definition is_open (s : Statics) : bool := bool_decide (is_Some (open_path s)).

Definition setLogFile (path : string) : M Statics unit :=
  modify (fun s => if is_open s then closeStream s else s);;
  modify (openStream path);;
  s ← get; require (is_open s) AssertFailed.

(** Logger::Logger; make_unique never gives the null pointer that is asserted
    against. *)
Definition makeLogger (path : string) : M Statics Logger :=
  setLogFile path;;
  s ← get; require (is_open s) AssertFailed;;
  mret (mkLogger (newQueue LOG_QUEUE_SIZE) true (stream_text s) (stream_good s) []).

(** getInstance: the static local is constructed by the first call, whose path it
    keeps. *)
Definition getInstance (path : string) : M (Statics * option Logger) Logger :=
  w ← get;
  match w.2 with
  | Some l => mret l
  | None =>
      l ← zoom fst (fun s w => (s, w.2)) (makeLogger path);
      modify (fun w => (w.1, Some l));;
      mret l
  end.

(** setLogFile while a logger is alive. *)
Definition switchLogFile (path : string) : M (Disk * Logger) unit :=
  zoom statics_of put_statics (setLogFile path).

(** ~Logger; joining the thread lets its current pass end, the passes of
    [clock]. *)
Definition destroyLogger `{LogEnv} (clock : list (nat -> string)) : M (Disk * Logger) unit :=
  modify (fun w => (w.1, set_logRunning false w.2));;
  zoom snd (fun l w => (w.1, l)) (flushQueue clock);;
  modify (fun w => put_statics (closeStream (statics_of w)) w).

(** ** Facts *)

Lemma setLogFile_run path s :
  setLogFile path s =
    if can_open path then Ok (tt, openStream path (if is_open s then closeStream s else s))
    else Err AssertFailed.
Proof.
  unfold setLogFile, mbind, M_bind, modify, get, openStream. destruct (can_open path); [|done].
  by unfold is_open; cbn.
Qed.

(** Switching changes no file's content, and what is written from then on is
    appended to the new file and to no other. *)
Lemma switch_keeps_and_redirects path b w :
  can_open path = true ->
  exists w', switchLogFile path w = Ok (tt, w') /\
    (forall q, content w' q = content w q) /\
    (forall q, content (w'.1, writeToFile b w'.2) q =
       if decide (q = path) then content w q ++ b else content w q).
Proof.
  intros Ho. unfold switchLogFile, zoom. rewrite setLogFile_run, Ho. eexists. split; [done|].
  set (w' := put_statics _ w).
  assert (Hk : forall q, content w' q = content w q).
  { intros q. unfold content, w', put_statics, openStream, is_open, closeStream, statics_of.
    rewrite Ho. destruct w as [[fs [p|]] l]; cbn; simplify_option_eq; try done;
      repeat case_decide; simplify_eq; rewrite ?lookup_insert_eq; try done;
      rewrite ?lookup_insert_ne by congruence; done. }
  split; [done|]. intros q.
  assert (Hp : dk_path w'.1 = Some path) by (unfold w', put_statics, openStream; cbn; by rewrite Ho).
  assert (Hg : logFile_good w'.2 = true) by (unfold w', put_statics, openStream; cbn; by rewrite Ho).
  unfold writeToFile. rewrite Hg. rewrite <- Hk. unfold content. cbn [fst snd logFile_].
  rewrite Hp. repeat case_decide; simplify_eq; done.
Qed.

(** The first call decides the path; every later one returns the same logger and
    touches no file. *)
Lemma getInstance_once path path' s l w :
  getInstance path (s, None) = Ok (l, w) -> getInstance path' w = Ok (l, w).
Proof.
  unfold getInstance, mbind, M_bind, get, zoom, modify, mret, M_ret. cbn [snd fst].
  destruct (makeLogger path s) as [[l' s']|]; [|done]. intros [= <- <-]. done.
Qed.

(** The destructor leaves what was written and loses what was queued: the thread
    writes nothing after running_ is cleared. *)
Lemma destroy_writes_nothing `{LogEnv} clock w :
  exists w', destroyLogger clock w = Ok (tt, w') /\ (forall q, content w' q = content w q) /\
    dk_path w'.1 = None.
Proof.
  assert (Hf : forall l, running_ l = false -> flushQueue clock l = Ok (tt, l)).
  { intros l Hl. destruct clock; [done|]. cbn [flushQueue]. unfold mbind, M_bind, get. by rewrite Hl. }
  unfold destroyLogger, mbind, M_bind, zoom, modify. cbn [snd fst]. rewrite Hf by done.
  eexists. split; [done|]. destruct w as [[fs [p|]] l]; cbn; split; try done; intros q.
  unfold content. cbn. repeat case_decide; simplify_eq; rewrite ?lookup_insert_eq; try done.
  rewrite lookup_insert_ne by congruence. done.
Qed.

End Operations.
