(* ===== verification/Threads.v ===== *)
(** Starting a thread: src/src/lib/thread_utils.h.

    The sets of processors and the system's answer to the request to pin a thread
    are parameters; what runs is the body of the new thread, on the console and the state of the
    function it is given. *)

From S2P Require Import Prelude.
#[local] Open Scope Z_scope.

Record Console := mkConsole { cout : list string; cerr : list string }.
Definition to_cout (s : string) (c : Console) : Console := mkConsole (cout c ++ [s]) (cerr c).
Definition to_cerr (s : string) (c : Console) : Console := mkConsole (cout c) (cerr c ++ [s]).

(** The Linux branch: a set with the one core, and zero for success. *)
Section Affinity.
Context {cpu_set_t : Type} (CPU_ZERO : cpu_set_t) (CPU_SET : Z -> cpu_set_t -> cpu_set_t).
Context (pthread_setaffinity_np : cpu_set_t -> Z).

Definition setThreadCoreAffinity (core_id : Z) : bool :=
  pthread_setaffinity_np (CPU_SET core_id CPU_ZERO) =? 0.

End Affinity.

Section Start.
Context (affinity : Z -> bool).
Context {S : Type}.

(** The lambda that the std::jthread runs; [tid] is its printed id. *)
Definition createAndStartThread (core_id : Z) (name tid : string) (function : M S unit)
    : M (Console * S) unit :=
  (if (0 <=? core_id) && negb (affinity core_id)
   then
     modify (fun w => (to_cerr ("Failed to set core affinity for " +:+ name +:+ " " +:+ tid
                                +:+ " to " +:+ pretty core_id)%string w.1, w.2));;
     fail Terminate
   else mret tt);;
  modify (fun w => (to_cout ("Set core affinity for " +:+ name +:+ " " +:+ tid
                             +:+ " to " +:+ pretty core_id)%string w.1, w.2));;
  zoom snd (fun s w => (w.1, s)) function.

(** A thread without a core runs its function and nothing else of it can fail. *)
Lemma unpinned_thread_runs name tid (function : M S unit) c s (Q : unit -> S -> Prop) :
  wp function Q s ->
  wp (createAndStartThread (-1) name tid function) (fun x w => Q x w.2) (c, s).
Proof. intros Hf. unfold createAndStartThread. cbn [Z.leb andb Z.compare]. wp_steps. exact Hf. Qed.

(** A thread that cannot be pinned ends the program before its function runs. *)
Lemma unpinnable_thread_terminates core_id name tid (function : M S unit) w :
  0 <= core_id -> affinity core_id = false ->
  faults (createAndStartThread core_id name tid function) w Terminate.
Proof.
  intros Hc Ha. unfold createAndStartThread. apply faults_bind_l.
  by rewrite (proj2 (Z.leb_le _ _) Hc), Ha.
Qed.

End Start.

(** Asking for a core the system refuses ends the program. *)
Lemma refused_core_terminates {cpu_set_t S} (zero : cpu_set_t) set (setaffinity : cpu_set_t -> Z)
    core_id name tid (function : M S unit) w :
  0 <= core_id -> setaffinity (set core_id zero) <> 0 ->
  faults (createAndStartThread (setThreadCoreAffinity zero set setaffinity) core_id name tid function)
    w Terminate.
Proof.
  intros Hc Ha. apply unpinnable_thread_terminates; [done|]. by apply Z.eqb_neq.
Qed.
