(* ===== verification/Times.v ===== *)
(** Instants and their text: src/src/lib/time_utils.h.

    An instant is the system clock's count of nanoseconds since the epoch.  The
    conversion to seconds is left to the library by the standard (rounding or
    truncation), and the calendar is the system's: to_time_t and localtime_r are
    parameters.  std::put_time writes the fields of the std::tm for the one format
    the program uses. *)

From Stdlib Require Import Ascii.
From S2P Require Import Prelude.
#[local] Open Scope Z_scope.

Definition NANOS_TO_MICROS : Z := 1000.
Definition MICROS_TO_MILLIS : Z := 1000.
Definition MILLIS_TO_SECS : Z := 1000.
Definition NANOS_TO_MILLIS : Z := NANOS_TO_MICROS * MICROS_TO_MILLIS.
Definition NANOS_TO_SECS : Z := NANOS_TO_MILLIS * MILLIS_TO_SECS.

(** The fields of std::tm that the format reads. *)
Record tm := mkTm {
  tm_year : Z;  (* since 1900 *)
  tm_mon : Z;   (* since January *)
  tm_mday : Z;
  tm_hour : Z;
  tm_min : Z;
  tm_sec : Z;
}.
Definition tm_zero : tm := mkTm 0 0 0 0 0 0.

Record tm_ok (t : tm) : Prop := {
  tmk_year : -900 <= tm_year t < 8100;
  tmk_mon : 0 <= tm_mon t < 12;
  tmk_mday : 1 <= tm_mday t <= 31;
  tmk_hour : 0 <= tm_hour t < 24;
  tmk_min : 0 <= tm_min t < 60;
  tmk_sec : 0 <= tm_sec t <= 60;
}.

Definition two_digits (z : Z) : string := if z <? 10 then "0" +:+ pretty z else pretty z.

(** std::put_time(&t, "%Y-%m-%d %H:%M:%S") *)
Definition put_time (t : tm) : string :=
  (pretty (tm_year t + 1900) +:+ "-" +:+ two_digits (tm_mon t + 1) +:+ "-" +:+ two_digits (tm_mday t)
   +:+ " " +:+ two_digits (tm_hour t) +:+ ":" +:+ two_digits (tm_min t) +:+ ":" +:+ two_digits (tm_sec t))%string.

Section Clock.
Context (to_time_t : Z -> Z) (localtime_r : Z -> option tm).

(** localtime_r leaves the zeroed tm alone when it fails. *)
Definition local_tm (seconds : Z) : tm := default tm_zero (localtime_r seconds).

Definition convertNanosToTimeStr (nanos : Z) : string := put_time (local_tm (to_time_t nanos)).

(** The clock reads [now]. *)
Definition getCurrentNanos (now : Z) : Z := s64 now.
Definition getCurrentTimeStr (now : Z) : string := put_time (local_tm (to_time_t now)).

End Clock.

(** ** Reading a time back *)
Definition digit (c : ascii) : Z := Z.of_nat (nat_of_ascii c) - 48.
Definition read_time (s : string) : option tm :=
  match s with
  | String a (String b (String c (String d (String _ (String e (String f (String _ (String g (String h
      (String _ (String i (String j (String _ (String k (String l (String _ (String m (String n ""
      )))))))))))))))))) =>
      let two x y := 10 * digit x + digit y in
      Some (mkTm (100 * two a b + two c d - 1900) (two e f - 1) (two g h) (two i j) (two k l) (two m n))
  | _ => None
  end.

Definition is_two (z : Z) (s : string) : bool :=
  match s with
  | String a (String b "") => 10 * digit a + digit b =? z
  | _ => false
  end.
Definition is_four (z : Z) (s : string) : bool :=
  match s with
  | String a (String b (String c (String d ""))) =>
      100 * (10 * digit a + digit b) + (10 * digit c + digit d) =? z
  | _ => false
  end.

Lemma two_digits_two z : 0 <= z < 100 -> is_two z (two_digits z) = true.
Proof.
  intros Hz. apply (forallb_elem (fun z => is_two z (two_digits z)) (seqZ 0 100)); [by vm_compute|].
  apply elem_of_seqZ. lia.
Qed.

Lemma pretty_four z : 1000 <= z < 10000 -> is_four z (pretty z) = true.
Proof.
  intros Hz. apply (forallb_elem (fun z => is_four z (pretty z)) (seqZ 1000 9000)); [by vm_compute|].
  apply elem_of_seqZ. lia.
Qed.

Lemma is_two_inv z s : is_two z s = true ->
  exists a b, s = String a (String b "") /\ 10 * digit a + digit b = z.
Proof.
  destruct s as [|a [|b [|]]]; try done. cbn [is_two]. intros Hz%Z.eqb_eq. by exists a, b.
Qed.

Lemma is_four_inv z s : is_four z s = true ->
  exists a b c d, s = String a (String b (String c (String d ""))) /\
    100 * (10 * digit a + digit b) + (10 * digit c + digit d) = z.
Proof.
  destruct s as [|a [|b [|c [|d [|]]]]]; try done. cbn [is_four]. intros Hz%Z.eqb_eq. by exists a, b, c, d.
Qed.

(** In the years 1000 to 9999 the text of a calendar time has a fixed width and
    reads back as that time. *)
Theorem read_put_time t : tm_ok t -> read_time (put_time t) = Some t.
Proof.
  intros []. unfold put_time.
  destruct (is_four_inv _ _ (pretty_four (tm_year t + 1900) ltac:(lia))) as (a & b & c & d & -> & H1).
  destruct (is_two_inv _ _ (two_digits_two (tm_mon t + 1) ltac:(lia))) as (e & f & -> & H2).
  destruct (is_two_inv _ _ (two_digits_two (tm_mday t) ltac:(lia))) as (g & h & -> & H3).
  destruct (is_two_inv _ _ (two_digits_two (tm_hour t) ltac:(lia))) as (i & j & -> & H4).
  destruct (is_two_inv _ _ (two_digits_two (tm_min t) ltac:(lia))) as (k & l & -> & H5).
  destruct (is_two_inv _ _ (two_digits_two (tm_sec t) ltac:(lia))) as (m & n & -> & H6).
  lazy -[digit Z.mul Z.add Z.sub]. rewrite H1, H2, H3, H4, H5, H6. destruct t; cbn. f_equal. f_equal; lia.
Qed.

(** The current time and a stored instant are written the same way, and what is
    written for an instant of a four-digit year is its local calendar time. *)
Theorem time_strings_agree to_time_t localtime_r now t :
  localtime_r (to_time_t now) = Some t -> tm_ok t ->
  getCurrentTimeStr to_time_t localtime_r now = convertNanosToTimeStr to_time_t localtime_r now /\
  read_time (getCurrentTimeStr to_time_t localtime_r now) = Some t.
Proof.
  intros Hl Ht. split; [done|]. unfold getCurrentTimeStr, local_tm. rewrite Hl. by apply read_put_time.
Qed.

(** A calendar that only knows the first day of 1970. *)
Example time_strings_agree_example :
  let day s := if (0 <=? s) && (s <? 86400)
               then Some (mkTm 70 0 1 (s / 3600) (s / 60 mod 60) (s mod 60)) else None in
  getCurrentTimeStr (fun n => Z.quot n NANOS_TO_SECS) day 45296789000000 = "1970-01-01 12:34:56"%string.
Proof. vm_compute. reflexivity. Qed.
