(* ===== verification/Ring.v ===== *)
(** Circular doubly linked lists in a heap.

    Both lists of the order book, the price levels of a side and the orders of a
    level, are circular and doubly linked through prev_ and next_.  This file is
    their common theory: [ring h l] says that the nodes [l] of the heap [h] form
    such a circle.  It is stated against the interface [Linked], which
    Orders.v implements for Order and OrdersAtPrice. *)

From S2P Require Import Prelude.

(** ** The interface of a linked node *)
Class Linked (N : Type) := {
  lnext : N -> ptr;
  lprev : N -> ptr;
  set_lnext : ptr -> N -> N;
  set_lprev : ptr -> N -> N;
  lnext_set_lnext p n : lnext (set_lnext p n) = p;
  lprev_set_lnext p n : lprev (set_lnext p n) = lprev n;
  lprev_set_lprev p n : lprev (set_lprev p n) = p;
  lnext_set_lprev p n : lnext (set_lprev p n) = lnext n;
  set_lnext_lnext p q n : set_lnext p (set_lnext q n) = set_lnext p n;
  set_lprev_lprev p q n : set_lprev p (set_lprev q n) = set_lprev p n;
  set_lprev_lnext p q n : set_lprev p (set_lnext q n) = set_lnext q (set_lprev p n);
}.

Section Ring.
Context {N : Type} `{Linked N}.
Implicit Types (h : gmap Z N) (l : list Z) (i j x y : Z).

(** The links of node [i], [None] for a null link or a dead node. *)
Definition nx h i : ptr := h !! i ≫= lnext.
Definition pv h i : ptr := h !! i ≫= lprev.

(** Consecutive pairs of the circle. *)
Definition cyc l : list (Z * Z) :=
  match l with
  | [] => []
  | x :: l' => zip (x :: l') (l' ++ [x])
  end.

Definition ring h l : Prop :=
  NoDup l /\ forall x y, (x, y) ∈ cyc l -> nx h x = Some y /\ pv h y = Some x.

(** The part of a node that is not a link. *)
Definition unlinked (n : N) : N := set_lnext None (set_lprev None n).

Lemma nx_alter_lnext h i p k :
  nx (alter (set_lnext p) i h) k = if decide (k = i) then h !! i ≫= (fun _ => p) else nx h k.
Proof.
  unfold nx. rewrite lookup_alter. case_decide; case_decide; subst; try done.
  destruct (h !! k); cbn; [|done]. by rewrite lnext_set_lnext.
Qed.
Lemma pv_alter_lprev h i p k :
  pv (alter (set_lprev p) i h) k = if decide (k = i) then h !! i ≫= (fun _ => p) else pv h k.
Proof.
  unfold pv. rewrite lookup_alter. case_decide; case_decide; subst; try done.
  destruct (h !! k); cbn; [|done]. by rewrite lprev_set_lprev.
Qed.
Lemma nx_alter_lprev h i p k : nx (alter (set_lprev p) i h) k = nx h k.
Proof.
  unfold nx. rewrite lookup_alter. case_decide; subst; [|done].
  destruct (h !! k); cbn; [|done]. by rewrite lnext_set_lprev.
Qed.
Lemma pv_alter_lnext h i p k : pv (alter (set_lnext p) i h) k = pv h k.
Proof.
  unfold pv. rewrite lookup_alter. case_decide; subst; [|done].
  destruct (h !! k); cbn; [|done]. by rewrite lprev_set_lnext.
Qed.

Lemma nx_alive h x y : nx h x = Some y -> is_Some (h !! x).
Proof. unfold nx. destruct (h !! x); [eauto|done]. Qed.
Lemma pv_alive h x y : pv h x = Some y -> is_Some (h !! x).
Proof. unfold pv. destruct (h !! x); [eauto|done]. Qed.

(** ** Pairs of the circle *)
Lemma cyc_rotate1 x l : cyc (l ++ [x]) ≡ₚ cyc (x :: l).
Proof.
  destruct l as [|y l]; [done|]. cbn [app cyc]. change (y :: l ++ [x]) with ((y :: l) ++ [x]).
  rewrite (zip_with_app pair (y :: l) [x] (l ++ [x]) [y]) by (rewrite length_app; cbn; lia).
  by rewrite (Permutation_app_comm _ [(x, y)]).
Qed.

Lemma cyc_rotate l1 l2 : cyc (l1 ++ l2) ≡ₚ cyc (l2 ++ l1).
Proof.
  revert l2. induction l1 as [|x l1 IH]; intros l2; [by rewrite app_nil_r|].
  cbn [app]. rewrite <- cyc_rotate1, <- app_assoc, IH. by rewrite <- app_assoc.
Qed.

Lemma ring_rotate h l1 l2 : ring h (l1 ++ l2) -> ring h (l2 ++ l1).
Proof.
  intros [Hnd Hp]. split; [by rewrite (Permutation_app_comm l2 l1)|].
  intros x y Hxy. apply Hp. by rewrite cyc_rotate.
Qed.

Lemma cyc_last x l z : last (x :: l) = Some z -> (z, x) ∈ cyc (x :: l).
Proof.
  intros Hl. apply last_Some in Hl as [l' Hl]. rewrite Hl.
  destruct l' as [|y l'].
  - injection Hl as -> ->. cbn. set_solver.
  - injection Hl as -> ->. cbn [app cyc]. change (y :: l' ++ [z]) with ((y :: l') ++ [z]).
    rewrite (zip_with_app pair (y :: l') [z]) by (rewrite length_app; cbn; lia).
    apply elem_of_app. right. by apply list_elem_of_singleton.
Qed.

Lemma cyc_cons x y l : (x, y) ∈ cyc (x :: y :: l).
Proof. cbn. apply list_elem_of_here. Qed.

Lemma elem_of_cyc l x y : (x, y) ∈ cyc l -> x ∈ l /\ y ∈ l.
Proof.
  destruct l as [|z l]; [by intros ?%elem_of_nil|]. cbn [cyc]. intros Hxy.
  split.
  - by eapply elem_of_zip_l.
  - apply elem_of_zip_r in Hxy. by rewrite <- Permutation_cons_append in Hxy.
Qed.

(** ** Reading a ring *)
Lemma ring_nil h : ring h [].
Proof. split; [constructor|]. by intros ?? ?%elem_of_nil. Qed.

Lemma ring_alive h l x : ring h l -> x ∈ l -> is_Some (h !! x).
Proof.
  intros Hr Hin. apply list_elem_of_split in Hin as (l1 & l2 & ->).
  apply ring_rotate in Hr. destruct Hr as [_ Hr]. cbn [app] in Hr.
  destruct (last (x :: l2 ++ l1)) as [z|] eqn:Hz; [|by apply last_None in Hz].
  eapply pv_alive. by apply Hr, cyc_last.
Qed.

Lemma ring_last h x l z :
  ring h (x :: l) -> last (x :: l) = Some z -> pv h x = Some z /\ nx h z = Some x.
Proof. intros [_ Hr] Hl. destruct (Hr z x); [by apply cyc_last|done]. Qed.

Lemma ring_next h x y l : ring h (x :: y :: l) -> nx h x = Some y /\ pv h y = Some x.
Proof. intros [_ Hr]. apply Hr, cyc_cons. Qed.

(** Every node of a ring has its successor and its predecessor in the ring. *)
Lemma ring_nx h l x : ring h l -> x ∈ l -> exists y, y ∈ l /\ nx h x = Some y.
Proof.
  intros Hr Hx. apply list_elem_of_split in Hx as (l1 & l2 & ->).
  apply ring_rotate in Hr. cbn [app] in Hr. destruct (l2 ++ l1) as [|y l] eqn:E.
  - exists x. split; [set_solver|]. by apply (ring_last _ _ [] x Hr).
  - exists y. split; [|by apply ring_next in Hr as [? _]].
    assert (y ∈ l2 ++ l1) as Hy by (rewrite E; apply list_elem_of_here). set_solver.
Qed.

Lemma ring_pv h l x : ring h l -> x ∈ l -> exists y, y ∈ l /\ pv h x = Some y.
Proof.
  intros Hr Hx. apply list_elem_of_split in Hx as (l1 & l2 & ->).
  apply ring_rotate in Hr. cbn [app] in Hr.
  destruct (last (x :: l2 ++ l1)) as [z|] eqn:Hz; [|by apply last_None in Hz].
  exists z. split; [|by apply (ring_last _ _ _ _ Hr Hz)].
  apply last_Some_elem_of in Hz. set_solver.
Qed.

Lemma ring_frame h h' l :
  (forall x, x ∈ l -> nx h' x = nx h x /\ pv h' x = pv h x) -> ring h l -> ring h' l.
Proof.
  intros Hf [Hnd Hr]. split; [done|]. intros x y Hxy.
  destruct (elem_of_cyc _ _ _ Hxy) as [Hx Hy].
  destruct (Hf x Hx) as [-> _], (Hf y Hy) as [_ ->]. by apply Hr.
Qed.

(** A node is alone in its ring exactly when it is its own predecessor
    (equivalently its own successor). *)
Lemma ring_alone_prev h x l : ring h (x :: l) -> pv h x = Some x <-> l = [].
Proof.
  intros Hr. destruct (last (x :: l)) as [z|] eqn:Hz; [|by apply last_None in Hz].
  destruct (ring_last _ _ _ _ Hr Hz) as [Hp _]. rewrite Hp. split.
  - intros [= ->]. destruct l as [|y l]; [done|].
    destruct Hr as [Hnd _]. apply NoDup_cons in Hnd as [Hni _].
    cbn [last] in Hz. by apply last_Some_elem_of in Hz.
  - intros ->. cbn in Hz. by simplify_eq.
Qed.

(** ** Updating a ring

    The circle is a path closed by the pair (last, first); a link update
    concerns the closing pair only, up to rotation. *)
Definition pairs l : list (Z * Z) := zip l (tail l).

Lemma pairs_snoc l x y : pairs ((l ++ [x]) ++ [y]) = pairs (l ++ [x]) ++ [(x, y)].
Proof.
  induction l as [|z l IH]; [done|]. destruct l as [|w l]; [done|].
  unfold pairs in *. cbn [app tail zip zip_with] in *. by rewrite IH.
Qed.

Lemma cyc_pairs x l t : last (x :: l) = Some t -> cyc (x :: l) = pairs (x :: l) ++ [(t, x)].
Proof.
  intros Ht. cbn [cyc]. unfold pairs. cbn [tail]. revert x Ht.
  assert (Hgen : forall a x, last (x :: l) = Some t ->
            zip (x :: l) (l ++ [a]) = zip (x :: l) l ++ [(t, a)]).
  { induction l as [|y l IH]; intros a x Ht; cbn in *; [by simplify_eq|].
    f_equal. by apply IH. }
  intros x Ht. by apply Hgen.
Qed.

Lemma elem_of_pairs x l t a b :
  NoDup (x :: l) -> last (x :: l) = Some t -> (a, b) ∈ pairs (x :: l) ->
  a ∈ x :: l /\ b ∈ l /\ a <> t /\ b <> x.
Proof.
  unfold pairs. cbn [tail]. revert x. induction l as [|y l IH]; intros x Hnd Ht Hab.
  { by apply elem_of_nil in Hab. }
  apply NoDup_cons in Hnd as [Hx Hnd]. cbn [zip zip_with] in Hab.
  assert (Hty : t ∈ y :: l) by (by apply last_Some_elem_of).
  apply elem_of_cons in Hab as [Hab|Hab].
  - simplify_eq. split_and!.
    + apply list_elem_of_here.
    + apply list_elem_of_here.
    + by intros ->.
    + intros ->. apply Hx, list_elem_of_here.
  - destruct (IH y Hnd Ht Hab) as (Ha & Hb & Hat & Hby). split_and!; try done.
    + by apply list_elem_of_further.
    + by apply list_elem_of_further.
    + intros ->. apply Hx. by apply list_elem_of_further.
Qed.

(** Linking [n] between the last node [t] and the first node [x]. *)
Lemma ring_insert_end h h' x l t n :
  ring h (x :: l) -> last (x :: l) = Some t -> n ∉ x :: l ->
  nx h' n = Some x -> pv h' n = Some t -> nx h' t = Some n -> pv h' x = Some n ->
  (forall k, k ∈ x :: l -> k <> t -> nx h' k = nx h k) ->
  (forall k, k ∈ x :: l -> k <> x -> pv h' k = pv h k) ->
  ring h' (x :: l ++ [n]).
Proof.
  intros [Hnd Hr] Ht Hn Hnn Hpn Hnt Hpx Hnk Hpk. split.
  { change (x :: l ++ [n]) with ((x :: l) ++ [n]). apply NoDup_app. split_and!; [done| |].
    - intros k Hk ->%list_elem_of_singleton. done.
    - apply NoDup_singleton. }
  assert (Hlast : last (x :: l ++ [n]) = Some n).
  { change (x :: l ++ [n]) with ((x :: l) ++ [n]). by rewrite last_snoc. }
  rewrite (cyc_pairs _ _ _ Hlast).
  apply last_Some in Ht as [l0 Hl0].
  change (x :: l ++ [n]) with ((x :: l) ++ [n]). rewrite Hl0, pairs_snoc, <- Hl0.
  intros a b. rewrite !elem_of_app, !list_elem_of_singleton.
  assert (Ht : last (x :: l) = Some t) by (by rewrite Hl0, last_snoc).
  intros [[Hab|Hab]|Hab]; simplify_eq; try done.
  destruct (elem_of_pairs _ _ _ _ _ Hnd Ht Hab) as (Ha & Hb & Hat & Hbx).
  rewrite Hnk, Hpk; [|by apply list_elem_of_further|done|done|done].
  apply Hr. rewrite (cyc_pairs _ _ _ Ht). apply elem_of_app. by left.
Qed.

(** Linking [n] in front of [y]; [x] is the node before it. *)
Lemma ring_insert_before h h' l1 y l2 x n :
  ring h (l1 ++ y :: l2) -> pv h y = Some x -> n ∉ l1 ++ y :: l2 ->
  nx h' n = Some y -> pv h' n = Some x -> nx h' x = Some n -> pv h' y = Some n ->
  (forall k, k ∈ l1 ++ y :: l2 -> k <> x -> nx h' k = nx h k) ->
  (forall k, k ∈ l1 ++ y :: l2 -> k <> y -> pv h' k = pv h k) ->
  ring h' (l1 ++ n :: y :: l2).
Proof.
  intros Hr Hpy Hn Hnn Hpn Hnx Hpy' Hnk Hpk. apply ring_rotate in Hr as Hr'.
  cbn [app] in Hr'.
  destruct (last (y :: l2 ++ l1)) as [t|] eqn:Ht; [|by apply last_None in Ht].
  destruct (ring_last _ _ _ _ Hr' Ht) as [Hpt _]. assert (t = x) as -> by congruence.
  assert (Hset : forall k, k ∈ y :: l2 ++ l1 -> k ∈ l1 ++ y :: l2).
  { intros k Hk. change (y :: l2 ++ l1) with ((y :: l2) ++ l1) in Hk.
    by rewrite (Permutation_app_comm l1). }
  pose proof (ring_insert_end h h' y (l2 ++ l1) x n Hr' Ht) as Hi.
  assert (Hf : ring h' (y :: (l2 ++ l1) ++ [n])).
  { apply Hi; try done; eauto. }
  rewrite <- app_assoc in Hf. change (y :: l2 ++ l1 ++ [n]) with ((y :: l2) ++ (l1 ++ [n])) in Hf.
  apply ring_rotate in Hf. by rewrite <- app_assoc in Hf.
Qed.

(** Unlinking the first of at least two nodes. *)
Lemma ring_remove_first h h' x y l t :
  ring h (x :: y :: l) -> last (y :: l) = Some t ->
  nx h' t = Some y -> pv h' y = Some t ->
  (forall k, k ∈ y :: l -> k <> t -> nx h' k = nx h k) ->
  (forall k, k ∈ y :: l -> k <> y -> pv h' k = pv h k) ->
  ring h' (y :: l).
Proof.
  intros [Hnd Hr] Ht Hnt Hpy Hnk Hpk. apply NoDup_cons in Hnd as [Hx Hnd].
  split; [done|]. rewrite (cyc_pairs _ _ _ Ht).
  intros a b. rewrite elem_of_app, list_elem_of_singleton.
  intros [Hab|Hab]; simplify_eq; try done.
  destruct (elem_of_pairs _ _ _ _ _ Hnd Ht Hab) as (Ha & Hb & Hat & Hby).
  rewrite Hnk, Hpk; [|by apply list_elem_of_further|done|done|done].
  apply Hr. rewrite (cyc_pairs x (y :: l) t) by done. apply elem_of_app. left.
  cbn. by apply list_elem_of_further.
Qed.

(** Unlinking [x] from anywhere in a ring of at least two nodes, given its
    neighbours [p] and [s]. *)
Lemma ring_remove h h' l1 x l2 p s :
  ring h (l1 ++ x :: l2) -> l1 ++ l2 <> [] ->
  pv h x = Some p -> nx h x = Some s ->
  nx h' p = Some s -> pv h' s = Some p ->
  (forall k, k ∈ l1 ++ l2 -> k <> p -> nx h' k = nx h k) ->
  (forall k, k ∈ l1 ++ l2 -> k <> s -> pv h' k = pv h k) ->
  ring h' (l1 ++ l2).
Proof.
  intros Hr Hne Hp Hs Hnp Hps Hnk Hpk. apply ring_rotate in Hr. cbn [app] in Hr.
  destruct (l2 ++ l1) as [|y l] eqn:E.
  { apply app_eq_nil in E as [-> ->]. done. }
  destruct (ring_next _ _ _ _ Hr) as [Hnx _]. assert (s = y) as -> by congruence.
  destruct (last (y :: l)) as [t|] eqn:Ht; [|by apply last_None in Ht].
  destruct (ring_last _ _ _ t Hr) as [Hpx _]; [done|]. assert (t = p) as -> by congruence.
  assert (Hset : forall k, k ∈ y :: l -> k ∈ l1 ++ l2).
  { intros k Hk. rewrite <- E in Hk. by rewrite (Permutation_app_comm l1). }
  assert (Hf : ring h' (y :: l)) by (eapply ring_remove_first; eauto).
  rewrite <- E in Hf. by apply ring_rotate.
Qed.

(** The neighbours of a node of a ring of at least two nodes are in the ring
    without it. *)
Lemma ring_neighbours h l1 x l2 :
  ring h (l1 ++ x :: l2) -> l1 ++ l2 <> [] ->
  exists p s, pv h x = Some p /\ nx h x = Some s /\
    p ∈ l1 ++ l2 /\ s ∈ l1 ++ l2 /\ p <> x /\ s <> x.
Proof.
  intros Hr Hne. apply ring_rotate in Hr. cbn [app] in Hr.
  destruct (l2 ++ l1) as [|y l] eqn:E.
  { apply app_eq_nil in E as [-> ->]. done. }
  destruct (ring_next _ _ _ _ Hr) as [Hnx _].
  destruct (last (y :: l)) as [t|] eqn:Ht; [|by apply last_None in Ht].
  destruct (ring_last _ _ _ t Hr) as [Hpx _]; [done|].
  destruct Hr as [Hnd _]. apply NoDup_cons in Hnd as [Hx Hnd].
  assert (Hset : forall k, k ∈ y :: l -> k ∈ l1 ++ l2).
  { intros k Hk. rewrite <- E in Hk. by rewrite (Permutation_app_comm l1). }
  assert (Htl : t ∈ y :: l) by (by apply last_Some_elem_of).
  exists t, y. split_and!; try done.
  - by apply Hset.
  - apply Hset, list_elem_of_here.
  - by intros ->.
  - intros ->. apply Hx, list_elem_of_here.
Qed.

(** ** Heaps equal up to links

    The link updates of the order book change no other field of a node. *)
Definition heap_eq h h' : Prop := forall i, unlinked <$> h !! i = unlinked <$> h' !! i.

#[export] Instance heap_eq_equiv : Equivalence heap_eq.
Proof.
  split.
  - by intros ??.
  - by intros ?? Hh i.
  - intros ??? H1 H2 i. by rewrite (H1 i), (H2 i).
Qed.

Lemma unlinked_lnext p n : unlinked (set_lnext p n) = unlinked n.
Proof. unfold unlinked. by rewrite set_lprev_lnext, set_lnext_lnext. Qed.
Lemma unlinked_lprev p n : unlinked (set_lprev p n) = unlinked n.
Proof. unfold unlinked. by rewrite set_lprev_lprev. Qed.

Lemma heap_eq_alter h i f : (forall n, unlinked (f n) = unlinked n) -> heap_eq (alter f i h) h.
Proof.
  intros Hf j. rewrite lookup_alter. case_decide; subst; [|done].
  destruct (h !! j); cbn; [|done]. by rewrite Hf.
Qed.

Lemma heap_eq_lnext h i p : heap_eq (alter (set_lnext p) i h) h.
Proof. apply heap_eq_alter. intros n. apply unlinked_lnext. Qed.
Lemma heap_eq_lprev h i p : heap_eq (alter (set_lprev p) i h) h.
Proof. apply heap_eq_alter. intros n. apply unlinked_lprev. Qed.

#[export] Instance alter_lnext_proper p i : Proper (heap_eq ==> heap_eq) (alter (set_lnext p) i).
Proof. intros h h' Hh. by rewrite !heap_eq_lnext. Qed.
#[export] Instance alter_lprev_proper p i : Proper (heap_eq ==> heap_eq) (alter (set_lprev p) i).
Proof. intros h h' Hh. by rewrite !heap_eq_lprev. Qed.

Lemma heap_eq_lookup h h' i n :
  heap_eq h h' -> h !! i = Some n -> exists n', h' !! i = Some n' /\ unlinked n' = unlinked n.
Proof.
  intros Hh Hi. pose proof (Hh i) as He. rewrite Hi in He. cbn in He.
  destruct (h' !! i) as [n'|]; cbn in He; [|done]. injection He as He. by exists n'.
Qed.

Lemma heap_eq_alive h h' i : heap_eq h h' -> is_Some (h !! i) -> is_Some (h' !! i).
Proof. intros Hh [n Hn]. destruct (heap_eq_lookup _ _ _ _ Hh Hn) as (n' & ? & _). eauto. Qed.

Lemma heap_eq_dom h h' : heap_eq h h' -> dom h = dom h'.
Proof.
  intros Hh. apply set_eq. intros i. rewrite !elem_of_dom.
  split; apply heap_eq_alive; [done|by symmetry].
Qed.

#[export] Instance delete_heap_proper i : Proper (heap_eq ==> heap_eq) (delete i).
Proof.
  intros h h' Hh j. rewrite !lookup_delete. case_decide; [done|apply Hh].
Qed.

End Ring.

#[export] Hint Rewrite @nx_alter_lnext @pv_alter_lprev @nx_alter_lprev @pv_alter_lnext : hft_live.

Infix "≡ₕ" := heap_eq (at level 70, no associativity) : hft_scope.
