(* ===== verification/Orders.v ===== *)
(** Orders and price levels: src/src/core/exchange/matching_engine_order.h.

    A pointer to an Order or to an OrdersAtPrice is the index of its block in
    the pool of the order book that owns it. *)

From S2P Require Import Prelude Types Ring.

Record Order := mkOrder {
  o_tickerId : Z;
  o_clientId : Z;
  o_clientOrderId : Z;
  o_marketOrderId : Z;
  o_side : Side.t;
  o_price : Z;
  o_qty : Z;
  o_priority : Z;
  o_prev : ptr;
  o_next : ptr;
}.

Record OrdersAtPrice := mkLevel {
  l_side : Side.t;
  l_price : Z;
  l_order0 : ptr;
  l_prev : ptr;
  l_next : ptr;
}.

Definition order_set_prev (p : ptr) (o : Order) : Order :=
  mkOrder (o_tickerId o) (o_clientId o) (o_clientOrderId o) (o_marketOrderId o) (o_side o)
          (o_price o) (o_qty o) (o_priority o) p (o_next o).
Definition order_set_next (p : ptr) (o : Order) : Order :=
  mkOrder (o_tickerId o) (o_clientId o) (o_clientOrderId o) (o_marketOrderId o) (o_side o)
          (o_price o) (o_qty o) (o_priority o) (o_prev o) p.
Definition order_set_qty (q : Z) (o : Order) : Order :=
  mkOrder (o_tickerId o) (o_clientId o) (o_clientOrderId o) (o_marketOrderId o) (o_side o)
          (o_price o) q (o_priority o) (o_prev o) (o_next o).

Definition level_set_prev (p : ptr) (l : OrdersAtPrice) : OrdersAtPrice :=
  mkLevel (l_side l) (l_price l) (l_order0 l) p (l_next l).
Definition level_set_next (p : ptr) (l : OrdersAtPrice) : OrdersAtPrice :=
  mkLevel (l_side l) (l_price l) (l_order0 l) (l_prev l) p.
Definition level_set_order0 (p : ptr) (l : OrdersAtPrice) : OrdersAtPrice :=
  mkLevel (l_side l) (l_price l) p (l_prev l) (l_next l).

#[export, refine] Instance order_linked : Linked Order :=
  { lnext := o_next; lprev := o_prev; set_lnext := order_set_next; set_lprev := order_set_prev }.
Proof. all: done. Defined.

#[export, refine] Instance level_linked : Linked OrdersAtPrice :=
  { lnext := l_next; lprev := l_prev; set_lnext := level_set_next; set_lprev := level_set_prev }.
Proof. all: done. Defined.

(** Order::to_string; [find] resolves the neighbour pointers. *)
Definition Order_to_string (find : ptr -> option Order) (o : Order) : string :=
  let neighbour p := orderIdToStr (from_option o_marketOrderId OrderID_INVALID (find p)) in
  ("<Order>[ticker: " +:+ tickerIdToStr (o_tickerId o)
   +:+ ", client: " +:+ clientIdToStr (o_clientId o)
   +:+ ", oid_client: " +:+ orderIdToStr (o_clientOrderId o)
   +:+ ", oid_market: " +:+ orderIdToStr (o_marketOrderId o)
   +:+ ", side_: " +:+ sideToStr (o_side o)
   +:+ ", price_: " +:+ priceToStr (o_price o)
   +:+ ", qty_: " +:+ qtyToStr (o_qty o)
   +:+ ", priority_: " +:+ priorityToStr (o_priority o)
   +:+ ", prev_: " +:+ neighbour (o_prev o)
   +:+ ", next_: " +:+ neighbour (o_next o) +:+ "]")%string.

(** OrdersAtPrice::toString. *)
Definition OrdersAtPrice_toString (findOrder : ptr -> option Order)
    (findLevel : ptr -> option OrdersAtPrice) (l : OrdersAtPrice) : string :=
  let neighbour p := priceToStr (from_option l_price Price_INVALID (findLevel p)) in
  ("<OrdersAtPrice>[side_: " +:+ sideToStr (l_side l)
   +:+ ", price_: " +:+ priceToStr (l_price l)
   +:+ ", order0_: " +:+ from_option (Order_to_string findOrder) "NULL" (findOrder (l_order0 l))
   +:+ ", prev_: " +:+ neighbour (l_prev l)
   +:+ ", next_: " +:+ neighbour (l_next l) +:+ "]")%string.
