(* ===== verification/OrderBook.v ===== *)
(** The limit order book: src/src/core/matching_engine/order_book.h and
    order_book.cpp, member by member.

    [OrderBook] is the object's state.  A pointer-valued array is the map of
    its non-null entries.  Member functions run in the state and error monad:
    those that touch the book only in [M OrderBook], those that also call the
    matching engine in [M (OrderBook * E)], where [E] is the engine seen through
    the interface [OmeSink].

    matchOrder decrements its pointer parameter qtyRemains instead of the
    quantity it points to, and then reads through the moved pointer.  C++ gives
    that read no meaning.  In the model it finds the word that is there,
    [strayWord], a parameter that depends on the state and the displacement, or
    faults where no memory is mapped. *)

From S2P Require Import Prelude MemoryPool Types Messages Ring Orders.

(** ** The engine as the book sees it *)
Class OmeSink (E : Type) := {
  dispatchClientResponse : OMEClientResponse -> E -> E;
  publishMarketUpdate : OMEMarketUpdate -> E -> E;
}.

(** The memory below the local variable of findMatch: the 32-bit word that is
    [k] words below it, [None] where nothing is mapped, and a number of words
    that are mapped in every state (it may be zero). *)
Class StrayMemory (S : Type) := {
  strayWord : S -> Z -> option Z;
  strayRoom : Z;
  strayWord_mapped s k : 0 < k <= strayRoom -> is_Some (strayWord s k);
}.

(** Memory that reads as zero as far as a Qty can reach. *)
Definition zeroStray {S} : StrayMemory S := {|
  strayWord _ _ := Some 0;
  strayRoom := 2 ^ 32;
  strayWord_mapped _ _ _ := mk_is_Some _ 0 eq_refl;
|}.

(** ** State *)
Record OrderBook := mkBook {
  assignedTicker_ : Z;
  mapClientIdToOrder_ : gmap (Z * Z) Z;
  bidsByPrice_ : ptr;
  asksByPrice_ : ptr;
  mapPriceToPriceLevel_ : gmap Z Z;
  ordersAtPricePool_ : MemoryPool OrdersAtPrice;
  orderPool_ : MemoryPool Order;
  clientResponse_ : OMEClientResponse;
  marketUpdate_ : OMEMarketUpdate;
  nextMarketOid_ : Z;
}.

(** Storing a pointer in an array of pointers. *)
Definition set_slot {K} `{Countable K} (k : K) (p : ptr) (m : gmap K Z) : gmap K Z :=
  match p with Some i => <[k := i]> m | None => delete k m end.

Definition set_clientSlot (c o : Z) (p : ptr) (b : OrderBook) : OrderBook :=
  mkBook (assignedTicker_ b) (set_slot (c, o) p (mapClientIdToOrder_ b)) (bidsByPrice_ b)
    (asksByPrice_ b) (mapPriceToPriceLevel_ b) (ordersAtPricePool_ b) (orderPool_ b)
    (clientResponse_ b) (marketUpdate_ b) (nextMarketOid_ b).
Definition set_bids (p : ptr) (b : OrderBook) : OrderBook :=
  mkBook (assignedTicker_ b) (mapClientIdToOrder_ b) p
    (asksByPrice_ b) (mapPriceToPriceLevel_ b) (ordersAtPricePool_ b) (orderPool_ b)
    (clientResponse_ b) (marketUpdate_ b) (nextMarketOid_ b).
Definition set_asks (p : ptr) (b : OrderBook) : OrderBook :=
  mkBook (assignedTicker_ b) (mapClientIdToOrder_ b) (bidsByPrice_ b)
    p (mapPriceToPriceLevel_ b) (ordersAtPricePool_ b) (orderPool_ b)
    (clientResponse_ b) (marketUpdate_ b) (nextMarketOid_ b).
Definition set_levelSlot (k : Z) (p : ptr) (b : OrderBook) : OrderBook :=
  mkBook (assignedTicker_ b) (mapClientIdToOrder_ b) (bidsByPrice_ b)
    (asksByPrice_ b) (set_slot k p (mapPriceToPriceLevel_ b)) (ordersAtPricePool_ b) (orderPool_ b)
    (clientResponse_ b) (marketUpdate_ b) (nextMarketOid_ b).
Definition set_levelPool (p : MemoryPool OrdersAtPrice) (b : OrderBook) : OrderBook :=
  mkBook (assignedTicker_ b) (mapClientIdToOrder_ b) (bidsByPrice_ b)
    (asksByPrice_ b) (mapPriceToPriceLevel_ b) p (orderPool_ b)
    (clientResponse_ b) (marketUpdate_ b) (nextMarketOid_ b).
Definition set_orderPool (p : MemoryPool Order) (b : OrderBook) : OrderBook :=
  mkBook (assignedTicker_ b) (mapClientIdToOrder_ b) (bidsByPrice_ b)
    (asksByPrice_ b) (mapPriceToPriceLevel_ b) (ordersAtPricePool_ b) p
    (clientResponse_ b) (marketUpdate_ b) (nextMarketOid_ b).
Definition set_response (r : OMEClientResponse) (b : OrderBook) : OrderBook :=
  mkBook (assignedTicker_ b) (mapClientIdToOrder_ b) (bidsByPrice_ b)
    (asksByPrice_ b) (mapPriceToPriceLevel_ b) (ordersAtPricePool_ b) (orderPool_ b)
    r (marketUpdate_ b) (nextMarketOid_ b).
Definition set_update (u : OMEMarketUpdate) (b : OrderBook) : OrderBook :=
  mkBook (assignedTicker_ b) (mapClientIdToOrder_ b) (bidsByPrice_ b)
    (asksByPrice_ b) (mapPriceToPriceLevel_ b) (ordersAtPricePool_ b) (orderPool_ b)
    (clientResponse_ b) u (nextMarketOid_ b).
Definition set_nextOid (n : Z) (b : OrderBook) : OrderBook :=
  mkBook (assignedTicker_ b) (mapClientIdToOrder_ b) (bidsByPrice_ b)
    (asksByPrice_ b) (mapPriceToPriceLevel_ b) (ordersAtPricePool_ b) (orderPool_ b)
    (clientResponse_ b) (marketUpdate_ b) n.

(** The constructor: empty arrays, two fresh pools. *)
Definition newOrderBook (ticker : Z) : res OrderBook :=
  match construct MAX_PRICE_LEVELS, construct MAX_ORDER_IDS with
  | Ok lp, Ok op => Ok (mkBook ticker ∅ None None ∅ lp op dflt dflt 1)
  | Err e, _ => Err e
  | _, Err e => Err e
  end.

(** ** Pointers into the two pools *)
Definition load_order (i : Z) : M OrderBook Order := zoom orderPool_ set_orderPool (load i).
Definition upd_order (i : Z) (f : Order -> Order) : M OrderBook unit :=
  zoom orderPool_ set_orderPool (update i f).
Definition load_level (i : Z) : M OrderBook OrdersAtPrice :=
  zoom ordersAtPricePool_ set_levelPool (load i).
Definition upd_level (i : Z) (f : OrdersAtPrice -> OrdersAtPrice) : M OrderBook unit :=
  zoom ordersAtPricePool_ set_levelPool (update i f).

Definition priceToIndex (price : Z) : Z := u64 price mod MAX_PRICE_LEVELS.
Definition getLevelForPrice (b : OrderBook) (price : Z) : ptr :=
  mapPriceToPriceLevel_ b !! priceToIndex price.

(** nextMarketOid_++ *)
Definition getNewMarketOrderId : M OrderBook Z :=
  n ← gets nextMarketOid_; modify (set_nextOid (u64 (n + 1)));; mret n.

Definition getNextPriority (price : Z) : M OrderBook Z :=
  b ← get;
  match getLevelForPrice b price with
  | None => mret 1
  | Some l =>
      lv ← load_level l;
      i0 ← nonnull (l_order0 lv); o0 ← load_order i0;
      ip ← nonnull (o_prev o0); o ← load_order ip;
      mret (u64 (o_priority o + 1))
  end.

(** The reference bestOrdersByPrice: bidsByPrice_ for BUY, asksByPrice_ for
    every other side. *)
Definition bestOrdersByPrice (side : Side.t) (b : OrderBook) : ptr :=
  if decide (side = Side.BUY) then bidsByPrice_ b else asksByPrice_ b.
Definition set_best (side : Side.t) (p : ptr) (b : OrderBook) : OrderBook :=
  if decide (side = Side.BUY) then set_bids p b else set_asks p b.

(** ** Price levels *)
Definition shouldAddAfter (side : Side.t) (price target : Z) : bool :=
  if decide (side = Side.SELL) then target <? price else price <? target.

(** The new level is strictly better than the best one. *)
Definition becomesBest (side : Side.t) (price best : Z) : bool :=
  (bool_decide (side = Side.BUY) && (best <? price)) ||
  (bool_decide (side = Side.SELL) && (price <? best)).

(** do { target = target->next_; ... } while (shouldAddAfter && target != best);
    one unit of fuel per iteration. *)
Fixpoint seekLevel (fuel : nat) (side : Side.t) (price best target : Z)
    : M OrderBook (Z * bool) :=
  match fuel with
  | O => fail OutOfFuel
  | S fuel' =>
      tl ← load_level target;
      next ← nonnull (l_next tl);
      nl ← load_level next;
      let after := shouldAddAfter side price (l_price nl) in
      if after && negb (next =? best) then seekLevel fuel' side price best next
      else mret (next, after)
  end.

Definition addPriceLevel (n : Z) : M OrderBook unit :=
  nl ← load_level n;
  modify (set_levelSlot (priceToIndex (l_price nl)) (Some n));;
  b ← get;
  match bestOrdersByPrice (l_side nl) b with
  | None =>
      modify (set_best (l_side nl) (Some n));;
      upd_level n (level_set_next (Some n));;
      upd_level n (level_set_prev (Some n))
  | Some best =>
      bl ← load_level best;
      found ← (if shouldAddAfter (l_side nl) (l_price nl) (l_price bl)
               then seekLevel (Z.to_nat (totalBlocks_ (ordersAtPricePool_ b)))
                              (l_side nl) (l_price nl) best best
               else mret (best, false));
      let '(target, after) := found : Z * bool in
      if after then
        upd_level n (level_set_prev (Some target));;
        tl ← load_level target;
        upd_level n (level_set_next (l_next tl));;
        tl ← load_level target;
        tn ← nonnull (l_next tl);
        upd_level tn (level_set_prev (Some n));;
        upd_level target (level_set_next (Some n))
      else
        upd_level n (level_set_next (Some target));;
        tl ← load_level target;
        upd_level n (level_set_prev (l_prev tl));;
        tl ← load_level target;
        tp ← nonnull (l_prev tl);
        upd_level tp (level_set_next (Some n));;
        upd_level target (level_set_prev (Some n));;
        bl ← load_level best;
        if becomesBest (l_side nl) (l_price nl) (l_price bl)
        then modify (set_best (l_side nl) (Some n)) else mret tt
  end.

Definition removePriceLevel (side : Side.t) (price : Z) : M OrderBook unit :=
  b ← get;
  l ← nonnull (getLevelForPrice b price);
  lv ← load_level l;
  (if decide (l_next lv = Some l) then modify (set_best side None)
   else
     p ← nonnull (l_prev lv);
     upd_level p (level_set_next (l_next lv));;
     lv ← load_level l;
     s ← nonnull (l_next lv);
     upd_level s (level_set_prev (l_prev lv));;
     b ← get;
     lv ← load_level l;
     (if decide (bestOrdersByPrice side b = Some l)
      then modify (set_best side (l_next lv)) else mret tt);;
     upd_level l (level_set_next None);;
     upd_level l (level_set_prev None));;
  modify (set_levelSlot (priceToIndex price) None);;
  zoom ordersAtPricePool_ set_levelPool (deallocate l).

(** ** Orders in the book *)
Definition client_in_range (c o : Z) : bool :=
  (0 <=? c) && (c <? MAX_N_CLIENTS) && (0 <=? o) && (o <? MAX_ORDER_IDS).

Definition addOrderToBook (order : Z) : M OrderBook unit :=
  od ← load_order order;
  b ← get;
  match getLevelForPrice b (o_price od) with
  | None =>
      upd_order order (order_set_prev (Some order));;
      upd_order order (order_set_next (Some order));;
      newLevel ← zoom ordersAtPricePool_ set_levelPool
                   (allocate (mkLevel (o_side od) (o_price od) (Some order) None None));
      n ← nonnull newLevel;
      addPriceLevel n
  | Some priceLevel =>
      lv ← load_level priceLevel;
      first ← nonnull (l_order0 lv);
      fo ← load_order first;
      upd_order order (order_set_prev (o_prev fo));;
      upd_order order (order_set_next (Some first));;
      fo ← load_order first;
      last ← nonnull (o_prev fo);
      upd_order last (order_set_next (Some order));;
      upd_order first (order_set_prev (Some order))
  end;;
  od ← load_order order;
  require (client_in_range (o_clientId od) (o_clientOrderId od)) OutOfBounds;;
  modify (set_clientSlot (o_clientId od) (o_clientOrderId od) (Some order)).

Definition removeOrderFromBook (order : Z) : M OrderBook unit :=
  od ← load_order order;
  b ← get;
  let ordersAtPrice := getLevelForPrice b (o_price od) in
  (if decide (o_prev od = Some order) then removePriceLevel (o_side od) (o_price od)
   else
     p ← nonnull (o_prev od);
     upd_order p (order_set_next (o_next od));;
     od ← load_order order;
     s ← nonnull (o_next od);
     upd_order s (order_set_prev (o_prev od));;
     l ← nonnull ordersAtPrice;
     lv ← load_level l;
     (if decide (l_order0 lv = Some order)
      then od ← load_order order; upd_level l (level_set_order0 (o_next od)) else mret tt);;
     upd_order order (order_set_next None);;
     upd_order order (order_set_prev None));;
  od ← load_order order;
  require (client_in_range (o_clientId od) (o_clientOrderId od)) OutOfBounds;;
  modify (set_clientSlot (o_clientId od) (o_clientOrderId od) None);;
  zoom orderPool_ set_orderPool (deallocate order).

(** ** Requests *)
Section Requests.
Context {E : Type} `{OmeSink E} `{StrayMemory OrderBook}.

Definition on_book {A} (m : M OrderBook A) : M (OrderBook * E) A :=
  zoom fst (fun b w => (b, w.2)) m.

(** clientResponse_ = r; ome_.dispatchClientResponse(clientResponse_) *)
Definition respond (r : OMEClientResponse) : M (OrderBook * E) unit :=
  on_book (modify (set_response r));;
  modify (fun w => (w.1, dispatchClientResponse (clientResponse_ w.1) w.2)).
Definition set_marketUpdate (u : OMEMarketUpdate) : M (OrderBook * E) unit :=
  on_book (modify (set_update u)).
Definition publish : M (OrderBook * E) unit :=
  modify (fun w => (w.1, publishMarketUpdate (marketUpdate_ w.1) w.2)).

Definition matchOrder (tickerId clientId : Z) (side : Side.t) (clientOrderId newMarketOid : Z)
    (orderMatched qtyRemains : Z) : M (OrderBook * E) unit :=
  om ← on_book (load_order orderMatched);
  let fillQty := Z.min qtyRemains (o_qty om) in
  (* qtyRemains -= fillQty moves the pointer by fillQty words *)
  on_book (upd_order orderMatched (fun o => order_set_qty (u32 (o_qty o - fillQty)) o));;
  b ← on_book get;
  om ← on_book (load_order orderMatched);
  remainRead ← (if fillQty =? 0 then mret qtyRemains
                else match strayWord b fillQty with
                     | Some w => mret (u32 w)
                     | None => fail BadRead
                     end);
  respond (mkResponse ResponseType.FILLED clientId tickerId clientOrderId newMarketOid side
             (o_price om) fillQty remainRead);;
  respond (mkResponse ResponseType.FILLED (o_clientId om) tickerId (o_clientOrderId om)
             (o_marketOrderId om) (o_side om) (o_price om) fillQty (o_qty om));;
  set_marketUpdate (mkUpdate UpdateType.TRADE OrderID_INVALID tickerId side (o_price om)
             fillQty Priority_INVALID);;
  publish;;
  if o_qty om =? 0 then
    set_marketUpdate (mkUpdate UpdateType.CANCEL (o_marketOrderId om) tickerId (o_side om)
               (o_price om) fillQty Priority_INVALID);;
    publish;;
    on_book (removeOrderFromBook orderMatched)
  else
    set_marketUpdate (mkUpdate UpdateType.MODIFY (o_marketOrderId om) tickerId (o_side om)
               (o_price om) (o_qty om) (o_priority om));;
    publish.

(** The head of the opposite side and the test that stops the loop. *)
Definition oppositeBest (side : Side.t) (b : OrderBook) : ptr :=
  match side with
  | Side.BUY => asksByPrice_ b
  | Side.SELL => bidsByPrice_ b
  | _ => None
  end.
Definition crosses (side : Side.t) (price resting : Z) : bool :=
  match side with
  | Side.BUY => negb (price <? resting)
  | Side.SELL => negb (resting <? price)
  | _ => false
  end.

(** while (qtyRemains && best) { ...; matchOrder(...); }: *qtyRemains is never
    written, so every iteration sees the same quantity. *)
Fixpoint findMatchLoop (fuel : nat) (clientId clientOid tickerId : Z) (side : Side.t)
    (price qtyRemains newMarketOid : Z) : M (OrderBook * E) Z :=
  match fuel with
  | O => fail OutOfFuel
  | S fuel' =>
      b ← on_book get;
      match oppositeBest side b with
      | Some level =>
          if qtyRemains =? 0 then mret qtyRemains
          else
            lv ← on_book (load_level level);
            i ← nonnull (l_order0 lv);
            o ← on_book (load_order i);
            if crosses side price (o_price o) then
              matchOrder tickerId clientId side clientOid newMarketOid i qtyRemains;;
              findMatchLoop fuel' clientId clientOid tickerId side price qtyRemains newMarketOid
            else mret qtyRemains
      | None => mret qtyRemains
      end
  end.

(** An upper bound on the iterations: a resting order of quantity [q] takes at
    most ceil(q / qty) fills of [qty]. *)
Definition fills (qty q : Z) : nat := Z.to_nat ((q + qty - 1) / qty).
Definition matchFuel (qty : Z) (b : OrderBook) : nat :=
  S (map_fold (fun _ o n => (fills qty (o_qty o) + n)%nat) 0%nat (live (orderPool_ b))).

Definition findMatch (clientId clientOid tickerId : Z) (side : Side.t)
    (price qty newMarketOid : Z) : M (OrderBook * E) Z :=
  b ← on_book get;
  findMatchLoop (matchFuel qty b) clientId clientOid tickerId side price qty newMarketOid.

Definition addOrder (clientId clientOid tickerId : Z) (side : Side.t) (price qty : Z)
    : M (OrderBook * E) unit :=
  newMarketOid ← on_book getNewMarketOrderId;
  respond (mkResponse ResponseType.ACCEPTED clientId tickerId clientOid newMarketOid side
             price 0 qty);;
  qtyRemains ← findMatch clientId clientOid tickerId side price qty newMarketOid;
  if negb (qtyRemains =? 0) then
    priority ← on_book (getNextPriority price);
    order ← on_book (zoom orderPool_ set_orderPool
              (allocate (mkOrder tickerId clientId clientOid newMarketOid side price
                           qtyRemains priority None None)));
    i ← nonnull order;
    on_book (addOrderToBook i);;
    set_marketUpdate (mkUpdate UpdateType.ADD newMarketOid tickerId side price qtyRemains
                        priority);;
    publish
  else mret tt.

Definition cancelOrder (clientId orderId tickerId : Z) : M (OrderBook * E) unit :=
  b ← on_book get;
  exchangeOrder ←
    (if clientId <? MAX_N_CLIENTS then
       (* std::array::at throws, and the function is noexcept *)
       require (orderId <? MAX_ORDER_IDS) Terminate;;
       mret (mapClientIdToOrder_ b !! (clientId, orderId))
     else mret None);
  match exchangeOrder : ptr with
  | None =>
      respond (mkResponse ResponseType.CANCEL_REJECTED clientId tickerId orderId
                 OrderID_INVALID Side.INVALID Price_INVALID Qty_INVALID Qty_INVALID)
  | Some i =>
      o ← on_book (load_order i);
      on_book (modify (set_response
        (mkResponse ResponseType.CANCELLED clientId tickerId orderId (o_marketOrderId o)
           (o_side o) (o_price o) Qty_INVALID (o_qty o))));;
      set_marketUpdate (mkUpdate UpdateType.CANCEL (o_marketOrderId o) tickerId (o_side o)
                          (o_price o) 0 (o_priority o));;
      on_book (removeOrderFromBook i);;
      publish;;
      modify (fun w => (w.1, dispatchClientResponse (clientResponse_ w.1) w.2))
  end.

End Requests.

(** ** What the book sends to the engine *)
Inductive OmeEvent :=
  | Resp (r : OMEClientResponse)
  | Upd (u : OMEMarketUpdate).

Definition emit {E} `{OmeSink E} (e : E) (ev : OmeEvent) : E :=
  match ev with
  | Resp r => dispatchClientResponse r e
  | Upd u => publishMarketUpdate u e
  end.
Definition emits {E} `{OmeSink E} (e : E) (evs : list OmeEvent) : E := foldl emit e evs.

(** An engine that only records what it is sent. *)
#[export] Instance trace_sink : OmeSink (list OmeEvent) := {
  dispatchClientResponse r e := e ++ [Resp r];
  publishMarketUpdate u e := e ++ [Upd u];
}.
