(* ===== verification/BookLevels.v ===== *)
(** The price levels of the order book as two circular lists.

    [LRep b lids] says that in the book [b] the levels of each side are the
    circle [lids side], best first.  addPriceLevel and removePriceLevel are
    shown to implement [insertLevel] and removal on that list, and the place
    where [insertLevel] puts a level is compared with the sorted one. *)

From stdpp Require Import sorting.
From S2P Require Import Prelude MemoryPool Types Messages Ring Orders OrderBook.
#[local] Open Scope Z_scope.
#[local] Open Scope hft_scope.

Abbreviation oh b := (live (orderPool_ b)).
Abbreviation lh b := (live (ordersAtPricePool_ b)).

Definition two_sided (sd : Side.t) : Prop := sd = Side.BUY \/ sd = Side.SELL.

Definition upd_side {A} (sd : Side.t) (s : A) (ls : Side.t -> A) : Side.t -> A :=
  fun x => if decide (x = sd) then s else ls x.

Lemma upd_side_eq {A} sd (s : A) ls : upd_side sd s ls sd = s.
Proof. unfold upd_side. by rewrite decide_True. Qed.
Lemma upd_side_ne {A} sd sd' (s : A) ls : sd' <> sd -> upd_side sd s ls sd' = ls sd'.
Proof. intros. unfold upd_side. by rewrite decide_False. Qed.

Record LRep (b : OrderBook) (lids : Side.t -> list Z) : Prop := {
  lr_best sd : two_sided sd -> bestOrdersByPrice sd b = head (lids sd);
  lr_ring sd : two_sided sd -> ring (lh b) (lids sd);
  lr_side sd l : two_sided sd -> l ∈ lids sd -> exists lv, lh b !! l = Some lv /\ l_side lv = sd;
  lr_alive l lv : lh b !! l = Some lv -> exists sd, two_sided sd /\ l ∈ lids sd;
  lr_map k l : mapPriceToPriceLevel_ b !! k = Some l <->
                 exists lv, lh b !! l = Some lv /\ priceToIndex (l_price lv) = k;
  lr_pool : pool_ok (ordersAtPricePool_ b);
  lr_total : totalBlocks_ (ordersAtPricePool_ b) = MAX_PRICE_LEVELS;
}.

(** The components the level operations do not touch. *)
Definition same_but_levels (b b' : OrderBook) : Prop :=
  orderPool_ b' = orderPool_ b /\ mapClientIdToOrder_ b' = mapClientIdToOrder_ b /\
  nextMarketOid_ b' = nextMarketOid_ b /\ assignedTicker_ b' = assignedTicker_ b /\
  clientResponse_ b' = clientResponse_ b /\ marketUpdate_ b' = marketUpdate_ b.

(** ** The insertion routine as a function on the list of levels

    [wr x] says that the new level is worse than the level [x].  [seek] is the
    do-while loop over the levels after the best one; it stops at the first level
    the new one is not worse than, or comes round to the best. *)
Section Insert.
Context {A : Type} (wr : A -> bool).

Fixpoint seek (best : A) (s : list A) : A * bool :=
  match s with
  | [] => (best, wr best)
  | t :: s' => if wr t then seek best s' else (t, false)
  end.

(** Before the first level that is not worse, if there is one. *)
Fixpoint insertBefore (n : A) (s : list A) : option (list A) :=
  match s with
  | [] => None
  | t :: s' => if wr t then (t ::.) <$> insertBefore n s' else Some (n :: t :: s')
  end.

(** A level worse than all of a side lands right after the best one. *)
Definition insertLevel (n : A) (ls : list A) : list A :=
  match ls with
  | [] => [n]
  | best :: rest =>
      if wr best then
        match insertBefore n rest with
        | Some rest' => best :: rest'
        | None => best :: n :: rest
        end
      else n :: best :: rest
  end.

Lemma insertBefore_Some n s s' :
  insertBefore n s = Some s' ->
  exists s1 t s2, s = s1 ++ t :: s2 /\ s' = s1 ++ n :: t :: s2 /\
    Forall (fun x => wr x = true) s1 /\ wr t = false.
Proof.
  revert s'. induction s as [|x s IH]; intros s' Hs; cbn in Hs; [done|].
  destruct (wr x) eqn:Hx.
  - destruct (insertBefore n s) as [s0|]; [|done]. cbn in Hs. injection Hs as <-.
    destruct (IH _ eq_refl) as (s1 & t & s2 & -> & -> & Hf & Ht).
    exists (x :: s1), t, s2. split_and!; try done. by constructor.
  - injection Hs as <-. exists [], x, s. by split_and!.
Qed.

Lemma insertBefore_None n s : insertBefore n s = None <-> Forall (fun x => wr x = true) s.
Proof.
  induction s as [|x s IH]; cbn; [by split|]. rewrite Forall_cons, <- IH.
  destruct (wr x); cbn; [|by split; [|intros []]].
  destruct (insertBefore n s); cbn; naive_solver.
Qed.

Lemma seek_spec best s n :
  wr best = true ->
  (exists s1 t s2, s = s1 ++ t :: s2 /\ seek best s = (t, false) /\
     insertBefore n s = Some (s1 ++ n :: t :: s2)) \/
  (seek best s = (best, true) /\ insertBefore n s = None).
Proof.
  intros Hb. induction s as [|x s IH]; cbn; [rewrite Hb; by right|].
  destruct (wr x).
  - destruct IH as [(s1 & t & s2 & -> & -> & ->)|[-> ->]]; [left|by right].
    by exists (x :: s1), t, s2.
  - left. by exists [], x, s.
Qed.

Lemma insertLevel_perm n ls : insertLevel n ls ≡ₚ n :: ls.
Proof.
  destruct ls as [|best rest]; [done|]. cbn. destruct (wr best); [|done].
  destruct (insertBefore n rest) as [r|] eqn:Hr.
  - destruct (insertBefore_Some _ _ _ Hr) as (s1 & t & s2 & -> & -> & _).
    by rewrite <- (Permutation_middle s1 (t :: s2) n), Permutation_swap.
  - by rewrite Permutation_swap.
Qed.
End Insert.

Lemma insertBefore_ext {A} (wr wr' : A -> bool) n s :
  (forall x, x ∈ s -> wr x = wr' x) -> insertBefore wr n s = insertBefore wr' n s.
Proof.
  induction s as [|x s IH]; intros He; [done|]. cbn. rewrite He by apply list_elem_of_here.
  by rewrite IH by (intros y Hy; apply He; by apply list_elem_of_further).
Qed.

Lemma insertLevel_ext {A} (wr wr' : A -> bool) n ls :
  (forall x, x ∈ ls -> wr x = wr' x) -> insertLevel wr n ls = insertLevel wr' n ls.
Proof.
  intros He. destruct ls as [|best rest]; [done|]. cbn.
  rewrite He by apply list_elem_of_here.
  by rewrite (insertBefore_ext wr wr') by (intros y Hy; apply He; by apply list_elem_of_further).
Qed.

Lemma insertLevel_fmap {A B} (f : A -> B) (wr : B -> bool) n ls :
  f <$> insertLevel (fun x => wr (f x)) n ls = insertLevel wr (f n) (f <$> ls).
Proof.
  assert (Hb : forall s : list A, option_map (fmap f) (insertBefore (fun x => wr (f x)) n s) =
                         insertBefore wr (f n) (f <$> s)).
  { induction s as [|x s IH]; [done|]. cbn. destruct (wr (f x)); [|done].
    rewrite <- IH. by destruct (insertBefore _ n s). }
  destruct ls as [|best rest]; [done|]. cbn. destruct (wr (f best)); [|done].
  rewrite <- Hb. by destruct (insertBefore _ n rest).
Qed.

(** The levels of a side are prices, and worse is [shouldAddAfter]. *)
Definition level_price (h : gmap Z OrdersAtPrice) (l : Z) : Z := from_option l_price 0 (h !! l).
Definition worse_in (h : gmap Z OrdersAtPrice) (sd : Side.t) (price : Z) (l : Z) : bool :=
  shouldAddAfter sd price (level_price h l).

(** ** Executing the pool accesses *)
Lemma wp_load_level l lv (Q : OrdersAtPrice -> OrderBook -> Prop) b :
  lh b !! l = Some lv -> Q lv b -> wp (load_level l) Q b.
Proof.
  intros Hl HQ. unfold load_level. wp_step. apply (load_live _ lv); [done|].
  by destruct b.
Qed.

Lemma wp_upd_level l f (Q : unit -> OrderBook -> Prop) b :
  is_Some (lh b !! l) -> Q tt (set_levelPool (updated l f (ordersAtPricePool_ b)) b) ->
  wp (upd_level l f) Q b.
Proof. intros Hl HQ. unfold upd_level. wp_step. by apply update_live. Qed.

Lemma wp_load_order i o (Q : Order -> OrderBook -> Prop) b :
  oh b !! i = Some o -> Q o b -> wp (load_order i) Q b.
Proof.
  intros Hl HQ. unfold load_order. wp_step. apply (load_live _ o); [done|].
  by destruct b.
Qed.

Lemma wp_upd_order i f (Q : unit -> OrderBook -> Prop) b :
  is_Some (oh b !! i) -> Q tt (set_orderPool (updated i f (orderPool_ b)) b) ->
  wp (upd_order i f) Q b.
Proof. intros Hl HQ. unfold upd_order. wp_step. by apply update_live. Qed.

Lemma wp_dealloc_level l x (Q : unit -> OrderBook -> Prop) b :
  pool_ok (ordersAtPricePool_ b) -> lh b !! l = Some x ->
  (forall p', pool_ok p' -> live p' = delete l (lh b) ->
     totalBlocks_ p' = totalBlocks_ (ordersAtPricePool_ b) -> Q tt (set_levelPool p' b)) ->
  wp (zoom ordersAtPricePool_ set_levelPool (deallocate l)) Q b.
Proof.
  intros Hok Hl HQ. wp_step. unfold wp.
  destruct (deallocate_live _ _ _ Hok Hl) as (p' & -> & ? & ? & ? & _). by apply HQ.
Qed.

Lemma wp_dealloc_order i x (Q : unit -> OrderBook -> Prop) b :
  pool_ok (orderPool_ b) -> oh b !! i = Some x ->
  (forall p', pool_ok p' -> live p' = delete i (oh b) ->
     totalBlocks_ p' = totalBlocks_ (orderPool_ b) -> Q tt (set_orderPool p' b)) ->
  wp (zoom orderPool_ set_orderPool (deallocate i)) Q b.
Proof.
  intros Hok Hl HQ. wp_step. unfold wp.
  destruct (deallocate_live _ _ _ Hok Hl) as (p' & -> & ? & ? & ? & _). by apply HQ.
Qed.

Lemma wp_alloc_level x (Q : ptr -> OrderBook -> Prop) b :
  pool_ok (ordersAtPricePool_ b) -> 0 < freeBlocksCount_ (ordersAtPricePool_ b) ->
  (forall l p', pool_ok p' -> lh b !! l = None -> live p' = <[l := x]> (lh b) ->
     totalBlocks_ p' = totalBlocks_ (ordersAtPricePool_ b) -> Q (Some l) (set_levelPool p' b)) ->
  wp (zoom ordersAtPricePool_ set_levelPool (allocate x)) Q b.
Proof.
  intros Hok Hf HQ. wp_step. unfold wp.
  destruct (allocate_fresh x _ Hok Hf) as (p' & -> & ? & ? & ? & ? & _). by apply HQ.
Qed.

Lemma wp_alloc_order x (Q : ptr -> OrderBook -> Prop) b :
  pool_ok (orderPool_ b) -> 0 < freeBlocksCount_ (orderPool_ b) ->
  (forall i p', pool_ok p' -> oh b !! i = None -> live p' = <[i := x]> (oh b) ->
     totalBlocks_ p' = totalBlocks_ (orderPool_ b) -> Q (Some i) (set_orderPool p' b)) ->
  wp (zoom orderPool_ set_orderPool (allocate x)) Q b.
Proof.
  intros Hok Hf HQ. wp_step. unfold wp.
  destruct (allocate_fresh x _ Hok Hf) as (p' & -> & ? & ? & ? & ? & _). by apply HQ.
Qed.

(** Projections of an updated book. *)
Ltac bcbn :=
  cbn [assignedTicker_ mapClientIdToOrder_ bidsByPrice_ asksByPrice_ mapPriceToPriceLevel_
       ordersAtPricePool_ orderPool_ clientResponse_ marketUpdate_ nextMarketOid_
       set_clientSlot set_bids set_asks set_levelSlot set_levelPool set_orderPool
       set_response set_update set_nextOid set_slot fst snd] in *.

Lemma best_levelPool sd p b : bestOrdersByPrice sd (set_levelPool p b) = bestOrdersByPrice sd b.
Proof. done. Qed.
Lemma best_levelSlot sd k p b : bestOrdersByPrice sd (set_levelSlot k p b) = bestOrdersByPrice sd b.
Proof. done. Qed.
Lemma best_set_best sd sd' p b :
  two_sided sd -> two_sided sd' ->
  bestOrdersByPrice sd' (set_best sd p b) = if decide (sd' = sd) then p else bestOrdersByPrice sd' b.
Proof. by intros [->| ->] [->| ->]. Qed.

(** The components of a book after [set_best]. *)
Lemma set_best_proj sd p b :
  ordersAtPricePool_ (set_best sd p b) = ordersAtPricePool_ b /\
  mapPriceToPriceLevel_ (set_best sd p b) = mapPriceToPriceLevel_ b /\
  same_but_levels b (set_best sd p b).
Proof. unfold set_best. by case_decide. Qed.

(** ** Removing a level *)
Lemma nx_delete_ne {N} `{Linked N} (h : gmap Z N) i k : k <> i -> nx (delete i h) k = nx h k.
Proof. intros. unfold nx. by rewrite lookup_delete_ne. Qed.
Lemma pv_delete_ne {N} `{Linked N} (h : gmap Z N) i k : k <> i -> pv (delete i h) k = pv h k.
Proof. intros. unfold pv. by rewrite lookup_delete_ne. Qed.

(** Pool updates seen as updates of the heap. *)
Ltac live_simpl := rewrite ?live_updated, ?lookup_alter_is_Some.

(** The setters as the interface [Linked] names them. *)
Ltac fold_links :=
  repeat match goal with
  | |- context [level_set_next ?p] => change (level_set_next p) with (@set_lnext _ level_linked p)
  | |- context [level_set_prev ?p] => change (level_set_prev p) with (@set_lprev _ level_linked p)
  | |- context [order_set_next ?p] => change (order_set_next p) with (@set_lnext _ order_linked p)
  | |- context [order_set_prev ?p] => change (order_set_prev p) with (@set_lprev _ order_linked p)
  end.

Section Levels.
Implicit Types (b : OrderBook) (l : Z) (lids : Side.t -> list Z).

Lemma lr_index_inj b lids l1 l2 lv1 lv2 :
  LRep b lids -> lh b !! l1 = Some lv1 -> lh b !! l2 = Some lv2 ->
  priceToIndex (l_price lv1) = priceToIndex (l_price lv2) -> l1 = l2.
Proof.
  intros Hr H1 H2 He.
  assert (Hk : mapPriceToPriceLevel_ b !! priceToIndex (l_price lv1) = Some l1)
    by (apply (lr_map _ _ Hr); eauto).
  assert (Hk2 : mapPriceToPriceLevel_ b !! priceToIndex (l_price lv1) = Some l2)
    by (apply (lr_map _ _ Hr); rewrite He; eauto).
  congruence.
Qed.

(** A level belongs to one side only. *)
Lemma lr_disjoint b lids sd1 sd2 l :
  LRep b lids -> two_sided sd1 -> two_sided sd2 -> l ∈ lids sd1 -> l ∈ lids sd2 -> sd1 = sd2.
Proof.
  intros Hr H1 H2 Hl1 Hl2.
  destruct (lr_side _ _ Hr _ _ H1 Hl1) as (lv & Hlv & <-).
  destruct (lr_side _ _ Hr _ _ H2 Hl2) as (lv' & Hlv' & <-). congruence.
Qed.

Lemma unlinked_level_eq (x y : OrdersAtPrice) :
  unlinked x = unlinked y -> l_side x = l_side y /\ l_price x = l_price y /\ l_order0 x = l_order0 y.
Proof. destruct x, y. cbn. intros [=]. by subst. Qed.

Lemma level_heap_eq (h h' : gmap Z OrdersAtPrice) l lv :
  heap_eq h h' -> h !! l = Some lv ->
  exists lv', h' !! l = Some lv' /\ l_side lv' = l_side lv /\ l_price lv' = l_price lv /\
              l_order0 lv' = l_order0 lv.
Proof.
  intros Hh Hl. destruct (heap_eq_lookup _ _ _ _ Hh Hl) as (lv' & Hl' & Hu).
  apply unlinked_level_eq in Hu as (? & ? & ?). eauto 6.
Qed.

(** What is left of the levels when [l] is removed. *)
Lemma levels_without b b' l :
  heap_eq (lh b') (delete l (lh b)) ->
  (forall k y, lh b' !! k = Some y -> k <> l /\
     exists x, lh b !! k = Some x /\ l_side x = l_side y /\ l_price x = l_price y) /\
  (forall k x, lh b !! k = Some x -> k <> l ->
     exists y, lh b' !! k = Some y /\ l_side y = l_side x /\ l_price y = l_price x).
Proof.
  intros Hh. split.
  - intros k y Hk. destruct (level_heap_eq _ _ _ _ Hh Hk) as (x & Hx & ? & ? & _).
    rewrite lookup_delete in Hx. case_decide; [done|]. eauto.
  - intros k x Hk Hne. symmetry in Hh.
    destruct (level_heap_eq _ _ k x Hh) as (y & ? & ? & ? & _);
      [by rewrite lookup_delete_ne|eauto].
Qed.

(** The representation after a level left the heap. *)
Lemma LRep_removed b b' lids sd (l1 : list Z) l (l2 : list Z) lv :
  LRep b lids -> two_sided sd -> lids sd = l1 ++ l :: l2 -> lh b !! l = Some lv ->
  heap_eq (lh b') (delete l (lh b)) ->
  ring (lh b') (l1 ++ l2) ->
  (forall k, k <> l -> k ∉ l1 ++ l2 -> nx (lh b') k = nx (lh b) k /\ pv (lh b') k = pv (lh b) k) ->
  bestOrdersByPrice sd b' = head (l1 ++ l2) ->
  (forall sd', sd' <> sd -> two_sided sd' -> bestOrdersByPrice sd' b' = bestOrdersByPrice sd' b) ->
  mapPriceToPriceLevel_ b' = delete (priceToIndex (l_price lv)) (mapPriceToPriceLevel_ b) ->
  pool_ok (ordersAtPricePool_ b') ->
  totalBlocks_ (ordersAtPricePool_ b') = MAX_PRICE_LEVELS ->
  LRep b' (upd_side sd (l1 ++ l2) lids).
Proof.
  intros Hr Hsd Hls Hlv Hh Hring Hfr Hb Hb' Hm Hok Htot.
  assert (Hndl : l ∉ l1 ++ l2).
  { destruct (lr_ring _ _ Hr sd Hsd) as [Hnd _]. rewrite Hls in Hnd.
    rewrite <- Permutation_middle in Hnd. by apply NoDup_cons in Hnd as [? _]. }
  destruct (levels_without b b' l Hh) as [Hback Hfwd].
  split; try done.
  - intros sd' Hsd'. destruct (decide (sd' = sd)) as [->|Hne]; [by rewrite upd_side_eq|].
    rewrite upd_side_ne, Hb' by done. by apply (lr_best _ _ Hr).
  - intros sd' Hsd'. destruct (decide (sd' = sd)) as [->|Hne]; [by rewrite upd_side_eq|].
    rewrite upd_side_ne by done. apply (ring_frame (lh b)); [|by apply (lr_ring _ _ Hr)].
    intros k Hk. apply Hfr.
    + intros ->. apply Hne. apply (lr_disjoint _ _ _ _ l Hr); try done. rewrite Hls. set_solver.
    + intros Hk'. apply Hne. apply (lr_disjoint _ _ _ _ k Hr); try done. rewrite Hls. set_solver.
  - intros sd' k Hsd' Hk.
    assert (Hk' : k ∈ lids sd' /\ k <> l).
    { destruct (decide (sd' = sd)) as [->|Hne].
      - rewrite upd_side_eq in Hk. rewrite Hls. split; [set_solver|by intros ->].
      - rewrite upd_side_ne in Hk by done. split; [done|]. intros ->. apply Hne.
        apply (lr_disjoint _ _ _ _ l Hr); try done. rewrite Hls. set_solver. }
    destruct Hk' as [Hk' Hne]. destruct (lr_side _ _ Hr _ _ Hsd' Hk') as (x & Hx & <-).
    destruct (Hfwd k x Hx Hne) as (y & ? & ? & _). eauto.
  - intros k y Hk. destruct (Hback _ _ Hk) as (Hne & x & Hx & _).
    destruct (lr_alive _ _ Hr _ _ Hx) as (sd' & Hsd' & Hin). exists sd'. split; [done|].
    destruct (decide (sd' = sd)) as [->|]; [|by rewrite upd_side_ne].
    rewrite upd_side_eq. rewrite Hls in Hin. set_solver.
  - intros k y. rewrite Hm, lookup_delete. case_decide as Hk.
    + split; [done|]. intros (z & Hz & <-). destruct (Hback _ _ Hz) as (Hne & x & Hx & _ & Hp).
      destruct Hne. apply (lr_index_inj b lids y l x lv Hr Hx Hlv). congruence.
    + rewrite (lr_map _ _ Hr). split.
      * intros (x & Hx & <-). assert (y <> l) by (intros ->; congruence).
        destruct (Hfwd y x Hx) as (z & ? & _ & Hp); [done|]. exists z. by rewrite Hp.
      * intros (z & Hz & <-). destruct (Hback _ _ Hz) as (_ & x & Hx & _ & Hp).
        exists x. by rewrite Hp.
Qed.

(** ** Linking a level between two neighbours *)
Record linked_between (h h' : gmap Z OrdersAtPrice) (x n y : Z) : Prop := {
  lb_eq : heap_eq h' h;
  lb_n : nx h' n = Some y /\ pv h' n = Some x;
  lb_x : nx h' x = Some n;
  lb_y : pv h' y = Some n;
  lb_nx k : k <> n -> k <> x -> nx h' k = nx h k;
  lb_pv k : k <> n -> k <> y -> pv h' k = pv h k;
}.

(** Only the level pool changed, and stayed a valid pool. *)
Definition relinked (b b' : OrderBook) : Prop :=
  exists p', b' = set_levelPool p' b /\ (pool_ok (ordersAtPricePool_ b) -> pool_ok p') /\
             totalBlocks_ p' = totalBlocks_ (ordersAtPricePool_ b).

Ltac solve_relinked :=
  eexists; split_and!; [done | bcbn; eauto using pool_ok_updated | bcbn; by rewrite ?(proj1 (updated_fields _ _ _))].

(** The links of a heap after a sequence of link updates. *)
Ltac solve_linked :=
  bcbn; live_simpl; fold_links; split;
  [ by rewrite ?heap_eq_lnext, ?heap_eq_lprev, ?heap_eq_lnext, ?heap_eq_lprev
  | repeat match goal with H : is_Some (_ !! _) |- _ => destruct H end; intros;
    unfold nx, pv in *; rewrite !lookup_alter; repeat case_decide; simplify_map_eq; try done .. ].

Lemma wp_link_after b n target y (Q : unit -> OrderBook -> Prop) :
  is_Some (lh b !! n) -> is_Some (lh b !! target) -> is_Some (lh b !! y) ->
  nx (lh b) target = Some y -> n <> target -> n <> y ->
  (forall b', linked_between (lh b) (lh b') target n y -> relinked b b' -> Q tt b') ->
  wp (upd_level n (level_set_prev (Some target));;
      tl ← load_level target;
      upd_level n (level_set_next (l_next tl));;
      tl ← load_level target;
      tn ← nonnull (l_next tl);
      upd_level tn (level_set_prev (Some n));;
      upd_level target (level_set_next (Some n))) Q b.
Proof.
  intros Hn [tl Ht] Hy Hnx Hnt Hny HQ.
  assert (Htn : l_next tl = Some y) by (unfold nx in Hnx; rewrite Ht in Hnx; done).
  wp_step. apply wp_upd_level; [done|]. wp_step.
  apply (wp_load_level _ tl); [bcbn; live_simpl; by rewrite lookup_alter_ne|].
  wp_step. apply wp_upd_level; [bcbn; live_simpl; eauto|]. wp_step.
  apply (wp_load_level _ tl); [bcbn; live_simpl; by rewrite !lookup_alter_ne|].
  rewrite Htn. wp_step. wp_step. wp_step.
  apply wp_upd_level; [bcbn; live_simpl; eauto|].
  apply wp_upd_level; [bcbn; live_simpl; eauto|].
  apply HQ; [|solve_relinked].
  solve_linked.
Qed.

Lemma wp_link_before b n target x (k : M OrderBook unit) (Q : unit -> OrderBook -> Prop) :
  is_Some (lh b !! n) -> is_Some (lh b !! target) -> is_Some (lh b !! x) ->
  pv (lh b) target = Some x -> n <> target -> n <> x ->
  (forall b', linked_between (lh b) (lh b') x n target -> relinked b b' -> wp k Q b') ->
  wp (upd_level n (level_set_next (Some target));;
      tl ← load_level target;
      upd_level n (level_set_prev (l_prev tl));;
      tl ← load_level target;
      tp ← nonnull (l_prev tl);
      upd_level tp (level_set_next (Some n));;
      upd_level target (level_set_prev (Some n));; k) Q b.
Proof.
  intros Hn [tl Ht] Hx Hpv Hnt Hnx HQ.
  assert (Htp : l_prev tl = Some x) by (unfold pv in Hpv; rewrite Ht in Hpv; done).
  wp_step. apply wp_upd_level; [done|]. wp_step.
  apply (wp_load_level _ tl); [bcbn; live_simpl; by rewrite lookup_alter_ne|].
  wp_step. apply wp_upd_level; [bcbn; live_simpl; eauto|]. wp_step.
  apply (wp_load_level _ tl); [bcbn; live_simpl; by rewrite !lookup_alter_ne|].
  rewrite Htp. wp_step. wp_step. wp_step.
  apply wp_upd_level; [bcbn; live_simpl; eauto|]. wp_step.
  apply wp_upd_level; [bcbn; live_simpl; eauto|].
  apply HQ; [|solve_relinked].
  solve_linked.
Qed.

Lemma wp_seekLevel fuel b sd price best target (pre s : list Z)
    (Q : Z * bool -> OrderBook -> Prop) :
  ring (lh b) (pre ++ target :: s) -> head (pre ++ target :: s) = Some best ->
  (length s < fuel)%nat ->
  Q (seek (worse_in (lh b) sd price) best s) b ->
  wp (seekLevel fuel sd price best target) Q b.
Proof.
  revert target pre s. induction fuel as [|fuel IH]; intros target pre s Hr Hb Hf HQ; [lia|].
  assert (Hnx : nx (lh b) target = Some (default best (head s))).
  { destruct s as [|t s]; cbn [from_option id head].
    - destruct (pre ++ [target]) as [|z l] eqn:E; [done|]. cbn in Hb. injection Hb as ->.
      apply (ring_last _ _ _ target Hr). by rewrite <- E, last_snoc.
    - apply ring_rotate in Hr. cbn [app] in Hr. by apply ring_next in Hr as [? _]. }
  assert (Hal : forall x, x ∈ pre ++ target :: s -> exists lv, lh b !! x = Some lv)
    by (intros x Hx; apply (ring_alive _ _ _ Hr Hx)).
  destruct (Hal target) as [tl Htl]; [set_solver|].
  cbn [seekLevel]. wp_step. apply (wp_load_level _ tl); [done|].
  assert (l_next tl = Some (default best (head s))) as ->
    by (unfold nx in Hnx; rewrite Htl in Hnx; done).
  wp_step. wp_step. wp_step.
  destruct (Hal (default best (head s))) as [nl Hnl].
  { destruct s as [|t s]; cbn; [|set_solver]. apply head_Some_elem_of in Hb. done. }
  apply (wp_load_level _ nl); [done|].
  assert (Hwr : shouldAddAfter sd price (l_price nl) =
                worse_in (lh b) sd price (default best (head s)))
    by (unfold worse_in, level_price; by rewrite Hnl).
  rewrite Hwr. destruct s as [|t s]; cbn [from_option id head seek] in *.
  - rewrite Z.eqb_refl, andb_false_r. wp_step. done.
  - destruct (worse_in (lh b) sd price t); cbn [andb].
    + assert (t <> best) as Hne.
      { destruct Hr as [Hnd _]. intros ->. destruct pre as [|z pre]; cbn in Hb; simplify_eq.
        - apply NoDup_cons in Hnd. set_solver.
        - apply NoDup_cons in Hnd. set_solver. }
      rewrite (proj2 (Z.eqb_neq _ _) Hne). cbn [negb].
      apply (IH t (pre ++ [target]) s); rewrite <- ?app_assoc; try done. cbn in Hf. lia.
    + wp_step. done.
Qed.

(** A heap up to links: the levels on either side have the same side and price. *)
Lemma level_heap_back h h' k y :
  heap_eq h h' -> h !! k = Some y ->
  exists x, h' !! k = Some x /\ l_side x = l_side y /\ l_price x = l_price y.
Proof. intros Hh Hk. destruct (level_heap_eq _ _ _ _ Hh Hk) as (x & ? & ? & ? & _). eauto. Qed.
Lemma level_heap_fwd h h' k x :
  heap_eq h h' -> h' !! k = Some x ->
  exists y, h !! k = Some y /\ l_side y = l_side x /\ l_price y = l_price x.
Proof. intros Hh. by apply level_heap_back. Qed.

(** The slots after a level entered the heap. *)
Lemma slots_inserted b b' lids n nv :
  LRep b lids -> lh b !! n = None -> mapPriceToPriceLevel_ b !! priceToIndex (l_price nv) = None ->
  heap_eq (lh b') (<[n := nv]> (lh b)) ->
  mapPriceToPriceLevel_ b' = <[priceToIndex (l_price nv) := n]> (mapPriceToPriceLevel_ b) ->
  forall k y, mapPriceToPriceLevel_ b' !! k = Some y <->
    exists z, lh b' !! y = Some z /\ priceToIndex (l_price z) = k.
Proof.
  intros Hr Hn Hidx Hh Hm k y. rewrite Hm, lookup_insert_Some, (lr_map _ _ Hr). split.
  + intros [[<- <-]|[Hk (x & Hx & <-)]].
    * destruct (level_heap_fwd _ _ n nv Hh) as (y & ? & _ & Hp); [by rewrite lookup_insert_eq|].
      exists y. by rewrite Hp.
    * assert (y <> n) by (intros ->; congruence).
      destruct (level_heap_fwd _ _ y x Hh) as (z & ? & _ & Hp); [by rewrite lookup_insert_ne|].
      exists z. by rewrite Hp.
  + intros (z & Hz & <-). destruct (level_heap_back _ _ _ _ Hh Hz) as (x & Hx & _ & Hp).
    rewrite lookup_insert_Some in Hx. destruct Hx as [[<- <-]|[Hne Hx]].
    * left. by rewrite Hp.
    * right. rewrite <- Hp. split; [|by eauto].
      intros He. rewrite He in Hidx. assert (Hm' : mapPriceToPriceLevel_ b !! priceToIndex (l_price x) = Some y)
        by (apply (lr_map _ _ Hr); eauto). congruence.
Qed.

(** The representation after a level entered the heap. *)
Lemma LRep_inserted b b' lids n nv (ls' : list Z) :
  LRep b lids -> two_sided (l_side nv) -> lh b !! n = None ->
  mapPriceToPriceLevel_ b !! priceToIndex (l_price nv) = None ->
  ls' ≡ₚ n :: lids (l_side nv) ->
  heap_eq (lh b') (<[n := nv]> (lh b)) ->
  ring (lh b') ls' ->
  (forall k, k <> n -> k ∉ lids (l_side nv) ->
     nx (lh b') k = nx (lh b) k /\ pv (lh b') k = pv (lh b) k) ->
  bestOrdersByPrice (l_side nv) b' = head ls' ->
  (forall sd', sd' <> l_side nv -> two_sided sd' ->
     bestOrdersByPrice sd' b' = bestOrdersByPrice sd' b) ->
  mapPriceToPriceLevel_ b' = <[priceToIndex (l_price nv) := n]> (mapPriceToPriceLevel_ b) ->
  pool_ok (ordersAtPricePool_ b') ->
  totalBlocks_ (ordersAtPricePool_ b') = MAX_PRICE_LEVELS ->
  LRep b' (upd_side (l_side nv) ls' lids).
Proof.
  set (sd := l_side nv).
  intros Hr Hsd Hn Hidx Hls Hh Hring Hfr Hb Hb' Hm Hok Htot.
  assert (Hold : forall sd' k, two_sided sd' -> k ∈ lids sd' -> k <> n).
  { intros sd' k Hsd' Hk ->. destruct (lr_side _ _ Hr _ _ Hsd' Hk) as (? & ? & _). congruence. }
  assert (Hin : forall k, k ∈ ls' <-> k = n \/ k ∈ lids sd)
    by (intros k; rewrite Hls; by rewrite elem_of_cons).
  split; try done.
  - intros sd' Hsd'. destruct (decide (sd' = sd)) as [->|Hne]; [by rewrite upd_side_eq|].
    rewrite upd_side_ne, Hb' by done. by apply (lr_best _ _ Hr).
  - intros sd' Hsd'. destruct (decide (sd' = sd)) as [->|Hne]; [by rewrite upd_side_eq|].
    rewrite upd_side_ne by done. apply (ring_frame (lh b)); [|by apply (lr_ring _ _ Hr)].
    intros k Hk. apply Hfr; [by eapply Hold|].
    intros Hk'. by apply Hne, (lr_disjoint _ _ _ _ k Hr).
  - intros sd' k Hsd' Hk.
    assert (Hk' : k = n /\ sd' = sd \/ k <> n /\ k ∈ lids sd').
    { destruct (decide (sd' = sd)) as [->|Hne].
      - rewrite upd_side_eq in Hk. apply Hin in Hk as [->|Hk]; eauto.
      - rewrite upd_side_ne in Hk by done. eauto. }
    destruct Hk' as [[-> ->]|[Hkn Hk']].
    + destruct (level_heap_fwd _ _ n nv Hh) as (y & ? & ? & _); [by rewrite lookup_insert_eq|eauto].
    + destruct (lr_side _ _ Hr _ _ Hsd' Hk') as (x & Hx & <-).
      destruct (level_heap_fwd _ _ k x Hh) as (y & ? & ? & _); [by rewrite lookup_insert_ne|eauto].
  - intros k y Hk. destruct (level_heap_back _ _ _ _ Hh Hk) as (x & Hx & _).
    rewrite lookup_insert_Some in Hx. destruct Hx as [[<- <-]|[Hne Hx]].
    + exists sd. split; [done|]. rewrite upd_side_eq. apply Hin. by left.
    + destruct (lr_alive _ _ Hr _ _ Hx) as (sd' & Hsd' & Hk'). exists sd'. split; [done|].
      destruct (decide (sd' = sd)) as [->|]; [|by rewrite upd_side_ne].
      rewrite upd_side_eq. apply Hin. by right.
  - by apply (slots_inserted b b' lids n nv).
Qed.

Lemma linked_insert_before h h' (l1 : list Z) y (l2 : list Z) x n :
  ring h (l1 ++ y :: l2) -> pv h y = Some x -> n ∉ l1 ++ y :: l2 ->
  linked_between h h' x n y -> ring h' (l1 ++ n :: y :: l2).
Proof.
  intros Hr Hp Hn [_ [Hnn Hpn] Hx Hy Hnx Hpv].
  apply (ring_insert_before h h' l1 y l2 x n); try done.
  - intros k Hk ?. apply Hnx; [by intros ->|done].
  - intros k Hk ?. apply Hpv; [by intros ->|done].
Qed.

Lemma linked_insert_after h h' best (rest : list Z) y n :
  ring h (best :: rest) -> nx h best = Some y -> n ∉ best :: rest ->
  linked_between h h' best n y -> ring h' (best :: n :: rest).
Proof.
  intros Hr Hnx Hn Hl. destruct rest as [|z rest].
  - destruct (ring_last h best [] best Hr eq_refl) as [_ Hb].
    assert (y = best) as -> by congruence. destruct Hl as [_ [Hnn Hpn] Hx Hy Hk1 Hk2].
    apply (ring_insert_end h h' best [] best n); try done.
    + intros k Hk ?. apply Hk1; [by intros ->|done].
    + intros k Hk ?. apply Hk2; [by intros ->|done].
  - destruct (ring_next _ _ _ _ Hr) as [Hb Hz]. assert (y = z) as -> by congruence.
    by apply (linked_insert_before h h' [best] z rest best n).
Qed.

(** Both insertions of addPriceLevel at once: from the position [found] by the
    search to the list of levels. *)
Lemma linked_insertLevel h h' wr best (rest : list Z) x n y :
  ring h (best :: rest) -> n ∉ best :: rest -> wr best = true ->
  linked_between h h' x n y ->
  (if (seek wr best rest).2 then x = (seek wr best rest).1 /\ nx h x = Some y
   else y = (seek wr best rest).1 /\ pv h y = Some x) ->
  ring h' (insertLevel wr n (best :: rest)).
Proof.
  intros Hr Hn Hw Hl Hpos. cbn [insertLevel]. rewrite Hw.
  destruct (seek_spec wr best rest n Hw) as [(s1 & t & s2 & -> & Hs & ->)|[Hs ->]];
    rewrite Hs in Hpos; cbn [fst snd] in Hpos; destruct Hpos as [-> Hpos].
  - change (ring h' ((best :: s1) ++ n :: t :: s2)).
    by apply (linked_insert_before h h' (best :: s1) t s2 x n).
  - by apply (linked_insert_after h h' best rest y n).
Qed.

Lemma nx_insert_ne (h : gmap Z OrdersAtPrice) n nv k :
  k <> n -> nx (<[n := nv]> h) k = nx h k /\ pv (<[n := nv]> h) k = pv h k.
Proof. intros. unfold nx, pv. by rewrite lookup_insert_ne. Qed.

Lemma becomesBest_worse sd p q :
  two_sided sd -> p <> q -> becomesBest sd p q = negb (shouldAddAfter sd p q).
Proof.
  intros [-> | ->] Hne; unfold becomesBest, shouldAddAfter; cbn;
    destruct (Z.ltb_spec p q), (Z.ltb_spec q p); try done; lia.
Qed.

#[export] Instance same_but_levels_preorder : PreOrder same_but_levels.
Proof. split; [done|]. intros b1 b2 b3 H1 H2. unfold same_but_levels in *. intuition congruence. Qed.

(** The last step of every insertion. *)
Lemma LRep_linked b0 b1 b2 lids n nv (ls' : list Z) p x y :
  LRep b0 lids -> two_sided (l_side nv) -> lh b0 !! n = None ->
  mapPriceToPriceLevel_ b0 !! priceToIndex (l_price nv) = None ->
  pool_ok p -> live p = <[n := nv]> (lh b0) -> totalBlocks_ p = MAX_PRICE_LEVELS ->
  relinked (set_levelSlot (priceToIndex (l_price nv)) (Some n) (set_levelPool p b0)) b1 ->
  linked_between (<[n := nv]> (lh b0)) (lh b1) x n y ->
  x ∈ n :: lids (l_side nv) -> y ∈ n :: lids (l_side nv) ->
  ls' ≡ₚ n :: lids (l_side nv) -> ring (lh b1) ls' ->
  b2 = set_best (l_side nv) (head ls') b1 \/ b2 = b1 /\ head ls' = head (lids (l_side nv)) ->
  LRep b2 (upd_side (l_side nv) ls' lids) /\ lh b2 ≡ₕ <[n := nv]> (lh b0) /\
  same_but_levels b0 b2.
Proof.
  intros Hr Hsd Hn Hidx Hok Hlp Htot (p1 & Hb1 & Hok1 & Ht1) Hl Hx Hy Hls Hring Hb2.
  assert (Hp2 : ordersAtPricePool_ b2 = p1 /\
      mapPriceToPriceLevel_ b2 = <[priceToIndex (l_price nv) := n]> (mapPriceToPriceLevel_ b0) /\
      same_but_levels b0 b2).
  { destruct Hb2 as [-> |[-> _]]; rewrite Hb1; [|done].
    destruct (set_best_proj (l_side nv) (head ls')
      (set_levelPool p1 (set_levelSlot (priceToIndex (l_price nv)) (Some n) (set_levelPool p b0))))
      as (-> & -> & Hs). split_and!; [done|done|]. etrans; [|exact Hs]. done. }
  destruct Hp2 as (Hp2 & Hm2 & Hsame).
  assert (Hlh2 : lh b2 = lh b1) by (rewrite Hp2, Hb1; done).
  pose proof Hl as [Heq _ _ _ Hnx Hpv].
  split_and!; [|by rewrite Hlh2|done].
  apply (LRep_inserted b0 b2 lids n nv ls'); rewrite ?Hlh2; try done.
  - intros k Hk Hni. destruct (nx_insert_ne (lh b0) n nv k Hk) as [Hn1 Hn2].
    rewrite Hnx, Hpv, Hn1, Hn2; try done.
    + intros ->. set_solver.
    + intros ->. set_solver.
  - destruct Hb2 as [-> |[-> Hh]]; [by rewrite best_set_best, decide_True|].
    rewrite Hb1, Hh. by apply (lr_best _ _ Hr).
  - intros sd' Hne Hsd'. destruct Hb2 as [-> |[-> Hh]]; [rewrite best_set_best, decide_False by done|];
      by rewrite Hb1.
  - rewrite Hp2. by apply Hok1.
  - by rewrite Hp2, Ht1.
Qed.

Lemma set_best_levelPool sd q p b :
  set_levelPool p (set_best sd q b) = set_best sd q (set_levelPool p b).
Proof. unfold set_best. by case_decide. Qed.

Lemma lh_set_best sd q b : lh (set_best sd q b) = lh b.
Proof. unfold set_best. by case_decide. Qed.

(** The first level of a side becomes its own circle. *)
Lemma wp_link_alone b n sd (Q : unit -> OrderBook -> Prop) :
  is_Some (lh b !! n) ->
  (forall b', linked_between (lh b) (lh b') n n n -> relinked b b' ->
     Q tt (set_best sd (Some n) b')) ->
  wp (upd_level n (level_set_next (Some n));; upd_level n (level_set_prev (Some n))) Q
     (set_best sd (Some n) b).
Proof.
  intros Hn HQ. wp_step. apply wp_upd_level; [by rewrite lh_set_best|].
  rewrite set_best_levelPool. apply wp_upd_level.
  { rewrite lh_set_best. bcbn. live_simpl. by rewrite lh_set_best. }
  rewrite set_best_levelPool.
  assert (Hp : ordersAtPricePool_ (set_best sd (Some n) b) = ordersAtPricePool_ b)
    by apply set_best_proj.
  assert (Hp' : forall p, ordersAtPricePool_ (set_best sd (Some n) (set_levelPool p b)) = p)
    by (intros p; apply set_best_proj).
  rewrite Hp, Hp'. apply HQ; [|solve_relinked]. solve_linked.
Qed.

Lemma alive_length {N} (h : gmap Z N) (ls : list Z) :
  NoDup ls -> (forall x, x ∈ ls -> exists v, h !! x = Some v) -> (length ls <= size h)%nat.
Proof.
  intros Hnd Hal. rewrite <- size_dom, <- (size_list_to_set (C := gset Z)) by done.
  apply subseteq_size. intros x Hx%elem_of_list_to_set. apply elem_of_dom.
  destruct (Hal x Hx). eauto.
Qed.

(** Linking the new level [n] into the side [best :: rest] of [b1]. *)
Section LinkNew.
Context (b1 : OrderBook) (n : Z) (nv bl : OrdersAtPrice) (best : Z) (rest : list Z) (R : OrderBook -> Prop).
Context (Hring : ring (lh b1) (best :: rest)) (Hnew : lh b1 !! n = Some nv) (Hfresh : n ∉ best :: rest).
Context (Hside : two_sided (l_side nv)) (Hbl : lh b1 !! best = Some bl) (Hprice : l_price nv <> l_price bl).
Let wr : Z -> bool := worse_in (lh b1) (l_side nv) (l_price nv).
Context (HR : forall b' b'' x y, linked_between (lh b1) (lh b') x n y -> relinked b1 b' ->
  x ∈ best :: rest -> y ∈ best :: rest -> ring (lh b') (insertLevel wr n (best :: rest)) ->
  b'' = set_best (l_side nv) (head (insertLevel wr n (best :: rest))) b' \/ b'' = b' /\ wr best = true ->
  R b'').

Lemma worse_best : shouldAddAfter (l_side nv) (l_price nv) (l_price bl) = wr best.
Proof. unfold wr, worse_in, level_price. by rewrite Hbl. Qed.

Lemma side_alive x : x ∈ best :: rest -> is_Some (lh b1 !! x).
Proof. intros Hx. destruct (ring_alive _ _ _ Hring Hx) as [lv ?]. by exists lv. Qed.

Lemma not_fresh x : x ∈ best :: rest -> n <> x.
Proof. by intros Hx ->. Qed.

Lemma wp_link_behind target :
  target ∈ best :: rest -> wr best = true ->
  (forall h' y, linked_between (lh b1) h' target n y -> nx (lh b1) target = Some y ->
     ring h' (insertLevel wr n (best :: rest))) ->
  wp (upd_level n (level_set_prev (Some target));;
      tl ← load_level target;
      upd_level n (level_set_next (l_next tl));;
      tl ← load_level target;
      tn ← nonnull (l_next tl);
      upd_level tn (level_set_prev (Some n));;
      upd_level target (level_set_next (Some n))) (fun _ => R) b1.
Proof.
  intros Ht Hw Hins. destruct (ring_nx _ _ target Hring Ht) as (y & Hy & Hnx).
  apply (wp_link_after b1 n target y); [by eauto|by apply side_alive|by apply side_alive|done|by apply not_fresh..|].
  intros b' Hl Hre. apply (HR b' b' target y); auto. by apply (Hins _ y).
Qed.

Lemma wp_link_in_front target :
  target ∈ best :: rest ->
  (forall h' x, linked_between (lh b1) h' x n target -> pv (lh b1) target = Some x ->
     ring h' (insertLevel wr n (best :: rest))) ->
  wp (upd_level n (level_set_next (Some target));;
      tl ← load_level target;
      upd_level n (level_set_prev (l_prev tl));;
      tl ← load_level target;
      tp ← nonnull (l_prev tl);
      upd_level tp (level_set_next (Some n));;
      upd_level target (level_set_prev (Some n));;
      bl ← load_level best;
      if becomesBest (l_side nv) (l_price nv) (l_price bl)
      then modify (set_best (l_side nv) (Some n)) else mret tt) (fun _ => R) b1.
Proof.
  intros Ht Hins. destruct (ring_pv _ _ target Hring Ht) as (x & Hx & Hpv).
  apply (wp_link_before b1 n target x); [by eauto|by apply side_alive|by apply side_alive|done|by apply not_fresh..|].
  intros b' Hl Hre. wp_step.
  destruct (level_heap_eq (lh b1) (lh b') best bl) as (bl' & Hbl' & _ & Hp & _); [symmetry; apply Hl|done|].
  apply (wp_load_level _ bl'); [done|]. rewrite Hp, becomesBest_worse, worse_best by done.
  destruct (wr best) eqn:Hw; cbn [negb]; [apply wp_ret|apply wp_modify].
  - apply (HR b' b' x target); auto. by apply (Hins _ x).
  - apply (HR b' _ x target); auto; [by apply (Hins _ x)|]. left. cbn [insertLevel]. by rewrite Hw.
Qed.

(** The branch that the search decides. *)
Lemma wp_link_found (k : Z * bool -> M OrderBook unit) fuel :
  (length rest < fuel)%nat ->
  (forall target, target ∈ best :: rest -> wr best = true ->
     (forall h' y, linked_between (lh b1) h' target n y -> nx (lh b1) target = Some y ->
        ring h' (insertLevel wr n (best :: rest))) ->
     wp (k (target, true)) (fun _ => R) b1) ->
  (forall target, target ∈ best :: rest ->
     (forall h' x, linked_between (lh b1) h' x n target -> pv (lh b1) target = Some x ->
        ring h' (insertLevel wr n (best :: rest))) ->
     wp (k (target, false)) (fun _ => R) b1) ->
  wp (found ← (if wr best then seekLevel fuel (l_side nv) (l_price nv) best best else mret (best, false)); k found)
    (fun _ => R) b1.
Proof.
  intros Hfuel Hbehind Hfront. wp_step. destruct (wr best) eqn:Hw.
  - apply (wp_seekLevel _ b1 _ _ best best [] rest); [done|done|done|]. fold wr.
    pose proof (seek_spec wr best rest n Hw) as Hseek.
    assert (Hst : (seek wr best rest).1 ∈ best :: rest).
    { destruct Hseek as [(s1 & t & s2 & -> & -> & _)|[-> _]]; set_solver. }
    pose proof (fun h' x y => linked_insertLevel (lh b1) h' wr best rest x n y Hring Hfresh Hw) as Hins.
    destruct (seek wr best rest) as [target after]. cbn [fst snd] in *. destruct after.
    + apply Hbehind; [done|done|]. intros h' y Hl Hnx. by apply (Hins h' _ _ Hl).
    + apply Hfront; [done|]. intros h' x Hl Hpv. by apply (Hins h' _ _ Hl).
  - apply wp_ret, Hfront; [apply list_elem_of_here|]. intros h' x Hl Hpv.
    cbn [insertLevel]. rewrite Hw. by apply (linked_insert_before (lh b1) _ [] best rest x n).
Qed.

End LinkNew.

(** Linking the new level among those of a side that has some. *)
Lemma LRep_linked_among b0 b1 b2 lids n nv p best (rest : list Z) x y :
  LRep b0 lids -> two_sided (l_side nv) -> lh b0 !! n = None ->
  mapPriceToPriceLevel_ b0 !! priceToIndex (l_price nv) = None ->
  pool_ok p -> live p = <[n := nv]> (lh b0) -> totalBlocks_ p = MAX_PRICE_LEVELS ->
  lids (l_side nv) = best :: rest ->
  relinked (set_levelSlot (priceToIndex (l_price nv)) (Some n) (set_levelPool p b0)) b1 ->
  linked_between (<[n := nv]> (lh b0)) (lh b1) x n y -> x ∈ best :: rest -> y ∈ best :: rest ->
  let wr := worse_in (<[n := nv]> (lh b0)) (l_side nv) (l_price nv) in
  let ls' := insertLevel wr n (best :: rest) in
  ring (lh b1) ls' -> b2 = set_best (l_side nv) (head ls') b1 \/ b2 = b1 /\ wr best = true ->
  LRep b2 (upd_side (l_side nv) ls' lids) /\ lh b2 ≡ₕ <[n := nv]> (lh b0) /\ same_but_levels b0 b2.
Proof.
  intros Hr Hsd Hn Hidx Hok Hlp Htot Els Hre Hl Hx Hy wr ls' Hri Hb2.
  apply (LRep_linked b0 b1 b2 lids n nv ls' p x y); rewrite ?Els; try done; [set_solver|set_solver| |].
  - apply insertLevel_perm.
  - destruct Hb2 as [->|[-> Hw]]; [by left|right]. split; [done|].
    unfold ls'. cbn. rewrite Hw. by destruct (insertBefore wr n rest).
Qed.

(** A new level is stored, not yet linked: the side is as it was, the levels are
    no more than the pool has blocks, and the price is not that of the best. *)
Lemma stored_level b0 lids nv n p best (rest : list Z) :
  LRep b0 lids -> two_sided (l_side nv) -> lh b0 !! n = None ->
  mapPriceToPriceLevel_ b0 !! priceToIndex (l_price nv) = None ->
  pool_ok p -> live p = <[n := nv]> (lh b0) -> lids (l_side nv) = best :: rest ->
  n ∉ best :: rest /\ ring (live p) (best :: rest) /\ (length (n :: best :: rest) <= size (live p))%nat /\
  exists bl, live p !! best = Some bl /\ l_price nv <> l_price bl.
Proof.
  intros Hr Hsd Hn Hidx Hok Hlp Els.
  assert (Hni : n ∉ best :: rest).
  { rewrite <- Els. intros Hx. destruct (lr_side _ _ Hr _ _ Hsd Hx) as (? & ? & _). congruence. }
  assert (Hri : ring (live p) (best :: rest)).
  { rewrite Hlp. apply (ring_frame (lh b0)); [|rewrite <- Els; by apply (lr_ring _ _ Hr)].
    intros k Hk. apply nx_insert_ne. by intros ->. }
  split_and!; [done|done| |].
  - apply alive_length; [by constructor; [|apply Hri]|]. rewrite Hlp.
    intros x [->|Hx]%elem_of_cons; [rewrite lookup_insert_eq; eauto|].
    rewrite <- Hlp. by apply (ring_alive _ _ _ Hri).
  - destruct (ring_alive _ _ _ Hri (list_elem_of_here best rest)) as [bl Hbl]. exists bl. split; [done|].
    intros He. rewrite Hlp, lookup_insert_ne in Hbl by (intros ->; apply Hni, list_elem_of_here).
    assert (Hb0 : mapPriceToPriceLevel_ b0 !! priceToIndex (l_price bl) = Some best)
      by (apply (lr_map _ _ Hr); eauto). congruence.
Qed.

Lemma wp_addPriceLevel b0 lids n nv p (Q : unit -> OrderBook -> Prop) :
  LRep b0 lids -> two_sided (l_side nv) -> lh b0 !! n = None ->
  mapPriceToPriceLevel_ b0 !! priceToIndex (l_price nv) = None ->
  pool_ok p -> live p = <[n := nv]> (lh b0) -> totalBlocks_ p = MAX_PRICE_LEVELS ->
  (forall b', LRep b' (upd_side (l_side nv)
       (insertLevel (worse_in (lh b0) (l_side nv) (l_price nv)) n (lids (l_side nv))) lids) ->
     lh b' ≡ₕ <[n := nv]> (lh b0) -> same_but_levels b0 b' -> Q tt b') ->
  wp (addPriceLevel n) Q (set_levelPool p b0).
Proof.
  intros Hr Hsd Hn Hidx Hok Hlp Htot HQ.
  set (b1 := set_levelSlot (priceToIndex (l_price nv)) (Some n) (set_levelPool p b0)).
  assert (Hl1 : lh b1 = <[n := nv]> (lh b0)) by done.
  assert (Hnn : lh b1 !! n = Some nv) by (by rewrite Hl1, lookup_insert_eq).
  unfold addPriceLevel. wp_step. apply (wp_load_level _ nv); [done|].
  wp_steps. fold b1. assert (Hbest : bestOrdersByPrice (l_side nv) b1 = head (lids (l_side nv))).
  { by apply (lr_best _ _ Hr). }
  rewrite Hbest.
  destruct (lids (l_side nv)) as [|best rest] eqn:Els; cbn [head].
  - wp_step. wp_step. apply wp_link_alone; [eauto|]. intros b' Hl Hre.
    rewrite Hl1 in Hl.
    destruct (LRep_linked b0 b' (set_best (l_side nv) (Some n) b') lids n nv [n] p n n) as (? & ? & ?);
      rewrite ?Els; eauto; try apply list_elem_of_here.
    pose proof Hl as [_ [? ?] _ _ _ _]. split; [apply NoDup_singleton|].
    by intros x y [= -> ->]%list_elem_of_singleton.
  - destruct (stored_level b0 lids nv n p best rest) as (Hni & Hr1 & Hle & bl & Hbl & Hpne); try done.
    rewrite <- (insertLevel_ext (worse_in (lh b1) (l_side nv) (l_price nv))) in HQ.
    2: { intros x Hx. unfold worse_in, level_price. rewrite Hl1, lookup_insert_ne; [done|]. by intros ->. }
    wp_step. apply (wp_load_level _ bl); [done|]. rewrite (worse_best b1 nv bl best Hbl).
    set (wr := worse_in (lh b1) (l_side nv) (l_price nv)) in *.
    assert (Hfin : forall b' b'' x y, linked_between (lh b1) (lh b') x n y -> relinked b1 b' ->
        x ∈ best :: rest -> y ∈ best :: rest -> ring (lh b') (insertLevel wr n (best :: rest)) ->
        b'' = set_best (l_side nv) (head (insertLevel wr n (best :: rest))) b' \/
        b'' = b' /\ wr best = true -> Q tt b'').
    { intros b' b'' x y Hl Hre Hx Hy Hri Hb''. unfold wr in *. rewrite Hl1 in *.
      destruct (LRep_linked_among b0 b' b'' lids n nv p best rest x y) as (? & ? & ?); try done. by apply HQ. }
    apply (wp_mono _ (fun _ => Q tt)); [|by intros []].
    apply (wp_link_found b1 n nv bl best rest (Q tt)); [done..| | |].
    + pose proof (pool_size_bound p Hok). cbn in Hle. change (ordersAtPricePool_ b1) with p. lia.
    + intros target Ht Hw Hins. by apply (wp_link_behind b1 n nv best rest).
    + intros target Ht Hins. by apply (wp_link_in_front b1 n nv bl best rest).
Qed.

(** ** removePriceLevel *)
Lemma set_best_levelSlot sd q k p b :
  set_levelSlot k p (set_best sd q b) = set_best sd q (set_levelSlot k p b).
Proof. unfold set_best. by case_decide. Qed.

(** The last two statements: forget the slot, free the block. *)
Lemma wp_drop_level b b1 lids sd (l1 : list Z) l (l2 : list Z) lv (Q : unit -> OrderBook -> Prop) :
  LRep b lids -> two_sided sd -> lids sd = l1 ++ l :: l2 -> lh b !! l = Some lv ->
  relinked b b1 -> lh b1 ≡ₕ lh b -> ring (lh b1) (l1 ++ l2) ->
  (forall k, k <> l -> k ∉ l1 ++ l2 -> nx (lh b1) k = nx (lh b) k /\ pv (lh b1) k = pv (lh b) k) ->
  (forall b', LRep b' (upd_side sd (l1 ++ l2) lids) -> lh b' ≡ₕ delete l (lh b) ->
     same_but_levels b b' -> Q tt b') ->
  wp (modify (set_levelSlot (priceToIndex (l_price lv)) None);;
      zoom ordersAtPricePool_ set_levelPool (deallocate l)) Q (set_best sd (head (l1 ++ l2)) b1).
Proof.
  intros Hr Hsd Hls Hlv (p1 & -> & Hok1 & Ht1) Heq Hring Hfr HQ.
  assert (Hnd : l ∉ l1 ++ l2).
  { destruct (lr_ring _ _ Hr sd Hsd) as [Hnd _]. rewrite Hls, <- Permutation_middle in Hnd.
    by apply NoDup_cons in Hnd as [? _]. }
  bcbn. wp_step. wp_step. rewrite set_best_levelSlot.
  set (b2 := set_levelSlot _ None (set_levelPool p1 b)).
  assert (Hp2 : ordersAtPricePool_ (set_best sd (head (l1 ++ l2)) b2) = p1) by apply set_best_proj.
  destruct (level_heap_eq (lh b) (live p1) l lv) as (lv' & Hlv' & _); [by symmetry|done|].
  apply (wp_dealloc_level _ lv'); rewrite ?Hp2; [by apply Hok1, (lr_pool _ _ Hr)|done|].
  intros p' Hok' Hlive' Ht'. rewrite set_best_levelPool. set (b3 := set_levelPool p' b2).
  assert (Hlh : lh (set_best sd (head (l1 ++ l2)) b3) = live p')
    by apply (f_equal live), set_best_proj.
  assert (Heq' : live p' ≡ₕ delete l (lh b)) by (rewrite Hlive'; by rewrite Heq).
  apply HQ; rewrite ?Hlh; [|done|].
  - apply (LRep_removed b _ lids sd l1 l l2 lv); rewrite ?Hlh; try done.
    + rewrite Hlive'. apply (ring_frame (live p1)); [|done]. intros k Hk.
      assert (k <> l) by (by intros ->). by rewrite nx_delete_ne, pv_delete_ne.
    + intros k Hk Hk'. rewrite Hlive', nx_delete_ne, pv_delete_ne by done. by apply Hfr.
    + by rewrite best_set_best, decide_True.
    + intros sd' ? ?. by rewrite best_set_best, decide_False.
    + destruct (set_best_proj sd (head (l1 ++ l2)) b3) as (_ & -> & _). done.
    + by replace (ordersAtPricePool_ (set_best sd (head (l1 ++ l2)) b3)) with p'
        by (symmetry; apply set_best_proj).
    + replace (ordersAtPricePool_ (set_best sd (head (l1 ++ l2)) b3)) with p'
        by (symmetry; apply set_best_proj). rewrite Ht', Ht1. apply (lr_total _ _ Hr).
  - etrans; [|apply set_best_proj]. done.
Qed.

Lemma relinked_refl b : relinked b b.
Proof. exists (ordersAtPricePool_ b). by destruct b. Qed.

Lemma set_best_id sd b : set_best sd (bestOrdersByPrice sd b) b = b.
Proof. unfold set_best, bestOrdersByPrice. by destruct b; case_decide. Qed.

Lemma pool_set_best sd q p b : ordersAtPricePool_ (set_best sd q (set_levelPool p b)) = p.
Proof. apply set_best_proj. Qed.

(** Updating a level commutes with the best pointer. *)
Lemma wp_upd_level_best sd q l f b (Q : unit -> OrderBook -> Prop) :
  is_Some (lh b !! l) ->
  Q tt (set_best sd q (set_levelPool (updated l f (ordersAtPricePool_ b)) b)) ->
  wp (upd_level l f) Q (set_best sd q b).
Proof.
  intros Hl HQ. apply wp_upd_level; [by rewrite lh_set_best|].
  rewrite set_best_levelPool.
  by replace (ordersAtPricePool_ (set_best sd q b)) with (ordersAtPricePool_ b)
    by (symmetry; apply set_best_proj).
Qed.

(** The best pointer after unlinking [l] is the head of what remains. *)
Lemma set_best_unlink b lids sd (l1 : list Z) l (l2 : list Z) s b2 :
  LRep b lids -> two_sided sd -> lids sd = l1 ++ l :: l2 -> l1 ++ l2 <> [] ->
  nx (lh b) l = Some s -> bestOrdersByPrice sd b2 = bestOrdersByPrice sd b ->
  (if decide (bestOrdersByPrice sd b2 = Some l) then set_best sd (Some s) b2 else b2)
    = set_best sd (head (l1 ++ l2)) b2.
Proof.
  intros Hr Hsd Hls Hne Hs Hb. pose proof (lr_ring _ _ Hr sd Hsd) as Hri.
  rewrite (lr_best _ _ Hr) in Hb by done. rewrite Hls in Hb, Hri.
  destruct l1 as [|x l1]; cbn [app head] in *.
  - rewrite decide_True by done. destruct l2 as [|y l2]; [done|].
    apply ring_next in Hri as [Hn _]. cbn [head]. congruence.
  - rewrite decide_False; [by rewrite <- Hb, set_best_id|].
    rewrite Hb. intros [= ->]. destruct Hri as [Hnd _].
    apply NoDup_cons in Hnd as [Hnd _]. set_solver.
Qed.

Lemma wp_unlink_level b lids sd (l1 : list Z) l (l2 : list Z) lv p s
    (Q : unit -> OrderBook -> Prop) :
  LRep b lids -> two_sided sd -> lids sd = l1 ++ l :: l2 -> lh b !! l = Some lv ->
  l1 ++ l2 <> [] -> l_prev lv = Some p -> l_next lv = Some s ->
  (forall b1, relinked b b1 -> lh b1 ≡ₕ lh b -> ring (lh b1) (l1 ++ l2) ->
     (forall k, k <> l -> k ∉ l1 ++ l2 -> nx (lh b1) k = nx (lh b) k /\ pv (lh b1) k = pv (lh b) k) ->
     Q tt (set_best sd (head (l1 ++ l2)) b1)) ->
  wp (p ← nonnull (l_prev lv);
      upd_level p (level_set_next (l_next lv));;
      lv ← load_level l;
      s ← nonnull (l_next lv);
      upd_level s (level_set_prev (l_prev lv));;
      b ← get;
      lv ← load_level l;
      (if decide (bestOrdersByPrice sd b = Some l)
       then modify (set_best sd (l_next lv)) else mret tt);;
      upd_level l (level_set_next None);;
      upd_level l (level_set_prev None)) Q b.
Proof.
  intros Hr Hsd Hls Hlv Hne Hp Hs HQ.
  pose proof (lr_ring _ _ Hr sd Hsd) as Hri. rewrite Hls in Hri.
  assert (Hnx : nx (lh b) l = Some s) by (unfold nx; by rewrite Hlv).
  assert (Hpv : pv (lh b) l = Some p) by (unfold pv; by rewrite Hlv).
  destruct (ring_neighbours _ _ _ _ Hri Hne) as (p' & s' & Hp' & Hs' & Hpin & Hsin & Hpl & Hsl).
  assert (p' = p) as -> by congruence. assert (s' = s) as -> by congruence.
  assert (Hal : forall x, x ∈ l1 ++ l2 -> is_Some (lh b !! x)).
  { intros x Hx. apply (ring_alive _ _ _ Hri). set_solver. }
  rewrite Hp, Hs. wp_steps.
  apply wp_upd_level; [by apply Hal|]. wp_step.
  apply (wp_load_level _ lv); [bcbn; live_simpl; by rewrite lookup_alter_ne|].
  rewrite Hs, Hp. wp_step. wp_step. wp_step.
  apply wp_upd_level; [bcbn; live_simpl; by apply Hal|]. wp_steps.
  apply (wp_load_level _ lv); [bcbn; live_simpl; by rewrite !lookup_alter_ne|]. rewrite Hs.
  wp_step. match goal with |- wp _ _ ?x => set (b2 := x) end.
  assert (Hset := set_best_unlink b lids sd l1 l l2 s b2 Hr Hsd Hls Hne Hnx eq_refl).
  assert (Hgo : forall R, R tt (set_best sd (head (l1 ++ l2)) b2) ->
    wp (if decide (bestOrdersByPrice sd b2 = Some l) then modify (set_best sd (Some s))
        else mret tt) R b2) by (intros R HR; rewrite <- Hset in HR; by case_decide).
  apply Hgo. wp_step. apply wp_upd_level_best; [unfold b2; bcbn; live_simpl; eauto|].
  apply wp_upd_level_best; [unfold b2; bcbn; live_simpl; eauto|].
  subst b2. apply HQ; [solve_relinked| | |]; bcbn; live_simpl; fold_links.
  - by rewrite heap_eq_lprev, heap_eq_lnext, heap_eq_lprev, heap_eq_lnext.
  - assert (Hni : l ∉ l1 ++ l2).
    { destruct Hri as [Hnd _]. rewrite <- Permutation_middle in Hnd.
      by apply NoDup_cons in Hnd as [? _]. }
    destruct (Hal p Hpin) as [pl Hpl'], (Hal s Hsin) as [sl Hsl'].
    apply (ring_remove (lh b) _ l1 l l2 p s); try done; intros; unfold nx, pv;
      rewrite !lookup_alter; repeat case_decide; simplify_map_eq; done.
  - intros k Hk Hk'. assert (k <> p) by (by intros ->). assert (k <> s) by (by intros ->).
    autorewrite with hft_live. by rewrite !decide_False.
Qed.

Lemma wp_removePriceLevel b lids sd (l1 : list Z) l (l2 : list Z) lv price
    (Q : unit -> OrderBook -> Prop) :
  LRep b lids -> two_sided sd -> lids sd = l1 ++ l :: l2 -> lh b !! l = Some lv ->
  priceToIndex price = priceToIndex (l_price lv) ->
  (forall b', LRep b' (upd_side sd (l1 ++ l2) lids) -> lh b' ≡ₕ delete l (lh b) ->
     same_but_levels b b' -> Q tt b') ->
  wp (removePriceLevel sd price) Q b.
Proof.
  intros Hr Hsd Hls Hlv Hpx HQ.
  pose proof (lr_ring _ _ Hr sd Hsd) as Hri. rewrite Hls in Hri.
  assert (Hnx : nx (lh b) l = l_next lv) by (unfold nx; by rewrite Hlv).
  unfold removePriceLevel. wp_steps. unfold getLevelForPrice. rewrite Hpx.
  assert (mapPriceToPriceLevel_ b !! priceToIndex (l_price lv) = Some l) as ->
    by (apply (lr_map _ _ Hr); eauto).
  wp_steps. apply (wp_load_level _ lv); [done|]. wp_step.
  destruct (decide (l1 ++ l2 = [])) as [Hnil|Hne].
  - apply app_eq_nil in Hnil as [-> ->].
    rewrite decide_True by (rewrite <- Hnx; apply (ring_last _ _ [] l Hri eq_refl)).
    wp_step. apply (wp_drop_level b b lids sd [] l [] lv); try done;
      [apply relinked_refl|apply ring_nil].
  - destruct (ring_neighbours _ _ _ _ Hri Hne) as (p & s & Hp & Hs & _ & _ & _ & Hsl).
    rewrite Hnx in Hs. unfold pv in Hp. rewrite Hlv in Hp.
    rewrite decide_False by congruence.
    apply (wp_unlink_level b lids sd l1 l l2 lv p s); try done. intros b1 Hre Heq Hri1 Hfr.
    by apply (wp_drop_level b b1 lids sd l1 l l2 lv).
Qed.

End Levels.
