(* ===== verification/BookModel.v ===== *)
(** The reference model of a limit order book: what order_book.cpp promises,
    without pools, pointers or maps.

    A side is a list of price levels, best first; a level is its price and its
    orders, oldest first.  [sweep] is the matching rule of the code: every
    resting order the taker's price crosses is filled completely, in price-time
    order, whatever the taker's quantity.  BookSpec.v proves that the code
    implements this model. *)

From stdpp Require Import sorting.
From S2P Require Import Prelude Types Messages Ring Orders OrderBook BookLevels.
#[local] Open Scope Z_scope.

Abbreviation level := (Z * list Order)%type.

Record ABook := mkA {
  a_bids : list level;
  a_asks : list level;
  a_clients : gmap (Z * Z) Z;
  a_next : Z;
}.

Definition a_side (sd : Side.t) (a : ABook) : list level :=
  if decide (sd = Side.BUY) then a_bids a else a_asks a.
Definition set_a_side (sd : Side.t) (s : list level) (a : ABook) : ABook :=
  if decide (sd = Side.BUY) then mkA s (a_asks a) (a_clients a) (a_next a)
  else mkA (a_bids a) s (a_clients a) (a_next a).
Definition set_a_clients (m : gmap (Z * Z) Z) (a : ABook) : ABook :=
  mkA (a_bids a) (a_asks a) m (a_next a).
Definition set_a_next (n : Z) (a : ABook) : ABook :=
  mkA (a_bids a) (a_asks a) (a_clients a) n.

Definition opposite (sd : Side.t) : Side.t :=
  match sd with Side.BUY => Side.SELL | Side.SELL => Side.BUY | s => s end.

Definition side_orders (s : list level) : list Order := concat s.*2.
Definition all_orders (a : ABook) : list Order := side_orders (a_bids a) ++ side_orders (a_asks a).

(** An incoming order. *)
Record Taker := mkTaker {
  t_client : Z;
  t_oid : Z;
  t_ticker : Z;
  t_side : Side.t;
  t_price : Z;
  t_qty : Z;
  t_moid : Z;
}.

(** ** Matching *)
Definition pop_level (p : Z) (os : list Order) : list level :=
  match os with [] => [] | _ => [(p, os)] end.

(** The longest prefix of orders that satisfy [c], and the rest. *)
Fixpoint cross_prefix (c : Order -> bool) (os : list Order) : list Order * list Order :=
  match os with
  | [] => ([], [])
  | o :: os' => if c o then let '(m, r) := cross_prefix c os' in (o :: m, r) else ([], o :: os')
  end.

Fixpoint sweep (c : Order -> bool) (s : list level) : list Order * list level :=
  match s with
  | [] => ([], [])
  | (p, os) :: s' =>
      match cross_prefix c os with
      | (m, []) => let '(m', s'') := sweep c s' in (m ++ m', s'')
      | (m, r) => (m, (p, r) :: s')
      end
  end.

(** The fills of one resting order of quantity [q]: (filled, left). *)
Fixpoint fill_seq (n : nat) (qty q : Z) : list (Z * Z) :=
  match n with
  | O => []
  | S n' => let f := Z.min qty q in (f, q - f) :: (if q - f =? 0 then [] else fill_seq n' qty (q - f))
  end.
Definition order_fills (qty : Z) (o : Order) : list (Order * (Z * Z)) :=
  (fun fr => (o, fr)) <$> fill_seq (fills qty (o_qty o)) qty (o_qty o).
Definition sweep_fills (qty : Z) (m : list Order) : list (Order * (Z * Z)) :=
  concat (order_fills qty <$> m).

(** The messages of one fill; [w] is the word read in place of the taker's
    remaining quantity. *)
Definition fill_events (t : Taker) (f : Order * (Z * Z)) (w : Z) : list OmeEvent :=
  let '(o, (fill, rem)) := f in
  [Resp (mkResponse ResponseType.FILLED (t_client t) (t_ticker t) (t_oid t) (t_moid t) (t_side t)
           (o_price o) fill w);
   Resp (mkResponse ResponseType.FILLED (o_clientId o) (t_ticker t) (o_clientOrderId o)
           (o_marketOrderId o) (o_side o) (o_price o) fill rem);
   Upd (mkUpdate UpdateType.TRADE OrderID_INVALID (t_ticker t) (t_side t) (o_price o) fill
          Priority_INVALID);
   if rem =? 0 then
     Upd (mkUpdate UpdateType.CANCEL (o_marketOrderId o) (t_ticker t) (o_side o) (o_price o) fill
            Priority_INVALID)
   else
     Upd (mkUpdate UpdateType.MODIFY (o_marketOrderId o) (t_ticker t) (o_side o) (o_price o) rem
            (o_priority o))].

Definition match_events (t : Taker) (fs : list (Order * (Z * Z))) (ws : list Z) : list OmeEvent :=
  concat (zip_with (fill_events t) fs ws).

(** A removed order clears the slot of its client and client order id. *)
Definition client_key (o : Order) : Z * Z := (o_clientId o, o_clientOrderId o).
Definition forget (m : list Order) (c : gmap (Z * Z) Z) : gmap (Z * Z) Z :=
  foldl (fun c o => delete (client_key o) c) c m.

(** A buyer's price reaches the asks at or below it, a seller's the bids at or
    above it. *)
Definition reaches (side : Side.t) (price resting : Z) : bool :=
  match side with
  | Side.BUY => resting <=? price
  | Side.SELL => price <=? resting
  | _ => false
  end.
Definition taker_crosses (t : Taker) (o : Order) : bool := reaches (t_side t) (t_price t) (o_price o).
Lemma crosses_reaches side price resting : crosses side price resting = reaches side price resting.
Proof. destruct side; cbn; lia. Qed.

(** findMatch: the orders matched and the book that is left. *)
Definition matched (t : Taker) (a : ABook) : list Order :=
  if t_qty t =? 0 then [] else (sweep (taker_crosses t) (a_side (opposite (t_side t)) a)).1.
Definition a_match (t : Taker) (a : ABook) : ABook :=
  if t_qty t =? 0 then a
  else
    let '(m, s) := sweep (taker_crosses t) (a_side (opposite (t_side t)) a) in
    set_a_clients (forget m (a_clients a)) (set_a_side (opposite (t_side t)) s a).

(** ** Resting an order *)
Definition in_slot (price : Z) (lv : level) : bool := priceToIndex lv.1 =? priceToIndex price.

Definition slot_orders (price : Z) (s : list level) : list Order :=
  match list_find (fun lv => in_slot price lv = true) s with
  | Some (_, lv) => lv.2
  | None => []
  end.

(** One more than the priority of the last order of the slot. *)
Definition next_priority (price : Z) (s : list level) : Z :=
  match last (slot_orders price s) with
  | Some o => o_priority o + 1
  | None => 1
  end.

Definition place (o : Order) (s : list level) : list level :=
  if existsb (in_slot (o_price o)) s
  then (fun lv => if in_slot (o_price o) lv then (lv.1, lv.2 ++ [o]) else lv) <$> s
  else insertLevel (fun lv => shouldAddAfter (o_side o) (o_price o) lv.1) (o_price o, [o]) s.

(** The order a taker leaves in the book: all of its quantity. *)
Definition rest_order (t : Taker) (priority : Z) : Order :=
  mkOrder (t_ticker t) (t_client t) (t_oid t) (t_moid t) (t_side t) (t_price t) (t_qty t)
          priority None None.

(** ** The operations *)
Definition a_rest (t : Taker) (a : ABook) : ABook :=
  let s := a_side (t_side t) a in
  let o := rest_order t (next_priority (t_price t) s) in
  set_a_clients (<[client_key o := t_moid t]> (a_clients a)) (set_a_side (t_side t) (place o s) a).

Definition a_add (t : Taker) (a : ABook) : ABook :=
  let a1 := a_match t (set_a_next (a_next a + 1) a) in
  if t_qty t =? 0 then a1 else a_rest t a1.

(** Removing the order with a given market order id. *)
Definition without (moid : Z) (s : list level) : list level :=
  s ≫= fun lv => pop_level lv.1 (filter (fun o => o_marketOrderId o <> moid) lv.2).

Definition a_cancel (client oid : Z) (a : ABook) : ABook :=
  match a_clients a !! (client, oid) with
  | Some moid => mkA (without moid (a_bids a)) (without moid (a_asks a))
                     (delete (client, oid) (a_clients a)) (a_next a)
  | None => a
  end.

(** ** Facts of the model *)
Section Model.
Implicit Types (a : ABook) (t : Taker) (o : Order) (s : list level).

Lemma sweep_pop c p o os s :
  c o = true ->
  sweep c ((p, o :: os) :: s) =
    (o :: (sweep c (pop_level p os ++ s)).1, (sweep c (pop_level p os ++ s)).2).
Proof.
  intros Hc. destruct (decide (os = [])) as [->|Hne].
  - cbn. rewrite Hc. by destruct (sweep c s).
  - assert (pop_level p os = [(p, os)]) as -> by (by destruct os).
    cbn [sweep cross_prefix app]. rewrite Hc.
    destruct (cross_prefix c os) as [m [|x r]]; [|done]. by destruct (sweep c s).
Qed.

(** Matching splits the queue of a side in two. *)
Lemma cross_prefix_app c os : (cross_prefix c os).1 ++ (cross_prefix c os).2 = os.
Proof.
  induction os as [|o os IH]; [done|]. cbn. destruct (c o); [|done].
  destruct (cross_prefix c os). cbn in *. by rewrite IH.
Qed.

Lemma sweep_app c s : (sweep c s).1 ++ side_orders (sweep c s).2 = side_orders s.
Proof.
  induction s as [|[p os] s IH]; [done|]. change (side_orders ((p, os) :: s)) with (os ++ side_orders s).
  cbn [sweep]. pose proof (cross_prefix_app c os) as Hos.
  destruct (cross_prefix c os) as [m [|x r]]; cbn [fst snd] in *.
  - rewrite app_nil_r in Hos. subst. destruct (sweep c s). cbn [fst snd] in *. by rewrite <- app_assoc, IH.
  - change (side_orders ((p, x :: r) :: s)) with ((x :: r) ++ side_orders s).
    by rewrite app_assoc, Hos.
Qed.

Lemma sweep_stop c p o os s : c o = false -> sweep c ((p, o :: os) :: s) = ([], (p, o :: os) :: s).
Proof. intros Hc. cbn. by rewrite Hc. Qed.

Lemma fills_small qty q : 0 < q <= qty -> fills qty q = 1%nat.
Proof.
  intros Hq. unfold fills. replace ((q + qty - 1) / qty) with 1; [done|].
  apply (Z.div_unique _ _ _ (q - 1)); lia.
Qed.

Lemma fills_step qty q : 0 < qty < q -> fills qty q = S (fills qty (q - qty)).
Proof.
  intros Hq. unfold fills. replace (q + qty - 1) with (q - qty + qty - 1 + 1 * qty) by lia.
  rewrite Z.div_add by lia.
  assert (0 <= (q - qty + qty - 1) / qty) by (apply Z.div_pos; lia). lia.
Qed.

(** One fill of an order, then the fills of what is left of it. *)
Lemma order_fills_step qty o :
  0 < qty -> 0 < o_qty o ->
  let f := Z.min qty (o_qty o) in
  order_fills qty o =
    (o, (f, o_qty o - f)) ::
    (if o_qty o - f =? 0 then []
     else (fun x => (o, x.2)) <$> order_fills qty (order_set_qty (o_qty o - f) o)).
Proof.
  intros Hq Ho. cbn zeta. unfold order_fills. destruct (Z.leb_spec (o_qty o) qty).
  - rewrite Z.min_r, fills_small by lia. cbn [fill_seq]. rewrite Z.min_r by lia.
    by rewrite Z.sub_diag.
  - rewrite Z.min_l, fills_step by lia. cbn [fill_seq]. rewrite Z.min_l by lia.
    rewrite (proj2 (Z.eqb_neq _ _)) by lia. cbn [fmap list_fmap]. f_equal.
    cbn [o_qty order_set_qty]. rewrite <- list_fmap_compose. by apply list_fmap_ext.
Qed.

Definition side_fills (qty : Z) (s : list level) : nat :=
  sum_list_with (fun o => fills qty (o_qty o)) (side_orders s).

Lemma side_orders_pop p os s : side_orders (pop_level p os ++ s) = os ++ side_orders s.
Proof. by destruct os. Qed.

(** The messages do not depend on the quantity of the order record. *)
Lemma match_events_qty t o o' (fs : list (Order * (Z * Z))) rest ws :
  (forall fr w, fill_events t (o', fr) w = fill_events t (o, fr) w) ->
  Forall (fun x => x.1 = o') fs ->
  match_events t (((fun x => (o, x.2)) <$> fs) ++ rest) ws = match_events t (fs ++ rest) ws.
Proof.
  intros He Hf. revert ws. induction Hf as [|[o1 fr] fs Ho _ IH]; intros ws; [done|].
  destruct ws as [|w ws]; [done|]. cbn in Ho. subst o1.
  cbn [fmap list_fmap app]. unfold match_events in *. cbn [zip_with concat snd].
  rewrite He. f_equal. apply IH.
Qed.

Lemma without_app moid s1 s2 : without moid (s1 ++ s2) = without moid s1 ++ without moid s2.
Proof. apply bind_app. Qed.

(** Removing an order that is not there changes nothing. *)
Lemma without_id moid s :
  (forall p os, (p, os) ∈ s -> os <> [] /\ forall o, o ∈ os -> o_marketOrderId o <> moid) ->
  without moid s = s.
Proof.
  induction s as [|[p os] s IH]; intros Hs; [done|].
  change (pop_level p (filter (fun o => o_marketOrderId o <> moid) os) ++ without moid s = (p, os) :: s).
  destruct (Hs p os) as [Hne Hos]; [apply list_elem_of_here|].
  rewrite filter_id by (by apply Forall_forall).
  rewrite IH by (intros p' os' Hin; apply (Hs p'); by apply list_elem_of_further).
  by destruct os.
Qed.

Lemma fill_seq_le qty n : forall q fr, fr ∈ fill_seq n qty q -> fr.1 <= qty.
Proof.
  induction n as [|n IH]; intros q fr; cbn [fill_seq]; [by intros ?%elem_of_nil|].
  intros [->|Hfr]%elem_of_cons; [cbn; lia|].
  destruct (q - Z.min qty q =? 0); [by apply elem_of_nil in Hfr|by eapply IH].
Qed.

(** The fills of an order add up to its quantity, and none exceeds [qty]. *)
Lemma fill_seq_sum qty n q :
  0 < qty -> 0 < q -> (fills qty q <= n)%nat ->
  foldr (fun f z => f.1 + z) 0 (fill_seq n qty q) = q /\
  Forall (fun f => 0 < f.1 <= qty) (fill_seq n qty q).
Proof.
  intros Hqty. revert q. induction n as [|n IH]; intros q Hq Hn.
  { destruct (Z.leb_spec q qty); [rewrite fills_small in Hn by lia|rewrite fills_step in Hn by lia]; lia. }
  cbn [fill_seq foldr fst]. destruct (Z.leb_spec q qty).
  - rewrite Z.min_r, Z.sub_diag by lia. cbn. split; [lia|]. constructor; [cbn; lia|constructor].
  - rewrite Z.min_l by lia. rewrite (proj2 (Z.eqb_neq (q - qty) 0)) by lia.
    destruct (IH (q - qty)) as [-> Hf]; [lia|rewrite fills_step in Hn by lia; lia|].
    split; [lia|]. constructor; [cbn; lia|done].
Qed.

(** Over all the orders matched. *)
Definition volume (fs : list (Order * (Z * Z))) : Z := foldr (fun f z => f.2.1 + z) 0 fs.
Definition total_qty (os : list Order) : Z := foldr (fun o z => o_qty o + z) 0 os.

Lemma volume_app fs1 fs2 : volume (fs1 ++ fs2) = volume fs1 + volume fs2.
Proof.
  unfold volume. induction fs1 as [|f fs1 IH]; [done|]. cbn [app foldr]. rewrite IH. lia.
Qed.

Lemma volume_order o (l : list (Z * Z)) :
  volume ((fun fr => (o, fr)) <$> l) = foldr (fun f z => f.1 + z) 0 l.
Proof. induction l as [|f l IH]; [done|]. cbn. by rewrite <- IH. Qed.

Lemma sweep_fills_volume qty os :
  0 < qty -> Forall (fun o => 0 < o_qty o) os ->
  volume (sweep_fills qty os) = total_qty os /\
  Forall (fun f => 0 < f.2.1 <= qty) (sweep_fills qty os).
Proof.
  intros Hq Hos. induction Hos as [|o os Ho _ [IH1 IH2]]; [by split|].
  unfold sweep_fills in *. cbn [fmap list_fmap concat]. rewrite volume_app, IH1.
  destruct (fill_seq_sum qty (fills qty (o_qty o)) (o_qty o) Hq Ho) as [Hsum Hall]; [lia|].
  split.
  - unfold order_fills. by rewrite volume_order, Hsum.
  - apply Forall_app. split; [|done]. unfold order_fills. apply Forall_fmap.
    eapply Forall_impl; [exact Hall|]. done.
Qed.

(** ** Order of the levels *)
Definition better (sd : Side.t) (p q : Z) : Prop :=
  match sd with Side.SELL => p < q | _ => q < p end.
Definition sorted_side (sd : Side.t) (ps : list Z) : Prop := StronglySorted (better sd) ps.
(** Every order stands at the price of its level. *)
Definition priced (s : list level) : Prop := Forall (fun lv => Forall (fun o => o_price o = lv.1) lv.2) s.

Lemma better_after sd p q : shouldAddAfter sd q p = true <-> better sd p q.
Proof. destruct sd; apply Z.ltb_lt. Qed.

Lemma better_trans sd p q r : better sd p q -> better sd q r -> better sd p r.
Proof. destruct sd; cbn; lia. Qed.

Lemma better_total sd p q : p <> q -> shouldAddAfter sd p q = false -> better sd p q.
Proof. intros Hne. rewrite <- not_true_iff_false, better_after. destruct sd; cbn; lia. Qed.

Lemma better_asym sd p q : better sd p q -> ~ better sd q p.
Proof. destruct sd; cbn; lia. Qed.

Lemma insertLevel_unsorted sd p best q (ps : list Z) :
  (forall x, x ∈ best :: q :: ps -> shouldAddAfter sd p x = true) ->
  insertLevel (shouldAddAfter sd p) p (best :: q :: ps) = best :: p :: q :: ps /\
  ~ sorted_side sd (best :: p :: q :: ps).
Proof.
  intros Hw. split.
  - cbn [insertLevel]. rewrite Hw by apply list_elem_of_here.
    assert (insertBefore (shouldAddAfter sd p) p (q :: ps) = None) as ->; [|done].
    apply insertBefore_None, Forall_forall. intros x Hx. apply Hw. by apply list_elem_of_further.
  - unfold sorted_side. rewrite !StronglySorted_cons, !Forall_cons. intros (_ & (Hpq & _) & _).
    apply (better_asym _ _ _ Hpq), better_after, Hw. set_solver.
Qed.

Lemma insertLevel_keeps_sorted sd p (ps : list Z) :
  sorted_side sd ps -> p ∉ ps ->
  ((length ps <= 1)%nat \/ exists q, q ∈ ps /\ shouldAddAfter sd p q = false) ->
  sorted_side sd (insertLevel (shouldAddAfter sd p) p ps).
Proof.
  intros Hs Hp Hc. destruct ps as [|best rest]; [by repeat constructor|].
  pose proof Hs as (Hb & Hrest)%StronglySorted_cons. rewrite Forall_forall in Hb.
  cbn [insertLevel]. destruct (shouldAddAfter sd p best) eqn:Hwb.
  2: { apply StronglySorted_cons. split; [|done].
       assert (Hpb : better sd p best) by (apply better_total; [by intros ->; set_solver|done]).
       constructor; [done|]. apply Forall_forall. intros x Hx. by apply (better_trans _ _ best), Hb. }
  destruct (insertBefore (shouldAddAfter sd p) p rest) as [r|] eqn:Hr.
  2: { destruct rest as [|q rest]; [apply better_after in Hwb; by repeat constructor|].
       apply insertBefore_None in Hr. rewrite Forall_forall in Hr.
       destruct Hc as [Hc|(x & Hx & Hx')]; [cbn in Hc; lia|].
       apply elem_of_cons in Hx as [->|Hx]; [congruence|]. by rewrite Hr in Hx'. }
  destruct (insertBefore_Some _ _ _ _ Hr) as (s1 & t & s2 & -> & -> & Hw & Ht).
  assert (Hpt : better sd p t) by (apply better_total; [by intros ->; set_solver|done]).
  rewrite Forall_forall in Hw. apply StronglySorted_app in Hrest as (H12 & H1 & H2).
  pose proof H2 as (Ht2 & _)%StronglySorted_cons. rewrite Forall_forall in Ht2.
  apply StronglySorted_cons. split.
  - apply Forall_forall. intros x Hx. rewrite elem_of_app, elem_of_cons in Hx.
    destruct Hx as [Hx|[->|Hx]]; [apply Hb; set_solver|by apply better_after|apply Hb; set_solver].
  - apply StronglySorted_app. split_and!; [|done|].
    + intros x y Hx [->|Hy]%elem_of_cons; [by apply better_after, Hw|]. by apply H12.
    + apply StronglySorted_cons. split; [|done]. constructor; [done|].
      apply Forall_forall. intros x Hx. by apply (better_trans _ _ t), Ht2.
Qed.

(** What is left after matching does not cross. *)
Lemma cross_prefix_rest c os x r : (cross_prefix c os).2 = x :: r -> c x = false /\ forall y, y ∈ x :: r -> y ∈ os.
Proof.
  induction os as [|o os IH]; [done|]. cbn. destruct (c o) eqn:Hc.
  - destruct (cross_prefix c os) as [m r']. cbn in *. intros He. destruct (IH He) as [? Hy].
    split; [done|]. intros y Hy'. apply list_elem_of_further. by apply Hy.
  - cbn. intros [= <- <-]. done.
Qed.

(** What is swept is reached, and the first order left is not. *)
Lemma cross_prefix_reached c os : Forall (fun o => c o = true) (cross_prefix c os).1.
Proof.
  induction os as [|o os IH]; [constructor|]. cbn. destruct (c o) eqn:Hc; [|constructor].
  destruct (cross_prefix c os). by constructor.
Qed.
Lemma sweep_reached c s : Forall (fun o => c o = true) (sweep c s).1.
Proof.
  induction s as [|[p os] s IH]; [constructor|]. cbn [sweep]. pose proof (cross_prefix_reached c os) as Hm.
  destruct (cross_prefix c os) as [m [|x r]]; [|done]. destruct (sweep c s). by apply Forall_app.
Qed.
Lemma sweep_first c s o os : side_orders (sweep c s).2 = o :: os -> c o = false.
Proof.
  induction s as [|[p l] s IH]; [done|]. cbn [sweep].
  pose proof (cross_prefix_rest c l) as Hr. destruct (cross_prefix c l) as [m [|x r]]; cbn [snd] in *.
  - destruct (sweep c s). exact IH.
  - intros [= <- _]. by apply (Hr x r).
Qed.

Lemma reaches_worse sd price p q :
  two_sided sd -> better (opposite sd) p q -> reaches sd price p = false -> reaches sd price q = false.
Proof.
  intros [-> | ->]; cbn; lia.
Qed.

Lemma sweep_uncrossed t s :
  two_sided (t_side t) -> priced s -> sorted_side (opposite (t_side t)) s.*1 ->
  Forall (fun o => taker_crosses t o = false) (side_orders (sweep (taker_crosses t) s).2).
Proof.
  intros Hs. induction s as [|[p os] s IH]; intros Hp Hso; [constructor|].
  apply Forall_cons in Hp as [Hpo Hp]. cbn [fst snd] in Hpo.
  apply StronglySorted_cons in Hso as [Hb Hso]. cbn [sweep].
  destruct (cross_prefix (taker_crosses t) os) as [m [|x r]] eqn:Ec.
  - specialize (IH Hp Hso). by destruct (sweep (taker_crosses t) s).
  - destruct (cross_prefix_rest (taker_crosses t) os x r) as [Hx Hin]; [by rewrite Ec|].
    rewrite Forall_forall in Hpo. unfold taker_crosses in *.
    assert (Hxp : o_price x = p) by (apply Hpo, Hin, list_elem_of_here). rewrite Hxp in Hx.
    change (Forall (fun o => reaches (t_side t) (t_price t) (o_price o) = false)
              ((x :: r) ++ side_orders s)).
    apply Forall_app. split; apply Forall_forall.
    + intros y Hy. by rewrite (Hpo y (Hin y Hy)).
    + intros y Hy. unfold side_orders in Hy.
      apply list_elem_of_In, in_concat in Hy as (os' & Hos' & Hy%list_elem_of_In).
      apply list_elem_of_In, list_elem_of_fmap in Hos' as ([q os''] & -> & Hq).
      unfold priced in Hp. rewrite Forall_forall in Hp. specialize (Hp _ Hq). cbn in Hp, Hy.
      rewrite Forall_forall in Hp. rewrite (Hp y Hy). apply (reaches_worse _ _ p); [done| |done].
      rewrite Forall_forall in Hb. apply Hb, list_elem_of_fmap. by exists (q, os'').
Qed.

Lemma set_same_side sd a :
  two_sided sd -> set_a_clients (a_clients a) (set_a_side sd (a_side sd a) a) = a.
Proof. intros [-> | ->]; by destruct a. Qed.

(** Matching splits the orders of the book into those matched and those left. *)
Lemma all_orders_match t a :
  two_sided (t_side t) -> all_orders a ≡ₚ matched t a ++ all_orders (a_match t a).
Proof.
  intros Hs. unfold matched, a_match. destruct (t_qty t =? 0); [done|].
  pose proof (sweep_app (taker_crosses t) (a_side (opposite (t_side t)) a)) as Happ.
  destruct (sweep (taker_crosses t) (a_side (opposite (t_side t)) a)) as [m s]. cbn [fst snd] in *.
  destruct Hs as [Hs|Hs]; rewrite Hs in *; cbn [opposite] in *.
  - change (side_orders (a_bids a) ++ side_orders (a_side Side.SELL a) ≡ₚ
      m ++ side_orders (a_bids a) ++ side_orders s). rewrite <- Happ. solve_Permutation.
  - change (side_orders (a_side Side.BUY a) ++ side_orders (a_asks a) ≡ₚ
      m ++ side_orders s ++ side_orders (a_asks a)). rewrite <- Happ. solve_Permutation.
Qed.

Lemma elem_of_match t a o : two_sided (t_side t) -> o ∈ all_orders (a_match t a) -> o ∈ all_orders a.
Proof. intros Hs Ho. rewrite (all_orders_match t a Hs). set_solver. Qed.

Lemma matched_incl t a : two_sided (t_side t) -> forall o, o ∈ matched t a -> o ∈ all_orders a.
Proof. intros Hs o Ho. rewrite (all_orders_match t a Hs). set_solver. Qed.

Lemma length_match t a :
  two_sided (t_side t) -> (length (all_orders (a_match t a)) <= length (all_orders a))%nat.
Proof. intros Hs. rewrite (all_orders_match t a Hs), length_app. lia. Qed.

End Model.
