(* ===== verification/BookRep.v ===== *)
(** The whole order book: levels, the orders of each level and the client map.

    [Rep b ls] relates a book to the two lists of levels a reader of the book
    sees: [ls sd] lists, best first, the levels of side [sd], each with its
    orders, oldest first.  addOrderToBook, removeOrderFromBook and
    getNextPriority are specified on these lists. *)

From stdpp Require Import sorting.
From S2P Require Import Prelude MemoryPool Types Messages Ring Orders OrderBook BookLevels.
#[local] Open Scope Z_scope.
#[local] Open Scope hft_scope.

Abbreviation side_levels := (list (Z * list Z)).

Definition prios (h : gmap Z Order) (os : list Z) : list Z :=
  (fun i => from_option o_priority 0 (h !! i)) <$> os.

(** One level: its head pointer, the circle of its orders, all of the level's
    side and slot, in increasing priority. *)
Record level_rep (hl : gmap Z OrdersAtPrice) (ho : gmap Z Order) (sd : Side.t) (l : Z)
    (os : list Z) : Prop := {
  lp_level : exists lv, hl !! l = Some lv /\ l_side lv = sd /\ l_order0 lv = head os /\
    forall i, i ∈ os -> exists o, ho !! i = Some o /\ o_side o = sd /\
      priceToIndex (o_price o) = priceToIndex (l_price lv);
  lp_nonempty : os <> [];
  lp_ring : ring ho os;
  lp_prios : StronglySorted Z.lt (prios ho os);
}.

(** What a resting order satisfies on its own. *)
Record order_ok (next : Z) (o : Order) : Prop := {
  oo_qty : 0 <= o_qty o < 2 ^ 32;
  oo_client : client_in_range (o_clientId o) (o_clientOrderId o) = true;
  oo_priority : 1 <= o_priority o <= o_marketOrderId o;
  oo_marketOid : o_marketOrderId o < next;
}.

Record Rep (b : OrderBook) (ls : Side.t -> side_levels) : Prop := {
  rp_levels : LRep b (fun sd => (ls sd).*1);
  rp_level sd l os : two_sided sd -> (l, os) ∈ ls sd -> level_rep (lh b) (oh b) sd l os;
  rp_alive i o : oh b !! i = Some o ->
    exists sd l os, two_sided sd /\ (l, os) ∈ ls sd /\ i ∈ os;
  rp_client c k i : mapClientIdToOrder_ b !! (c, k) = Some i ->
    exists o, oh b !! i = Some o /\ o_clientId o = c /\ o_clientOrderId o = k;
  rp_order i o : oh b !! i = Some o -> order_ok (nextMarketOid_ b) o;
  rp_moid i j x y : oh b !! i = Some x -> oh b !! j = Some y ->
    o_marketOrderId x = o_marketOrderId y -> i = j;
  rp_pool : pool_ok (orderPool_ b);
  rp_total : totalBlocks_ (orderPool_ b) = MAX_ORDER_IDS;
  rp_next : 1 <= nextMarketOid_ b < 2 ^ 64;
}.

(** The book of a fresh object. *)
Definition no_levels : Side.t -> side_levels := fun _ => [].

(** The orders of a side in the order in which they are matched. *)
Definition ids (s : side_levels) : list Z := concat s.*2.
Definition queue (b : OrderBook) (s : side_levels) : list Order :=
  omap (fun i => unlinked <$> oh b !! i) (ids s).

Section Rep.
Implicit Types (b : OrderBook) (ls : Side.t -> side_levels).

Lemma LRep_ext b (lids lids' : Side.t -> list Z) :
  (forall sd, two_sided sd -> lids sd = lids' sd) -> LRep b lids -> LRep b lids'.
Proof.
  intros He [H1 H2 H3 H4 H5 H6 H7]. split; try done.
  - intros sd Hsd. rewrite <- He by done. by apply H1.
  - intros sd Hsd. rewrite <- He by done. by apply H2.
  - intros sd l Hsd. rewrite <- He by done. by apply H3.
  - intros l lv Hl. destruct (H4 l lv Hl) as (sd & Hsd & Hin). exists sd. by rewrite <- He.
Qed.

Lemma upd_side_fmap {A B} (f : A -> B) sd s (ls : Side.t -> list A) sd' :
  f <$> upd_side sd s ls sd' = upd_side sd (f <$> s) (fun x => f <$> ls x) sd'.
Proof. unfold upd_side. by case_decide. Qed.

Lemma unlinked_order_eq (x y : Order) :
  unlinked x = unlinked y ->
  o_tickerId x = o_tickerId y /\ o_clientId x = o_clientId y /\
  o_clientOrderId x = o_clientOrderId y /\ o_marketOrderId x = o_marketOrderId y /\
  o_side x = o_side y /\ o_price x = o_price y /\ o_qty x = o_qty y /\
  o_priority x = o_priority y.
Proof. destruct x, y. cbn. intros [=]. by subst. Qed.

Lemma order_ok_unlinked n x y : unlinked x = unlinked y -> order_ok n x -> order_ok n y.
Proof.
  intros (_ & Hc & Hk & Hm & _ & _ & Hq & Hp)%unlinked_order_eq [H1 H2 H3 H4].
  split; congruence.
Qed.

(** A level and its circle survive every change that keeps their nodes. *)
Lemma level_rep_frame hl ho hl' ho' sd l os :
  level_rep hl ho sd l os ->
  (forall lv, hl !! l = Some lv -> exists lv', hl' !! l = Some lv' /\
     l_side lv' = l_side lv /\ l_price lv' = l_price lv /\ l_order0 lv' = l_order0 lv) ->
  (forall i, i ∈ os -> nx ho' i = nx ho i /\ pv ho' i = pv ho i /\
     unlinked <$> ho' !! i = unlinked <$> ho !! i) ->
  level_rep hl' ho' sd l os.
Proof.
  intros [(lv & Hl & Hsd & H0 & Hos) Hne Hri Hpr] Hlf Hof. split; try done.
  - destruct (Hlf lv Hl) as (lv' & Hl' & Hs' & Hp & H0'). exists lv'. split_and!; [done|congruence|congruence|].
    intros i Hi. destruct (Hos i Hi) as (o & Ho & Hs & Hpx), (Hof i Hi) as (_ & _ & Hu).
    rewrite Ho in Hu. destruct (ho' !! i) as [o'|]; [|done]. cbn in Hu. apply (inj Some) in Hu.
    exists o'. apply unlinked_order_eq in Hu as (_ & _ & _ & _ & ? & ? & _).
    split_and!; congruence.
  - apply (ring_frame ho); [|done]. intros x Hx. by destruct (Hof x Hx) as (-> & -> & _).
  - replace (prios ho' os) with (prios ho os); [done|]. unfold prios.
    apply list_fmap_ext. intros k i Hi. apply list_elem_of_lookup_2 in Hi.
    destruct (Hof i Hi) as (_ & _ & Hu).
    destruct (ho !! i) as [x|], (ho' !! i) as [y|]; cbn in *; try done.
    apply (inj Some) in Hu. by apply unlinked_order_eq in Hu as (_ & _ & _ & _ & _ & _ & _ & ?).
Qed.

(** The level an order is in. *)
Lemma rep_order_level b ls sd l os i o :
  Rep b ls -> two_sided sd -> (l, os) ∈ ls sd -> i ∈ os -> oh b !! i = Some o ->
  mapPriceToPriceLevel_ b !! priceToIndex (o_price o) = Some l /\ o_side o = sd.
Proof.
  intros Hr Hsd Hl Hi Ho. destruct (rp_level _ _ Hr _ _ _ Hsd Hl) as [(lv & Hlv & _ & _ & Hos) _ _ _].
  destruct (Hos i Hi) as (o' & Ho' & Hs & Hp). rewrite Ho in Ho'. injection Ho' as <-.
  split; [|done]. apply (lr_map _ _ (rp_levels _ _ Hr)). eauto.
Qed.

Lemma rep_level_fun b ls sd l (os1 os2 : list Z) :
  Rep b ls -> two_sided sd -> (l, os1) ∈ ls sd -> (l, os2) ∈ ls sd -> os1 = os2.
Proof.
  intros Hr Hsd H1 H2. destruct (lr_ring _ _ (rp_levels _ _ Hr) sd Hsd) as [Hnd _].
  apply list_elem_of_lookup in H1 as [i H1], H2 as [j H2].
  assert (i = j) as <-.
  { apply (NoDup_lookup _ _ _ l Hnd); by rewrite list_lookup_fmap, ?H1, ?H2. }
  congruence.
Qed.

(** An order is in one level only. *)
Lemma rep_order_unique b ls sd1 sd2 l1 l2 (os1 os2 : list Z) i :
  Rep b ls -> two_sided sd1 -> two_sided sd2 -> (l1, os1) ∈ ls sd1 -> (l2, os2) ∈ ls sd2 ->
  i ∈ os1 -> i ∈ os2 -> sd1 = sd2 /\ l1 = l2 /\ os1 = os2.
Proof.
  intros Hr Hs1 Hs2 H1 H2 Hi1 Hi2.
  destruct (rp_level _ _ Hr _ _ _ Hs1 H1) as [(lv & _ & _ & _ & Hos) _ _ _].
  destruct (Hos i Hi1) as (o & Ho & _).
  destruct (rep_order_level _ _ _ _ _ _ _ Hr Hs1 H1 Hi1 Ho) as [Hm1 <-].
  destruct (rep_order_level _ _ _ _ _ _ _ Hr Hs2 H2 Hi2 Ho) as [Hm2 <-].
  assert (l1 = l2) as <- by congruence. split_and!; try done.
  by apply (rep_level_fun b ls (o_side o) l1).
Qed.

(** ** What the representation depends on *)
Definition level_fields b :=
  (bidsByPrice_ b, asksByPrice_ b, mapPriceToPriceLevel_ b, ordersAtPricePool_ b).
Definition core_fields b :=
  (level_fields b, orderPool_ b, mapClientIdToOrder_ b, nextMarketOid_ b).

Lemma LRep_fields b b' lids : level_fields b = level_fields b' -> LRep b lids -> LRep b' lids.
Proof.
  intros [= Hb Ha Hm Hp] [H1 H2 H3 H4 H5 H6 H7].
  split; try rewrite <- Hp; try rewrite <- Hm; try done.
  intros sd Hsd. rewrite <- H1 by done. unfold bestOrdersByPrice. by rewrite Ha, Hb.
Qed.

Lemma Rep_core b b' ls : core_fields b = core_fields b' -> Rep b ls -> Rep b' ls.
Proof.
  intros Hc [H1 H2 H3 H4 H5 H6 H7 H8 H9]. injection Hc as Hb Ha Hm Hp Ho Hc Hn.
  split; rewrite <- ?Hp, <- ?Ho, <- ?Hc, <- ?Hn; try done.
  apply (LRep_fields b); [|done]. unfold level_fields. congruence.
Qed.

(** Moving the head pointer of a level leaves the circles of levels alone. *)
Lemma LRep_order0 b lids l p :
  LRep b lids ->
  LRep (set_levelPool (updated l (level_set_order0 p) (ordersAtPricePool_ b)) b) lids.
Proof.
  intros [H1 H2 H3 H4 H5 H6 H7].
  assert (Hf : forall k, nx (alter (level_set_order0 p) l (lh b)) k = nx (lh b) k /\
                         pv (alter (level_set_order0 p) l (lh b)) k = pv (lh b) k).
  { intros k. unfold nx, pv. rewrite lookup_alter. case_decide; subst; [|done].
    by destruct (lh b !! k). }
  assert (Hlk : forall k v, alter (level_set_order0 p) l (lh b) !! k = Some v ->
    exists w, lh b !! k = Some w /\ l_side w = l_side v /\ l_price w = l_price v).
  { intros k v. rewrite lookup_alter. case_decide; subst; [|by eauto].
    destruct (lh b !! k) as [w|] eqn:Hw; [|done]. intros [= <-]. by exists w. }
  assert (Hkl : forall k w, lh b !! k = Some w -> exists v,
    alter (level_set_order0 p) l (lh b) !! k = Some v /\ l_side v = l_side w /\ l_price v = l_price w).
  { intros k w Hw. rewrite lookup_alter. case_decide; subst; [|by eauto]. rewrite Hw. eauto. }
  split; bcbn; rewrite ?live_updated; try done.
  - intros sd Hsd. apply (ring_frame (lh b)); [|by apply H2]. intros x _. apply Hf.
  - intros sd k Hsd Hk. destruct (H3 sd k Hsd Hk) as (w & Hw & <-).
    destruct (Hkl k w Hw) as (v & ? & ? & _). eauto.
  - intros k v Hk. destruct (Hlk k v Hk) as (w & Hw & _). eauto.
  - intros k i. rewrite H5. split.
    + intros (w & Hw & <-). destruct (Hkl i w Hw) as (v & ? & _ & Hv). exists v. by rewrite Hv.
    + intros (v & Hv & <-). destruct (Hlk i v Hv) as (w & ? & _ & Hw). exists w. by rewrite Hw.
  - by apply pool_ok_updated.
  - by rewrite (proj1 (updated_fields _ _ _)).
Qed.

(** Levels that stay keep their price. *)
Definition prices_kept b b' : Prop := forall l, is_Some (lh b !! l) -> is_Some (lh b' !! l) ->
  level_price (lh b') l = level_price (lh b) l.

Lemma prices_kept_heap b b' (h : gmap Z OrdersAtPrice) :
  lh b' ≡ₕ h -> (forall l v w, lh b !! l = Some v -> h !! l = Some w -> l_price w = l_price v) ->
  prices_kept b b'.
Proof.
  intros Hh Hp l [v Hv] [w Hw]. destruct (level_heap_eq _ _ _ _ Hh Hw) as (u & Hu & _ & Hpu & _).
  unfold level_price. rewrite Hv, Hw. cbn. rewrite <- Hpu. by apply (Hp l).
Qed.

(** ** Removing an order *)
Definition level_or_none (l : Z) (os : list Z) : side_levels :=
  match os with [] => [] | _ => [(l, os)] end.

(** The components a removal does not touch. *)
Definition removed_from b b' (o : Order) : Prop :=
  mapClientIdToOrder_ b' = delete (o_clientId o, o_clientOrderId o) (mapClientIdToOrder_ b) /\
  nextMarketOid_ b' = nextMarketOid_ b /\ assignedTicker_ b' = assignedTicker_ b /\
  clientResponse_ b' = clientResponse_ b /\ marketUpdate_ b' = marketUpdate_ b.

Lemma Rep_removed b b' ls sd s' i o :
  Rep b ls -> two_sided sd -> oh b !! i = Some o ->
  LRep b' (fun sd' => (upd_side sd s' ls sd').*1) ->
  oh b' ≡ₕ delete i (oh b) ->
  (forall sd' l os, two_sided sd' -> (l, os) ∈ upd_side sd s' ls sd' ->
     level_rep (lh b') (oh b') sd' l os) ->
  (forall j l os, j <> i -> (l, os) ∈ ls sd -> j ∈ os -> exists l' os', (l', os') ∈ s' /\ j ∈ os') ->
  removed_from b b' o -> pool_ok (orderPool_ b') -> totalBlocks_ (orderPool_ b') = MAX_ORDER_IDS ->
  Rep b' (upd_side sd s' ls).
Proof.
  intros Hr Hsd Ho Hlr Hh Hlv Hin (Hcl & Hn & _) Hok Htot.
  assert (Hback : forall k y, oh b' !! k = Some y -> k <> i /\
            exists x, oh b !! k = Some x /\ unlinked x = unlinked y).
  { intros k y Hk. destruct (heap_eq_lookup _ _ _ _ Hh Hk) as (x & Hx & Hu).
    rewrite lookup_delete in Hx. case_decide; [done|]. eauto. }
  split; try done.
  - intros j y Hj. destruct (Hback _ _ Hj) as (Hji & x & Hx & _).
    destruct (rp_alive _ _ Hr _ _ Hx) as (sd' & l & os & Hsd' & Hl & Hjo).
    destruct (decide (sd' = sd)) as [->|Hne].
    + destruct (Hin j l os Hji Hl Hjo) as (l' & os' & ? & ?).
      exists sd, l', os'. by rewrite upd_side_eq.
    + exists sd', l, os. by rewrite upd_side_ne.
  - intros c k j. rewrite Hcl, lookup_delete_Some. intros [Hne Hm].
    destruct (rp_client _ _ Hr _ _ _ Hm) as (x & Hx & Hc & Hk).
    assert (j <> i) by (intros ->; congruence). symmetry in Hh.
    destruct (heap_eq_lookup _ _ j x Hh) as (y & Hy & Hu); [by rewrite lookup_delete_ne|].
    apply unlinked_order_eq in Hu as (_ & ? & ? & _). exists y. split_and!; congruence.
  - intros j y Hj. destruct (Hback _ _ Hj) as (Hji & x & Hx & Hu).
    rewrite Hn. apply (order_ok_unlinked _ x); [done|]. by apply (rp_order _ _ Hr j).
  - intros j k y z Hj Hk Hyz. destruct (Hback _ _ Hj) as (_ & x & Hx & Hu).
    destruct (Hback _ _ Hk) as (_ & w & Hw & Hv). apply (rp_moid _ _ Hr j k x w); try done.
    apply unlinked_order_eq in Hu as (_ & _ & _ & ? & _).
    apply unlinked_order_eq in Hv as (_ & _ & _ & ? & _). congruence.
  - rewrite Hn. apply (rp_next _ _ Hr).
Qed.

(** A book whose level [l] lost the order [i] from its circle, the order itself
    still being alive. *)
Record order_unlinked b b1 (lids : Side.t -> list Z) l (o1 : list Z) i (o2 : list Z) : Prop := {
  ou_heap : oh b1 ≡ₕ oh b;
  ou_ring : ring (oh b1) (o1 ++ o2);
  ou_frame k : k <> i -> k ∉ o1 ++ o2 -> nx (oh b1) k = nx (oh b) k /\ pv (oh b1) k = pv (oh b) k;
  ou_lrep : LRep b1 lids;
  ou_levels : lh b1 = alter (level_set_order0 (head (o1 ++ o2))) l (lh b);
  ou_pool : pool_ok (orderPool_ b1);
  ou_total : totalBlocks_ (orderPool_ b1) = totalBlocks_ (orderPool_ b);
  ou_rest : mapClientIdToOrder_ b1 = mapClientIdToOrder_ b /\
    nextMarketOid_ b1 = nextMarketOid_ b /\ assignedTicker_ b1 = assignedTicker_ b /\
    clientResponse_ b1 = clientResponse_ b /\ marketUpdate_ b1 = marketUpdate_ b;
}.

Lemma alter_order0_id (h : gmap Z OrdersAtPrice) l lv p :
  h !! l = Some lv -> l_order0 lv = p -> alter (level_set_order0 p) l h = h.
Proof.
  intros Hl <-. apply map_eq. intros k. rewrite lookup_alter. case_decide; subst; [|done].
  rewrite Hl. cbn. f_equal. by destruct lv.
Qed.

(** Rewiring the neighbours of [i] takes it out of its circle. *)
Lemma unlinked_ring (h : gmap Z Order) (o1 : list Z) i (o2 : list Z) p s h' :
  ring h (o1 ++ i :: o2) -> o1 ++ o2 <> [] -> pv h i = Some p -> nx h i = Some s ->
  h' = alter (set_lprev None) i (alter (set_lnext None) i
         (alter (set_lprev (Some p)) s (alter (set_lnext (Some s)) p h))) ->
  h' ≡ₕ h /\ ring h' (o1 ++ o2) /\
  forall k, k <> i -> k ∉ o1 ++ o2 -> nx h' k = nx h k /\ pv h' k = pv h k.
Proof.
  intros Hri Hne Hp Hs ->.
  destruct (ring_neighbours _ _ _ _ Hri Hne) as (p' & s' & Hp' & Hs' & Hpin & Hsin & Hpl & Hsl).
  assert (p' = p) as -> by congruence. assert (s' = s) as -> by congruence.
  assert (Hni : i ∉ o1 ++ o2).
  { destruct Hri as [Hnd _]. rewrite <- Permutation_middle in Hnd.
    by apply NoDup_cons in Hnd as [? _]. }
  destruct (ring_alive _ _ p Hri) as [pl Hpl']; [set_solver|].
  destruct (ring_alive _ _ s Hri) as [sl Hsl']; [set_solver|].
  split_and!.
  - by rewrite heap_eq_lprev, heap_eq_lnext, heap_eq_lprev, heap_eq_lnext.
  - apply (ring_remove h _ o1 i o2 p s); try done; intros; unfold nx, pv;
      rewrite !lookup_alter; repeat case_decide; simplify_map_eq; done.
  - intros k Hk Hk'. assert (k <> p) by (by intros ->). assert (k <> s) by (by intros ->).
    autorewrite with hft_live. by rewrite !decide_False.
Qed.

Lemma wp_unlink_order b lids l lv (o1 : list Z) i (o2 : list Z) o p s
    (Q : unit -> OrderBook -> Prop) :
  LRep b lids -> pool_ok (orderPool_ b) -> lh b !! l = Some lv ->
  l_order0 lv = head (o1 ++ i :: o2) ->
  ring (oh b) (o1 ++ i :: o2) -> o1 ++ o2 <> [] -> oh b !! i = Some o ->
  o_prev o = Some p -> o_next o = Some s ->
  (forall b1, order_unlinked b b1 lids l o1 i o2 -> Q tt b1) ->
  wp (p ← nonnull (o_prev o);
      upd_order p (order_set_next (o_next o));;
      od ← load_order i;
      s ← nonnull (o_next od);
      upd_order s (order_set_prev (o_prev od));;
      l ← nonnull (Some l);
      lv ← load_level l;
      (if decide (l_order0 lv = Some i)
       then od ← load_order i; upd_level l (level_set_order0 (o_next od)) else mret tt);;
      upd_order i (order_set_next None);;
      upd_order i (order_set_prev None)) Q b.
Proof.
  intros Hlr Hok Hlv H0 Hri Hne Ho Hp Hs HQ.
  assert (Hnx : nx (oh b) i = Some s) by (unfold nx; by rewrite Ho).
  assert (Hpv : pv (oh b) i = Some p) by (unfold pv; by rewrite Ho).
  destruct (unlinked_ring (oh b) o1 i o2 p s _ Hri Hne Hpv Hnx eq_refl) as (Hheap & Hring & Hfr).
  destruct (ring_neighbours _ _ _ _ Hri Hne) as (p' & s' & Hp' & Hs' & Hpin & Hsin & Hpi & Hsi).
  assert (p' = p) as -> by congruence. assert (s' = s) as -> by congruence.
  assert (Hal : forall x, x ∈ o1 ++ o2 -> is_Some (oh b !! x))
    by (intros x Hx; apply (ring_alive _ _ _ Hri); set_solver).
  rewrite Hp, Hs. wp_steps. apply wp_upd_order; [by apply Hal|]. wp_step.
  apply (wp_load_order _ o); [bcbn; live_simpl; by rewrite lookup_alter_ne|].
  rewrite Hs, Hp. wp_step. wp_step. wp_step.
  apply wp_upd_order; [bcbn; live_simpl; by apply Hal|]. wp_steps.
  apply (wp_load_level _ lv); [done|]. wp_step. rewrite H0.
  assert (Hhd : if decide (head (o1 ++ i :: o2) = Some i) then head (o1 ++ o2) = Some s
                else head (o1 ++ o2) = head (o1 ++ i :: o2)).
  { destruct o1 as [|x o1]; cbn [app head].
    - rewrite decide_True by done. destruct o2 as [|y o2]; [done|].
      apply ring_next in Hri as [Hn _]. cbn. congruence.
    - rewrite decide_False; [done|]. intros [= ->].
      destruct Hri as [Hnd _]. apply NoDup_cons in Hnd as [Hnd _]. set_solver. }
  case_decide as Hd.
  - wp_step. apply (wp_load_order _ o); [bcbn; live_simpl; by rewrite !lookup_alter_ne|].
    rewrite Hs. apply wp_upd_level; [bcbn; eauto|]. wp_step.
    apply wp_upd_order; [bcbn; live_simpl; eauto|].
    apply wp_upd_order; [bcbn; live_simpl; eauto|].
    apply HQ. split; bcbn; live_simpl; try done.
    + apply (LRep_fields (set_levelPool (updated l (level_set_order0 (Some s))
        (ordersAtPricePool_ b)) b)); [done|]. by apply LRep_order0.
    + by rewrite Hhd.
    + auto using pool_ok_updated.
    + by rewrite !(proj1 (updated_fields _ _ _)).
  - wp_step. wp_step. apply wp_upd_order; [bcbn; live_simpl; eauto|].
    apply wp_upd_order; [bcbn; live_simpl; eauto|].
    apply HQ. split; bcbn; live_simpl; try done.
    + by apply (LRep_fields b).
    + symmetry. apply (alter_order0_id _ _ lv); congruence.
    + auto using pool_ok_updated.
    + by rewrite !(proj1 (updated_fields _ _ _)).
Qed.

(** The last statements of removeOrderFromBook. *)
Lemma wp_drop_order b i o (Q : unit -> OrderBook -> Prop) :
  pool_ok (orderPool_ b) -> oh b !! i = Some o ->
  client_in_range (o_clientId o) (o_clientOrderId o) = true ->
  (forall p', pool_ok p' -> live p' = delete i (oh b) ->
     totalBlocks_ p' = totalBlocks_ (orderPool_ b) ->
     Q tt (set_orderPool p' (set_clientSlot (o_clientId o) (o_clientOrderId o) None b))) ->
  wp (od ← load_order i;
      require (client_in_range (o_clientId od) (o_clientOrderId od)) OutOfBounds;;
      modify (set_clientSlot (o_clientId od) (o_clientOrderId od) None);;
      zoom orderPool_ set_orderPool (deallocate i)) Q b.
Proof.
  intros Hok Ho Hc HQ. wp_step. apply (wp_load_order _ o); [done|].
  wp_step. apply wp_require; [done|]. wp_step. wp_step.
  by apply (wp_dealloc_order _ o).
Qed.

(** The level of an order with its neighbours in the list. *)
Lemma rep_split_level b ls sd (L1 : side_levels) l (os : list Z) (L2 : side_levels) :
  Rep b ls -> two_sided sd -> ls sd = L1 ++ (l, os) :: L2 ->
  level_rep (lh b) (oh b) sd l os /\ (forall l' os', (l', os') ∈ L1 ++ L2 -> l' <> l).
Proof.
  intros Hr Hsd Hls. split.
  - apply (rp_level _ _ Hr); [done|]. rewrite Hls. set_solver.
  - destruct (lr_ring _ _ (rp_levels _ _ Hr) sd Hsd) as [Hnd _].
    rewrite Hls, <- Permutation_middle in Hnd. cbn in Hnd. apply NoDup_cons in Hnd as [Hnd _].
    intros l' os' Hin ->. apply Hnd. apply list_elem_of_fmap. by exists (l, os').
Qed.

Lemma level_rep_removed b b1 ls sd l (o1 : list Z) i (o2 : list Z) :
  Rep b ls -> level_rep (lh b) (oh b) sd l (o1 ++ i :: o2) -> o1 ++ o2 <> [] ->
  order_unlinked b b1 (fun sd => (ls sd).*1) l o1 i o2 -> i ∉ o1 ++ o2 ->
  level_rep (lh b1) (delete i (oh b1)) sd l (o1 ++ o2).
Proof.
  intros Hr [(lv & Hlv & Hs & H0 & Hos) _ Hri Hpr] Hne Hu Hni.
  pose proof Hu as [Hh Hring _ _ Hlh _ _ _].
  assert (Hsub : forall k, k ∈ o1 ++ o2 -> k ∈ o1 ++ i :: o2) by set_solver.
  split; try done.
  - exists (level_set_order0 (head (o1 ++ o2)) lv).
    rewrite Hlh, lookup_alter, decide_True, Hlv by done. split_and!; try done.
    intros k Hk. destruct (Hos k) as (x & Hx & Hxs & Hxp); [by apply Hsub|].
    symmetry in Hh. destruct (heap_eq_lookup _ _ _ _ Hh Hx) as (y & Hy & Huy).
    apply unlinked_order_eq in Huy as (_ & _ & _ & _ & ? & ? & _).
    exists y. rewrite lookup_delete_ne by (by intros ->). split_and!; [done|congruence|].
    cbn. congruence.
  - apply (ring_frame (oh b1)); [|done]. intros k Hk. assert (k <> i) by (by intros ->).
    by rewrite nx_delete_ne, pv_delete_ne.
  - assert (He : prios (delete i (oh b1)) (o1 ++ o2) = prios (oh b) (o1 ++ o2)).
    { unfold prios. apply list_fmap_ext. intros j k Hk%list_elem_of_lookup_2.
      rewrite lookup_delete_ne by (by intros ->). specialize (Hh k).
      destruct (oh b1 !! k), (oh b !! k); cbn in *; try done.
      apply (inj Some) in Hh. by apply unlinked_order_eq in Hh as (_ & _ & _ & _ & _ & _ & _ & ?). }
    rewrite He. unfold prios in *. rewrite fmap_app in *. cbn in Hpr.
    apply StronglySorted_app in Hpr as (Hc & H1 & H2).
    apply StronglySorted_cons in H2 as [_ H2]. apply StronglySorted_app_2; [|done|done].
    intros x y Hx Hy. apply Hc; [done|]. by apply list_elem_of_further.
Qed.

(** Every other level keeps its circle when only nodes of [os] changed. *)
Lemma level_rep_other b b' ls sd l (os : list Z) sd' l' (os' : list Z) :
  Rep b ls -> two_sided sd -> two_sided sd' -> (l, os) ∈ ls sd -> (l', os') ∈ ls sd' -> l' <> l ->
  (forall lv, lh b !! l' = Some lv -> exists lv', lh b' !! l' = Some lv' /\
     l_side lv' = l_side lv /\ l_price lv' = l_price lv /\ l_order0 lv' = l_order0 lv) ->
  (forall k, k ∉ os -> is_Some (oh b !! k) ->
     nx (oh b') k = nx (oh b) k /\ pv (oh b') k = pv (oh b) k /\
     unlinked <$> oh b' !! k = unlinked <$> oh b !! k) ->
  level_rep (lh b') (oh b') sd' l' os'.
Proof.
  intros Hr Hsd Hsd' Hl Hl' Hne Hlv Hfr. pose proof (rp_level _ _ Hr _ _ _ Hsd' Hl') as Hlev.
  apply (level_rep_frame (lh b) (oh b)); [done|done|].
  intros k Hk. apply Hfr; [|by apply (ring_alive _ _ _ (lp_ring _ _ _ _ _ Hlev))]. intros Hk'.
  by destruct (rep_order_unique _ _ _ _ _ _ _ _ k Hr Hsd' Hsd Hl' Hl Hk Hk') as (_ & ? & _).
Qed.

Lemma other_levels b ls sd (L1 : side_levels) l (os : list Z) (L2 : side_levels) sd' l' os' :
  Rep b ls -> two_sided sd -> two_sided sd' -> ls sd = L1 ++ (l, os) :: L2 ->
  (l', os') ∈ upd_side sd (L1 ++ L2) ls sd' -> (l', os') ∈ ls sd' /\ l' <> l.
Proof.
  intros Hr Hsd Hsd' Hls Hin. destruct (rep_split_level _ _ _ _ _ _ _ Hr Hsd Hls) as [_ Hne].
  destruct (decide (sd' = sd)) as [->|Hne'].
  - rewrite upd_side_eq in Hin. split; [rewrite Hls; set_solver|by eapply Hne].
  - rewrite upd_side_ne in Hin by done. split; [done|]. intros ->. apply Hne'.
    apply (lr_disjoint _ _ _ _ l (rp_levels _ _ Hr)); try done.
    + apply list_elem_of_fmap. by exists (l, os').
    + rewrite Hls, fmap_app. cbn. set_solver.
Qed.

Lemma replaced_level b ls sd (L1 : side_levels) l (os os2 : list Z) (L2 : side_levels) sd' l' os' :
  Rep b ls -> two_sided sd -> two_sided sd' -> ls sd = L1 ++ (l, os) :: L2 ->
  (l', os') ∈ upd_side sd (L1 ++ (l, os2) :: L2) ls sd' ->
  sd' = sd /\ l' = l /\ os' = os2 \/ (l', os') ∈ ls sd' /\ l' <> l.
Proof.
  intros Hr Hsd Hsd' Hls Hin.
  assert (H : sd' = sd /\ l' = l /\ os' = os2 \/ (l', os') ∈ upd_side sd (L1 ++ L2) ls sd').
  { unfold upd_side in *. case_decide; [|by right]. subst.
    rewrite elem_of_app, elem_of_cons in Hin. destruct Hin as [?|[?|?]]; [set_solver| |set_solver].
    simplify_eq. by left. }
  destruct H as [?|Hin']; [by left|right]. by apply (other_levels b ls sd L1 l os L2 sd').
Qed.

Definition drop_order (i : Z) : M OrderBook unit :=
  od ← load_order i;
  require (client_in_range (o_clientId od) (o_clientOrderId od)) OutOfBounds;;
  modify (set_clientSlot (o_clientId od) (o_clientOrderId od) None);;
  zoom orderPool_ set_orderPool (deallocate i).

(** The only order of its level takes the level with it. *)
Lemma wp_remove_alone b ls sd (L1 : side_levels) l i (L2 : side_levels) o
    (Q : unit -> OrderBook -> Prop) :
  Rep b ls -> two_sided sd -> ls sd = L1 ++ (l, [i]) :: L2 -> oh b !! i = Some o ->
  (forall b', Rep b' (upd_side sd (L1 ++ L2) ls) -> oh b' ≡ₕ delete i (oh b) ->
     removed_from b b' o -> prices_kept b b' -> Q tt b') ->
  wp (removePriceLevel sd (o_price o);; drop_order i) Q b.
Proof.
  intros Hr Hsd Hls Ho HQ.
  destruct (rep_split_level _ _ _ _ _ _ _ Hr Hsd Hls) as [[(lv & Hlv & Hsl & H0 & Hos) _ _ _] Hdist].
  destruct (Hos i) as (o' & Ho' & Hside & Hidx); [by apply list_elem_of_singleton|].
  assert (o' = o) as -> by congruence.
  wp_step.
  apply (wp_removePriceLevel b (fun sd => (ls sd).*1) sd L1.*1 l L2.*1 lv); try done.
  { apply (rp_levels _ _ Hr). }
  { by rewrite Hls, fmap_app. }
  intros b1 Hlr1 Hlh1 (Hop & Hmap & Hnext & Htick & Hresp & Hupd).
  apply (wp_drop_order _ _ o); rewrite ?Hop; [apply (rp_pool _ _ Hr)|done| |].
  { apply (oo_client _ _ (rp_order _ _ Hr _ _ Ho)). }
  intros p' Hok' Hlive' Htot'.
  assert (Hrem : removed_from b (set_orderPool p'
            (set_clientSlot (o_clientId o) (o_clientOrderId o) None b1)) o)
    by (unfold removed_from; bcbn; by rewrite Hmap).
  apply HQ; bcbn; [|by rewrite Hlive'|done|].
  2: { apply (prices_kept_heap b _ (delete l (lh b))); [done|]. intros k v w Hv.
       rewrite lookup_delete_Some. intros [_ Hw]. congruence. }
  apply (Rep_removed b _ ls sd (L1 ++ L2) i o); bcbn; try done.
  - apply (LRep_fields b1); [done|]. eapply LRep_ext; [|exact Hlr1].
    intros sd' _. by rewrite upd_side_fmap, fmap_app.
  - by rewrite Hlive'.
  - intros sd' l' os' Hsd' Hin.
    destruct (other_levels _ _ _ _ _ _ _ _ _ _ Hr Hsd Hsd' Hls Hin) as [Hin' Hne'].
    apply (level_rep_other b (set_orderPool p' b1) ls sd l [i] sd' l' os'); bcbn; try done.
    + rewrite Hls. set_solver.
    + intros w Hw. apply (level_heap_eq (delete l (lh b))); [by symmetry|].
      by rewrite lookup_delete_ne.
    + intros k Hk _. rewrite Hlive'. assert (k <> i) by (intros ->; set_solver).
      by rewrite nx_delete_ne, pv_delete_ne, lookup_delete_ne.
  - intros j l' os' Hj Hin Hjo. exists l', os'. split; [|done].
    rewrite Hls in Hin. apply elem_of_app in Hin as [Hin|Hin]; [set_solver|].
    apply elem_of_cons in Hin as [Hin|Hin]; [|set_solver].
    injection Hin as -> ->. by apply list_elem_of_singleton in Hjo.
  - rewrite Htot'. apply (rp_total _ _ Hr).
Qed.

(** An order that shares its level leaves the level in place. *)
Lemma wp_remove_shared b b1 ls sd (L1 : side_levels) l (o1 : list Z) i (o2 : list Z)
    (L2 : side_levels) o (Q : unit -> OrderBook -> Prop) :
  Rep b ls -> two_sided sd -> ls sd = L1 ++ (l, o1 ++ i :: o2) :: L2 -> oh b !! i = Some o ->
  o1 ++ o2 <> [] -> i ∉ o1 ++ o2 -> order_unlinked b b1 (fun sd => (ls sd).*1) l o1 i o2 ->
  (forall b', Rep b' (upd_side sd (L1 ++ (l, o1 ++ o2) :: L2) ls) ->
     oh b' ≡ₕ delete i (oh b) -> removed_from b b' o -> prices_kept b b' -> Q tt b') ->
  wp (drop_order i) Q b1.
Proof.
  intros Hr Hsd Hls Ho Hne Hni Hu HQ.
  destruct (rep_split_level _ _ _ _ _ _ _ Hr Hsd Hls) as [Hlev Hdist].
  pose proof Hu as [Hh Hring Hfr Hlr Hlh Hok Htot (Hmap & Hnext & Htick & Hresp & Hupd)].
  assert (Hi1 : exists o', oh b1 !! i = Some o' /\ unlinked o' = unlinked o)
    by (symmetry in Hh; by apply (heap_eq_lookup _ _ _ _ Hh)).
  destruct Hi1 as (o' & Ho' & Huo).
  apply unlinked_order_eq in Huo as (_ & Hc & Hk & _).
  apply (wp_drop_order _ _ o'); [done|done| |].
  { rewrite Hc, Hk. apply (oo_client _ _ (rp_order _ _ Hr _ _ Ho)). }
  rewrite Hc, Hk. intros p' Hok' Hlive' Htot'.
  assert (Hrem : removed_from b (set_orderPool p'
            (set_clientSlot (o_clientId o) (o_clientOrderId o) None b1)) o)
    by (unfold removed_from; bcbn; by rewrite Hmap).
  assert (Hheap : live p' ≡ₕ delete i (oh b)) by (rewrite Hlive'; by rewrite Hh).
  apply HQ; bcbn; [|done|done|].
  2: { apply (prices_kept_heap b _ (lh b1)); [done|]. intros k v w Hv. rewrite Hlh, lookup_alter.
       case_decide; subst; rewrite Hv; cbn; by intros [= <-]. }
  apply (Rep_removed b _ ls sd _ i o); bcbn; try done.
  - apply (LRep_fields b1); [done|]. eapply LRep_ext; [|exact Hlr]. intros sd' _.
    unfold upd_side. case_decide; subst; [|done]. by rewrite Hls, !fmap_app.
  - intros sd' l' os' Hsd' Hin.
    destruct (replaced_level _ _ _ _ _ _ _ _ _ _ _ Hr Hsd Hsd' Hls Hin)
      as [(-> & -> & ->)|[Hin' Hne']].
    + rewrite Hlive'. by apply (level_rep_removed b b1 ls).
    + apply (level_rep_other b (set_orderPool p' b1) ls sd l (o1 ++ i :: o2) sd' l' os');
        bcbn; try done.
      * rewrite Hls. set_solver.
      * intros w Hw. exists w. by rewrite Hlh, lookup_alter_ne.
      * intros k Hk' _. assert (k <> i) by (intros ->; set_solver).
        rewrite (Hheap k), lookup_delete_ne, Hlive', nx_delete_ne, pv_delete_ne by done.
        destruct (Hfr k) as [-> ->]; [done|set_solver|done].
  - intros j l' os' Hj Hin Hjo. rewrite Hls in Hin.
    rewrite elem_of_app, elem_of_cons in Hin. destruct Hin as [Hin|[Hin|Hin]].
    + exists l', os'. set_solver.
    + injection Hin as -> ->. exists l, (o1 ++ o2). set_solver.
    + exists l', os'. set_solver.
  - rewrite Htot', Htot. apply (rp_total _ _ Hr).
Qed.

Lemma wp_removeOrderFromBook b ls sd (L1 : side_levels) l (o1 : list Z) i (o2 : list Z)
    (L2 : side_levels) o (Q : unit -> OrderBook -> Prop) :
  Rep b ls -> two_sided sd -> ls sd = L1 ++ (l, o1 ++ i :: o2) :: L2 -> oh b !! i = Some o ->
  (forall b', Rep b' (upd_side sd (L1 ++ level_or_none l (o1 ++ o2) ++ L2) ls) ->
     oh b' ≡ₕ delete i (oh b) -> removed_from b b' o -> prices_kept b b' -> Q tt b') ->
  wp (removeOrderFromBook i) Q b.
Proof.
  intros Hr Hsd Hls Ho HQ.
  destruct (rep_split_level _ _ _ _ _ _ _ Hr Hsd Hls) as [[(lv & Hlv & Hsl & H0 & Hos) _ Hri _] _].
  assert (Hii : i ∈ o1 ++ i :: o2) by set_solver.
  destruct (rep_order_level b ls sd l (o1 ++ i :: o2) i o) as [Hm Hside]; try done;
    [rewrite Hls; set_solver|].
  assert (Hpv : pv (oh b) i = o_prev o) by (unfold pv; by rewrite Ho).
  assert (Hnx : nx (oh b) i = o_next o) by (unfold nx; by rewrite Ho).
  unfold removeOrderFromBook. wp_step. apply (wp_load_order _ o); [done|].
  wp_step. wp_step. fold (drop_order i). unfold getLevelForPrice. rewrite Hm.
  destruct (decide (o1 ++ o2 = [])) as [Hnil|Hne].
  - apply app_eq_nil in Hnil as [-> ->]. cbn [app level_or_none] in *.
    rewrite decide_True by (rewrite <- Hpv; apply (ring_last _ _ [] i Hri eq_refl)).
    rewrite Hside. by apply (wp_remove_alone b ls sd L1 l i L2 o).
  - destruct (ring_neighbours _ _ _ _ Hri Hne) as (p & s & Hp & Hs & _ & _ & Hpi & _).
    rewrite decide_False by congruence.
    assert (Hni : i ∉ o1 ++ o2).
    { destruct Hri as [Hnd _]. rewrite <- Permutation_middle in Hnd.
      by apply NoDup_cons in Hnd as [? _]. }
    wp_step.
    apply (wp_unlink_order b (fun sd => (ls sd).*1) l lv o1 i o2 o p s); try done;
      [apply (rp_levels _ _ Hr)|apply (rp_pool _ _ Hr)|congruence|congruence|].
    intros b1 Hu. apply (wp_remove_shared b b1 ls sd L1 l o1 i o2 L2 o); try done.
    destruct (o1 ++ o2); [done|exact HQ].
Qed.

(** ** Adding an order *)

(** The level in a slot. *)
Lemma rep_slot_level b ls k l :
  Rep b ls -> mapPriceToPriceLevel_ b !! k = Some l ->
  exists sd os, two_sided sd /\ (l, os) ∈ ls sd.
Proof.
  intros Hr Hm. apply (lr_map _ _ (rp_levels _ _ Hr)) in Hm as (lv & Hlv & _).
  destruct (lr_alive _ _ (rp_levels _ _ Hr) _ _ Hlv) as (sd & Hsd & Hin).
  apply list_elem_of_fmap in Hin as ([l' os] & -> & Hin). eauto.
Qed.

Lemma sorted_last (l : list Z) z : StronglySorted Z.lt l -> last l = Some z -> forall x, x ∈ l -> x <= z.
Proof.
  intros Hs [l' ->]%last_Some x. apply StronglySorted_app in Hs as (Hc & _ & _).
  rewrite elem_of_app, list_elem_of_singleton. intros [Hx| ->]; [|lia].
  specialize (Hc x z Hx). rewrite list_elem_of_singleton in Hc. specialize (Hc eq_refl). lia.
Qed.

Lemma wp_getNextPriority b ls price (Q : Z -> OrderBook -> Prop) :
  Rep b ls ->
  (forall pr, 1 <= pr ->
     (forall sd l os, two_sided sd -> (l, os) ∈ ls sd ->
        mapPriceToPriceLevel_ b !! priceToIndex price = Some l ->
        forall x, x ∈ prios (oh b) os -> x < pr) ->
     (forall m, 1 <= m -> (forall i o, oh b !! i = Some o -> o_priority o < m) -> pr <= m) ->
     (match mapPriceToPriceLevel_ b !! priceToIndex price with
      | None => pr = 1
      | Some l => exists sd os t o, two_sided sd /\ (l, os) ∈ ls sd /\ last os = Some t /\
                    oh b !! t = Some o /\ pr = o_priority o + 1
      end) ->
     Q pr b) ->
  wp (getNextPriority price) Q b.
Proof.
  intros Hr HQ. unfold getNextPriority. wp_steps. unfold getLevelForPrice.
  destruct (mapPriceToPriceLevel_ b !! priceToIndex price) as [l|] eqn:Hm.
  2: { apply wp_ret, HQ; [lia|done|done|done]. }
  destruct (rep_slot_level _ _ _ _ Hr Hm) as (sd & os & Hsd & Hin).
  destruct (rp_level _ _ Hr _ _ _ Hsd Hin) as [(lv & Hlv & _ & H0 & Hos) Hne Hri Hpr].
  wp_step. apply (wp_load_level _ lv); [done|]. rewrite H0.
  destruct os as [|i0 os]; [done|]. cbn [head]. wp_steps.
  destruct (last (i0 :: os)) as [t|] eqn:Ht; [|by apply last_None in Ht].
  destruct (ring_last _ _ _ _ Hri Ht) as [Hp _].
  assert (Htin : t ∈ i0 :: os) by (by apply last_Some_elem_of).
  destruct (Hos i0) as (o0 & Ho0 & _); [apply list_elem_of_here|].
  destruct (Hos t Htin) as (ot & Hot & _).
  apply (wp_load_order _ o0); [done|].
  unfold pv in Hp. rewrite Ho0 in Hp. cbn in Hp. rewrite Hp. wp_steps.
  apply (wp_load_order _ ot); [done|]. wp_step.
  destruct (rp_order _ _ Hr _ _ Hot) as [_ _ Hpr1 Hpr2]. pose proof (rp_next _ _ Hr).
  rewrite wrapU_small by lia. apply HQ; [lia| | |].
  3: { by exists sd, (i0 :: os), t, ot. }
  - intros sd' l' os' Hsd' Hin' [= <-] x Hx.
    assert (i0 ∈ os' /\ os' = i0 :: os) as [_ ->].
    { assert (sd' = sd) as ->.
      { apply (lr_disjoint _ _ _ _ l (rp_levels _ _ Hr)); try done.
        - apply list_elem_of_fmap. by exists (l, os').
        - apply list_elem_of_fmap. by exists (l, i0 :: os). }
      rewrite (rep_level_fun _ _ _ _ _ _ Hr Hsd Hin' Hin). split; [apply list_elem_of_here|done]. }
    assert (Hlast : last (prios (oh b) (i0 :: os)) = Some (o_priority ot)).
    { unfold prios. rewrite fmap_last, Ht. cbn. by rewrite Hot. }
    pose proof (sorted_last _ _ Hpr Hlast x Hx). lia.
  - intros m Hm1 Hall. specialize (Hall _ _ Hot). lia.
Qed.

(** Where an order of price [price] lands: behind the orders of the level of its
    slot, or alone in a new level. *)
Inductive placed b b' (sd : Side.t) (price i : Z) : side_levels -> side_levels -> Prop :=
  | placed_append (L1 : side_levels) l (os : list Z) (L2 : side_levels) :
      mapPriceToPriceLevel_ b !! priceToIndex price = Some l ->
      placed b b' sd price i (L1 ++ (l, os) :: L2) (L1 ++ (l, os ++ [i]) :: L2)
  | placed_new n (s : side_levels) :
      mapPriceToPriceLevel_ b !! priceToIndex price = None ->
      level_price (lh b') n = price ->
      placed b b' sd price i s
        (insertLevel (fun lv => worse_in (lh b) sd price lv.1) (n, [i]) s).

(** The components an insertion does not touch. *)
Definition added_to b b' i (o : Order) : Prop :=
  mapClientIdToOrder_ b' = <[(o_clientId o, o_clientOrderId o) := i]> (mapClientIdToOrder_ b) /\
  nextMarketOid_ b' = nextMarketOid_ b /\ assignedTicker_ b' = assignedTicker_ b /\
  clientResponse_ b' = clientResponse_ b /\ marketUpdate_ b' = marketUpdate_ b.

Lemma Rep_added b b' ls sd s' i o :
  Rep b ls -> two_sided sd -> oh b !! i = None -> order_ok (nextMarketOid_ b) o ->
  (forall j x, oh b !! j = Some x -> o_marketOrderId x <> o_marketOrderId o) ->
  LRep b' (fun sd' => (upd_side sd s' ls sd').*1) ->
  oh b' ≡ₕ <[i := o]> (oh b) ->
  (forall sd' l os, two_sided sd' -> (l, os) ∈ upd_side sd s' ls sd' ->
     level_rep (lh b') (oh b') sd' l os) ->
  (forall j l os, (l, os) ∈ ls sd -> j ∈ os -> exists l' os', (l', os') ∈ s' /\ j ∈ os') ->
  (exists l os, (l, os) ∈ s' /\ i ∈ os) ->
  added_to b b' i o -> pool_ok (orderPool_ b') -> totalBlocks_ (orderPool_ b') = MAX_ORDER_IDS ->
  Rep b' (upd_side sd s' ls).
Proof.
  intros Hr Hsd Ho Hok Hmo Hlr Hh Hlv Hin Hini (Hcl & Hn & _) Hpok Htot.
  assert (Hback : forall k y, oh b' !! k = Some y ->
            exists x, <[i := o]> (oh b) !! k = Some x /\ unlinked x = unlinked y).
  { intros k y Hk. apply (heap_eq_lookup _ _ _ _ Hh Hk). }
  assert (Hfwd : forall k x, <[i := o]> (oh b) !! k = Some x ->
            exists y, oh b' !! k = Some y /\ unlinked y = unlinked x).
  { intros k x Hk. symmetry in Hh. apply (heap_eq_lookup _ _ _ _ Hh Hk). }
  split; try done.
  - intros j y Hj. destruct (Hback _ _ Hj) as (x & Hx & _).
    apply lookup_insert_Some in Hx as [[<- <-]|[Hji Hx]].
    + destruct Hini as (l & os & ? & ?). exists sd, l, os. by rewrite upd_side_eq.
    + destruct (rp_alive _ _ Hr _ _ Hx) as (sd' & l & os & Hsd' & Hl & Hjo).
      destruct (decide (sd' = sd)) as [->|Hne].
      * destruct (Hin j l os Hl Hjo) as (l' & os' & ? & ?).
        exists sd, l', os'. by rewrite upd_side_eq.
      * exists sd', l, os. by rewrite upd_side_ne.
  - intros c k j. rewrite Hcl, lookup_insert_Some. intros [[[= <- <-] <-]|[Hne Hm]].
    + destruct (Hfwd i o) as (y & Hy & Hu); [by rewrite lookup_insert_eq|].
      apply unlinked_order_eq in Hu as (_ & ? & ? & _). eauto.
    + destruct (rp_client _ _ Hr _ _ _ Hm) as (x & Hx & Hc & Hk).
      destruct (Hfwd j x) as (y & Hy & Hu); [rewrite lookup_insert_ne; [done|congruence]|].
      apply unlinked_order_eq in Hu as (_ & ? & ? & _). exists y. split_and!; congruence.
  - intros j y Hj. destruct (Hback _ _ Hj) as (x & Hx & Hu). rewrite Hn.
    apply (order_ok_unlinked _ x); [done|].
    apply lookup_insert_Some in Hx as [[<- <-]|[Hji Hx]]; [done|]. by apply (rp_order _ _ Hr j).
  - intros j k y z Hj Hk Hyz. destruct (Hback _ _ Hj) as (x & Hx & Hu).
    destruct (Hback _ _ Hk) as (w & Hw & Hv).
    apply unlinked_order_eq in Hu as (_ & _ & _ & Hu & _).
    apply unlinked_order_eq in Hv as (_ & _ & _ & Hv & _).
    apply lookup_insert_Some in Hx as [[<- <-]|[Hji Hx]];
      apply lookup_insert_Some in Hw as [[<- <-]|[Hki Hw]]; try done.
    + destruct (Hmo _ _ Hw). congruence.
    + destruct (Hmo _ _ Hx). congruence.
    + apply (rp_moid _ _ Hr j k x w); congruence.
  - rewrite Hn. apply (rp_next _ _ Hr).
Qed.

Lemma priceToIndex_range price : 0 <= priceToIndex price < MAX_PRICE_LEVELS.
Proof. unfold priceToIndex. by apply Z.mod_pos_bound. Qed.

Lemma size_list_to_set_le (l : list Z) : (size (list_to_set l : gset Z) <= length l)%nat.
Proof.
  induction l as [|x l IH]; [by rewrite list_to_set_nil, size_empty|].
  cbn. rewrite size_union_alt, size_singleton.
  assert (size (list_to_set l ∖ {[x]} : gset Z) <= size (list_to_set l : gset Z))%nat
    by (apply subseteq_size; set_solver). lia.
Qed.

(** A free slot leaves room for one more level. *)
Lemma level_pool_room b lids price :
  LRep b lids -> mapPriceToPriceLevel_ b !! priceToIndex price = None ->
  0 < freeBlocksCount_ (ordersAtPricePool_ b).
Proof.
  intros Hr Hm. pose proof (lr_pool _ _ Hr) as Hok. rewrite (ok_count _ Hok), (lr_total _ _ Hr).
  set (f := fun k => mapPriceToPriceLevel_ b !! k).
  set (keys := seqZ 0 MAX_PRICE_LEVELS).
  pose proof (priceToIndex_range price) as Hk.
  assert (Hin : priceToIndex price ∈ keys) by (apply elem_of_seqZ; lia).
  apply list_elem_of_split in Hin as (k1 & k2 & Hkeys).
  assert (Hlen : (length (k1 ++ k2) < Z.to_nat MAX_PRICE_LEVELS)%nat).
  { assert (Hl : length keys = Z.to_nat MAX_PRICE_LEVELS) by apply length_seqZ.
    rewrite Hkeys, length_app in Hl. rewrite length_app. cbn [length] in Hl. lia. }
  assert (Hsub : dom (lh b) ⊆ (list_to_set (omap f (k1 ++ k2)) : gset Z)).
  { intros l [lv Hl]%elem_of_dom. apply elem_of_list_to_set, list_elem_of_omap.
    assert (Hs : f (priceToIndex (l_price lv)) = Some l) by (apply (lr_map _ _ Hr); eauto).
    exists (priceToIndex (l_price lv)). split; [|done].
    assert (Hin : priceToIndex (l_price lv) ∈ keys)
      by (apply elem_of_seqZ; pose proof (priceToIndex_range (l_price lv)); lia).
    rewrite Hkeys in Hin. apply elem_of_app in Hin as [Hin|Hin]; [set_solver|].
    apply elem_of_cons in Hin as [Hin|Hin]; [|set_solver].
    unfold f in Hs. rewrite Hin in Hs. congruence. }
  apply subseteq_size in Hsub. rewrite size_dom in Hsub.
  pose proof size_list_to_set_le as Hle.
  specialize (Hle (omap f (k1 ++ k2))).
  assert (Hom : forall l : list Z, (length (omap f l) <= length l)%nat).
  { induction l as [|x l IH]; cbn; [lia|]. destruct (f x); cbn; lia. }
  specialize (Hom (k1 ++ k2)).
  change MAX_PRICE_LEVELS with (Z.of_nat (Z.to_nat MAX_PRICE_LEVELS)). lia.
Qed.

(** Linking [i] between the last and the first order of a circle. *)
Lemma appended_ring (h : gmap Z Order) i o i0 (os : list Z) t h' :
  ring h (i0 :: os) -> last (i0 :: os) = Some t -> h !! i = None ->
  h' = alter (set_lprev (Some i)) i0 (alter (set_lnext (Some i)) t
         (alter (set_lnext (Some i0)) i (alter (set_lprev (Some t)) i (<[i := o]> h)))) ->
  h' ≡ₕ <[i := o]> h /\ ring h' (i0 :: os ++ [i]) /\
  forall k, k <> i -> k ∉ i0 :: os -> nx h' k = nx h k /\ pv h' k = pv h k.
Proof.
  intros Hri Ht Hi ->.
  assert (Hal : forall x, x ∈ i0 :: os -> x <> i).
  { intros x Hx ->. destruct (ring_alive _ _ _ Hri Hx). congruence. }
  assert (Htin : t ∈ i0 :: os) by (by apply last_Some_elem_of).
  destruct (ring_alive _ _ t Hri Htin) as [tl Htl].
  destruct (ring_alive _ _ i0 Hri) as [il Hil]; [apply list_elem_of_here|].
  assert (t <> i) by (by apply Hal). assert (i0 <> i) by (apply Hal, list_elem_of_here).
  split_and!.
  - by rewrite heap_eq_lprev, heap_eq_lnext, heap_eq_lnext, heap_eq_lprev.
  - apply (ring_insert_end h _ i0 os t i); try done.
    1: { intros Hx. by apply (Hal i Hx). }
    all: intros; unfold nx, pv; rewrite !lookup_alter, ?lookup_insert;
      repeat case_decide; simplify_map_eq; try done.
    all: by match goal with H : ?k ∈ _ |- _ => destruct (Hal k H) end.
  - intros k Hk Hk'. assert (k <> t) by (by intros ->). assert (k <> i0) by (intros ->; set_solver).
    autorewrite with hft_live. rewrite !decide_False by done.
    unfold nx, pv. by rewrite lookup_insert_ne.
Qed.

(** The last statements of addOrderToBook. *)
Lemma wp_map_order b i o o' (Q : unit -> OrderBook -> Prop) :
  oh b !! i = Some o' -> unlinked o' = unlinked o ->
  client_in_range (o_clientId o) (o_clientOrderId o) = true ->
  Q tt (set_clientSlot (o_clientId o) (o_clientOrderId o) (Some i) b) ->
  wp (od ← load_order i;
      require (client_in_range (o_clientId od) (o_clientOrderId od)) OutOfBounds;;
      modify (set_clientSlot (o_clientId od) (o_clientOrderId od) (Some i))) Q b.
Proof.
  intros Ho (_ & Hc & Hk & _)%unlinked_order_eq Hcl HQ.
  wp_step. apply (wp_load_order _ o'); [done|]. wp_step. rewrite Hc, Hk.
  apply wp_require; [done|]. by apply wp_modify.
Qed.

(** Appending to the circle of an existing level. *)
Lemma wp_append_order b ls sd (L1 : side_levels) l (os : list Z) (L2 : side_levels) i o p
    (Q : unit -> OrderBook -> Prop) :
  Rep b ls -> two_sided sd -> ls sd = L1 ++ (l, os) :: L2 -> oh b !! i = None ->
  live p = <[i := o]> (oh b) -> pool_ok p -> totalBlocks_ p = MAX_ORDER_IDS ->
  (forall p', pool_ok p' -> totalBlocks_ p' = MAX_ORDER_IDS -> live p' ≡ₕ <[i := o]> (oh b) ->
     ring (live p') (os ++ [i]) ->
     (forall k, k <> i -> k ∉ os -> nx (live p') k = nx (oh b) k /\ pv (live p') k = pv (oh b) k) ->
     Q tt (set_orderPool p' b)) ->
  wp (lv ← load_level l;
      first ← nonnull (l_order0 lv);
      fo ← load_order first;
      upd_order i (order_set_prev (o_prev fo));;
      upd_order i (order_set_next (Some first));;
      fo ← load_order first;
      last ← nonnull (o_prev fo);
      upd_order last (order_set_next (Some i));;
      upd_order first (order_set_prev (Some i))) Q (set_orderPool p b).
Proof.
  intros Hr Hsd Hls Hi Hlp Hok Htot HQ.
  destruct (rep_split_level _ _ _ _ _ _ _ Hr Hsd Hls) as [[(lv & Hlv & _ & H0 & _) Hne Hri _] _].
  destruct os as [|i0 os]; [done|].
  destruct (last (i0 :: os)) as [t|] eqn:Ht; [|by apply last_None in Ht].
  destruct (appended_ring (oh b) i o i0 os t _ Hri Ht Hi eq_refl) as (Hheap & Hring & Hfr).
  destruct (ring_last _ _ _ _ Hri Ht) as [Hpt _].
  assert (Hal : forall x, x ∈ i0 :: os -> x <> i /\ is_Some (oh b !! x)).
  { intros x Hx. pose proof (ring_alive _ _ _ Hri Hx) as Ha. split; [|done].
    intros ->. destruct Ha. congruence. }
  assert (Htin : t ∈ i0 :: os) by (by apply last_Some_elem_of).
  destruct (Hal i0) as [Hi0 [f Hf]]; [apply list_elem_of_here|].
  destruct (Hal t Htin) as [Hti [ft Hft]].
  assert (Hfp : o_prev f = Some t) by (unfold pv in Hpt; rewrite Hf in Hpt; done).
  assert (Hpi : live p !! i = Some o) by (by rewrite Hlp, lookup_insert_eq).
  wp_step. apply (wp_load_level _ lv); [done|]. rewrite H0. cbn [head]. wp_step. wp_step. wp_step.
  apply (wp_load_order _ f); [bcbn; rewrite Hlp; by rewrite lookup_insert_ne|].
  rewrite Hfp. wp_step. apply wp_upd_order; [bcbn; eauto|]. wp_step.
  apply wp_upd_order; [bcbn; live_simpl; eauto|]. wp_step.
  apply (wp_load_order _ f); [bcbn; live_simpl; rewrite !lookup_alter_ne, Hlp by done;
    by rewrite lookup_insert_ne|].
  rewrite Hfp. wp_step. wp_step. wp_step.
  apply wp_upd_order; [bcbn; live_simpl; rewrite Hlp, lookup_insert_ne by done; eauto|].
  apply wp_upd_order; [bcbn; live_simpl; rewrite Hlp, lookup_insert_ne by done; eauto|].
  apply HQ; bcbn; live_simpl; rewrite ?Hlp; try done.
  - auto using pool_ok_updated.
  - by rewrite !(proj1 (updated_fields _ _ _)).
Qed.

(** What the caller of addOrderToBook provides: a fresh order that fits the
    level of its slot, if there is one. *)
Record addable b ls i (o : Order) p : Prop := {
  ad_side : two_sided (o_side o);
  ad_fresh : oh b !! i = None;
  ad_ok : order_ok (nextMarketOid_ b) o;
  ad_moid j x : oh b !! j = Some x -> o_marketOrderId x <> o_marketOrderId o;
  ad_pool : pool_ok p;
  ad_live : live p = <[i := o]> (oh b);
  ad_total : totalBlocks_ p = MAX_ORDER_IDS;
  ad_fits l : mapPriceToPriceLevel_ b !! priceToIndex (o_price o) = Some l ->
    exists os, (l, os) ∈ ls (o_side o) /\ forall x, x ∈ prios (oh b) os -> x < o_priority o;
}.

Lemma level_rep_appended b ls p p' i o l (os : list Z) :
  Rep b ls -> addable b ls i o p -> level_rep (lh b) (oh b) (o_side o) l os ->
  mapPriceToPriceLevel_ b !! priceToIndex (o_price o) = Some l ->
  (forall x, x ∈ prios (oh b) os -> x < o_priority o) ->
  live p' ≡ₕ <[i := o]> (oh b) -> ring (live p') (os ++ [i]) ->
  level_rep (lh b) (live p') (o_side o) l (os ++ [i]).
Proof.
  intros Hr Had [(lv & Hlv & Hs & H0 & Hos) Hne _ Hpr] Hm Hlt Hh Hring. symmetry in Hh.
  assert (Hni : forall k, k ∈ os -> k <> i).
  { intros k Hk ->. destruct (Hos i Hk) as (x & Hx & _). pose proof (ad_fresh _ _ _ _ _ Had).
    congruence. }
  destruct (heap_eq_lookup _ _ i o Hh) as (oi & Hoi & Hu); [by rewrite lookup_insert_eq|].
  apply unlinked_order_eq in Hu as (_ & _ & _ & _ & Hus & Hup & _ & Hupr).
  split; [|by destruct os|done|].
  - exists lv. split_and!; try done. { by destruct os. }
    intros k [Hk|Hk%list_elem_of_singleton]%elem_of_app; subst.
    + destruct (Hos k Hk) as (x & Hx & Hxs & Hxp).
      destruct (heap_eq_lookup _ _ k x Hh) as (y & Hy & Hu);
        [rewrite lookup_insert_ne; [done|by intros <-; apply (Hni i)]|].
      apply unlinked_order_eq in Hu as (_ & _ & _ & _ & ? & ? & _).
      exists y. split_and!; congruence.
    + exists oi. split_and!; [done|congruence|].
      apply (lr_map _ _ (rp_levels _ _ Hr)) in Hm as (lv' & Hlv' & Hp').
      congruence.
  - assert (He : prios (live p') (os ++ [i]) = prios (oh b) os ++ [o_priority o]).
    { unfold prios. rewrite fmap_app. f_equal; [|cbn; by rewrite Hoi; cbn; rewrite Hupr].
      apply list_fmap_ext. intros j k Hk%list_elem_of_lookup_2. destruct (Hos k Hk) as (x & Hx & _).
      destruct (heap_eq_lookup _ _ k x Hh) as (y & Hy & Hu);
        [rewrite lookup_insert_ne; [done|by intros <-; apply (Hni i)]|].
      apply unlinked_order_eq in Hu as (_ & _ & _ & _ & _ & _ & _ & ?). rewrite Hx, Hy. done. }
    rewrite He. apply StronglySorted_app_2; [|done|by repeat constructor].
    intros x y Hx ->%list_elem_of_singleton. by apply Hlt.
Qed.

Lemma Rep_appended b ls p p' i o (L1 : side_levels) l (os : list Z) (L2 : side_levels) b' :
  Rep b ls -> addable b ls i o p -> ls (o_side o) = L1 ++ (l, os) :: L2 ->
  mapPriceToPriceLevel_ b !! priceToIndex (o_price o) = Some l ->
  (forall x, x ∈ prios (oh b) os -> x < o_priority o) ->
  pool_ok p' -> totalBlocks_ p' = MAX_ORDER_IDS -> live p' ≡ₕ <[i := o]> (oh b) ->
  ring (live p') (os ++ [i]) ->
  (forall k, k <> i -> k ∉ os -> nx (live p') k = nx (oh b) k /\ pv (live p') k = pv (oh b) k) ->
  b' = set_clientSlot (o_clientId o) (o_clientOrderId o) (Some i) (set_orderPool p' b) ->
  Rep b' (upd_side (o_side o) (L1 ++ (l, os ++ [i]) :: L2) ls).
Proof.
  intros Hr Had Hls Hm Hlt Hok Htot Hh Hring Hfr ->.
  pose proof (ad_side _ _ _ _ _ Had) as Hsd. pose proof (ad_fresh _ _ _ _ _ Had) as Hi.
  destruct (rep_split_level _ _ _ _ _ _ _ Hr Hsd Hls) as [Hlev _].
  apply (Rep_added b _ ls (o_side o) _ i o); bcbn; try done; [apply (ad_ok _ _ _ _ _ Had)|apply (ad_moid _ _ _ _ _ Had)| | | |].
  - apply (LRep_fields b); [done|]. eapply LRep_ext; [|apply (rp_levels _ _ Hr)].
    intros sd' _. unfold upd_side. case_decide; subst; [|done]. by rewrite Hls, !fmap_app.
  - intros sd' l' os' Hsd' Hin.
    destruct (replaced_level _ _ _ _ _ _ _ _ _ _ _ Hr Hsd Hsd' Hls Hin)
      as [(-> & -> & ->)|[Hin' Hne']].
    + by apply (level_rep_appended b ls p).
    + apply (level_rep_other b (set_orderPool p' b) ls (o_side o) l os sd' l' os'); bcbn; try done.
      * rewrite Hls. set_solver.
      * eauto.
      * intros k Hk Hal. assert (k <> i) by (intros ->; destruct Hal; congruence).
        rewrite (Hh k), lookup_insert_ne by done. by destruct (Hfr k) as [-> ->].
  - intros j l' os' Hin Hjo. rewrite Hls in Hin. rewrite elem_of_app, elem_of_cons in Hin.
    destruct Hin as [Hin|[Hin|Hin]].
    + exists l', os'. set_solver.
    + injection Hin as -> ->. exists l, (os ++ [i]). set_solver.
    + exists l', os'. set_solver.
  - exists l, (os ++ [i]). set_solver.
Qed.

(** A new level holding one order. *)
Lemma wp_first_order b ls i o p (Q : unit -> OrderBook -> Prop) :
  Rep b ls -> two_sided (o_side o) -> oh b !! i = None ->
  live p = <[i := o]> (oh b) -> pool_ok p -> totalBlocks_ p = MAX_ORDER_IDS ->
  mapPriceToPriceLevel_ b !! priceToIndex (o_price o) = None ->
  (forall b' n lv, LRep b' (upd_side (o_side o) (insertLevel (worse_in (lh b) (o_side o) (o_price o)) n
       (ls (o_side o)).*1) (fun sd => (ls sd).*1)) ->
     lh b !! n = None -> lh b' ≡ₕ <[n := lv]> (lh b) ->
     lv = mkLevel (o_side o) (o_price o) (Some i) None None ->
     oh b' ≡ₕ <[i := o]> (oh b) -> ring (oh b') [i] ->
     (forall k, k <> i -> nx (oh b') k = nx (oh b) k /\ pv (oh b') k = pv (oh b) k) ->
     pool_ok (orderPool_ b') -> totalBlocks_ (orderPool_ b') = MAX_ORDER_IDS ->
     mapClientIdToOrder_ b' = mapClientIdToOrder_ b ->
     nextMarketOid_ b' = nextMarketOid_ b /\ assignedTicker_ b' = assignedTicker_ b /\
     clientResponse_ b' = clientResponse_ b /\ marketUpdate_ b' = marketUpdate_ b -> Q tt b') ->
  wp (upd_order i (order_set_prev (Some i));;
      upd_order i (order_set_next (Some i));;
      newLevel ← zoom ordersAtPricePool_ set_levelPool
                   (allocate (mkLevel (o_side o) (o_price o) (Some i) None None));
      n ← nonnull newLevel;
      addPriceLevel n) Q (set_orderPool p b).
Proof.
  intros Hr Hsd Hi Hlp Hok Htot Hm HQ.
  assert (Hpi : live p !! i = Some o) by (by rewrite Hlp, lookup_insert_eq).
  wp_step. apply wp_upd_order; [bcbn; eauto|]. wp_step.
  apply wp_upd_order; [bcbn; live_simpl; eauto|]. bcbn.
  set (p2 := updated i (order_set_next (Some i)) (updated i (order_set_prev (Some i)) p)).
  set (b1 := set_orderPool p2 b).
  assert (Hl2 : live p2 = alter (set_lnext (Some i)) i (alter (set_lprev (Some i)) i (<[i := o]> (oh b))))
    by (unfold p2; live_simpl; by rewrite Hlp).
  assert (Hlr1 : LRep b1 (fun sd => (ls sd).*1)) by (apply (LRep_fields b), (rp_levels _ _ Hr); done).
  pose proof (level_pool_room _ _ _ Hlr1 Hm) as Hroom.
  set (nv := mkLevel (o_side o) (o_price o) (Some i) None None).
  wp_step. apply (wp_alloc_level nv _ b1 (lr_pool _ _ Hlr1) Hroom).
  intros n lp' Hlok Hnone Hlive Hlt. wp_step. wp_step.
  apply (wp_addPriceLevel b1 (fun sd => (ls sd).*1) n nv lp'); try done.
  { rewrite Hlt. apply (lr_total _ _ Hlr1). }
  intros b' Hlr' Hlh' (Hop & Hcl & Hrest).
  apply (HQ b' n nv); rewrite ?Hop; try done.
  - change (orderPool_ b1) with p2. rewrite Hl2. by rewrite heap_eq_lnext, heap_eq_lprev.
  - change (orderPool_ b1) with p2. rewrite Hl2. split; [apply NoDup_singleton|].
    intros x y [= -> ->]%list_elem_of_singleton. unfold nx, pv.
    rewrite !lookup_alter, lookup_insert. by repeat case_decide.
  - change (orderPool_ b1) with p2. rewrite Hl2. intros k Hk. autorewrite with hft_live.
    rewrite !decide_False by done. unfold nx, pv. by rewrite lookup_insert_ne.
  - unfold b1, p2. bcbn. auto using pool_ok_updated.
  - unfold b1, p2. bcbn. by rewrite !(proj1 (updated_fields _ _ _)).
Qed.

Lemma elem_of_insertLevel {A} (wr : A -> bool) (n : A) (s : list A) (x : A) :
  x ∈ insertLevel wr n s <-> x = n \/ x ∈ s.
Proof. rewrite insertLevel_perm. by rewrite elem_of_cons. Qed.

Lemma Rep_first b b1 b' ls i o p n lv :
  Rep b ls -> addable b ls i o p ->
  LRep b1 (upd_side (o_side o) (insertLevel (worse_in (lh b) (o_side o) (o_price o)) n
       (ls (o_side o)).*1) (fun sd => (ls sd).*1)) ->
  lh b !! n = None -> lh b1 ≡ₕ <[n := lv]> (lh b) ->
  lv = mkLevel (o_side o) (o_price o) (Some i) None None ->
  oh b1 ≡ₕ <[i := o]> (oh b) -> ring (oh b1) [i] ->
  (forall k, k <> i -> nx (oh b1) k = nx (oh b) k /\ pv (oh b1) k = pv (oh b) k) ->
  pool_ok (orderPool_ b1) -> totalBlocks_ (orderPool_ b1) = MAX_ORDER_IDS ->
  b' = set_clientSlot (o_clientId o) (o_clientOrderId o) (Some i) b1 ->
  added_to b b' i o ->
  Rep b' (upd_side (o_side o)
    (insertLevel (fun lv => worse_in (lh b) (o_side o) (o_price o) lv.1) (n, [i]) (ls (o_side o))) ls).
Proof.
  intros Hr Had Hlr Hn Hlh -> Hh Hring Hfr Hok Htot -> Hadd.
  pose proof Had as [Hsd Hi Hok0 Hmo _ _ _ _].
  apply (Rep_added b _ ls (o_side o) _ i o); bcbn; try done.
  - apply (LRep_fields b1); [done|]. eapply LRep_ext; [|exact Hlr]. intros sd' _.
    unfold upd_side. case_decide; subst; [|done].
    by rewrite <- (insertLevel_fmap fst _ (n, [i])).
  - intros sd' l' os' Hsd' Hin.
    assert (Hc : sd' = o_side o /\ l' = n /\ os' = [i] \/ (l', os') ∈ ls sd').
    { unfold upd_side in Hin. case_decide; [|by right]. subst.
      apply elem_of_insertLevel in Hin as [Hin|Hin]; [left; by simplify_eq|by right]. }
    symmetry in Hlh, Hh.
    destruct Hc as [(-> & -> & ->)|Hin'].
    + destruct (level_heap_eq _ _ n (mkLevel (o_side o) (o_price o) (Some i) None None) Hlh)
        as (lv' & Hlv' & ? & Hp' & ?); [by rewrite lookup_insert_eq|].
      destruct (heap_eq_lookup _ _ i o Hh) as (oi & Hoi & Hu); [by rewrite lookup_insert_eq|].
      apply unlinked_order_eq in Hu as (_ & _ & _ & _ & ? & ? & _).
      split; [|done|done|by repeat constructor].
      exists lv'. split_and!; try done. intros k ->%list_elem_of_singleton.
      exists oi. split_and!; [done|congruence|]. rewrite Hp'. cbn. congruence.
    + pose proof (rp_level _ _ Hr _ _ _ Hsd' Hin') as Hlev.
      pose proof Hlev as [(w & Hw & _ & _ & Hos) _ _ _].
      apply (level_rep_frame (lh b) (oh b)); [done| |].
      * intros v Hv. apply (level_heap_eq _ _ _ v Hlh). rewrite lookup_insert_ne; [done|congruence].
      * intros k Hk. destruct (Hos k Hk) as (x & Hx & _). assert (k <> i) by congruence.
        rewrite <- (Hh k), lookup_insert_ne by done. by destruct (Hfr k) as [-> ->].
  - intros j l' os' Hin Hjo. exists l', os'. split; [|done]. apply elem_of_insertLevel. by right.
  - exists n, [i]. split; [|by apply list_elem_of_singleton]. apply elem_of_insertLevel. by left.
Qed.

(** Appending to the level of the order's slot, whichever side the level is on. *)
Lemma wp_join_level b ls sd (L1 : side_levels) l (os : list Z) (L2 : side_levels) i o p
    (Q : unit -> OrderBook -> Prop) :
  Rep b ls -> two_sided sd -> ls sd = L1 ++ (l, os) :: L2 ->
  mapPriceToPriceLevel_ b !! priceToIndex (o_price o) = Some l -> oh b !! i = None ->
  live p = <[i := o]> (oh b) -> pool_ok p -> totalBlocks_ p = MAX_ORDER_IDS ->
  client_in_range (o_clientId o) (o_clientOrderId o) = true ->
  (forall p', pool_ok p' -> totalBlocks_ p' = MAX_ORDER_IDS -> live p' ≡ₕ <[i := o]> (oh b) ->
     ring (live p') (os ++ [i]) ->
     (forall k, k <> i -> k ∉ os -> nx (live p') k = nx (oh b) k /\ pv (live p') k = pv (oh b) k) ->
     Q tt (set_clientSlot (o_clientId o) (o_clientOrderId o) (Some i) (set_orderPool p' b))) ->
  wp (addOrderToBook i) Q (set_orderPool p b).
Proof.
  intros Hr Hsd Hls Hm Hi Hlp Hok Htot Hcl HQ. unfold addOrderToBook. wp_step.
  apply (wp_load_order _ o); [change (live p !! i = Some o); by rewrite Hlp, lookup_insert_eq|].
  wp_step. wp_step. wp_step.
  change (getLevelForPrice (set_orderPool p b) (o_price o)) with
    (mapPriceToPriceLevel_ b !! priceToIndex (o_price o)). rewrite Hm.
  apply (wp_append_order b ls sd L1 l os L2 i o p); try done. intros p' Hok' Htot' Hh Hring Hfr.
  symmetry in Hh. destruct (heap_eq_lookup _ _ i o Hh) as (o' & Ho' & Hu); [by rewrite lookup_insert_eq|].
  apply (wp_map_order _ i o o'); [done|done|done|]. by apply HQ.
Qed.

Lemma wp_addOrderToBook b ls i o p (Q : unit -> OrderBook -> Prop) :
  Rep b ls -> addable b ls i o p ->
  (forall b' s', Rep b' (upd_side (o_side o) s' ls) ->
     placed b b' (o_side o) (o_price o) i (ls (o_side o)) s' ->
     oh b' ≡ₕ <[i := o]> (oh b) -> added_to b b' i o -> prices_kept b b' -> Q tt b') ->
  wp (addOrderToBook i) Q (set_orderPool p b).
Proof.
  intros Hr Had HQ. pose proof Had as [Hsd Hi Hok0 Hmo Hok Hlp Htot Hfits].
  destruct (mapPriceToPriceLevel_ b !! priceToIndex (o_price o)) as [l|] eqn:Hm.
  - destruct (Hfits l eq_refl) as (os & Hin & Hlt).
    apply list_elem_of_split in Hin as (L1 & L2 & Hls).
    apply (wp_join_level b ls (o_side o) L1 l os L2 i o p); try done; [apply (oo_client _ _ Hok0)|].
    intros p' Hok' Htot' Hh Hring Hfr.
    apply (HQ _ (L1 ++ (l, os ++ [i]) :: L2)); [|rewrite Hls; by constructor|done|done|].
    2: { by intros k [v Hv] _. }
    by apply (Rep_appended b ls p p' i o L1 l os L2).
  - unfold addOrderToBook. wp_step.
    apply (wp_load_order _ o); [change (live p !! i = Some o); by rewrite Hlp, lookup_insert_eq|].
    wp_step. wp_step. wp_step.
    change (getLevelForPrice (set_orderPool p b) (o_price o)) with
      (mapPriceToPriceLevel_ b !! priceToIndex (o_price o)). rewrite Hm.
    apply (wp_first_order b ls i o p); try done.
    intros b1 n lv Hlr Hn Hlh Hlv Hh Hring Hfr Hok1 Htot1 Hcl Hrest.
    pose proof Hh as Hh'. symmetry in Hh'.
    destruct (heap_eq_lookup _ _ i o Hh') as (o' & Ho' & Hu); [by rewrite lookup_insert_eq|].
    apply (wp_map_order _ i o o'); [done|done|apply (oo_client _ _ Hok0)|].
    assert (Hadd : added_to b (set_clientSlot (o_clientId o) (o_clientOrderId o) (Some i) b1) i o)
      by (unfold added_to; bcbn; by rewrite Hcl).
    symmetry in Hlh. destruct (level_heap_eq _ _ n lv Hlh) as (lv' & Hlv' & _ & Hp' & _);
      [by rewrite lookup_insert_eq|]. symmetry in Hlh.
    eapply HQ; [|apply (placed_new _ _ _ _ _ n); [done|]|done|done|].
    2: { unfold level_price. bcbn. rewrite Hlv'. cbn. by rewrite Hp', Hlv. }
    2: { apply (prices_kept_heap b _ (<[n := lv]> (lh b))); [done|]. intros k v w Hv.
         rewrite lookup_insert_ne by congruence. congruence. }
    by apply (Rep_first b b1 _ ls i o p n lv).
Qed.

(** Storing an order of a client beyond the map, after it was linked. *)
Lemma addOrderToBook_unknown_client b ls i o p :
  Rep b ls -> two_sided (o_side o) -> oh b !! i = None ->
  live p = <[i := o]> (oh b) -> pool_ok p -> totalBlocks_ p = MAX_ORDER_IDS ->
  client_in_range (o_clientId o) (o_clientOrderId o) = false ->
  faults (addOrderToBook i) (set_orderPool p b) OutOfBounds.
Proof.
  intros Hr Hsd Hi Hlp Hok Htot Hcl.
  assert (Hmap : forall b1, oh b1 ≡ₕ <[i := o]> (oh b) ->
    faults (od ← load_order i;
      require (client_in_range (o_clientId od) (o_clientOrderId od)) OutOfBounds;;
      modify (set_clientSlot (o_clientId od) (o_clientOrderId od) (Some i))) b1 OutOfBounds).
  { intros b1 Hh. symmetry in Hh. destruct (heap_eq_lookup _ _ i o Hh) as (o' & Ho' & Hu);
      [by rewrite lookup_insert_eq|]. apply unlinked_order_eq in Hu as (_ & Hc & Hk & _).
    apply faults_bind, (wp_load_order _ o'); [done|]. rewrite Hc, Hk, Hcl. by apply faults_bind_l. }
  unfold addOrderToBook. apply faults_bind, (wp_load_order _ o).
  { change (live p !! i = Some o). by rewrite Hlp, lookup_insert_eq. }
  apply faults_bind, wp_get.
  change (getLevelForPrice (set_orderPool p b) (o_price o)) with
    (mapPriceToPriceLevel_ b !! priceToIndex (o_price o)).
  destruct (mapPriceToPriceLevel_ b !! priceToIndex (o_price o)) as [l|] eqn:Hm; apply faults_bind.
  - destruct (rep_slot_level b ls _ l Hr Hm) as (sd & os & Hsd' & Hin).
    apply list_elem_of_split in Hin as (L1 & L2 & Hls).
    apply (wp_append_order b ls sd L1 l os L2 i o p); try done. intros p' _ _ Hh _ _. by apply Hmap.
  - apply (wp_first_order b ls i o p); try done. intros b1 n lv _ _ _ _ Hh _ _ _ _ _ _. by apply Hmap.
Qed.

End Rep.
