(* ===== verification/BookSpec.v ===== *)
(** The order book implements the reference model of BookModel.v.

    [VRep b ls a]: the book [b], whose level lists are [ls], shows the abstract
    book [a].  Each operation of order_book.cpp is simulated by the operation of
    the model with the same name. *)

From stdpp Require Import sorting.
From S2P Require Import Prelude MemoryPool Types Messages Ring Orders OrderBook BookLevels BookModel BookRep.
#[local] Open Scope Z_scope.
#[local] Open Scope hft_scope.

Definition odata (b : OrderBook) (os : list Z) : list Order := omap (fun i => unlinked <$> oh b !! i) os.
Definition absl (b : OrderBook) (s : side_levels) : list level :=
  (fun lv => (level_price (lh b) lv.1, odata b lv.2)) <$> s.
Definition client_moids (b : OrderBook) : gmap (Z * Z) Z :=
  omap (fun i => o_marketOrderId <$> oh b !! i) (mapClientIdToOrder_ b).

Record VRep b (ls : Side.t -> side_levels) (a : ABook) : Prop := {
  vr_rep : Rep b ls;
  vr_side sd : two_sided sd -> a_side sd a = absl b (ls sd);
  vr_clients : a_clients a = client_moids b;
  vr_next : a_next a = nextMarketOid_ b;
}.
(** Between calls every resting order has a quantity left. *)
Definition positive (b : OrderBook) : Prop := forall i o, oh b !! i = Some o -> 0 < o_qty o.
Definition View (b : OrderBook) (a : ABook) : Prop := exists ls, VRep b ls a /\ positive b.

Section Spec.
Implicit Types (b : OrderBook) (ls : Side.t -> side_levels) (a : ABook).

Lemma odata_app b os1 os2 : odata b (os1 ++ os2) = odata b os1 ++ odata b os2.
Proof. apply omap_app. Qed.
Lemma odata_cons b i (os : list Z) o : oh b !! i = Some o -> odata b (i :: os) = unlinked o :: odata b os.
Proof. intros Ho. unfold odata. cbn. by rewrite Ho. Qed.

Lemma odata_ext b b' (os : list Z) :
  (forall i, i ∈ os -> unlinked <$> oh b' !! i = unlinked <$> oh b !! i) -> odata b' os = odata b os.
Proof.
  intros He. induction os as [|i os IH]; [done|]. unfold odata in *. cbn.
  rewrite He by apply list_elem_of_here. rewrite IH; [done|].
  intros j Hj. apply He. by apply list_elem_of_further.
Qed.

Lemma absl_ext b b' (s : side_levels) :
  (forall l os, (l, os) ∈ s -> level_price (lh b') l = level_price (lh b) l /\
     forall i, i ∈ os -> unlinked <$> oh b' !! i = unlinked <$> oh b !! i) ->
  absl b' s = absl b s.
Proof.
  intros He. unfold absl. apply list_fmap_ext. intros k [l os] Hk%list_elem_of_lookup_2.
  destruct (He l os Hk) as [Hp Ho]. cbn. rewrite Hp. f_equal. by apply odata_ext.
Qed.

(** Every order of a level of the book is alive. *)
Lemma rep_alive_in b ls sd l (os : list Z) :
  Rep b ls -> two_sided sd -> (l, os) ∈ ls sd ->
  is_Some (lh b !! l) /\ forall i, i ∈ os -> exists o, oh b !! i = Some o /\ o_side o = sd.
Proof.
  intros Hr Hsd Hin. destruct (rp_level _ _ Hr _ _ _ Hsd Hin) as [(lv & Hlv & _ & _ & Hos) _ _ _].
  split; [eauto|]. intros i Hi. destruct (Hos i Hi) as (o & ? & ? & _). eauto.
Qed.

Lemma odata_nil b (os : list Z) :
  (forall i, i ∈ os -> exists o, oh b !! i = Some o) -> odata b os = [] -> os = [].
Proof.
  destruct os as [|i os]; [done|]. intros Hal. destruct (Hal i) as [o Ho]; [apply list_elem_of_here|].
  by rewrite (odata_cons _ _ _ _ Ho).
Qed.

Lemma absl_level_or_none b l (os : list Z) :
  (forall i, i ∈ os -> exists o, oh b !! i = Some o) ->
  absl b (level_or_none l os) = pop_level (level_price (lh b) l) (odata b os).
Proof.
  intros Hal. destruct os as [|i os]; [done|]. destruct (Hal i) as [o Ho]; [apply list_elem_of_here|].
  change (absl b (level_or_none l (i :: os))) with [(level_price (lh b) l, odata b (i :: os))].
  by rewrite (odata_cons _ _ _ _ Ho).
Qed.

(** ** Reading the best level *)
Lemma vr_empty b ls a sd :
  VRep b ls a -> two_sided sd -> a_side sd a = [] -> bestOrdersByPrice sd b = None.
Proof.
  intros Hv Hsd Ha. rewrite (lr_best _ _ (rp_levels _ _ (vr_rep _ _ _ Hv))) by done.
  rewrite (vr_side _ _ _ Hv) in Ha by done. by destruct (ls sd).
Qed.

Lemma vr_nonempty b ls a sd p os :
  VRep b ls a -> two_sided sd -> (p, os) ∈ a_side sd a -> os <> [].
Proof.
  intros Hv Hsd Hin. rewrite (vr_side _ _ _ Hv) in Hin by done.
  apply list_elem_of_fmap in Hin as ([l js] & [= -> ->] & Hin).
  pose proof (rp_level _ _ (vr_rep _ _ _ Hv) _ _ _ Hsd Hin) as Hl. intros Hn.
  apply (lp_nonempty _ _ _ _ _ Hl). apply (odata_nil b); [|done].
  intros i Hi. destruct (rep_alive_in _ _ _ _ _ (vr_rep _ _ _ Hv) Hsd Hin) as [_ H].
  destruct (H i Hi) as (o & ? & _). eauto.
Qed.

Lemma vr_head b ls a sd p o os s :
  VRep b ls a -> two_sided sd -> a_side sd a = (p, o :: os) :: s ->
  exists l i o2 L2 oc lv, ls sd = (l, i :: o2) :: L2 /\ oh b !! i = Some oc /\ unlinked oc = o /\
    lh b !! l = Some lv /\ l_order0 lv = Some i /\ bestOrdersByPrice sd b = Some l /\
    level_price (lh b) l = p /\ odata b o2 = os /\ absl b L2 = s.
Proof.
  intros Hv Hsd Ha. pose proof (vr_rep _ _ _ Hv) as Hr.
  pose proof (lr_best _ _ (rp_levels _ _ Hr) _ Hsd) as Hbest.
  rewrite (vr_side _ _ _ Hv) in Ha by done.
  destruct (ls sd) as [|[l js] L2] eqn:Els; [done|]. change (absl b ((l, js) :: L2)) with
    ((level_price (lh b) l, odata b js) :: absl b L2) in Ha.
  injection Ha as Hp Hos Hs. assert (Hin : (l, js) ∈ ls sd) by (rewrite Els; apply list_elem_of_here).
  destruct (rp_level _ _ Hr _ _ _ Hsd Hin) as [(lv & Hlv & _ & H0 & Hal) Hne _ _].
  destruct js as [|i js]; [done|].
  destruct (Hal i) as (oc & Hoc & _); [apply list_elem_of_here|].
  rewrite (odata_cons _ _ _ _ Hoc) in Hos. injection Hos as Hu Hos.
  exists l, i, js, L2, oc, lv. split_and!; try done. by rewrite Hbest, Els.
Qed.

(** ** The view after a removal *)
Lemma client_moids_removed b b' ls i o :
  Rep b ls -> oh b !! i = Some o -> oh b' ≡ₕ delete i (oh b) -> removed_from b b' o ->
  client_moids b' = delete (client_key o) (client_moids b).
Proof.
  intros Hr Ho Hh (Hm & _). unfold client_moids. rewrite Hm. apply map_eq. intros k.
  rewrite lookup_omap, !lookup_delete. unfold client_key. case_decide as Hk; [done|].
  rewrite lookup_omap. destruct (mapClientIdToOrder_ b !! k) as [j|] eqn:Hj; [|done]. cbn.
  assert (Hji : j <> i).
  { intros ->. destruct k as [c w]. destruct (rp_client _ _ Hr _ _ _ Hj) as (x & Hx & Hc & Hw).
    apply Hk. congruence. }
  specialize (Hh j). rewrite lookup_delete_ne in Hh by done.
  destruct (oh b' !! j), (oh b !! j); cbn in *; try done.
  apply (inj Some) in Hh. by apply unlinked_order_eq in Hh as (_ & _ & _ & -> & _).
Qed.

(** A book whose order [i] is gone shows the same remaining orders. *)
Lemma absl_removed b b' ls ls' sd (s : side_levels) i :
  Rep b ls -> Rep b' ls' -> two_sided sd -> oh b' ≡ₕ delete i (oh b) -> prices_kept b b' ->
  (forall l os, (l, os) ∈ s -> (l, os) ∈ ls' sd) ->
  (forall l os, (l, os) ∈ s -> is_Some (lh b !! l)) -> absl b' s = absl b s.
Proof.
  intros Hr Hr' Hsd Hh Hp Hin' Hin. apply absl_ext. intros l os Hl.
  destruct (rep_alive_in _ _ _ _ _ Hr' Hsd (Hin' _ _ Hl)) as [Hll Hal]. split.
  - apply Hp; [|done]. by apply (Hin l os).
  - intros j Hj. destruct (Hal j Hj) as (x & Hx & _).
    assert (Hji : j <> i).
    { intros ->. destruct (heap_eq_lookup _ _ _ _ Hh Hx) as (y & Hy & _).
      by rewrite lookup_delete_eq in Hy. }
    by rewrite (Hh j), lookup_delete_ne.
Qed.

Lemma VRep_removed b b' ls a sd (L1 : side_levels) l (o1 : list Z) i (o2 : list Z)
    (L2 : side_levels) o :
  VRep b ls a -> two_sided sd -> ls sd = L1 ++ (l, o1 ++ i :: o2) :: L2 -> oh b !! i = Some o ->
  Rep b' (upd_side sd (L1 ++ level_or_none l (o1 ++ o2) ++ L2) ls) ->
  oh b' ≡ₕ delete i (oh b) -> removed_from b b' o -> prices_kept b b' ->
  VRep b' (upd_side sd (L1 ++ level_or_none l (o1 ++ o2) ++ L2) ls)
    (set_a_clients (delete (client_key o) (a_clients a))
      (set_a_side sd (absl b L1 ++ pop_level (level_price (lh b) l) (odata b o1 ++ odata b o2) ++
                      absl b L2) a)).
Proof.
  intros Hv Hsd Hls Ho Hr' Hh Hrem Hp. pose proof (vr_rep _ _ _ Hv) as Hr.
  assert (Hlin : (l, o1 ++ i :: o2) ∈ ls sd) by (rewrite Hls; set_solver).
  split; [done| | |].
  - intros sd' Hsd'. destruct (decide (sd' = sd)) as [->|Hne].
    + rewrite upd_side_eq.
      assert (He : absl b' (L1 ++ level_or_none l (o1 ++ o2) ++ L2) =
                   absl b (L1 ++ level_or_none l (o1 ++ o2) ++ L2)).
      { apply (absl_removed b b' ls _ sd _ i Hr Hr'); try done.
        - by rewrite upd_side_eq.
        - intros l' os' Hin. rewrite !elem_of_app in Hin.
          assert (Hin' : exists os, (l', os) ∈ ls sd).
          { rewrite Hls. destruct Hin as [?|[Hin|?]]; [set_solver| |set_solver].
            destruct (o1 ++ o2); [set_solver|]. apply list_elem_of_singleton in Hin.
            injection Hin as -> ->. set_solver. }
          destruct Hin' as [os Hin']. by apply (rep_alive_in _ _ _ _ _ Hr Hsd Hin'). }
      rewrite He. unfold absl. rewrite !fmap_app. fold (absl b (level_or_none l (o1 ++ o2))).
      rewrite absl_level_or_none, odata_app.
      2: { intros j Hj. destruct (rep_alive_in _ _ _ _ _ Hr Hsd Hlin) as [_ H].
           destruct (H j) as (? & ? & _); [set_solver|eauto]. }
      destruct Hsd as [->| ->]; done.
    + rewrite upd_side_ne by done.
      rewrite (absl_removed b b' ls _ sd' _ i Hr Hr'); try done.
      2: { intros ???. by rewrite upd_side_ne. }
      2: { intros ?? Hin. by apply (rep_alive_in _ _ _ _ _ Hr Hsd' Hin). }
      rewrite <- (vr_side _ _ _ Hv) by done.
      destruct Hsd as [->| ->], Hsd' as [->| ->]; done.
  - cbn. rewrite (vr_clients _ _ _ Hv). symmetry. by apply (client_moids_removed b b' ls i).
  - destruct Hrem as (_ & Hn & _). rewrite Hn, <- (vr_next _ _ _ Hv).
    destruct Hsd as [->| ->]; done.
Qed.

(** ** The view after a fill *)
Lemma alter_qty_lookup (h : gmap Z Order) i q k x :
  alter (order_set_qty q) i h !! k = Some x ->
  exists y, h !! k = Some y /\ x = (if decide (i = k) then order_set_qty q y else y).
Proof.
  rewrite lookup_alter. case_decide; subst; [|by eauto].
  destruct (h !! k) as [y|]; [|done]. intros [= <-]. eauto.
Qed.

Lemma level_rep_qty hl (h : gmap Z Order) sd l os i q :
  level_rep hl h sd l os -> level_rep hl (alter (order_set_qty q) i h) sd l os.
Proof.
  intros [(lv & Hl & Hs & H0 & Hos) Hne Hri Hpr]. split; try done.
  - exists lv. split_and!; try done. intros k Hk. destruct (Hos k Hk) as (o & Ho & ? & ?).
    rewrite lookup_alter. case_decide; subst; [|by eauto]. rewrite Ho. eauto.
  - apply (ring_frame h); [|done]. intros x _. unfold nx, pv. rewrite lookup_alter.
    case_decide; subst; [|done]. by destruct (h !! x).
  - replace (prios (alter (order_set_qty q) i h) os) with (prios h os); [done|].
    unfold prios. apply list_fmap_ext. intros j k _. rewrite lookup_alter.
    case_decide; subst; [|done]. by destruct (h !! k).
Qed.

Lemma Rep_qty b ls i q :
  Rep b ls -> 0 <= q < 2 ^ 32 ->
  Rep (set_orderPool (updated i (order_set_qty q) (orderPool_ b)) b) ls.
Proof.
  intros [H1 H2 H3 H4 H5 H6 H7 H8 H9] Hq.
  split; bcbn; rewrite ?live_updated; try done.
  - by apply (LRep_fields b).
  - intros. apply level_rep_qty. by apply H2.
  - intros j o (y & Hy & _)%alter_qty_lookup. by apply (H3 j y).
  - intros c k j Hm. destruct (H4 c k j Hm) as (o & Ho & ? & ?). rewrite lookup_alter.
    case_decide; subst; [|by eauto]. rewrite Ho. eauto.
  - intros j o (y & Hy & ->)%alter_qty_lookup. destruct (H5 j y Hy) as [? ? ? ?].
    case_decide; by split.
  - intros j k x y (x' & Hx & ->)%alter_qty_lookup (y' & Hy & ->)%alter_qty_lookup Hm.
    apply (H6 j k x' y'); try done. by repeat case_decide.
  - by apply pool_ok_updated.
  - by rewrite (proj1 (updated_fields _ _ _)).
Qed.

Lemma set_a_side_eq sd s a : two_sided sd -> a_side sd (set_a_side sd s a) = s.
Proof. by intros [->| ->]. Qed.
Lemma set_a_side_ne sd sd' s a :
  two_sided sd -> two_sided sd' -> sd' <> sd -> a_side sd' (set_a_side sd s a) = a_side sd' a.
Proof. by intros [->| ->] [->| ->]. Qed.
Lemma a_clients_set_a_side sd s a : a_clients (set_a_side sd s a) = a_clients a.
Proof. unfold set_a_side. by case_decide. Qed.
Lemma a_next_set_a_side sd s a : a_next (set_a_side sd s a) = a_next a.
Proof. unfold set_a_side. by case_decide. Qed.

Lemma VRep_qty b ls a sd l i (o2 : list Z) (L2 : side_levels) oc q :
  VRep b ls a -> two_sided sd -> ls sd = (l, i :: o2) :: L2 -> oh b !! i = Some oc ->
  0 <= q < 2 ^ 32 ->
  VRep (set_orderPool (updated i (order_set_qty q) (orderPool_ b)) b) ls
    (set_a_side sd ((level_price (lh b) l, order_set_qty q (unlinked oc) :: odata b o2) :: absl b L2) a).
Proof.
  intros Hv Hsd Hls Hoc Hq. pose proof (vr_rep _ _ _ Hv) as Hr.
  set (b1 := set_orderPool _ b).
  assert (Hlive : oh b1 = alter (order_set_qty q) i (oh b)) by apply live_updated.
  assert (Hlin : (l, i :: o2) ∈ ls sd) by (rewrite Hls; apply list_elem_of_here).
  assert (Hoth : forall sd' l' os, two_sided sd' -> (l', os) ∈ ls sd' -> l' <> l ->
            odata b1 os = odata b os).
  { intros sd' l' os Hsd' Hin Hne. apply odata_ext. intros j Hj.
    rewrite Hlive, lookup_alter_ne; [done|]. intros <-.
    destruct (rep_order_unique _ _ _ _ _ _ _ _ i Hr Hsd' Hsd Hin Hlin) as (_ & ? & _); try done.
    apply list_elem_of_here. }
  destruct (rep_split_level _ _ _ [] _ _ _ Hr Hsd Hls) as [Hlev Hdist]. cbn [app] in Hdist.
  split; [by apply Rep_qty| | |].
  - intros sd' Hsd'. destruct (decide (sd' = sd)) as [->|Hne].
    + rewrite set_a_side_eq, Hls by done.
      change (absl b1 ((l, i :: o2) :: L2)) with ((level_price (lh b) l, odata b1 (i :: o2)) :: absl b1 L2).
      rewrite (odata_cons b1 i o2 (order_set_qty q oc)) by (by rewrite Hlive, lookup_alter_eq, Hoc).
      f_equal.
      * do 2 f_equal. symmetry. apply odata_ext. intros j Hj. rewrite Hlive, lookup_alter_ne; [done|].
        intros <-. destruct Hlev as [_ _ [Hnd _] _]. apply NoDup_cons in Hnd. set_solver.
      * symmetry. unfold absl. apply list_fmap_ext. intros k [l' os] Hk%list_elem_of_lookup_2.
        cbn. f_equal. apply (Hoth sd l'); [done|rewrite Hls; by apply list_elem_of_further|].
        by apply (Hdist l' os).
    + rewrite set_a_side_ne, (vr_side _ _ _ Hv) by done.
      unfold absl. apply list_fmap_ext. intros k [l' os] Hk%list_elem_of_lookup_2. cbn. f_equal.
      symmetry. apply (Hoth sd' l'); [done|done|]. intros ->. apply Hne.
      apply (lr_disjoint _ _ _ _ l (rp_levels _ _ Hr)); try done.
      * apply list_elem_of_fmap. by exists (l, os).
      * apply list_elem_of_fmap. by exists (l, i :: o2).
  - rewrite a_clients_set_a_side, (vr_clients _ _ _ Hv). unfold client_moids. apply map_eq. intros k.
    rewrite !lookup_omap. change (mapClientIdToOrder_ b1) with (mapClientIdToOrder_ b).
    destruct (mapClientIdToOrder_ b !! k) as [j|]; [|done]. cbn [mbind option_bind].
    rewrite Hlive, lookup_alter. case_decide; subst; [|done]. by rewrite Hoc.
  - by rewrite a_next_set_a_side, (vr_next _ _ _ Hv).
Qed.

(** ** The slot of a price *)
Lemma in_slot_iff b ls sd l (os : list Z) price (data : list Order) :
  Rep b ls -> two_sided sd -> (l, os) ∈ ls sd ->
  in_slot price (level_price (lh b) l, data) = true <->
  mapPriceToPriceLevel_ b !! priceToIndex price = Some l.
Proof.
  intros Hr Hsd Hin. destruct (rep_alive_in _ _ _ _ _ Hr Hsd Hin) as [[lv Hlv] _].
  unfold in_slot, level_price. rewrite Hlv, (lr_map _ _ (rp_levels _ _ Hr)). cbn.
  rewrite Z.eqb_eq. split; [eauto|]. intros (lv' & Hlv' & Hp). by rewrite Hlv in Hlv'; simplify_eq.
Qed.

Lemma slot_free b ls a sd price :
  VRep b ls a -> two_sided sd -> mapPriceToPriceLevel_ b !! priceToIndex price = None ->
  forall lv, lv ∈ a_side sd a -> in_slot price lv = false.
Proof.
  intros Hv Hsd Hm lv Hin. rewrite (vr_side _ _ _ Hv) in Hin by done.
  apply list_elem_of_fmap in Hin as ([l os] & -> & Hin). cbn.
  apply not_true_is_false. intros Hs.
  apply (in_slot_iff _ _ _ _ _ _ _ (vr_rep _ _ _ Hv) Hsd Hin) in Hs. congruence.
Qed.

(** The level of a slot is the only one of its side in that slot. *)
Lemma slot_level b ls sd (L1 : side_levels) l (os : list Z) (L2 : side_levels) price :
  Rep b ls -> two_sided sd -> ls sd = L1 ++ (l, os) :: L2 ->
  mapPriceToPriceLevel_ b !! priceToIndex price = Some l ->
  (forall lv, lv ∈ absl b L1 ++ absl b L2 -> in_slot price lv = false) /\
  (forall data, in_slot price (level_price (lh b) l, data) = true).
Proof.
  intros Hr Hsd Hls Hm. destruct (rep_split_level _ _ _ _ _ _ _ Hr Hsd Hls) as [_ Hne]. split.
  - intros lv Hin. unfold absl in Hin. rewrite <- fmap_app in Hin.
    apply list_elem_of_fmap in Hin as ([l' os'] & -> & Hin). cbn. apply not_true_is_false.
    intros Hs. assert (Hin' : (l', os') ∈ ls sd) by (rewrite Hls; set_solver).
    apply (in_slot_iff _ _ _ _ _ _ _ Hr Hsd Hin') in Hs.
    apply (Hne l' os' Hin). congruence.
  - intros data. apply (in_slot_iff b ls sd l os); [done|done|rewrite Hls; set_solver|done].
Qed.

Lemma list_find_slot price (s1 : list level) lv (s2 : list level) :
  (forall x, x ∈ s1 -> in_slot price x = false) -> in_slot price lv = true ->
  slot_orders price (s1 ++ lv :: s2) = lv.2 /\ existsb (in_slot price) (s1 ++ lv :: s2) = true.
Proof.
  intros Hs1 Hlv. split.
  - unfold slot_orders. rewrite (proj2 (list_find_Some _ _ (length s1) lv)); [done|].
    split_and!; [by apply list_lookup_middle|done|]. intros j y Hj Hlt.
    rewrite lookup_app_l in Hj by done. apply list_elem_of_lookup_2 in Hj.
    rewrite Hs1 by done. done.
  - apply existsb_exists. exists lv. split; [|done]. apply in_app_iff. right. by left.
Qed.

Lemma next_priority_none price (s : list level) :
  (forall x, x ∈ s -> in_slot price x = false) ->
  next_priority price s = 1 /\ existsb (in_slot price) s = false.
Proof.
  intros Hs. unfold next_priority, slot_orders. split.
  - rewrite (proj2 (list_find_None _ _)); [done|]. apply Forall_forall. intros x Hx.
    by rewrite Hs.
  - apply not_true_is_false. intros (x & Hx & Ht)%existsb_exists.
    apply list_elem_of_In in Hx. by rewrite Hs in Ht.
Qed.

Lemma place_slot o (s1 : list level) lv (s2 : list level) :
  (forall x, x ∈ s1 ++ s2 -> in_slot (o_price o) x = false) -> in_slot (o_price o) lv = true ->
  place o (s1 ++ lv :: s2) = s1 ++ (lv.1, lv.2 ++ [o]) :: s2.
Proof.
  intros Hs Hlv. unfold place.
  rewrite (proj2 (list_find_slot (o_price o) s1 lv s2 ltac:(set_solver) Hlv)).
  rewrite fmap_app. cbn. rewrite Hlv.
  assert (Hid : forall s : list level, (forall x, x ∈ s -> in_slot (o_price o) x = false) ->
    (fun lv => if in_slot (o_price o) lv then (lv.1, lv.2 ++ [o]) else lv) <$> s = s).
  { intros s Hx. rewrite <- (list_fmap_id s) at 2. apply list_fmap_ext.
    intros k x Hk%list_elem_of_lookup_2. by rewrite Hx. }
  rewrite !Hid by set_solver. done.
Qed.

(** ** The view after an insertion *)
Lemma client_moids_added b b' ls i o :
  Rep b ls -> oh b !! i = None -> oh b' ≡ₕ <[i := o]> (oh b) -> added_to b b' i o ->
  client_moids b' = <[client_key o := o_marketOrderId o]> (client_moids b).
Proof.
  intros Hr Hi Hh (Hm & _). unfold client_moids. rewrite Hm. apply map_eq. intros k.
  rewrite lookup_omap, !lookup_insert. unfold client_key. symmetry in Hh. case_decide as Hk.
  - cbn. destruct (heap_eq_lookup _ _ i o Hh) as (y & -> & Hu); [by rewrite lookup_insert_eq|].
    cbn. by apply unlinked_order_eq in Hu as (_ & _ & _ & -> & _).
  - rewrite lookup_omap. destruct (mapClientIdToOrder_ b !! k) as [j|] eqn:Hj; [|done].
    cbn [mbind option_bind]. destruct k as [c w].
    destruct (rp_client _ _ Hr _ _ _ Hj) as (x & Hx & _).
    destruct (heap_eq_lookup _ _ j x Hh) as (y & Hy & Hu); [rewrite lookup_insert_ne; congruence|].
    rewrite Hx, Hy. cbn. by apply unlinked_order_eq in Hu as (_ & _ & _ & -> & _).
Qed.

Lemma absl_added b b' ls ls' sd (s : side_levels) i o :
  Rep b ls -> Rep b' ls' -> two_sided sd -> oh b !! i = None -> oh b' ≡ₕ <[i := o]> (oh b) ->
  prices_kept b b' -> (forall l os, (l, os) ∈ s -> (l, os) ∈ ls sd) ->
  (forall l os, (l, os) ∈ s -> is_Some (lh b' !! l)) -> absl b' s = absl b s.
Proof.
  intros Hr Hr' Hsd Hi Hh Hp Hin Hin'. apply absl_ext. intros l os Hl.
  destruct (rep_alive_in _ _ _ _ _ Hr Hsd (Hin _ _ Hl)) as [Hll Hal]. split.
  - apply Hp; [done|]. by apply (Hin' l os).
  - intros j Hj. destruct (Hal j Hj) as (x & Hx & _).
    by rewrite (Hh j), lookup_insert_ne by congruence.
Qed.

Section Placed.
Context b b' (ls : Side.t -> side_levels) (s' : side_levels) sd i o
  (Hr : Rep b ls) (Hr' : Rep b' (upd_side sd s' ls)) (Hsd : two_sided sd)
  (Hi : oh b !! i = None) (Hh : oh b' ≡ₕ <[i := o]> (oh b)) (Hp : prices_kept b b').

Lemma placed_order : exists oi, oh b' !! i = Some oi /\ unlinked oi = unlinked o.
Proof. apply (heap_eq_lookup (<[i := o]> (oh b))); [by symmetry|]. by rewrite lookup_insert_eq. Qed.

Lemma absl_kept (s : side_levels) :
  (forall l os, (l, os) ∈ s -> (l, os) ∈ ls sd) ->
  (forall l os, (l, os) ∈ s -> exists os', (l, os') ∈ s') -> absl b' s = absl b s.
Proof.
  intros Hin Hin'. apply (absl_added b b' ls _ sd s i o Hr Hr'); try done.
  intros l os Hl. destruct (Hin' l os Hl) as [os' Hl'].
  apply (rep_alive_in b' _ sd l os' Hr'); [done|]. by rewrite upd_side_eq.
Qed.

(** The order was appended to a level. *)
Lemma absl_appended (L1 : side_levels) l os (L2 : side_levels) :
  ls sd = L1 ++ (l, os) :: L2 -> s' = L1 ++ (l, os ++ [i]) :: L2 ->
  mapPriceToPriceLevel_ b !! priceToIndex (o_price o) = Some l ->
  absl b' s' = place (unlinked o) (absl b (ls sd)).
Proof.
  intros Hls Hs' Hm. destruct placed_order as (oi & Hoi & Hui).
  destruct (slot_level b ls sd L1 l os L2 (o_price o) Hr Hsd Hls Hm) as [Hns Hsl].
  assert (Hos : absl b' (ls sd) = absl b (ls sd)).
  { apply absl_kept; [done|]. rewrite Hls, Hs'. intros l' os' Hin. rewrite elem_of_app, elem_of_cons in Hin.
    destruct Hin as [Hin|[[= -> ->]|Hin]]; [exists os'; set_solver|exists (os ++ [i]); set_solver|].
    exists os'. set_solver. }
  rewrite <- Hos. rewrite Hls in *. unfold absl in Hos |- *. rewrite !fmap_app in Hos. rewrite Hs', !fmap_app.
  cbn [fmap list_fmap fst snd] in Hos |- *.
  apply app_inj_1 in Hos as [H1 Hos]; [|by rewrite !length_fmap]. injection Hos as Hl Hod H2.
  rewrite place_slot; [|rewrite H1, H2; exact Hns|rewrite Hl; apply Hsl].
  cbn [fst snd]. by rewrite odata_app, (odata_cons _ _ _ _ Hoi), Hui.
Qed.

(** The order opened the level [n]. *)
Lemma absl_first n :
  o_side o = sd -> mapPriceToPriceLevel_ b !! priceToIndex (o_price o) = None ->
  s' = insertLevel (fun lv => worse_in (lh b) sd (o_price o) lv.1) (n, [i]) (ls sd) ->
  level_price (lh b') n = o_price o ->
  absl b' s' = place (unlinked o) (absl b (ls sd)).
Proof.
  intros Hs Hm Hs' Hn. destruct placed_order as (oi & Hoi & Hui).
  assert (Hin' : forall l os, (l, os) ∈ ls sd -> (l, os) ∈ s').
  { intros l os Hin. rewrite Hs'. apply elem_of_insertLevel. by right. }
  assert (Hos : absl b' (ls sd) = absl b (ls sd)) by (apply absl_kept; [done|]; intros l os Hin; eauto).
  unfold place. change (o_price (unlinked o)) with (o_price o). change (o_side (unlinked o)) with (o_side o).
  destruct (next_priority_none (o_price o) (absl b (ls sd))) as [_ ->].
  { intros lv ([l os] & -> & Hin)%list_elem_of_fmap. cbn. apply not_true_is_false.
    intros Hx%(in_slot_iff _ _ _ _ _ _ _ Hr Hsd Hin). congruence. }
  rewrite Hs, <- Hos, Hs'.
  rewrite (insertLevel_ext _ (fun lv => shouldAddAfter sd (o_price o) (level_price (lh b') lv.1))).
  2: { intros [l os] Hin. unfold worse_in. cbn. f_equal. symmetry. apply Hp.
       - by apply (rep_alive_in _ _ _ _ _ Hr Hsd Hin).
       - apply (rep_alive_in b' _ sd l os Hr'); [done|]. rewrite upd_side_eq. by apply Hin'. }
  unfold absl at 1.
  rewrite (insertLevel_fmap (fun lv => (level_price (lh b') lv.1, odata b' lv.2))
            (fun lv => shouldAddAfter sd (o_price o) lv.1) (n, [i])).
  cbn [fst snd]. by rewrite Hn, (odata_cons _ _ _ _ Hoi), Hui.
Qed.

End Placed.

Lemma absl_placed b b' ls s' sd i o :
  Rep b ls -> Rep b' (upd_side sd s' ls) -> two_sided sd -> o_side o = sd ->
  oh b !! i = None -> oh b' ≡ₕ <[i := o]> (oh b) -> prices_kept b b' ->
  placed b b' sd (o_price o) i (ls sd) s' ->
  absl b' s' = place (unlinked o) (absl b (ls sd)).
Proof.
  intros Hr Hr' Hsd Hs Hi Hh Hp Hpl. remember (ls sd) as s0 eqn:Hls.
  destruct Hpl as [L1 l os L2 Hm|n s Hm Hn]; subst.
  - rewrite Hls. by eapply absl_appended.
  - by eapply absl_first.
Qed.

(** The response and update buffers are not part of the view. *)
Lemma VRep_core b b' ls a : core_fields b = core_fields b' -> VRep b ls a -> VRep b' ls a.
Proof.
  intros Hc [H1 H2 H3 H4]. pose proof Hc as [= Hb Ha Hm Hp Ho Hcl Hn]. split.
  - by apply (Rep_core b).
  - intros sd Hsd. rewrite H2 by done. unfold absl, odata. by rewrite Hp, Ho.
  - rewrite H3. unfold client_moids. by rewrite Hcl, Ho.
  - by rewrite H4.
Qed.

End Spec.

(** ** Requests against the model *)
Section Requests.
Context {E : Type} `{OmeSink E} `{StrayMemory OrderBook}.
Implicit Types (b : OrderBook) (e : E) (ls : Side.t -> side_levels) (a : ABook) (t : Taker).

Lemma wp_on_book {A} (m : M OrderBook A) (Q : A -> OrderBook * E -> Prop) b e :
  wp m (fun x b' => Q x (b', e)) b -> wp (on_book m) Q (b, e).
Proof. intros Hw. unfold on_book. apply wp_zoom. done. Qed.

Lemma wp_respond r (Q : unit -> OrderBook * E -> Prop) b e :
  Q tt (set_response r b, emit e (Resp r)) -> wp (respond r) Q (b, e).
Proof. done. Qed.

Lemma wp_publish u (Q : unit -> OrderBook * E -> Prop) b e :
  Q tt (set_update u b, emit e (Upd u)) -> wp (set_marketUpdate u;; publish) Q (b, e).
Proof. done. Qed.
Lemma wp_publish_then {A} u (k : M (OrderBook * E) A) (Q : A -> OrderBook * E -> Prop) b e :
  wp k Q (set_update u b, emit e (Upd u)) -> wp (set_marketUpdate u;; publish;; k) Q (b, e).
Proof. done. Qed.

Lemma updated_ext {T} i (f g : T -> T) (p : MemoryPool T) x :
  live p !! i = Some x -> f x = g x -> updated i f p = updated i g p.
Proof. intros Hx Hfg. unfold updated. by rewrite Hx, Hfg. Qed.

Lemma emits_cons (e : E) ev evs : emits e (ev :: evs) = emits (emit e ev) evs.
Proof. done. Qed.
Lemma emits_app (e : E) evs1 evs2 : emits e (evs1 ++ evs2) = emits (emits e evs1) evs2.
Proof. apply foldl_app. Qed.

(** The head of the opposite side after one fill of it. *)
Definition after_fill t (p : Z) (o : Order) (os : list Order) (s : list level) a : ABook :=
  let left_ := o_qty o - Z.min (t_qty t) (o_qty o) in
  if left_ =? 0
  then set_a_clients (delete (client_key o) (a_clients a))
         (set_a_side (opposite (t_side t)) (pop_level p os ++ s) a)
  else set_a_side (opposite (t_side t)) ((p, order_set_qty left_ o :: os) :: s) a.

Lemma u32_small z : 0 <= z < 2 ^ 32 -> u32 z = z.
Proof. apply wrapU_small. Qed.

Lemma opposite_two_sided sd : two_sided sd -> two_sided (opposite sd).
Proof. intros [-> | ->]; [by right|by left]. Qed.

(** The remaining quantities stay positive when an order leaves the heap. *)
Lemma positive_removed b b' i :
  (forall j o, j <> i -> oh b !! j = Some o -> 0 < o_qty o) -> oh b' ≡ₕ delete i (oh b) -> positive b'.
Proof.
  intros Hpos Hh j x Hj. destruct (heap_eq_lookup _ _ _ _ Hh Hj) as (y & Hy & Hu).
  apply lookup_delete_Some in Hy as [Hji Hy].
  apply unlinked_order_eq in Hu as (_ & _ & _ & _ & _ & _ & <- & _). by apply (Hpos j).
Qed.

Lemma set_a_side_again sd s s' a : set_a_side sd s (set_a_side sd s' a) = set_a_side sd s a.
Proof. unfold set_a_side. by case_decide. Qed.

(** removeOrderFromBook on the first order of a side. *)
Lemma wp_remove_first b ls a sd l i (o2 : list Z) (L2 : side_levels) o p u os s (Q : unit -> OrderBook -> Prop) :
  VRep b ls (set_a_side sd ((p, u :: os) :: s) a) -> two_sided sd ->
  ls sd = (l, i :: o2) :: L2 -> oh b !! i = Some o ->
  (forall j x, j <> i -> oh b !! j = Some x -> 0 < o_qty x) ->
  (forall b' ls', VRep b' ls' (set_a_clients (delete (client_key o) (a_clients a))
     (set_a_side sd (pop_level p os ++ s) a)) -> positive b' -> Q tt b') ->
  wp (removeOrderFromBook i) Q b.
Proof.
  intros Hv Hsd Hls Ho Hpos HQ.
  apply (wp_removeOrderFromBook b ls sd [] l [] i o2 L2 o); [apply (vr_rep _ _ _ Hv)|done..|].
  intros b' Hr' Hh Hrem Hpk.
  pose proof (VRep_removed b b' ls _ _ [] l [] i o2 L2 o Hv Hsd Hls Ho Hr' Hh Hrem Hpk) as Hv'.
  rewrite set_a_side_again, a_clients_set_a_side in Hv' by done.
  change (odata b []) with (@nil Order) in Hv'. cbn [absl fmap list_fmap app] in Hv'.
  pose proof (vr_side _ _ _ Hv _ Hsd) as Hs. rewrite set_a_side_eq, Hls in Hs by done.
  change (absl b ((l, i :: o2) :: L2)) with
    ((level_price (lh b) l, odata b (i :: o2)) :: absl b L2) in Hs.
  rewrite (odata_cons b i o2 o Ho) in Hs. injection Hs as -> _ -> ->.
  eapply HQ; [exact Hv'|by eapply positive_removed].
Qed.

Lemma wp_matchOrder b e ls a t l i (o2 : list Z) (L2 : side_levels) oc
    (Q : unit -> OrderBook * E -> Prop) :
  VRep b ls a -> positive b -> two_sided (t_side t) ->
  ls (opposite (t_side t)) = (l, i :: o2) :: L2 -> oh b !! i = Some oc ->
  0 < t_qty t < 2 ^ 32 -> Z.min (t_qty t) (o_qty oc) <= strayRoom ->
  (forall b' ls' w, VRep b' ls' (after_fill t (level_price (lh b) l) (unlinked oc) (odata b o2)
                                   (absl b L2) a) ->
     positive b' -> 0 <= w < 2 ^ 32 ->
     let fill := Z.min (t_qty t) (o_qty oc) in
     Q tt (b', emits e (fill_events t (unlinked oc, (fill, o_qty oc - fill)) w))) ->
  wp (matchOrder (t_ticker t) (t_client t) (t_side t) (t_oid t) (t_moid t) i (t_qty t)) Q (b, e).
Proof.
  intros Hv Hpos Hside Hls Hoc Hq Hst HQ. cbn zeta in HQ.
  pose proof (opposite_two_sided _ Hside) as Hsd.
  pose proof (Hpos i oc Hoc) as Hoq. pose proof (vr_rep _ _ _ Hv) as Hr.
  pose proof (oo_qty _ _ (rp_order _ _ Hr _ _ Hoc)) as Hoq2.
  set (fill := Z.min (t_qty t) (o_qty oc)) in *.
  assert (Hrem : u32 (o_qty oc - fill) = o_qty oc - fill) by (apply u32_small; lia).
  unfold matchOrder. wp_step. apply wp_on_book, (wp_load_order _ oc); [done|].
  fold fill. wp_step. apply wp_on_book, wp_upd_order; [eauto|].
  rewrite (updated_ext i _ (order_set_qty (o_qty oc - fill)) _ oc) by (try done; by rewrite Hrem).
  set (b1 := set_orderPool _ b). wp_step. apply wp_on_book, wp_get. wp_step.
  set (o1 := order_set_qty (o_qty oc - fill) oc).
  assert (Hoc1 : oh b1 !! i = Some o1)
    by (unfold b1; bcbn; live_simpl; by rewrite lookup_alter_eq, Hoc).
  apply wp_on_book. apply (wp_load_order _ o1); [done|].
  wp_step. rewrite (proj2 (Z.eqb_neq fill 0)) by lia.
  destruct (strayWord_mapped b1 fill) as [sw Hsw]; [lia|]. rewrite Hsw. apply wp_ret.
  wp_step. apply wp_respond. wp_step. apply wp_respond. apply wp_publish_then.
  set (w := u32 sw). assert (Hw : 0 <= w < 2 ^ 32) by (by apply wrapU_range).
  pose proof (VRep_qty b ls a _ l i o2 L2 oc (o_qty oc - fill) Hv Hsd Hls Hoc ltac:(lia)) as Hv1.
  fold b1 in Hv1. change (o_qty o1) with (o_qty oc - fill).
  assert (Hlh1 : lh b1 = lh b) by done.
  unfold after_fill in HQ. change (o_qty (unlinked oc)) with (o_qty oc) in HQ. fold fill in HQ.
  unfold fill_events in HQ. destruct (o_qty oc - fill =? 0) eqn:Hz; rewrite ?Hz in HQ.
  - apply wp_publish_then. apply wp_on_book.
    match goal with |- wp _ _ ?x => set (b2 := x) end.
    apply (wp_remove_first b2 ls a (opposite (t_side t)) l i o2 L2 o1 (level_price (lh b) l)
      (order_set_qty (o_qty oc - fill) (unlinked oc)) (odata b o2) (absl b L2));
      [by apply (VRep_core b1)|done|done|done| |].
    { intros j x Hj Hx. change (oh b1 !! j = Some x) in Hx. unfold b1 in Hx. bcbn.
      rewrite live_updated, lookup_alter_ne in Hx by done. by apply (Hpos j). }
    intros b' ls' Hv' Hpos'. by apply (HQ b' ls' w).
  - apply wp_publish.
    apply (HQ _ ls w).
    + by apply (VRep_core b1).
    + intros j x Hj. change (oh b1 !! j = Some x) in Hj. unfold b1 in Hj. bcbn.
      rewrite live_updated in Hj. apply alter_qty_lookup in Hj as (y & Hy & ->).
      specialize (Hpos _ _ Hy). case_decide; [cbn|done]. apply Z.eqb_neq in Hz. lia.
    + done.
Qed.

(** What findMatch leaves of the model. *)
Definition swept t a : ABook :=
  let ms := sweep (taker_crosses t) (a_side (opposite (t_side t)) a) in
  set_a_clients (forget ms.1 (a_clients a)) (set_a_side (opposite (t_side t)) ms.2 a).
Definition swept_fills t a : list (Order * (Z * Z)) :=
  sweep_fills (t_qty t) (sweep (taker_crosses t) (a_side (opposite (t_side t)) a)).1.

Definition word (w : Z) : Prop := 0 <= w < 2 ^ 32.

(** Every stray read of these fills finds memory. *)
Definition mapped (fs : list (Order * (Z * Z))) : Prop := Forall (fun fr => fr.1 <= strayRoom) (snd <$> fs).
Definition mappedb (fs : list (Order * (Z * Z))) : bool := forallb (fun f => f.2.1 <=? strayRoom) fs.

Lemma mappedb_mapped fs : mappedb fs = true -> mapped fs.
Proof.
  unfold mappedb, mapped. rewrite forallb_forall. intros Hfs. apply Forall_fmap, Forall_forall.
  intros f Hf. apply Z.leb_le, Hfs. by apply list_elem_of_In.
Qed.

Lemma sweep_fills_le qty os : Forall (fun f => f.2.1 <= qty) (sweep_fills qty os).
Proof.
  unfold sweep_fills. induction os as [|o os IH]; [constructor|]. cbn [fmap list_fmap concat].
  apply Forall_app. split; [|exact IH]. unfold order_fills. apply Forall_fmap, Forall_forall.
  intros fr Hfr. by apply (fill_seq_le qty (fills qty (o_qty o)) (o_qty o)).
Qed.

(** A taker smaller than the mapped memory is safe whatever it matches. *)
Lemma mapped_small qty os : qty <= strayRoom -> mapped (sweep_fills qty os).
Proof.
  intros Hq. unfold mapped. apply Forall_fmap. eapply Forall_impl; [apply sweep_fills_le|].
  intros f Hf. cbn in *. lia.
Qed.

Lemma opposite_best sd b : two_sided sd -> oppositeBest sd b = bestOrdersByPrice (opposite sd) b.
Proof. by intros [-> | ->]. Qed.

Lemma swept_nil t a :
  two_sided (t_side t) -> sweep (taker_crosses t) (a_side (opposite (t_side t)) a) =
    ([], a_side (opposite (t_side t)) a) -> swept t a = a /\ swept_fills t a = [].
Proof.
  intros Hs He. unfold swept, swept_fills. rewrite He. split; [|done].
  by apply set_same_side, opposite_two_sided.
Qed.

Lemma a_side_clients sd m a : a_side sd (set_a_clients m a) = a_side sd a.
Proof. unfold a_side. by case_decide. Qed.

Lemma set_a_side_twice sd s s' m m' a :
  set_a_clients m (set_a_side sd s (set_a_clients m' (set_a_side sd s' a))) =
  set_a_clients m (set_a_side sd s a).
Proof. unfold set_a_side. by case_decide. Qed.

Lemma match_events_cons t f fs w ws :
  match_events t (f :: fs) (w :: ws) = fill_events t f w ++ match_events t fs ws.
Proof. done. Qed.

Lemma order_fills_fst qty o : Forall (fun x => x.1 = o) (order_fills qty o).
Proof. apply Forall_forall. by intros x (fr & -> & _)%list_elem_of_fmap. Qed.

(** One iteration of the loop, seen in the model. *)
Lemma swept_step t a p o os s :
  two_sided (t_side t) -> a_side (opposite (t_side t)) a = (p, o :: os) :: s ->
  taker_crosses t o = true -> 0 < t_qty t -> 0 < o_qty o ->
  let a1 := after_fill t p o os s a in
  let f := Z.min (t_qty t) (o_qty o) in
  swept t a1 = swept t a /\
  snd <$> swept_fills t a = (f, o_qty o - f) :: (snd <$> swept_fills t a1) /\
  (forall w ws, match_events t (swept_fills t a) (w :: ws) =
     fill_events t (o, (f, o_qty o - f)) w ++ match_events t (swept_fills t a1) ws) /\
  side_fills (t_qty t) (a_side (opposite (t_side t)) a) =
    S (side_fills (t_qty t) (a_side (opposite (t_side t)) a1)).
Proof.
  intros Hside Ha Hc Hq Ho. cbn zeta. pose proof (opposite_two_sided _ Hside) as Hsd.
  unfold swept, swept_fills, after_fill. rewrite Ha, sweep_pop by done. cbn [fst snd].
  set (f := Z.min (t_qty t) (o_qty o)).
  pose proof (order_fills_step (t_qty t) o Hq Ho) as Hof. cbn zeta in Hof. fold f in Hof.
  assert (Hcons : forall (o' : Order) m, sweep_fills (t_qty t) (o' :: m) =
            order_fills (t_qty t) o' ++ sweep_fills (t_qty t) m) by done.
  destruct (o_qty o - f =? 0) eqn:Hz.
  - rewrite a_side_clients, set_a_side_eq by done. rewrite Hcons, Hof. split_and!.
    + by rewrite set_a_side_twice.
    + done.
    + done.
    + unfold side_fills. rewrite side_orders_pop. apply Z.eqb_eq in Hz. cbn.
      by rewrite fills_small by lia.
  - set (o' := order_set_qty (o_qty o - f) o) in *.
    rewrite set_a_side_eq, sweep_pop by done. cbn [fst snd]. rewrite !Hcons, Hof. split_and!.
    + by destruct Hsd as [-> | ->].
    + cbn. by rewrite !fmap_app, <- list_fmap_compose.
    + intros w ws. rewrite <- app_comm_cons, match_events_cons. f_equal.
      apply (match_events_qty t o o'); [done|apply order_fills_fst].
    + unfold side_fills. apply Z.eqb_neq in Hz. cbn.
      rewrite (fills_step (t_qty t) (o_qty o)) by lia. unfold f. by rewrite Z.min_l by lia.
Qed.

Lemma wp_findMatchLoop fuel b e ls a t (Q : Z -> OrderBook * E -> Prop) :
  VRep b ls a -> positive b -> two_sided (t_side t) -> 0 < t_qty t < 2 ^ 32 ->
  (side_fills (t_qty t) (a_side (opposite (t_side t)) a) < fuel)%nat -> mapped (swept_fills t a) ->
  (forall b' ls' ws, length ws = length (swept_fills t a) -> Forall word ws ->
     VRep b' ls' (swept t a) -> positive b' ->
     Q (t_qty t) (b', emits e (match_events t (swept_fills t a) ws))) ->
  wp (findMatchLoop fuel (t_client t) (t_oid t) (t_ticker t) (t_side t) (t_price t) (t_qty t)
        (t_moid t)) Q (b, e).
Proof.
  revert b e ls a Q. induction fuel as [|fuel IH]; intros b e ls a Q Hv Hpos Hside Hq Hfuel Hmap HQ; [lia|].
  pose proof (opposite_two_sided _ Hside) as Hsd.
  cbn [findMatchLoop]. wp_step. apply wp_on_book, wp_get. rewrite opposite_best by done.
  assert (Hstop : sweep (taker_crosses t) (a_side (opposite (t_side t)) a) =
            ([], a_side (opposite (t_side t)) a) -> Q (t_qty t) (b, e)).
  { intros He. destruct (swept_nil t a Hside He) as [Hs Hf]. rewrite Hs, Hf in HQ.
    by apply (HQ b ls []). }
  destruct (a_side (opposite (t_side t)) a) as [|[p os] s] eqn:Ea.
  { rewrite (vr_empty _ _ _ _ Hv Hsd Ea). apply wp_ret. by apply Hstop. }
  destruct os as [|o os].
  { destruct (vr_nonempty _ _ _ _ p [] Hv Hsd); [rewrite Ea; apply list_elem_of_here|done]. }
  destruct (vr_head _ _ _ _ _ _ _ _ Hv Hsd Ea)
    as (l & i & o2 & L2 & oc & lv & Hls & Hoc & Hu & Hlv & H0' & Hbest & Hp & Hos & Hs).
  rewrite Hbest, (proj2 (Z.eqb_neq (t_qty t) 0)) by lia.
  wp_step. apply wp_on_book, (wp_load_level _ lv); [done|]. rewrite H0'. wp_step. wp_step. wp_step.
  apply wp_on_book, (wp_load_order _ oc); [done|].
  assert (Hcr : crosses (t_side t) (t_price t) (o_price oc) = taker_crosses t o)
    by (by rewrite crosses_reaches, <- Hu).
  rewrite Hcr. destruct (taker_crosses t o) eqn:Hc.
  2: { apply wp_ret, Hstop. by apply sweep_stop. }
  assert (Hqo : o_qty oc = o_qty o) by (by rewrite <- Hu).
  destruct (swept_step t a p o os s Hside Ea Hc) as (Hsw & Hsnd & Hev & Hsf);
    [lia|rewrite <- Hqo; by apply (Hpos i)|].
  cbn zeta in *. rewrite Ea in Hsf. unfold mapped in Hmap. rewrite Hsnd in Hmap.
  apply Forall_cons in Hmap as [Hst Hmap].
  assert (Hlen : length (swept_fills t a) = S (length (swept_fills t (after_fill t p o os s a))))
    by (rewrite <- !(length_fmap snd), Hsnd; done).
  wp_step. apply (wp_matchOrder b e ls a t l i o2 L2 oc); try done; [by rewrite Hqo|].
  rewrite Hp, Hos, Hs, Hu. intros b' ls' w Hv' Hpos' Hw. cbn zeta. rewrite Hqo.
  apply (IH _ _ ls' (after_fill t p o os s a)); try done; [lia|].
  intros b'' ls'' ws Hlw Hws Hv'' Hpos''. rewrite Hsw in Hv''.
  rewrite <- emits_app, <- Hev. apply (HQ b'' ls'' (w :: ws)); [cbn; lia|by constructor|done|done].
Qed.

(** ** The fuel of findMatch *)
Lemma concat_NoDup (s : side_levels) :
  NoDup s.*1 -> (forall l os, (l, os) ∈ s -> NoDup os) ->
  (forall l1 os1 l2 os2 i, (l1, os1) ∈ s -> (l2, os2) ∈ s -> i ∈ os1 -> i ∈ os2 -> l1 = l2) ->
  NoDup (ids s).
Proof.
  unfold ids. induction s as [|[l os] s IH]; intros Hnd Hos Hdis; [constructor|].
  cbn in *. apply NoDup_cons in Hnd as [Hl Hnd]. apply NoDup_app. split_and!.
  - apply (Hos l). apply list_elem_of_here.
  - intros i Hi Hi'. apply list_elem_of_In, in_concat in Hi' as (os' & Hos' & Hi'%list_elem_of_In).
    apply list_elem_of_In, list_elem_of_fmap in Hos' as ([l' os''] & -> & Hin). cbn in Hi'.
    assert (l = l') as <-.
    { apply (Hdis l os l' os'' i); [apply list_elem_of_here|by apply list_elem_of_further|done|done]. }
    apply Hl, list_elem_of_fmap. by exists (l, os'').
  - apply IH; [done| |].
    + intros l' os' Hin. apply (Hos l'). by apply list_elem_of_further.
    + intros l1 os1 l2 os2 i H1 H2. apply Hdis; by apply list_elem_of_further.
Qed.

Lemma ids_NoDup b ls sd : Rep b ls -> two_sided sd -> NoDup (ids (ls sd)).
Proof.
  intros Hr Hsd. apply concat_NoDup.
  - apply (lr_ring _ _ (rp_levels _ _ Hr) sd Hsd).
  - intros l os Hin. apply (lp_ring _ _ _ _ _ (rp_level _ _ Hr _ _ _ Hsd Hin)).
  - intros l1 os1 l2 os2 i H1 H2 Hi1 Hi2.
    by destruct (rep_order_unique _ _ _ _ _ _ _ _ i Hr Hsd Hsd H1 H2 Hi1 Hi2) as (_ & ? & _).
Qed.

Lemma side_orders_absl b (s : side_levels) : side_orders (absl b s) = odata b (ids s).
Proof.
  unfold side_orders, ids. induction s as [|[l os] s IH]; [done|].
  change (odata b os ++ concat (absl b s).*2 = odata b (os ++ concat s.*2)).
  by rewrite odata_app, IH.
Qed.

Lemma sum_le_map_fold {T} (f : T -> nat) (h : gmap Z T) (l : list Z) :
  NoDup l ->
  (sum_list_with (fun i => from_option f 0%nat (h !! i)) l <= map_fold (fun _ o n => (f o + n)%nat) 0%nat h)%nat.
Proof.
  revert h. induction l as [|i l IH]; intros h Hnd; [cbn; lia|].
  apply NoDup_cons in Hnd as [Hi Hnd]. cbn. specialize (IH (delete i h) Hnd).
  assert (Hs : sum_list_with (fun j => from_option f 0%nat (delete i h !! j)) l =
               sum_list_with (fun j => from_option f 0%nat (h !! j)) l).
  { clear IH. induction l as [|j l IH]; [done|]. cbn. rewrite IH.
    - rewrite lookup_delete_ne; [done|]. intros ->. apply Hi, list_elem_of_here.
    - intros Hj. apply Hi. by apply list_elem_of_further.
    - by apply NoDup_cons in Hnd as [_ ?]. }
  rewrite Hs in IH. destruct (h !! i) as [x|] eqn:Hx; cbn.
  - rewrite (map_fold_delete_L _ _ i x h); [lia|lia|done].
  - rewrite delete_id in IH by done. lia.
Qed.

Lemma matchFuel_enough b ls a sd qty :
  VRep b ls a -> two_sided sd -> (side_fills qty (a_side sd a) < matchFuel qty b)%nat.
Proof.
  intros Hv Hsd. unfold matchFuel, side_fills. rewrite (vr_side _ _ _ Hv), side_orders_absl by done.
  pose proof (sum_le_map_fold (fun o => fills qty (o_qty o)) (oh b) (ids (ls sd))
                (ids_NoDup _ _ _ (vr_rep _ _ _ Hv) Hsd)) as Hle.
  assert (He : sum_list_with (fun o => fills qty (o_qty o)) (odata b (ids (ls sd))) =
               sum_list_with (fun i => from_option (fun o => fills qty (o_qty o)) 0%nat (oh b !! i))
                 (ids (ls sd))); [|lia].
  clear Hle. unfold odata. induction (ids (ls sd)) as [|i l IH]; [done|]. cbn.
  destruct (oh b !! i) as [o|]; cbn; [by f_equal|exact IH].
Qed.

Lemma wp_findMatch b e a t (Q : Z -> OrderBook * E -> Prop) :
  View b a -> two_sided (t_side t) -> 0 <= t_qty t < 2 ^ 32 ->
  mapped (sweep_fills (t_qty t) (matched t a)) ->
  (forall b' ws, length ws = length (sweep_fills (t_qty t) (matched t a)) -> Forall word ws ->
     View b' (a_match t a) ->
     Q (t_qty t) (b', emits e (match_events t (sweep_fills (t_qty t) (matched t a)) ws))) ->
  wp (findMatch (t_client t) (t_oid t) (t_ticker t) (t_side t) (t_price t) (t_qty t) (t_moid t))
     Q (b, e).
Proof.
  intros (ls & Hv & Hpos) Hside Hq Hmap HQ. unfold findMatch. wp_step. apply wp_on_book, wp_get.
  unfold matched, a_match in HQ, Hmap. destruct (Z.eqb_spec (t_qty t) 0) as [Hz|Hz].
  - cbn [matchFuel findMatchLoop]. wp_step. apply wp_on_book, wp_get.
    assert (HQ0 : Q (t_qty t) (b, e)) by (apply (HQ b []); [done|constructor|by exists ls]).
    rewrite (proj2 (Z.eqb_eq (t_qty t) 0)) by done.
    destruct (oppositeBest (t_side t) b); by apply wp_ret.
  - apply (wp_findMatchLoop _ b e ls a t); try done; [lia| |].
    { by apply (matchFuel_enough b ls), opposite_two_sided. }
    unfold swept, swept_fills in *.
    destruct (sweep (taker_crosses t) (a_side (opposite (t_side t)) a)) as [m s] eqn:Es.
    intros b' ls' ws Hl Hws Hv' Hpos'. apply HQ; [done|done|by exists ls'].
Qed.

(** ** addOrder *)
Lemma VRep_placed b b' ls a s' i o :
  VRep b ls a -> Rep b' (upd_side (o_side o) s' ls) -> two_sided (o_side o) ->
  oh b !! i = None -> oh b' ≡ₕ <[i := o]> (oh b) -> added_to b b' i o -> prices_kept b b' ->
  placed b b' (o_side o) (o_price o) i (ls (o_side o)) s' ->
  VRep b' (upd_side (o_side o) s' ls)
    (set_a_clients (<[client_key o := o_marketOrderId o]> (a_clients a))
      (set_a_side (o_side o) (place (unlinked o) (a_side (o_side o) a)) a)).
Proof.
  intros Hv Hr' Hsd Hi Hh Hadd Hp Hpl. pose proof (vr_rep _ _ _ Hv) as Hr. split; [done| | |].
  - intros sd' Hsd'. rewrite a_side_clients. destruct (decide (sd' = o_side o)) as [->|Hne].
    + rewrite upd_side_eq, set_a_side_eq, (vr_side _ _ _ Hv) by done. symmetry.
      by apply (absl_placed b b' ls s' (o_side o) i o).
    + rewrite upd_side_ne, set_a_side_ne, (vr_side _ _ _ Hv) by done. symmetry.
      apply (absl_added b b' ls _ sd' _ i o Hr Hr'); try done.
      intros l os Hin. apply (rep_alive_in b' _ sd' l os Hr'); [done|]. by rewrite upd_side_ne.
  - cbn. rewrite (vr_clients _ _ _ Hv). symmetry. by apply (client_moids_added b b' ls i).
  - destruct Hadd as (_ & -> & _). cbn. by rewrite a_next_set_a_side, (vr_next _ _ _ Hv).
Qed.

Lemma VRep_next b ls a n :
  VRep b ls a -> nextMarketOid_ b <= n < 2 ^ 64 -> VRep (set_nextOid n b) ls (set_a_next n a).
Proof.
  intros [[H1 H2 H3 H4 H5 H6 H7 H8 H9] Hs Hc Hn] Hle. split; [|done|done|done].
  split; bcbn; try done; [by apply (LRep_fields b)| |lia].
  intros i o Ho. destruct (H5 i o Ho). split; try done; lia.
Qed.

(** A live order is counted by the view. *)
Lemma size_all_orders b ls a : VRep b ls a -> (size (oh b) <= length (all_orders a))%nat.
Proof.
  intros Hv. pose proof (vr_rep _ _ _ Hv) as Hr.
  assert (Hlen : forall sd, two_sided sd ->
            length (side_orders (a_side sd a)) = length (ids (ls sd))).
  { intros sd Hsd. rewrite (vr_side _ _ _ Hv), side_orders_absl by done.
    assert (Hal : forall i, i ∈ ids (ls sd) -> exists o, oh b !! i = Some o).
    { intros i Hi. unfold ids in Hi. apply list_elem_of_In, in_concat in Hi as (os & Hos & Hi).
      apply list_elem_of_In, list_elem_of_fmap in Hos as ([l os'] & -> & Hin).
      apply list_elem_of_In in Hi.
      destruct (rep_alive_in _ _ _ _ _ Hr Hsd Hin) as [_ H']. destruct (H' i Hi) as (? & ? & _). eauto. }
    induction (ids (ls sd)) as [|i l IH]; [done|].
    destruct (Hal i) as [o Ho]; [apply list_elem_of_here|]. rewrite (odata_cons _ _ _ _ Ho). cbn.
    f_equal. apply IH. intros j Hj. apply Hal. by apply list_elem_of_further. }
  unfold all_orders. rewrite length_app.
  change (a_bids a) with (a_side Side.BUY a). change (a_asks a) with (a_side Side.SELL a).
  rewrite !Hlen by (by (left + right)). rewrite <- length_app, <- size_dom.
  etrans; [apply (subseteq_size (C := gset Z) _ (list_to_set (ids (ls Side.BUY) ++ ids (ls Side.SELL))))|].
  - intros i [o Ho]%elem_of_dom. apply elem_of_list_to_set.
    destruct (rp_alive _ _ Hr _ _ Ho) as (sd & l & os & Hsd & Hin & Hi). unfold ids.
    apply elem_of_app. destruct Hsd as [-> | ->]; [left|right];
      apply list_elem_of_In, in_concat; exists os; split; try (by apply list_elem_of_In);
      apply list_elem_of_In, list_elem_of_fmap; by exists (l, os).
  - apply size_list_to_set_le.
Qed.

(** What must hold of a taker for its remainder to rest: it comes from a known
    client, no level of the other side is in its slot, and a block is free. *)
Record can_rest t a : Prop := {
  cr_client : client_in_range (t_client t) (t_oid t) = true;
  cr_slot lv : lv ∈ a_side (opposite (t_side t)) a -> in_slot (t_price t) lv = false;
  cr_room : Z.of_nat (length (all_orders a)) < MAX_ORDER_IDS;
}.

Definition add_event t (o : Order) : OmeEvent :=
  Upd (mkUpdate UpdateType.ADD (t_moid t) (t_ticker t) (t_side t) (t_price t) (t_qty t)
         (o_priority o)).
Definition rested t a : Order := rest_order t (next_priority (t_price t) (a_side (t_side t) a)).
Definition accept_event t : OmeEvent :=
  Resp (mkResponse ResponseType.ACCEPTED (t_client t) (t_ticker t) (t_oid t) (t_moid t) (t_side t)
          (t_price t) 0 (t_qty t)).

Lemma alive_in_view b ls a i o : VRep b ls a -> oh b !! i = Some o -> unlinked o ∈ all_orders a.
Proof.
  intros Hv Ho. pose proof (vr_rep _ _ _ Hv) as Hr.
  destruct (rp_alive _ _ Hr _ _ Ho) as (sd & l & os & Hsd & Hin & Hi).
  assert (Hsd' : unlinked o ∈ side_orders (a_side sd a)).
  { rewrite (vr_side _ _ _ Hv), side_orders_absl by done. unfold odata.
    apply list_elem_of_omap. exists i. rewrite Ho. split; [|done].
    apply list_elem_of_In, in_concat. exists os. split; [|by apply list_elem_of_In].
    apply list_elem_of_In, list_elem_of_fmap. by exists (l, os). }
  unfold all_orders. apply elem_of_app. destruct Hsd as [-> | ->]; [by left|by right].
Qed.

(** Every market order id of the book is below [m]. *)
Definition ids_below (m : Z) a : Prop := Forall (fun o => o_marketOrderId o < m) (all_orders a).

Lemma in_view_alive b ls a o :
  VRep b ls a -> o ∈ all_orders a -> exists i x, oh b !! i = Some x /\ unlinked x = o.
Proof.
  intros Hv Hin. assert (Hs : exists sd, two_sided sd /\ o ∈ side_orders (a_side sd a)).
  { unfold all_orders in Hin. apply elem_of_app in Hin as [?|?].
    - exists Side.BUY. split; [by left|done].
    - exists Side.SELL. split; [by right|done]. }
  destruct Hs as (sd & Hsd & Hs). rewrite (vr_side _ _ _ Hv), side_orders_absl in Hs by done.
  unfold odata in Hs. apply list_elem_of_omap in Hs as (i & _ & Hi).
  destruct (oh b !! i) as [x|] eqn:Hx; [|done]. cbn in Hi. apply (inj Some) in Hi. eauto.
Qed.

(** Market order ids are unique in the book. *)
Lemma view_moid_inj b ls a o1 o2 :
  VRep b ls a -> o1 ∈ all_orders a -> o2 ∈ all_orders a ->
  o_marketOrderId o1 = o_marketOrderId o2 -> o1 = o2.
Proof.
  intros Hv H1 H2 He. destruct (in_view_alive _ _ _ _ Hv H1) as (i & x & Hx & <-).
  destruct (in_view_alive _ _ _ _ Hv H2) as (j & y & Hy & <-).
  assert (i = j) as <- by (by apply (rp_moid _ _ (vr_rep _ _ _ Hv) i j x y)). congruence.
Qed.

Lemma view_ids_below b ls a : VRep b ls a -> ids_below (a_next a) a.
Proof.
  intros Hv. apply Forall_forall. intros o Ho.
  destruct (in_view_alive _ _ _ _ Hv Ho) as (i & x & Hx & <-).
  rewrite (vr_next _ _ _ Hv). apply (oo_marketOid _ _ (rp_order _ _ (vr_rep _ _ _ Hv) _ _ Hx)).
Qed.

Lemma ids_below_match m t a : two_sided (t_side t) -> ids_below m a -> ids_below m (a_match t a).
Proof.
  unfold ids_below. rewrite !Forall_forall. intros Hs Hall o Ho. by apply Hall, (elem_of_match t).
Qed.
Lemma next_priority_view b ls a t pr :
  VRep b ls a -> two_sided (t_side t) ->
  (forall lv, lv ∈ a_side (opposite (t_side t)) a -> in_slot (t_price t) lv = false) ->
  match mapPriceToPriceLevel_ b !! priceToIndex (t_price t) with
  | None => pr = 1
  | Some l => exists sd os i o, two_sided sd /\ (l, os) ∈ ls sd /\ last os = Some i /\
                oh b !! i = Some o /\ pr = o_priority o + 1
  end ->
  pr = next_priority (t_price t) (a_side (t_side t) a) /\
  forall l, mapPriceToPriceLevel_ b !! priceToIndex (t_price t) = Some l ->
    exists os, (l, os) ∈ ls (t_side t).
Proof.
  intros Hv Hs Hslot Hpr. pose proof (vr_rep _ _ _ Hv) as Hr.
  destruct (mapPriceToPriceLevel_ b !! priceToIndex (t_price t)) as [l|] eqn:Hm.
  - destruct Hpr as (sd & os & i & o & Hsd & Hin & Hlast & Ho & ->).
    assert (sd = t_side t) as ->.
    { destruct (decide (sd = t_side t)) as [|Hne]; [done|].
      assert (sd = opposite (t_side t)) as -> by (by destruct Hsd as [-> | ->], Hs as [Hs|Hs]; rewrite Hs in *).
      assert (Hin' : (level_price (lh b) l, odata b os) ∈ a_side (opposite (t_side t)) a).
      { rewrite (vr_side _ _ _ Hv) by done. apply list_elem_of_fmap. by exists (l, os). }
      pose proof (proj2 (in_slot_iff _ _ _ _ _ (t_price t) (odata b os) Hr Hsd Hin) Hm) as Ht.
      by rewrite Hslot in Ht. }
    split; [|intros l' [= <-]; by exists os].
    apply list_elem_of_split in Hin as (L1 & L2 & Hls).
    destruct (slot_level b ls _ L1 l os L2 (t_price t) Hr Hsd Hls Hm) as [Hns Hsl].
    rewrite (vr_side _ _ _ Hv), Hls by done. unfold absl. rewrite fmap_app. cbn [fmap list_fmap fst snd].
    fold (absl b L1) (absl b L2). unfold next_priority.
    destruct (list_find_slot (t_price t) (absl b L1) (level_price (lh b) l, odata b os) (absl b L2))
      as [-> _]; [intros x Hx; apply Hns; set_solver|by apply Hsl|]. cbn [snd].
    apply last_Some in Hlast as [os' ->]. rewrite odata_app, (odata_cons _ _ _ _ Ho).
    change (odata b []) with (@nil Order). by rewrite last_snoc.
  - subst. split; [|done]. symmetry. apply next_priority_none.
    by apply (slot_free b ls).
Qed.

Lemma client_slot_order b ls c k i :
  Rep b ls -> mapClientIdToOrder_ b !! (c, k) = Some i ->
  exists o, oh b !! i = Some o /\ client_key o = (c, k) /\ c < MAX_N_CLIENTS.
Proof.
  intros Hr Hi. destruct (rp_client _ _ Hr _ _ _ Hi) as (o & Ho & <- & <-). exists o.
  split_and!; [done|done|]. pose proof (oo_client _ _ (rp_order _ _ Hr _ _ Ho)) as Hin.
  unfold client_in_range in Hin. lia.
Qed.

(** A filled slot of the client map stands for an order of the book. *)
Lemma view_client_order b a c k moid :
  View b a -> a_clients a !! (c, k) = Some moid ->
  exists o, o ∈ all_orders a /\ o_marketOrderId o = moid /\ client_key o = (c, k).
Proof.
  intros (ls & Hv & _). rewrite (vr_clients _ _ _ Hv). unfold client_moids. rewrite lookup_omap.
  destruct (mapClientIdToOrder_ b !! (c, k)) as [i|] eqn:Hi; [|done]. cbn. intros Hm.
  destruct (client_slot_order b ls c k i (vr_rep _ _ _ Hv) Hi) as (x & Hx & Hk & _). rewrite Hx in Hm.
  injection Hm as <-. exists (unlinked x). split; [by apply (alive_in_view b ls a i)|]. by split.
Qed.

Lemma pool_room b ls a :
  VRep b ls a -> Z.of_nat (length (all_orders a)) < MAX_ORDER_IDS -> 0 < freeBlocksCount_ (orderPool_ b).
Proof.
  intros Hv Hroom. pose proof (vr_rep _ _ _ Hv) as Hr.
  rewrite (ok_count _ (rp_pool _ _ Hr)), (rp_total _ _ Hr). pose proof (size_all_orders _ _ _ Hv). lia.
Qed.

(** The second half of addOrder: what the taker leaves rests in the book. *)
Definition rest_phase t : M (OrderBook * E) unit :=
  priority ← on_book (getNextPriority (t_price t));
  order ← on_book (zoom orderPool_ set_orderPool
            (allocate (mkOrder (t_ticker t) (t_client t) (t_oid t) (t_moid t) (t_side t) (t_price t)
                         (t_qty t) priority None None)));
  i ← nonnull order;
  on_book (addOrderToBook i);;
  set_marketUpdate (mkUpdate UpdateType.ADD (t_moid t) (t_ticker t) (t_side t) (t_price t)
                      (t_qty t) priority);;
  publish.

Lemma wp_rest b e a t (Q : unit -> OrderBook * E -> Prop) :
  View b a -> two_sided (t_side t) -> 0 < t_qty t < 2 ^ 32 -> can_rest t a ->
  1 <= t_moid t < a_next a -> ids_below (t_moid t) a ->
  (forall b', View b' (a_rest t a) -> Q tt (b', emit e (add_event t (rested t a)))) ->
  wp (rest_phase t) Q (b, e).
Proof.
  intros (ls & Hv & Hpos) Hs Hq [Hcl Hslot Hroom] Hm Hids HQ. pose proof (vr_rep _ _ _ Hv) as Hr.
  unfold rest_phase. wp_step. apply wp_on_book. apply (wp_getNextPriority b ls); [done|].
  intros pr Hpr1 Hlt Hle Hval.
  destruct (next_priority_view b ls a t pr Hv Hs Hslot Hval) as [Hpr Hlev].
  assert (Hmo : forall j x, oh b !! j = Some x -> o_marketOrderId x < t_moid t).
  { intros j x Hx. pose proof (alive_in_view _ _ _ _ _ Hv Hx) as Hin.
    unfold ids_below in Hids. rewrite Forall_forall in Hids. by apply Hids in Hin. }
  set (o := mkOrder (t_ticker t) (t_client t) (t_oid t) (t_moid t) (t_side t) (t_price t) (t_qty t)
              pr None None).
  wp_step. apply wp_on_book. apply (wp_alloc_order o); [apply (rp_pool _ _ Hr)|by apply (pool_room b ls a)|].
  intros i p Hpok Hi Hlive Htot. wp_step. wp_step. wp_step. apply wp_on_book.
  assert (Had : addable b ls i o p).
  { split; try done.
    - split; cbn; [lia|done| |rewrite <- (vr_next _ _ _ Hv); lia].
      split; [done|]. apply Hle; [lia|]. intros j x Hx.
      pose proof (oo_priority _ _ (rp_order _ _ Hr _ _ Hx)). specialize (Hmo _ _ Hx). lia.
    - intros j x Hx. specialize (Hmo _ _ Hx). cbn. lia.
    - rewrite Htot. apply (rp_total _ _ Hr).
    - intros l Hl. destruct (Hlev l Hl) as [os Hos]. exists os. split; [done|].
      intros x Hx. by apply (Hlt (t_side t) l os). }
  apply (wp_addOrderToBook b ls i o p); [done|done|].
  intros b' s' Hr' Hpl Hh Hadd Hpk. apply wp_publish.
  assert (Ho : rested t a = unlinked o) by (unfold rested, rest_order; by rewrite <- Hpr).
  assert (He : add_event t (rested t a) = Upd (mkUpdate UpdateType.ADD (t_moid t) (t_ticker t)
            (t_side t) (t_price t) (t_qty t) pr)) by (unfold add_event; by rewrite Ho).
  rewrite <- He. apply HQ.
  pose proof (VRep_placed b b' ls a s' i o Hv Hr' Hs Hi Hh Hadd Hpk Hpl) as Hv'.
  rewrite <- Ho in Hv'. eexists. split; [by apply (VRep_core b')|].
  intros j x Hx. change (oh b' !! j = Some x) in Hx.
  destruct (heap_eq_lookup _ _ _ _ Hh Hx) as (y & Hy & Hu).
  apply unlinked_order_eq in Hu as (_ & _ & _ & _ & _ & _ & <- & _).
  apply lookup_insert_Some in Hy as [[<- <-]|[_ Hy]]; [cbn; lia|by apply (Hpos j)].
Qed.

(** addOrder implements [a_add] and sends the messages of the model. *)
Definition add_events t a (ws : list Z) : list OmeEvent :=
  let a1 := set_a_next (a_next a + 1) a in
  accept_event t :: match_events t (sweep_fills (t_qty t) (matched t a1)) ws ++
  (if t_qty t =? 0 then [] else [add_event t (rested t (a_match t a1))]).

Lemma a_next_match t a : a_next (a_match t a) = a_next a.
Proof.
  unfold a_match. destruct (t_qty t =? 0); [done|].
  destruct (sweep _ _). cbn. apply a_next_set_a_side.
Qed.

(** The first half: a market order id, the acceptance and the matching; then the
    taker rests, unless its quantity is zero. *)
Lemma addOrder_matched b e a t :
  View b a -> two_sided (t_side t) -> 0 <= t_qty t < 2 ^ 32 ->
  t_moid t = a_next a -> a_next a + 1 < 2 ^ 64 ->
  let a1 := set_a_next (a_next a + 1) a in
  mapped (sweep_fills (t_qty t) (matched t a1)) ->
  exists b1 ws, View b1 (a_match t a1) /\
    length ws = length (sweep_fills (t_qty t) (matched t a1)) /\ Forall word ws /\
    addOrder (t_client t) (t_oid t) (t_ticker t) (t_side t) (t_price t) (t_qty t) (b, e) =
      (if t_qty t =? 0 then mret tt else rest_phase t)
        (b1, emits e (accept_event t :: match_events t (sweep_fills (t_qty t) (matched t a1)) ws)).
Proof.
  intros (ls & Hv & Hpos) Hs Hq Hm Hn a1 Hmap. pose proof (vr_next _ _ _ Hv) as Hnx.
  pose proof (rp_next _ _ (vr_rep _ _ _ Hv)) as Hnb.
  assert (Hv1 : VRep (set_nextOid (t_moid t + 1) b) ls a1).
  { unfold a1. rewrite Hm, Hnx. apply (VRep_next b ls a _ Hv). lia. }
  assert (Hw : wp (findMatch (t_client t) (t_oid t) (t_ticker t) (t_side t) (t_price t) (t_qty t) (t_moid t))
    (fun q w => q = t_qty t /\ View w.1 (a_match t a1) /\ exists ws,
       length ws = length (sweep_fills (t_qty t) (matched t a1)) /\ Forall word ws /\
       w.2 = emits (emit e (accept_event t)) (match_events t (sweep_fills (t_qty t) (matched t a1)) ws))
    (set_response (mkResponse ResponseType.ACCEPTED (t_client t) (t_ticker t) (t_oid t) (t_moid t) (t_side t) (t_price t) 0 (t_qty t)) (set_nextOid (t_moid t + 1) b), emit e (accept_event t))).
  { apply (wp_findMatch _ _ a1 t); [|done|done|done|].
    - exists ls. split; [by apply (VRep_core (set_nextOid (t_moid t + 1) b))|done].
    - intros b' ws Hl Hws Hv'. split_and!; [done|done|]. by exists ws. }
  apply wp_ok in Hw as (q & [b1 e1] & Hrun & -> & Hv2 & ws & Hl & Hws & He). cbn in Hv2, He. subst e1.
  exists b1, ws. split_and!; try done. unfold addOrder.
  rewrite (bind_ok _ _ _ (t_moid t) (set_nextOid (t_moid t + 1) b, e)).
  2: { unfold getNewMarketOrderId, on_book, zoom, mbind, M_bind, get, modify, mret, M_ret. cbn. rewrite wrapU_small by lia. by rewrite <- Hnx, <- Hm. }
  etransitivity; [apply (bind_ok _ _ _ tt); reflexivity|]. rewrite (bind_ok _ _ _ _ _ Hrun).
  by destruct (t_qty t =? 0).
Qed.

Lemma wp_addOrder b e a t (Q : unit -> OrderBook * E -> Prop) :
  View b a -> two_sided (t_side t) -> 0 <= t_qty t < 2 ^ 32 ->
  t_moid t = a_next a -> a_next a + 1 < 2 ^ 64 ->
  mapped (sweep_fills (t_qty t) (matched t (set_a_next (a_next a + 1) a))) ->
  (t_qty t <> 0 -> can_rest t (a_match t (set_a_next (a_next a + 1) a))) ->
  (forall b' ws, View b' (a_add t a) ->
     length ws = length (sweep_fills (t_qty t) (matched t (set_a_next (a_next a + 1) a))) ->
     Forall word ws -> Q tt (b', emits e (add_events t a ws))) ->
  wp (addOrder (t_client t) (t_oid t) (t_ticker t) (t_side t) (t_price t) (t_qty t)) Q (b, e).
Proof.
  intros Hv Hs Hq Hm Hn Hmap Hcr HQ. pose proof Hv as (ls & Hvr & _).
  pose proof (view_ids_below _ _ _ Hvr) as Hids. pose proof (rp_next _ _ (vr_rep _ _ _ Hvr)) as Hnb.
  pose proof (vr_next _ _ _ Hvr) as Hnx.
  destruct (addOrder_matched b e a t) as (b2 & ws & Hv2 & Hlen & Hws & Hrun); try done.
  unfold a_add, add_events in HQ. set (a1 := set_a_next (a_next a + 1) a) in *.
  unfold wp. rewrite Hrun. destruct (t_qty t =? 0) eqn:Hz; cbn beta iota in HQ.
  - specialize (HQ b2 ws Hv2 Hlen Hws). by rewrite app_nil_r in HQ.
  - apply Z.eqb_neq in Hz. apply (wp_rest b2 _ (a_match t a1) t); [done|done|lia|by apply Hcr| | |].
    + rewrite a_next_match. cbn. lia.
    + rewrite Hm. by apply ids_below_match.
    + intros b3 Hv3. pose proof (HQ b3 ws Hv3 Hlen Hws) as HQ'.
      cbn [emits foldl] in HQ'. rewrite foldl_app in HQ'. exact HQ'.
Qed.

(** ** cancelOrder *)
Definition reject_event (client oid ticker : Z) : OmeEvent :=
  Resp (mkResponse ResponseType.CANCEL_REJECTED client ticker oid OrderID_INVALID Side.INVALID
          Price_INVALID Qty_INVALID Qty_INVALID).
Definition cancel_events (client oid ticker : Z) (o : Order) : list OmeEvent :=
  [Upd (mkUpdate UpdateType.CANCEL (o_marketOrderId o) ticker (o_side o) (o_price o) 0 (o_priority o));
   Resp (mkResponse ResponseType.CANCELLED client ticker oid (o_marketOrderId o) (o_side o)
           (o_price o) Qty_INVALID (o_qty o))].

Lemma without_odata b ls (os : list Z) i o :
  Rep b ls -> oh b !! i = Some o -> i ∉ os ->
  Forall (fun x => o_marketOrderId x <> o_marketOrderId o) (odata b os).
Proof.
  intros Hr Ho Hni. apply Forall_forall. intros x Hx.
  apply list_elem_of_omap in Hx as (j & Hj & Hx). destruct (oh b !! j) as [y|] eqn:Hy; [|done].
  cbn in Hx. apply (inj Some) in Hx. intros He. apply Hni.
  rewrite (rp_moid _ _ Hr i j o y); [done|done|done|]. by rewrite <- He, <- Hx.
Qed.

(** Levels that do not hold order [i] hold no order with its id. *)
Lemma without_part b ls a sd (s : side_levels) i o :
  VRep b ls a -> two_sided sd -> (forall l os, (l, os) ∈ s -> (l, os) ∈ ls sd) ->
  oh b !! i = Some o -> (forall l os, (l, os) ∈ s -> i ∉ os) ->
  without (o_marketOrderId o) (absl b s) = absl b s.
Proof.
  intros Hv Hsd Hin Ho Hni. apply without_id. intros p os Hp.
  apply list_elem_of_fmap in Hp as ([l js] & [= -> ->] & Hp). cbn. split.
  - apply (vr_nonempty b ls a sd (level_price (lh b) l)); [done|done|].
    rewrite (vr_side _ _ _ Hv) by done. apply list_elem_of_fmap. exists (l, js). auto.
  - pose proof (without_odata b ls js i o (vr_rep _ _ _ Hv) Ho (Hni l js Hp)) as Hf.
    by rewrite Forall_forall in Hf.
Qed.

Lemma without_level b ls a sd (L1 : side_levels) l (o1 : list Z) i (o2 : list Z) (L2 : side_levels) o :
  VRep b ls a -> two_sided sd -> ls sd = L1 ++ (l, o1 ++ i :: o2) :: L2 -> oh b !! i = Some o ->
  without (o_marketOrderId o) (a_side sd a) =
    absl b L1 ++ pop_level (level_price (lh b) l) (odata b o1 ++ odata b o2) ++ absl b L2.
Proof.
  intros Hv Hsd Hls Ho. pose proof (vr_rep _ _ _ Hv) as Hr.
  pose proof (rep_split_level _ _ _ _ _ _ _ Hr Hsd Hls) as [Hlev Hdist].
  assert (Hlin : (l, o1 ++ i :: o2) ∈ ls sd) by (rewrite Hls; set_solver).
  assert (Hni : forall l' os, (l', os) ∈ L1 ++ L2 -> (l', os) ∈ ls sd /\ i ∉ os).
  { intros l' os Hin. assert (Hin' : (l', os) ∈ ls sd) by (rewrite Hls; set_solver).
    split; [done|]. intros Hi. apply (Hdist l' os Hin).
    by destruct (rep_order_unique b ls sd sd l' l os (o1 ++ i :: o2) i) as (_ & ? & _);
      try done; set_solver. }
  assert (Hnd : i ∉ o1 ++ o2).
  { destruct Hlev as [_ _ [Hnd _] _]. rewrite <- Permutation_middle in Hnd.
    by apply NoDup_cons in Hnd as [? _]. }
  rewrite (vr_side _ _ _ Hv), Hls by done. unfold absl. rewrite fmap_app. cbn [fmap list_fmap fst snd].
  fold (absl b L1) (absl b L2).
  change (absl b L1 ++ (level_price (lh b) l, odata b (o1 ++ i :: o2)) :: absl b L2) with
    (absl b L1 ++ [(level_price (lh b) l, odata b (o1 ++ i :: o2))] ++ absl b L2).
  rewrite !without_app.
  rewrite (without_part b ls a sd L1 i o), (without_part b ls a sd L2 i o);
    try done; try (intros l' os Hin; apply (Hni l' os); set_solver).
  f_equal. f_equal. cbn [without mbind list_bind fst snd]. rewrite app_nil_r. f_equal.
  rewrite odata_app, (odata_cons _ _ _ _ Ho), filter_app.
  rewrite filter_cons_False by (cbn; naive_solver).
  rewrite !filter_id; [done| |]; apply (without_odata b ls _ i); try done; set_solver.
Qed.

Lemma vr_side_other b ls a sd sd' i o :
  VRep b ls a -> two_sided sd -> two_sided sd' -> sd' <> sd -> oh b !! i = Some o -> o_side o = sd ->
  without (o_marketOrderId o) (a_side sd' a) = a_side sd' a.
Proof.
  intros Hv Hsd Hsd' Hne Ho Hs. rewrite (vr_side _ _ _ Hv) by done.
  apply (without_part b ls a sd' _ i o); try done. intros l os Hin Hi.
  destruct (rep_alive_in _ _ _ _ _ (vr_rep _ _ _ Hv) Hsd' Hin) as [_ H'].
  destruct (H' i Hi) as (x & Hx & Hxs). congruence.
Qed.

(** What a cancelled order leaves is [a_cancel]. *)
Lemma VRep_cancelled b b' ls a sd (L1 : side_levels) l (o1 : list Z) i (o2 : list Z)
    (L2 : side_levels) o c k :
  VRep b ls a -> two_sided sd -> ls sd = L1 ++ (l, o1 ++ i :: o2) :: L2 -> oh b !! i = Some o ->
  client_key o = (c, k) -> a_clients a !! (c, k) = Some (o_marketOrderId o) ->
  VRep b' (upd_side sd (L1 ++ level_or_none l (o1 ++ o2) ++ L2) ls)
    (set_a_clients (delete (client_key o) (a_clients a))
      (set_a_side sd (absl b L1 ++ pop_level (level_price (lh b) l) (odata b o1 ++ odata b o2) ++
                      absl b L2) a)) ->
  VRep b' (upd_side sd (L1 ++ level_or_none l (o1 ++ o2) ++ L2) ls) (a_cancel c k a).
Proof.
  intros Hv Hsd Hls Ho Hk Hc Hv'. unfold a_cancel. rewrite Hc.
  rewrite <- (without_level b ls a sd L1 l o1 i o2 L2 o) in Hv' by done. rewrite Hk in Hv'.
  assert (Hos : o_side o = sd).
  { destruct (rep_alive_in b ls sd l (o1 ++ i :: o2) (vr_rep _ _ _ Hv) Hsd) as [_ Hal];
      [rewrite Hls; set_solver|]. destruct (Hal i) as (x & Hx & <-); [set_solver|congruence]. }
  destruct Hsd as [->| ->].
  - pose proof (vr_side_other b ls a Side.BUY Side.SELL i o Hv) as He.
    change (a_side Side.SELL a) with (a_asks a) in He.
    rewrite He by (done || (by left) || by right). exact Hv'.
  - pose proof (vr_side_other b ls a Side.SELL Side.BUY i o Hv) as He.
    change (a_side Side.BUY a) with (a_bids a) in He.
    rewrite He by (done || (by left) || by right). exact Hv'.
Qed.

Lemma wp_cancelOrder b e a client oid ticker (Q : unit -> OrderBook * E -> Prop) :
  View b a -> (client < MAX_N_CLIENTS -> oid < MAX_ORDER_IDS) ->
  (forall b', View b' (a_cancel client oid a) ->
     match a_clients a !! (client, oid) with
     | Some moid => forall o, o ∈ all_orders a -> o_marketOrderId o = moid ->
         client_key o = (client, oid) -> Q tt (b', emits e (cancel_events client oid ticker o))
     | None => Q tt (b', emits e [reject_event client oid ticker])
     end) ->
  wp (cancelOrder client oid ticker) Q (b, e).
Proof.
  intros (ls & Hv & Hpos) Hoid HQ. pose proof (vr_rep _ _ _ Hv) as Hr.
  unfold cancelOrder. wp_step. apply wp_on_book, wp_get. wp_step.
  assert (Hlook : a_clients a !! (client, oid) =
            mapClientIdToOrder_ b !! (client, oid) ≫= fun i => o_marketOrderId <$> oh b !! i)
    by (rewrite (vr_clients _ _ _ Hv); apply lookup_omap).
  assert (Hrej : a_clients a !! (client, oid) = None ->
    wp (respond (mkResponse ResponseType.CANCEL_REJECTED client ticker oid OrderID_INVALID Side.INVALID
          Price_INVALID Qty_INVALID Qty_INVALID)) Q (b, e)).
  { intros Hn. apply wp_respond. unfold a_cancel in HQ. rewrite Hn in HQ.
    apply HQ. exists ls. split; [by apply (VRep_core b)|done]. }
  pose proof (fun i => client_slot_order b ls client oid i Hr) as Hslot.
  destruct (Z.ltb_spec client MAX_N_CLIENTS) as [Hlt|Hge].
  2: { apply wp_ret, Hrej. rewrite Hlook.
       destruct (mapClientIdToOrder_ b !! (client, oid)) as [i|] eqn:Hi; [|done].
       destruct (Hslot i eq_refl) as (? & _ & _ & ?). lia. }
  wp_step. apply wp_require; [by apply Z.ltb_lt, Hoid|]. apply wp_ret.
  destruct (mapClientIdToOrder_ b !! (client, oid)) as [i|] eqn:Hi; [|by apply Hrej; rewrite Hlook].
  destruct (Hslot i eq_refl) as (o & Ho & Hk & _). cbn [mbind option_bind] in Hlook.
  rewrite Ho in Hlook. cbn in Hlook.
  wp_step. apply wp_on_book, (wp_load_order _ o); [done|]. wp_step. apply wp_on_book, wp_modify.
  wp_step. apply wp_on_book, wp_modify. wp_step. apply wp_on_book.
  match goal with |- wp _ _ ?x => set (b2 := x) end.
  assert (Hv2 : VRep b2 ls a) by (by apply (VRep_core b)).
  destruct (rp_alive _ _ Hr _ _ Ho) as (sd & l & os & Hsd & Hin & Hio).
  apply list_elem_of_split in Hio as (o1 & o2 & ->).
  apply list_elem_of_split in Hin as (L1 & L2 & Hls).
  apply (wp_removeOrderFromBook b2 ls sd L1 l o1 i o2 L2 o); [apply (vr_rep _ _ _ Hv2)|done|done|done|].
  intros b' Hr' Hh Hrem Hpk.
  pose proof (VRep_removed b2 b' ls a sd L1 l o1 i o2 L2 o Hv2 Hsd Hls Ho Hr' Hh Hrem Hpk) as Hv'.
  apply (VRep_cancelled b2 b' ls a sd L1 l o1 i o2 L2 o client oid Hv2 Hsd Hls Ho Hk Hlook) in Hv'.
  destruct Hrem as (_ & _ & _ & Hresp & Hupd).
  wp_step. apply wp_modify, wp_modify. cbn [fst snd]. rewrite Hresp, Hupd.
  assert (Hview : View b' (a_cancel client oid a)).
  { eexists. split; [exact Hv'|]. eapply positive_removed; [|exact Hh]. intros j x _. apply Hpos. }
  specialize (HQ b' Hview). rewrite Hlook in HQ.
  pose proof (HQ (unlinked o) (alive_in_view b ls a i o Hv Ho) eq_refl Hk) as HQ'. unfold b2. exact HQ'.
Qed.

End Requests.
