(* ===== verification/BookTheorems.v ===== *)
(** What order_book.cpp guarantees.

    The theorems of this file are stated on the operations of OrderBook.v and on
    the reference model of BookModel.v: refinement of addOrder and cancelOrder,
    whole sessions from a fresh book, the matching rule, and the invariants of the
    visible book.  BookFaults.v has the executions that leave the contract. *)

From stdpp Require Import sorting.
From S2P Require Import Prelude MemoryPool Types Messages Ring Orders OrderBook BookLevels BookModel BookRep BookSpec.
#[local] Open Scope Z_scope.

(** ** A fresh book *)
Definition empty_book : ABook := mkA [] [] ∅ 1.

Lemma newOrderBook_ok ticker :
  exists lp op, newOrderBook ticker = Ok (mkBook ticker ∅ None None ∅ lp op dflt dflt 1) /\
    pool_ok lp /\ live lp = ∅ /\ totalBlocks_ lp = MAX_PRICE_LEVELS /\
    pool_ok op /\ live op = ∅ /\ totalBlocks_ op = MAX_ORDER_IDS.
Proof.
  destruct (construct_ok (T:=OrdersAtPrice) MAX_PRICE_LEVELS) as (lp & Hl & ? & ? & ? & _); [done|].
  destruct (construct_ok (T:=Order) MAX_ORDER_IDS) as (op & Ho & ? & ? & ? & _); [done|].
  exists lp, op. unfold newOrderBook. rewrite Hl, Ho. by split_and!.
Qed.

Lemma newOrderBook_view ticker b : newOrderBook ticker = Ok b -> View b empty_book.
Proof.
  destruct (newOrderBook_ok ticker) as (lp & op & Hnew & Hlok & Hll & Hlt & Hook & Hol & Hot).
  rewrite Hnew. intros [= <-]. exists no_levels. split; [|by intros i o; bcbn; rewrite Hol].
  split; [|by intros sd [-> | ->]|done|done].
  split; bcbn; rewrite ?Hol, ?Hll; try done.
  - split; bcbn; rewrite ?Hll; try done.
    + by intros sd [-> | ->].
    + intros sd _. apply ring_nil.
    + intros sd l _ Hl. by apply elem_of_nil in Hl.
    + intros k l. rewrite lookup_empty. split; [done|]. by intros (lv & Hlv & _).
  - intros sd l os _ Hl. by apply elem_of_nil in Hl.
Qed.

(** ** Sessions: sequences of requests for one book *)
Inductive request :=
  | New (client oid : Z) (side : Side.t) (price qty : Z)
  | Cancel (client oid : Z).

Definition run_request {E} `{OmeSink E} `{StrayMemory OrderBook} (ticker : Z) (r : request)
    : M (OrderBook * E) unit :=
  match r with
  | New client oid side price qty => addOrder client oid ticker side price qty
  | Cancel client oid => cancelOrder client oid ticker
  end.

Fixpoint run_session {E} `{OmeSink E} `{StrayMemory OrderBook} (ticker : Z) (rs : list request)
    : M (OrderBook * E) unit :=
  match rs with
  | [] => mret tt
  | r :: rs' => run_request ticker r;; run_session ticker rs'
  end.

Definition taker_of (ticker : Z) (a : ABook) (client oid : Z) (side : Side.t) (price qty : Z) : Taker :=
  mkTaker client oid ticker side price qty (a_next a).

(** The model's state after the matching phase of a new order. *)
Definition after_match (t : Taker) (a : ABook) : ABook := a_match t (set_a_next (a_next a + 1) a).

(** The fills of a new order. *)
Definition new_fills (t : Taker) (a : ABook) : list (Order * (Z * Z)) :=
  sweep_fills (t_qty t) (matched t (set_a_next (a_next a + 1) a)).

Definition run_model (ticker : Z) (r : request) (a : ABook) : ABook :=
  match r with
  | New client oid side price qty => a_add (taker_of ticker a client oid side price qty) a
  | Cancel client oid => a_cancel client oid a
  end.

(** The requests the book can serve: the conditions nobody checks in the code. *)
Definition acceptable `{StrayMemory OrderBook} (ticker : Z) (r : request) (a : ABook) : bool :=
  match r with
  | New client oid side price qty =>
      let t := taker_of ticker a client oid side price qty in
      let a1 := after_match t a in
      bool_decide (side = Side.BUY \/ side = Side.SELL) && (0 <=? qty) && (qty <? 2 ^ 32) &&
      (a_next a + 1 <? 2 ^ 64) && mappedb (new_fills t a) &&
      ((qty =? 0) ||
       (client_in_range client oid &&
        forallb (fun lv => negb (in_slot price lv)) (a_side (opposite side) a1) &&
        (Z.of_nat (length (all_orders a1)) <? MAX_ORDER_IDS)))
  | Cancel client oid => (MAX_N_CLIENTS <=? client) || (oid <? MAX_ORDER_IDS)
  end.

Fixpoint session_model (ticker : Z) (rs : list request) (a : ABook) : ABook :=
  match rs with
  | [] => a
  | r :: rs' => session_model ticker rs' (run_model ticker r a)
  end.
Fixpoint acceptable_session `{StrayMemory OrderBook} (ticker : Z) (rs : list request) (a : ABook) : bool :=
  match rs with
  | [] => true
  | r :: rs' => acceptable ticker r a && acceptable_session ticker rs' (run_model ticker r a)
  end.

(** An engine that keeps every message, and stray words that read as zero. *)
#[local] Existing Instance zeroStray.
Definition play (rs : list request) : res (unit * (OrderBook * list OmeEvent)) :=
  match newOrderBook 0 with
  | Ok b => run_session 0 rs (b, [])
  | Err f => Err f
  end.

Section Theorems.
Context {E : Type} `{OmeSink E} `{StrayMemory OrderBook}.
Implicit Types (b : OrderBook) (e : E) (a : ABook) (t : Taker).

Lemma acceptable_new ticker a client oid side price qty :
  let t := taker_of ticker a client oid side price qty in
  acceptable ticker (New client oid side price qty) a = true ->
  two_sided side /\ 0 <= qty < 2 ^ 32 /\ a_next a + 1 < 2 ^ 64 /\ mapped (new_fills t a) /\
  (qty <> 0 -> can_rest t (after_match t a)).
Proof.
  cbn zeta. cbn [acceptable]. set (t := taker_of ticker a client oid side price qty).
  rewrite !andb_true_iff, orb_true_iff, !andb_true_iff, bool_decide_eq_true.
  intros [[[[[Hs Hq1] Hq2] Hn] Hm%mappedb_mapped] Hr]. apply Z.leb_le in Hq1. apply Z.ltb_lt in Hq2, Hn.
  split_and!; try done. intros Hq. destruct Hr as [Hr|[[Hc Hf] Hl]].
  { by apply Z.eqb_eq in Hr. }
  split; [done| |by apply Z.ltb_lt].
  intros lv Hlv. rewrite forallb_forall in Hf. specialize (Hf lv).
  apply negb_true_iff, Hf. by apply list_elem_of_In.
Qed.

Lemma wp_run_request ticker r b e a (Q : unit -> OrderBook * E -> Prop) :
  View b a -> acceptable ticker r a = true ->
  (forall b' e', View b' (run_model ticker r a) -> Q tt (b', e')) ->
  wp (run_request ticker r) Q (b, e).
Proof.
  intros Hv Hacc HQ. destruct r as [client oid side price qty|client oid]; cbn [run_request].
  - apply acceptable_new in Hacc as (Hs & Hq & Hn & Hmap & Hcr).
    apply (wp_addOrder b e a (taker_of ticker a client oid side price qty)); try done.
    intros b' ws Hv' _ _. by apply HQ.
  - apply (wp_cancelOrder b e a); [done| |].
    { intros Hc. cbn [acceptable] in Hacc. apply orb_true_iff in Hacc as [Ha|Ha];
        [apply Z.leb_le in Ha|apply Z.ltb_lt in Ha]; lia. }
    intros b' Hv'. destruct (a_clients a !! (client, oid)); [intros|]; by apply HQ.
Qed.

Lemma wp_run_session ticker rs b e a (Q : unit -> OrderBook * E -> Prop) :
  View b a -> acceptable_session ticker rs a = true ->
  (forall b' e', View b' (session_model ticker rs a) -> Q tt (b', e')) ->
  wp (run_session ticker rs) Q (b, e).
Proof.
  revert b e a. induction rs as [|r rs IH]; intros b e a Hv Hacc HQ; cbn [run_session session_model acceptable_session] in *.
  - apply wp_ret. by apply HQ.
  - apply andb_true_iff in Hacc as [Hr Hrs]. wp_step.
    apply (wp_run_request ticker r b e a); [done|done|]. intros b' e' Hv'. by apply (IH _ _ _ Hv').
Qed.

End Theorems.

Section Properties.
Context {E : Type} `{OmeSink E} `{StrayMemory OrderBook}.
Implicit Types (b : OrderBook) (e : E) (a : ABook) (t : Taker).

(** C1. addOrder refines the reference model.  From a book that shows [a], an
    acceptable new order is accepted, matched and rested without a fault; the
    book then shows [a_add t a], and the engine receives exactly: ACCEPTED, then
    for every fill the taker's and the resting order's FILLED, a TRADE, and a
    CANCEL or MODIFY of the resting order, then an ADD for the rested quantity.
    Only one field is not determined: the quantity left reported to the taker in
    each fill is some 32-bit word. *)
Theorem add_order_refines_model ticker b e a client oid side price qty :
  View b a -> acceptable ticker (New client oid side price qty) a = true ->
  let t := taker_of ticker a client oid side price qty in
  exists b' ws, addOrder client oid ticker side price qty (b, e) =
      Ok (tt, (b', emits e (add_events t a ws))) /\
    View b' (a_add t a) /\ Forall word ws /\
    length ws = length (sweep_fills qty (matched t (set_a_next (a_next a + 1) a))).
Proof.
  intros Hv Hacc. cbn zeta. set (t := taker_of ticker a client oid side price qty).
  apply acceptable_new in Hacc as (Hs & Hq & Hn & Hmap & Hcr).
  assert (Hw : wp (addOrder client oid ticker side price qty) (fun _ w => exists b' ws,
      w = (b', emits e (add_events t a ws)) /\ View b' (a_add t a) /\ Forall word ws /\
      length ws = length (sweep_fills qty (matched t (set_a_next (a_next a + 1) a)))) (b, e)).
  { apply (wp_addOrder b e a t); try done. intros b' ws Hv' Hl Hws. by exists b', ws. }
  apply wp_ok in Hw as ([] & w & Hrun & b' & ws & -> & Hr). eauto.
Qed.

(** C2. cancelOrder refines the reference model on both branches.  When the slot
    of the client and order id is empty the engine receives CANCEL_REJECTED and
    the book is unchanged; when it holds an order, exactly that order leaves the
    book and the slot, and the engine receives a CANCEL update and then the
    CANCELLED response with the order's side, price and open quantity. *)
Theorem cancel_order_refines_model ticker b e a client oid :
  View b a -> acceptable ticker (Cancel client oid) a = true ->
  exists b' e', cancelOrder client oid ticker (b, e) = Ok (tt, (b', e')) /\
    View b' (a_cancel client oid a) /\
    match a_clients a !! (client, oid) with
    | None => e' = emits e [reject_event client oid ticker]
    | Some moid => forall o, o ∈ all_orders a -> o_marketOrderId o = moid ->
        client_key o = (client, oid) -> e' = emits e (cancel_events client oid ticker o)
    end.
Proof.
  intros Hv Hacc.
  assert (Hw : wp (cancelOrder client oid ticker) (fun _ w => View w.1 (a_cancel client oid a) /\
    match a_clients a !! (client, oid) with
    | None => w.2 = emits e [reject_event client oid ticker]
    | Some moid => exists o, o ∈ all_orders a /\ o_marketOrderId o = moid /\
        client_key o = (client, oid) /\ w.2 = emits e (cancel_events client oid ticker o)
    end) (b, e)).
  { apply (wp_cancelOrder b e a); [done| |].
    - intros Hc. cbn [acceptable] in Hacc. apply orb_true_iff in Hacc as [Ha|Ha];
        [apply Z.leb_le in Ha|apply Z.ltb_lt in Ha]; lia.
    - intros b' Hv'. destruct (a_clients a !! (client, oid)) as [moid|]; [|done].
      intros o Ho Hm Hk. split; [done|]. by exists o. }
  apply wp_ok in Hw as ([] & [b' e'] & Hrun & Hv' & Hev). exists b', e'.
  split_and!; [done|done|]. destruct (a_clients a !! (client, oid)) as [moid|]; [|done].
  destruct Hev as (o & Ho & Hm & _ & He). intros o' Ho' Hm' _. cbn in He. rewrite He.
  destruct Hv as (ls & Hv & _).
  by rewrite (view_moid_inj b ls a o o' Hv Ho Ho') by congruence.
Qed.

(** Safety of whole sessions.  Every sequence of acceptable requests sent to
    a fresh book runs to its end without a fault, and the book then shows what the reference model computes. *)
Theorem acceptable_sessions_never_fault ticker rs b e :
  newOrderBook ticker = Ok b -> acceptable_session ticker rs empty_book = true ->
  exists b' e', run_session ticker rs (b, e) = Ok (tt, (b', e')) /\
    View b' (session_model ticker rs empty_book).
Proof.
  intros Hb Hacc. pose proof (newOrderBook_view ticker b Hb) as Hv.
  assert (Hw : wp (run_session ticker rs) (fun _ w => View w.1 (session_model ticker rs empty_book))
                 (b, e)) by (by apply (wp_run_session ticker rs b e empty_book)).
  apply wp_ok in Hw as ([] & [b' e'] & Hrun & Hv'). eauto.
Qed.

(** The orders matched come first on their side. *)
Lemma matched_split t a :
  two_sided (t_side t) -> matched t a ++ side_orders (a_side (opposite (t_side t)) (a_match t a)) =
    side_orders (a_side (opposite (t_side t)) a).
Proof.
  intros Hs. unfold matched, a_match. destruct (t_qty t =? 0); [done|].
  pose proof (sweep_app (taker_crosses t) (a_side (opposite (t_side t)) a)) as Happ.
  destruct (sweep (taker_crosses t) (a_side (opposite (t_side t)) a)) as [m s].
  rewrite a_side_clients, set_a_side_eq by (by apply opposite_two_sided). exact Happ.
Qed.

(** The orders matched are the ones reached at the front of the side. *)
Lemma matched_reached t a :
  two_sided (t_side t) -> 0 < t_qty t ->
  Forall (fun o => taker_crosses t o = true) (matched t a) /\
  forall o os, side_orders (a_side (opposite (t_side t)) (a_match t a)) = o :: os -> taker_crosses t o = false.
Proof.
  intros Hs Hq. unfold matched, a_match. rewrite (proj2 (Z.eqb_neq (t_qty t) 0)) by lia.
  pose proof (sweep_reached (taker_crosses t) (a_side (opposite (t_side t)) a)) as Hr.
  pose proof (sweep_first (taker_crosses t) (a_side (opposite (t_side t)) a)) as Hf.
  destruct (sweep (taker_crosses t) (a_side (opposite (t_side t)) a)) as [m s]. cbn [fst snd] in *.
  split; [done|]. rewrite a_side_clients, set_a_side_eq by (by apply opposite_two_sided). exact Hf.
Qed.

(** findMatch terminates, whatever the book and the quantity, where the stray reads
    find memory (BookStray.v has every memory), and returns
    the quantity it was given: matching never reduces it.  Every resting order
    the taker's price reaches, in price-time order, is filled completely and
    leaves the book. *)
Theorem find_match_terminates_quantity_unchanged b e a t :
  View b a -> two_sided (t_side t) -> 0 <= t_qty t < 2 ^ 32 ->
  mapped (sweep_fills (t_qty t) (matched t a)) ->
  exists b' ws,
    findMatch (t_client t) (t_oid t) (t_ticker t) (t_side t) (t_price t) (t_qty t) (t_moid t) (b, e)
      = Ok (t_qty t, (b', emits e (match_events t (sweep_fills (t_qty t) (matched t a)) ws))) /\
    View b' (a_match t a) /\
    matched t a ++ side_orders (a_side (opposite (t_side t)) (a_match t a)) =
      side_orders (a_side (opposite (t_side t)) a).
Proof.
  intros Hv Hs Hq Hmap.
  assert (Hw : wp (findMatch (t_client t) (t_oid t) (t_ticker t) (t_side t) (t_price t) (t_qty t)
      (t_moid t)) (fun q w => q = t_qty t /\ View w.1 (a_match t a) /\ exists ws,
      w.2 = emits e (match_events t (sweep_fills (t_qty t) (matched t a)) ws)) (b, e)).
  { apply (wp_findMatch b e a t); try done. intros b' ws _ _ Hv'. split_and!; eauto. }
  apply wp_ok in Hw as (q & [b' e'] & Hrun & -> & Hv' & ws & He). cbn in Hv', He. subst e'.
  exists b', ws. split_and!; [done|done|by apply matched_split].
Qed.

(** C23. Matching on a side in price order.  When the opposite side is in strict
    price order and its orders stand at the price of their level, and the stray
    reads find memory, findMatch with a quantity above 0 fills and removes exactly the orders the taker's price reaches, the asks at or below
    a buyer's price and the bids at or above a seller's, first to last, and leaves
    exactly the others, in their order: the book is uncrossed. *)
Theorem find_match_leaves_book_uncrossed b e a t :
  let opp := a_side (opposite (t_side t)) in
  let reached (o : Order) := match t_side t with
                             | Side.BUY => o_price o <= t_price t
                             | _ => t_price t <= o_price o
                             end in
  View b a -> two_sided (t_side t) -> 0 < t_qty t < 2 ^ 32 ->
  mapped (sweep_fills (t_qty t) (matched t a)) -> priced (opp a) ->
  sorted_side (opposite (t_side t)) (opp a).*1 ->
  exists b' ws gone a',
    findMatch (t_client t) (t_oid t) (t_ticker t) (t_side t) (t_price t) (t_qty t) (t_moid t) (b, e)
      = Ok (t_qty t, (b', emits e (match_events t (sweep_fills (t_qty t) gone) ws))) /\ View b' a' /\
    side_orders (opp a) = gone ++ side_orders (opp a') /\
    Forall reached gone /\ Forall (fun o => ~ reached o) (side_orders (opp a')).
Proof.
  cbn zeta. intros Hv Hs Hq Hmap Hp Hso.
  assert (Hw : wp (findMatch (t_client t) (t_oid t) (t_ticker t) (t_side t) (t_price t) (t_qty t)
      (t_moid t)) (fun q w => q = t_qty t /\ View w.1 (a_match t a) /\ exists ws,
      w.2 = emits e (match_events t (sweep_fills (t_qty t) (matched t a)) ws)) (b, e)).
  { apply (wp_findMatch b e a t); [done|done|lia|done|]. intros b' ws _ _ Hv'. split_and!; eauto. }
  apply wp_ok in Hw as (q & [b' e'] & Hrun & -> & Hv' & ws & He). cbn in Hv', He. subst e'.
  exists b', ws, (matched t a), (a_match t a). split_and!; [done|done|by rewrite matched_split| |].
  - eapply Forall_impl; [apply matched_reached; [done|lia]|]. intros o. unfold taker_crosses.
    destruct Hs as [-> | ->]; cbn; lia.
  - unfold a_match. rewrite (proj2 (Z.eqb_neq _ _)) by lia.
    pose proof (sweep_uncrossed t _ Hs Hp Hso) as Hun.
    destruct (sweep (taker_crosses t) (a_side (opposite (t_side t)) a)) as [m s].
    rewrite a_side_clients, set_a_side_eq by (by apply opposite_two_sided).
    eapply Forall_impl; [exact Hun|]. intros o. unfold taker_crosses. destruct Hs as [-> | ->]; cbn; lia.
Qed.

End Properties.

(** The quantity traded according to the market updates. *)
Definition ev_traded (ev : OmeEvent) : Z :=
  match ev with
  | Upd u => if decide (mu_type u = UpdateType.TRADE) then mu_qty u else 0
  | Resp _ => 0
  end.
Definition traded (evs : list OmeEvent) : Z := foldr (fun ev z => ev_traded ev + z) 0 evs.

Lemma traded_app evs1 evs2 : traded (evs1 ++ evs2) = traded evs1 + traded evs2.
Proof.
  induction evs1 as [|ev evs1 IH]; [done|]. unfold traded in *. cbn [app foldr]. rewrite IH. lia.
Qed.

Lemma traded_fill t f w : traded (fill_events t f w) = f.2.1.
Proof.
  destruct f as [o [fill rem]]. unfold fill_events, traded. cbn [foldr ev_traded mu_type mu_qty fst snd].
  rewrite decide_True by done.
  destruct (rem =? 0); cbn [ev_traded mu_type]; rewrite decide_False by done; lia.
Qed.

Lemma traded_match t fs ws : length ws = length fs -> traded (match_events t fs ws) = volume fs.
Proof.
  revert ws. induction fs as [|f fs IH]; intros [|w ws] Hl; try done.
  rewrite match_events_cons, traded_app, traded_fill, IH by (by injection Hl). done.
Qed.

Lemma emits_trace (evs0 evs : list OmeEvent) : emits evs0 evs = evs0 ++ evs.
Proof.
  revert evs0. induction evs as [|ev evs IH]; intros evs0; [by rewrite app_nil_r|].
  change (emits (emit evs0 ev) evs = evs0 ++ [ev] ++ evs). rewrite IH, app_assoc. by destruct ev.
Qed.

Lemma view_positive b a : View b a -> Forall (fun o => 0 < o_qty o) (all_orders a).
Proof.
  intros (ls & Hv & Hpos). apply Forall_forall. intros o Ho.
  destruct (in_view_alive _ _ _ _ Hv Ho) as (i & x & Hx & <-). apply (Hpos i x Hx).
Qed.

Lemma total_qty_app os1 os2 : total_qty (os1 ++ os2) = total_qty os1 + total_qty os2.
Proof.
  unfold total_qty. induction os1 as [|o os1 IH]; [done|]. cbn [app foldr]. rewrite IH. lia.
Qed.

Lemma total_qty_perm os1 os2 : os1 ≡ₚ os2 -> total_qty os1 = total_qty os2.
Proof. unfold total_qty. induction 1; cbn [foldr]; lia. Qed.

Lemma total_qty_match t a :
  two_sided (t_side t) -> total_qty (all_orders a) =
    total_qty (matched t a) + total_qty (all_orders (a_match t a)).
Proof. intros Hs. by rewrite <- total_qty_app, (total_qty_perm _ _ (all_orders_match t a Hs)). Qed.
(** Conservation of the traded quantity.  What findMatch reports as traded is
    exactly the quantity of the resting orders it matched, each fill is at most
    the taker's quantity, and nothing relates the total to the taker's quantity:
    the resting orders are used up, the taker is not. *)
Theorem find_match_conserves_resting_quantity `{StrayMemory OrderBook} b evs0 a t :
  View b a -> two_sided (t_side t) -> 0 < t_qty t < 2 ^ 32 ->
  mapped (sweep_fills (t_qty t) (matched t a)) ->
  exists b' evs,
    findMatch (t_client t) (t_oid t) (t_ticker t) (t_side t) (t_price t) (t_qty t) (t_moid t)
      (b, evs0) = Ok (t_qty t, (b', evs0 ++ evs)) /\
    traded evs = total_qty (matched t a) /\
    total_qty (all_orders a) = total_qty (matched t a) + total_qty (all_orders (a_match t a)) /\
    Forall (fun f => 0 < f.2.1 <= t_qty t) (sweep_fills (t_qty t) (matched t a)).
Proof.
  intros Hv Hs Hq Hmap. pose proof (view_positive b a Hv) as Hpos. rewrite Forall_forall in Hpos.
  destruct (sweep_fills_volume (t_qty t) (matched t a)) as [Hvol Hall]; [lia| |].
  { apply Forall_forall. intros o Ho. apply Hpos. by apply (matched_incl t). }
  assert (Hw : wp (findMatch (t_client t) (t_oid t) (t_ticker t) (t_side t) (t_price t) (t_qty t)
      (t_moid t)) (fun q w => q = t_qty t /\ exists ws,
        length ws = length (sweep_fills (t_qty t) (matched t a)) /\
        w.2 = evs0 ++ match_events t (sweep_fills (t_qty t) (matched t a)) ws) (b, evs0)).
  { apply (wp_findMatch b evs0 a t); [done|done|lia|done|]. intros b' ws Hl _ _.
    split; [done|]. exists ws. by rewrite emits_trace. }
  apply wp_ok in Hw as (q & [b' e'] & Hrun & -> & ws & Hl & He). cbn in He. subst e'.
  exists b', (match_events t (sweep_fills (t_qty t) (matched t a)) ws).
  split_and!; [done|by rewrite traded_match|by apply total_qty_match|done].
Qed.


(** *** The price levels *)
Lemma a_side_own_match t a :
  two_sided (t_side t) -> a_side (t_side t) (a_match t a) = a_side (t_side t) a.
Proof.
  intros Hs. unfold a_match. destruct (t_qty t =? 0); [done|].
  destruct (sweep (taker_crosses t) (a_side (opposite (t_side t)) a)) as [m s].
  by destruct Hs as [-> | ->].
Qed.

Lemma place_new_prices o s :
  (forall lv, lv ∈ s -> in_slot (o_price o) lv = false) ->
  (place o s).*1 = insertLevel (shouldAddAfter (o_side o) (o_price o)) (o_price o) s.*1 /\
  o_price o ∉ s.*1.
Proof.
  intros Hs. split.
  - unfold place. destruct (next_priority_none (o_price o) s Hs) as [_ ->].
    apply (insertLevel_fmap fst _ (o_price o, [o])).
  - intros (lv & Hp & Hin)%list_elem_of_fmap. specialize (Hs lv Hin). unfold in_slot in Hs.
    rewrite <- Hp, Z.eqb_refl in Hs. done.
Qed.

Section Levels.
Context {E : Type} `{OmeSink E} `{StrayMemory OrderBook}.
Implicit Types (b : OrderBook) (e : E) (a : ABook) (t : Taker).

(** C25. Where a new price level goes.  When an order opens a new level on a side
    that is in price order, the side stays in price order exactly when the side
    had at most one level or the new price is not worse than all of them: a level
    worse than all of at least two is linked second, right behind the best. *)
Theorem new_level_keeps_order_iff ticker b e a client oid side price qty :
  View b a -> acceptable ticker (New client oid side price qty) a = true -> qty <> 0 ->
  (forall lv, lv ∈ a_side side a -> in_slot price lv = false) ->
  sorted_side side (a_side side a).*1 ->
  exists b' e' a', addOrder client oid ticker side price qty (b, e) = Ok (tt, (b', e')) /\
    View b' a' /\ (a_side side a').*1 ≡ₚ price :: (a_side side a).*1 /\
    (sorted_side side (a_side side a').*1 <->
     (length (a_side side a) <= 1)%nat \/
     exists lv, lv ∈ a_side side a /\ better side price lv.1).
Proof.
  intros Hv Hacc Hq0 Hslot Hso. set (t := taker_of ticker a client oid side price qty).
  apply acceptable_new in Hacc as (Hs & Hq & Hn & Hmap & Hcr).
  assert (Hw : wp (addOrder client oid ticker side price qty) (fun _ w => View w.1 (a_add t a)) (b, e))
    by (by apply (wp_addOrder b e a t)).
  apply wp_ok in Hw as ([] & [b' e'] & Hrun & Hv'). cbn in Hv'. exists b', e', (a_add t a).
  assert (Ha : exists o, o_price o = price /\ o_side o = side /\
            a_side side (a_add t a) = place o (a_side side a)).
  { unfold a_add. change (t_qty t) with qty. rewrite (proj2 (Z.eqb_neq qty 0)) by done.
    unfold a_rest. rewrite a_side_clients, set_a_side_eq by done.
    rewrite (a_side_own_match t (set_a_next (a_next a + 1) a)) by done.
    by eexists; split_and!; [| |reflexivity]. }
  destruct Ha as (o & Hp & Hos & Ha). rewrite Ha.
  destruct (place_new_prices o (a_side side a)) as [Hpl Hni]; [by rewrite Hp|].
  rewrite Hpl, Hp, Hos. rewrite Hp in Hni. split_and!; [done|done|apply insertLevel_perm|].
  rewrite <- (length_fmap fst (a_side side a)).
  assert (Hex : (exists lv, lv ∈ a_side side a /\ better side price lv.1) <->
                (exists q, q ∈ (a_side side a).*1 /\ shouldAddAfter side price q = false)).
  { split.
    - intros (lv & Hin & Hb). exists lv.1. split; [apply list_elem_of_fmap; eauto|].
      apply not_true_iff_false. rewrite better_after. by apply better_asym.
    - intros (q & (lv & -> & Hin)%list_elem_of_fmap & Hb). exists lv. split; [done|].
      apply better_total; [|done]. intros ->. apply Hni, list_elem_of_fmap. eauto. }
  rewrite Hex. split; [|by apply insertLevel_keeps_sorted].
  intros Hsorted. destruct ((a_side side a).*1) as [|p1 [|p2 ps]]; [left; cbn; lia|left; cbn; lia|right].
  destruct (existsb (fun q => negb (shouldAddAfter side price q)) (p1 :: p2 :: ps)) eqn:Hb.
  - apply existsb_exists in Hb as (q & Hq'%list_elem_of_In & Hf%negb_true_iff). eauto.
  - destruct (insertLevel_unsorted side price p1 p2 ps) as [He Hno].
    + intros x Hx. destruct (shouldAddAfter side price x) eqn:Hx'; [done|].
      assert (existsb (fun q => negb (shouldAddAfter side price q)) (p1 :: p2 :: ps) = true).
      { apply existsb_exists. exists x. rewrite Hx'. split; [by apply list_elem_of_In|done]. }
      congruence.
    + rewrite He in Hsorted. done.
Qed.

(** Invariant of the visible book: levels are never empty, every order of a
    level is on the level's side with a positive 32-bit quantity, and the orders
    of a level are in strictly increasing priority, which is the order in which
    they are matched. *)
Theorem level_orders_in_time_priority b a sd p os :
  View b a -> two_sided sd -> (p, os) ∈ a_side sd a ->
  os <> [] /\ Forall (fun o => o_side o = sd /\ 0 < o_qty o < 2 ^ 32) os /\
  StronglySorted Z.lt (o_priority <$> os).
Proof.
  intros (ls & Hv & Hpos) Hsd Hin. pose proof (vr_rep _ _ _ Hv) as Hr.
  split; [by apply (vr_nonempty _ _ _ _ _ _ Hv Hsd Hin)|].
  rewrite (vr_side _ _ _ Hv) in Hin by done.
  apply list_elem_of_fmap in Hin as ([l js] & [= -> ->] & Hin). cbn [fst snd].
  pose proof (rp_level _ _ Hr _ _ _ Hsd Hin) as [(lv & _ & _ & _ & Hos) _ _ Hpr]. split.
  - apply Forall_forall. intros o (j & Hj & Ho)%list_elem_of_omap.
    destruct (Hos j Hj) as (x & Hx & Hxs & _). rewrite Hx in Ho. cbn in Ho. apply (inj Some) in Ho.
    subst o. split; [done|]. specialize (Hpos _ _ Hx).
    pose proof (oo_qty _ _ (rp_order _ _ Hr _ _ Hx)). cbn. lia.
  - assert (He : o_priority <$> odata b js = prios (oh b) js); [|by rewrite He].
    clear Hpr Hin. unfold prios. induction js as [|j js IH]; [done|].
    destruct (Hos j) as (x & Hx & _); [apply list_elem_of_here|].
    rewrite (odata_cons _ _ _ _ Hx). cbn [fmap list_fmap]. rewrite Hx, IH; [done|].
    intros k Hk. apply Hos. by apply list_elem_of_further.
Qed.

Lemma all_orders_odata b ls a :
  VRep b ls a -> all_orders a = odata b (ids (ls Side.BUY) ++ ids (ls Side.SELL)).
Proof.
  intros Hv. unfold all_orders. rewrite odata_app, <- !side_orders_absl.
  rewrite <- !(vr_side _ _ _ Hv) by (by left) || by right. done.
Qed.

Lemma all_ids_NoDup b ls : Rep b ls -> NoDup (ids (ls Side.BUY) ++ ids (ls Side.SELL)).
Proof.
  intros Hr. assert (HB : two_sided Side.BUY) by by left. assert (HS : two_sided Side.SELL) by by right.
  apply NoDup_app. split_and!; [by apply (ids_NoDup b)| |by apply (ids_NoDup b)].
  assert (Hin : forall sd i, i ∈ ids (ls sd) -> exists l os, (l, os) ∈ ls sd /\ i ∈ os).
  { intros sd i Hi. unfold ids in Hi. apply list_elem_of_In, in_concat in Hi as (os & Hos & Hi).
    apply list_elem_of_In, list_elem_of_fmap in Hos as ([l os'] & -> & Hin). cbn in Hi.
    exists l, os'. split; [done|by apply list_elem_of_In]. }
  intros i (l1 & os1 & H1 & Hi1)%Hin (l2 & os2 & H2 & Hi2)%Hin.
  by destruct (rep_order_unique b ls _ _ l1 l2 os1 os2 i Hr HB HS H1 H2 Hi1 Hi2) as (? & _).
Qed.

Lemma view_ids_NoDup b a : View b a -> NoDup (o_marketOrderId <$> all_orders a).
Proof.
  intros (ls & Hv & _).
  rewrite (all_orders_odata b ls) by done. pose proof (all_ids_NoDup b ls (vr_rep _ _ _ Hv)) as Hnd.
  induction Hnd as [|i l Hi Hnd IH]; [constructor|]. unfold odata in *. cbn.
  destruct (oh b !! i) as [o|] eqn:Ho; [|exact IH]. cbn. apply NoDup_cons. split; [|exact IH].
  intros (x & Hm & (j & Hj & Hx)%list_elem_of_omap)%list_elem_of_fmap.
  destruct (oh b !! j) as [y|] eqn:Hy; [|done]. cbn in Hx. apply (inj Some) in Hx. subst x.
  rewrite (rp_moid _ _ (vr_rep _ _ _ Hv) i j o y) in Hi; [done|done|done|exact Hm].
Qed.

Lemma NoDup_match t a :
  two_sided (t_side t) -> NoDup (o_marketOrderId <$> all_orders a) ->
  NoDup (o_marketOrderId <$> all_orders (a_match t a)).
Proof.
  intros Hs Hnd. rewrite (all_orders_match t a Hs), fmap_app in Hnd. by apply NoDup_app in Hnd as (_ & _ & ?).
Qed.

(** Market order ids are unique in the book and below the next one to be
    given out. *)
Theorem market_order_ids_unique b a :
  View b a -> NoDup (o_marketOrderId <$> all_orders a) /\
  Forall (fun o => o_marketOrderId o < nextMarketOid_ b) (all_orders a).
Proof.
  intros Hv. split; [by apply (view_ids_NoDup b)|]. destruct Hv as (ls & Hv & _).
  rewrite <- (vr_next _ _ _ Hv). by apply (view_ids_below b ls).
Qed.
(** The client map never dangles: every pointer stored for a client and an
    order id points to a live order of the book with that client, that id and
    the market order id the model records. *)
Theorem client_map_points_into_book b a c k i :
  View b a -> mapClientIdToOrder_ b !! (c, k) = Some i ->
  exists o, load_order i b = Ok (o, b) /\ client_key o = (c, k) /\
    unlinked o ∈ all_orders a /\ a_clients a !! (c, k) = Some (o_marketOrderId o).
Proof.
  intros (ls & Hv & _) Hi. destruct (rp_client _ _ (vr_rep _ _ _ Hv) _ _ _ Hi) as (o & Ho & Hc & Hk).
  exists o. split_and!.
  - assert (Hw : wp (load_order i) (fun x b' => x = o /\ b' = b) b) by (by apply (wp_load_order _ o)).
    by apply wp_ok in Hw as (? & ? & ? & -> & ->).
  - unfold client_key. by rewrite Hc, Hk.
  - by apply (alive_in_view b ls a i).
  - rewrite (vr_clients _ _ _ Hv). unfold client_moids. rewrite lookup_omap, Hi. cbn. by rewrite Ho.
Qed.

End Levels.

(** C4. Safety and consistency of whole sessions.  Every sequence of acceptable
    requests sent to a fresh book runs to its end without a null or dangling
    pointer, an access out of range, a read of unmapped memory, a failed assertion
    or exhaustion, and the book then shows what the reference model computes.  The market order ids of its orders are distinct and below
    the next one to be given; no level is empty, and the orders of a level are on
    its side, have a positive 32-bit quantity, and stand in strictly increasing
    priority, the order in which they are matched; and every pointer of the client
    map leads to a live order of that client and order id that is on the book. *)
Theorem sessions_keep_book_consistent {E} `{OmeSink E} `{StrayMemory OrderBook} ticker rs b (e : E) :
  newOrderBook ticker = Ok b -> acceptable_session ticker rs empty_book = true ->
  let a' := session_model ticker rs empty_book in
  exists b' e', run_session ticker rs (b, e) = Ok (tt, (b', e')) /\ View b' a' /\
    NoDup (o_marketOrderId <$> all_orders a') /\
    Forall (fun o => o_marketOrderId o < nextMarketOid_ b') (all_orders a') /\
    (forall sd p os, two_sided sd -> (p, os) ∈ a_side sd a' ->
       os <> [] /\ Forall (fun o => o_side o = sd /\ 0 < o_qty o < 2 ^ 32) os /\
       StronglySorted Z.lt (o_priority <$> os)) /\
    (forall c k i, mapClientIdToOrder_ b' !! (c, k) = Some i ->
       exists o, load_order i b' = Ok (o, b') /\ client_key o = (c, k) /\ unlinked o ∈ all_orders a').
Proof.
  intros Hb Hacc a'. pose proof (newOrderBook_view ticker b Hb) as Hv.
  assert (Hw : wp (run_session ticker rs) (fun _ w => View w.1 a') (b, e))
    by (by apply (wp_run_session ticker rs b e empty_book)).
  apply wp_ok in Hw as ([] & [b' e'] & Hrun & Hv'). cbn [fst] in Hv'.
  exists b', e'. split_and!; [done|done|..].
  - by apply (market_order_ids_unique b').
  - by apply (market_order_ids_unique b').
  - intros sd p os. by apply (level_orders_in_time_priority b').
  - intros c k i Hi. destruct (client_map_points_into_book b' _ c k i Hv' Hi) as (o & ? & ? & ? & _).
    by exists o.
Qed.

(** *** Prices in a window *)
Lemma slot_in_window lo p q :
  lo <= p < lo + MAX_PRICE_LEVELS -> lo <= q < lo + MAX_PRICE_LEVELS ->
  priceToIndex p = priceToIndex q -> p = q.
Proof.
  assert (Hmod : forall z, priceToIndex z = z mod 256).
  { intros z. unfold priceToIndex, wrapU. change MAX_PRICE_LEVELS with 256. symmetry.
    apply Znumtheory.Zmod_div_mod; [done|done|]. by exists (2 ^ 56). }
  rewrite !Hmod. change MAX_PRICE_LEVELS with 256. intros Hp Hq He.
  pose proof (Z.div_mod p 256). pose proof (Z.div_mod q 256).
  assert (p / 256 = q / 256 \/ p / 256 = q / 256 + 1 \/ q / 256 = p / 256 + 1) by lia. lia.
Qed.

Lemma sweep_levels_incl c s :
  (forall p os, (p, os) ∈ s -> os <> []) -> forall lv, lv ∈ (sweep c s).2 ->
  exists os, (lv.1, os) ∈ s /\ lv.2 <> [] /\ forall o, o ∈ lv.2 -> o ∈ os.
Proof.
  induction s as [|[p os] s IH]; intros Hne lv Hin; [by apply elem_of_nil in Hin|].
  cbn [sweep] in Hin. destruct (cross_prefix c os) as [m [|x r]] eqn:Ec.
  - destruct (sweep c s) as [m' s']. destruct (IH) with (lv := lv) as (os' & ? & ?); [|done|].
    + intros q js Hq. apply (Hne q). by apply list_elem_of_further.
    + exists os'. split; [by apply list_elem_of_further|done].
  - apply elem_of_cons in Hin as [->|Hin].
    + exists os. split; [apply list_elem_of_here|]. split; [done|].
      intros o Ho. destruct (cross_prefix_rest c os x r) as [_ H]; [by rewrite Ec|]. by apply H.
    + destruct lv as [q js]. exists js. split; [by apply list_elem_of_further|]. split; [|done].
      apply (Hne q). by apply list_elem_of_further.
Qed.

(** The slot a taker would rest in is free of opposite levels. *)
Lemma window_slot_free b a t lo :
  View b a -> two_sided (t_side t) -> t_qty t <> 0 ->
  (forall lv, lv ∈ a_side (opposite (t_side t)) a -> lo <= lv.1 < lo + MAX_PRICE_LEVELS) ->
  lo <= t_price t < lo + MAX_PRICE_LEVELS ->
  priced (a_side (opposite (t_side t)) a) ->
  sorted_side (opposite (t_side t)) (a_side (opposite (t_side t)) a).*1 ->
  forall lv, lv ∈ a_side (opposite (t_side t)) (a_match t a) -> in_slot (t_price t) lv = false.
Proof.
  intros (ls & Hv & _) Hs Hq Hwin Ht Hp Hso lv. unfold a_match.
  rewrite (proj2 (Z.eqb_neq _ _) Hq). pose proof (opposite_two_sided _ Hs) as Hsd.
  pose proof (sweep_uncrossed t _ Hs Hp Hso) as Hun.
  pose proof (sweep_levels_incl (taker_crosses t) (a_side (opposite (t_side t)) a)
                (fun p os => vr_nonempty b ls a _ p os Hv Hsd) lv) as Hincl.
  destruct (sweep (taker_crosses t) (a_side (opposite (t_side t)) a)) as [m s]. cbn [fst snd] in *.
  rewrite a_side_clients, set_a_side_eq by done. intros Hin. apply not_true_is_false.
  unfold in_slot. rewrite Z.eqb_eq. intros Hslot. destruct (Hincl Hin) as (os & Hos & Hne & Hsub).
  apply (slot_in_window lo) in Hslot; [|by apply (Hwin _ Hos)|done].
  destruct (lv.2) as [|o r] eqn:Elv; [done|].
  assert (Ho : o ∈ side_orders s).
  { unfold side_orders. apply list_elem_of_In, in_concat. exists lv.2. split.
    - apply list_elem_of_In, list_elem_of_fmap. eauto.
    - rewrite Elv. by left. }
  rewrite Forall_forall in Hun. specialize (Hun o Ho).
  unfold priced in Hp. rewrite Forall_forall in Hp. specialize (Hp _ Hos). cbn in Hp.
  rewrite Forall_forall in Hp. unfold taker_crosses in Hun.
  rewrite (Hp o), Hslot in Hun by (apply Hsub, list_elem_of_here).
  destruct Hs as [Hs|Hs]; rewrite Hs in Hun; cbn [reaches] in Hun; lia.
Qed.

(** C31. Orders inside a window of MAX_PRICE_LEVELS prices are safe.  If the
    opposite side is in strict price order with every order at its level's price,
    its prices and the new one lie in one window, the quantity is at most the part
    of the stack known to be mapped, client and order id are within the map, and
    ids and blocks are left, then the hash of prices never puts the order into a
    level of the other side: addOrder does not fault and does what the model
    says.  On a side out of order it can fault (hidden_ask_level_use_after_free of
    BookFaults.v). *)
Theorem orders_in_price_window_are_safe {E} `{OmeSink E} `{StrayMemory OrderBook}
    ticker b (e : E) a lo client oid side price qty :
  View b a -> side = Side.BUY \/ side = Side.SELL -> 0 < qty < 2 ^ 32 -> qty <= strayRoom ->
  a_next a + 1 < 2 ^ 64 -> client_in_range client oid = true -> Z.of_nat (length (all_orders a)) < MAX_ORDER_IDS ->
  (forall lv, lv ∈ a_side (opposite side) a -> lo <= lv.1 < lo + MAX_PRICE_LEVELS) ->
  lo <= price < lo + MAX_PRICE_LEVELS ->
  priced (a_side (opposite side) a) ->
  sorted_side (opposite side) (a_side (opposite side) a).*1 ->
  exists b' e', addOrder client oid ticker side price qty (b, e) = Ok (tt, (b', e')) /\
    View b' (a_add (taker_of ticker a client oid side price qty) a).
Proof.
  intros Hv Hs Hq Hst Hn Hcl Hroom Hwin Hpr Hp Hso.
  set (t := taker_of ticker a client oid side price qty).
  assert (Hw : wp (addOrder client oid ticker side price qty) (fun _ w => View w.1 (a_add t a)) (b, e)).
  { apply (wp_addOrder b e a t); try done; [cbn; lia|by apply mapped_small|]. intros _. split; [done| |].
    - apply (window_slot_free (set_nextOid (nextMarketOid_ b + 1) b) _ t lo); try done; [|cbn; lia].
      destruct Hv as (ls & Hv & Hpos). exists ls. split; [|done]. rewrite (vr_next _ _ _ Hv).
      pose proof (rp_next _ _ (vr_rep _ _ _ Hv)). rewrite (vr_next _ _ _ Hv) in Hn.
      apply (VRep_next b ls a _ Hv). lia.
    - pose proof (length_match t (set_a_next (a_next a + 1) a) Hs) as Hl.
      change (all_orders (set_a_next (a_next a + 1) a)) with (all_orders a) in Hl. lia. }
  apply wp_ok in Hw as ([] & [b' e'] & Hrun & Hv'). eauto.
Qed.

(** *** Witnesses *)
Definition demo : list request :=
  [New 1 1 Side.SELL 10 5; New 1 2 Side.SELL 12 7; New 2 1 Side.SELL 10 4; New 3 1 Side.BUY 8 6].
Definition demo_book : ABook := session_model 0 demo empty_book.

Lemma session_view rs : acceptable_session 0 rs empty_book = true ->
  exists b, View b (session_model 0 rs empty_book).
Proof.
  intros Hacc. destruct (newOrderBook_ok 0) as (lp & op & Hnew & _).
  assert (Hw : wp (run_session 0 rs) (fun _ w => View w.1 (session_model 0 rs empty_book))
                 (mkBook 0 ∅ None None ∅ lp op dflt dflt 1, @nil OmeEvent)).
  { by apply (wp_run_session 0 rs _ _ empty_book); [apply (newOrderBook_view 0)|..]. }
  apply wp_ok in Hw as ([] & [b e] & _ & Hv). by exists b.
Qed.

Lemma demo_view : exists b, View b demo_book.
Proof. by apply session_view. Qed.

Example add_order_refines_model_witness :
  exists b a, View b a /\
    exists b' ws, addOrder 4 9 0 Side.BUY 12 6 (b, @nil OmeEvent) =
      Ok (tt, (b', emits [] (add_events (taker_of 0 a 4 9 Side.BUY 12 6) a ws))) /\
    View b' (a_add (taker_of 0 a 4 9 Side.BUY 12 6) a) /\ length ws = 4%nat.
Proof.
  destruct demo_view as [b Hv]. exists b, demo_book. split; [done|].
  destruct (add_order_refines_model 0 b (@nil OmeEvent) demo_book 4 9 Side.BUY 12 6 Hv)
    as (b' & ws & Hrun & Hv' & _ & Hl); [vm_compute; reflexivity|].
  exists b', ws. split; [exact Hrun|]. split; [exact Hv'|]. rewrite Hl. vm_compute. reflexivity.
Defined.

Example cancel_order_refines_model_witness :
  exists b a, View b a /\ a_clients a !! (2, 1) = Some 3 /\
    exists b' e', cancelOrder 2 1 0 (b, @nil OmeEvent) = Ok (tt, (b', e')) /\
      View b' (a_cancel 2 1 a).
Proof.
  destruct demo_view as [b Hv]. exists b, demo_book. split; [done|].
  split; [vm_compute; reflexivity|].
  destruct (cancel_order_refines_model 0 b (@nil OmeEvent) demo_book 2 1 Hv)
    as (b' & e' & Hrun & Hv' & _); [vm_compute; reflexivity|].
  exists b', e'. split; [exact Hrun|exact Hv'].
Defined.

Example acceptable_sessions_never_fault_witness :
  exists b, newOrderBook 0 = Ok b /\
    exists b' e', run_session 0 (demo ++ [New 4 9 Side.BUY 12 6; Cancel 3 1; Cancel 3 1])
                    (b, @nil OmeEvent) = Ok (tt, (b', e')).
Proof.
  destruct (newOrderBook_ok 0) as (lp & op & Hnew & _). eexists. split; [exact Hnew|].
  destruct (acceptable_sessions_never_fault 0
    (demo ++ [New 4 9 Side.BUY 12 6; Cancel 3 1; Cancel 3 1]) _ (@nil OmeEvent) Hnew)
    as (b' & e' & Hrun & _); [vm_compute; reflexivity|].
  exists b', e'. exact Hrun.
Defined.

Example sessions_keep_book_consistent_witness :
  exists b, newOrderBook 0 = Ok b /\
    exists b' e' a', run_session 0 (demo ++ [New 4 9 Side.BUY 12 6; Cancel 3 1])
                    (b, @nil OmeEvent) = Ok (tt, (b', e')) /\ View b' a' /\
      (o_marketOrderId <$> all_orders a') = [5] /\ NoDup (o_marketOrderId <$> all_orders a').
Proof.
  destruct (newOrderBook_ok 0) as (lp & op & Hnew & _). eexists. split; [exact Hnew|].
  destruct (sessions_keep_book_consistent 0
    (demo ++ [New 4 9 Side.BUY 12 6; Cancel 3 1]) _ (@nil OmeEvent) Hnew)
    as (b' & e' & Hrun & Hv & Hnd & _); [vm_compute; reflexivity|].
  exists b', e', (session_model 0 (demo ++ [New 4 9 Side.BUY 12 6; Cancel 3 1]) empty_book).
  split; [exact Hrun|]. split; [exact Hv|]. split; [vm_compute; reflexivity|exact Hnd].
Defined.

Example find_match_terminates_quantity_unchanged_witness :
  exists b, View b demo_book /\ exists b' e',
    findMatch 4 9 0 Side.BUY 10 3 7 (b, @nil OmeEvent) = Ok (3, (b', e')).
Proof.
  destruct demo_view as [b Hv]. exists b. split; [done|].
  destruct (find_match_terminates_quantity_unchanged b (@nil OmeEvent) demo_book
    (mkTaker 4 9 0 Side.BUY 10 3 7) Hv) as (b' & ws & Hrun & _); [by left|cbn; lia|by apply mapped_small; vm_compute|].
  eexists _, _. exact Hrun.
Defined.

Lemma demo_asks_ordered : priced (a_asks demo_book) /\ sorted_side Side.SELL (a_asks demo_book).*1.
Proof. split; vm_compute; repeat constructor. Qed.

Example find_match_leaves_book_uncrossed_witness :
  exists b, View b demo_book /\ exists b' e' gone a',
    findMatch 4 9 0 Side.BUY 10 3 7 (b, @nil OmeEvent) = Ok (3, (b', e')) /\ View b' a' /\
    side_orders (a_asks demo_book) = gone ++ side_orders (a_asks a') /\
    Forall (fun o => ~ o_price o <= 10) (side_orders (a_asks a')).
Proof.
  destruct demo_view as [b Hv]. exists b. split; [done|].
  destruct (find_match_leaves_book_uncrossed b (@nil OmeEvent) demo_book
    (mkTaker 4 9 0 Side.BUY 10 3 7) Hv) as (b' & ws & gone & a' & Hrun & Hv' & Hsp & _ & Hun);
    [by left|cbn; lia|by apply mapped_small; vm_compute|apply demo_asks_ordered|apply demo_asks_ordered|].
  eexists b', _, gone, a'. split; [exact Hrun|]. split; [exact Hv'|]. split; [exact Hsp|exact Hun].
Defined.

Example find_match_conserves_resting_quantity_witness :
  exists b, View b demo_book /\ exists b' evs,
    findMatch 4 9 0 Side.BUY 10 3 7 (b, []) = Ok (3, (b', evs)) /\ traded evs = 9.
Proof.
  destruct demo_view as [b Hv]. exists b. split; [done|].
  destruct (find_match_conserves_resting_quantity b [] demo_book (mkTaker 4 9 0 Side.BUY 10 3 7) Hv)
    as (b' & evs & Hrun & Ht & _); [by left|cbn; lia|by apply mapped_small; vm_compute|].
  exists b', evs. split; [exact Hrun|]. rewrite Ht. vm_compute. reflexivity.
Defined.

Example new_level_keeps_order_iff_witness :
  exists b, View b demo_book /\ exists b' e' a',
    addOrder 5 1 0 Side.SELL 30 2 (b, @nil OmeEvent) = Ok (tt, (b', e')) /\ View b' a' /\
    ~ sorted_side Side.SELL (a_asks a').*1.
Proof.
  destruct demo_view as [b Hv]. exists b. split; [done|].
  destruct (new_level_keeps_order_iff 0 b (@nil OmeEvent) demo_book 5 1 Side.SELL 30 2 Hv)
    as (b' & e' & a' & Hrun & Hv' & _ & Hiff).
  - vm_compute. reflexivity.
  - done.
  - intros lv Hin. apply negb_true_iff.
    apply (forallb_elem (fun lv => negb (in_slot 30 lv)) (a_asks demo_book)); [reflexivity|exact Hin].
  - apply demo_asks_ordered.
  - exists b', e', a'. split; [exact Hrun|]. split; [exact Hv'|]. intros Hso.
    apply Hiff in Hso as [Hle|(lv & Hin & Hf)]; [vm_compute in Hle; lia|].
    pose proof (forallb_elem (fun lv => lv.1 <? 30) (a_asks demo_book)
      eq_refl lv Hin) as Ht. cbn in Ht, Hf. lia.
Defined.

Example level_orders_in_time_priority_witness :
  exists b os, View b demo_book /\ a_asks demo_book !! 0%nat = Some (10, os) /\
    StronglySorted Z.lt (o_priority <$> os) /\ length os = 2%nat.
Proof.
  destruct demo_view as [b Hv]. eexists b, _. split; [done|].
  split; [vm_compute; reflexivity|]. split; [|reflexivity].
  apply (level_orders_in_time_priority b demo_book Side.SELL 10 _ Hv); [by right|].
  vm_compute. left.
Defined.

Example market_order_ids_unique_witness :
  exists b, View b demo_book /\ NoDup (o_marketOrderId <$> all_orders demo_book) /\
    length (all_orders demo_book) = 4%nat.
Proof.
  destruct demo_view as [b Hv]. exists b. split; [done|].
  split; [apply (market_order_ids_unique b demo_book Hv)|vm_compute; reflexivity].
Defined.

Example client_map_points_into_book_witness :
  exists b i o, View b demo_book /\ mapClientIdToOrder_ b !! (2, 1) = Some i /\
    load_order i b = Ok (o, b) /\ client_key o = (2, 1).
Proof.
  destruct demo_view as [b Hv].
  assert (Hi : exists i, mapClientIdToOrder_ b !! (2, 1) = Some i).
  { destruct Hv as (ls & Hv & _). pose proof (vr_clients _ _ _ Hv) as Hc.
    apply (f_equal (.!! (2, 1))) in Hc. unfold client_moids in Hc. rewrite lookup_omap in Hc.
    destruct (mapClientIdToOrder_ b !! (2, 1)); [eauto|]. vm_compute in Hc. done. }
  destruct Hi as [i Hi].
  destruct (client_map_points_into_book b demo_book 2 1 i Hv Hi) as (o & Ho & Hk & _).
  exists b, i, o. split_and!; [exact Hv|exact Hi|exact Ho|exact Hk].
Defined.

Example orders_in_price_window_are_safe_witness :
  exists b, View b demo_book /\ exists b' e',
    addOrder 6 2 0 Side.BUY 11 9 (b, @nil OmeEvent) = Ok (tt, (b', e')).
Proof.
  destruct demo_view as [b Hv]. exists b. split; [done|].
  destruct (orders_in_price_window_are_safe 0 b (@nil OmeEvent) demo_book 0 6 2 Side.BUY 11 9 Hv)
    as (b' & e' & Hrun & _).
  - by left.
  - lia.
  - by vm_compute.
  - vm_compute. reflexivity.
  - reflexivity.
  - vm_compute. reflexivity.
  - intros lv Hin. change MAX_PRICE_LEVELS with 256.
    pose proof (forallb_elem (fun lv => (0 <=? lv.1) && (lv.1 <? 256)) (a_asks demo_book)
      eq_refl lv Hin) as Ht. cbn beta in Ht. lia.
  - change MAX_PRICE_LEVELS with 256. lia.
  - apply demo_asks_ordered.
  - apply demo_asks_ordered.
  - exists b', e'. exact Hrun.
Defined.
