(* ===== verification/BookTyping.v ===== *)
(** The types of what the book stores and sends: every field of a resting order
    and of every message fits the width of its C++ type, so that a message on the
    wire can be read back.  The reference model computes with unbounded integers;
    these theorems show that on acceptable requests nothing it computes wraps. *)

From S2P Require Import Prelude Types Messages Ring Orders OrderBook BookLevels BookModel BookRep BookSpec BookTheorems.
#[local] Open Scope Z_scope.

Definition order_typed (o : Order) : Prop :=
  in_u 32 (o_tickerId o) /\ in_u 32 (o_clientId o) /\ in_u 64 (o_clientOrderId o) /\
  in_u 64 (o_marketOrderId o) /\ two_sided (o_side o) /\ in_s64 (o_price o) /\
  in_u 32 (o_qty o) /\ in_u 64 (o_priority o).

Definition book_typed (a : ABook) : Prop := Forall order_typed (all_orders a).
Definition price_typed (lv : level) : Prop := in_s64 lv.1.
Definition prices_typed (a : ABook) : Prop := Forall price_typed (a_bids a ++ a_asks a).

(** The orders and the levels in use in the pools, and the counter of ids. *)
Record heap_typed (b : OrderBook) : Prop := {
  ht_order i o : oh b !! i = Some o -> order_typed o;
  ht_level l lv : lh b !! l = Some lv -> two_sided (l_side lv) /\ in_s64 (l_price lv);
  ht_next : in_u 64 (nextMarketOid_ b);
}.

Definition event_typed (ev : OmeEvent) : Prop :=
  match ev with
  | Resp r => response_ok r
  | Upd u => update_ok u
  end.

(** The arguments of a request, as its message struct types them. *)
Definition request_typed (r : request) : Prop :=
  match r with
  | New client oid side price qty => in_u 32 client /\ in_u 64 oid /\ in_s64 price
  | Cancel client oid => in_u 32 client /\ in_u 64 oid
  end.

Section Members.
Implicit Types (s : list level) (a : ABook) (t : Taker) (o : Order).

Lemma elem_of_side_orders o s : o ∈ side_orders s <-> exists p os, (p, os) ∈ s /\ o ∈ os.
Proof.
  unfold side_orders. rewrite list_elem_of_In, in_concat. split.
  - intros (os & Hos & Ho). apply list_elem_of_In, list_elem_of_fmap in Hos as ([p os'] & -> & Hin).
    exists p, os'. split; [done|by apply list_elem_of_In].
  - intros (p & os & Hin & Ho). exists os. split; [|by apply list_elem_of_In].
    apply list_elem_of_In, list_elem_of_fmap. by exists (p, os).
Qed.

(** What matching, resting and cancelling can leave on a side. *)
Lemma insertLevel_in (wr : level -> bool) n s : n ∈ insertLevel wr n s.
Proof. apply elem_of_insertLevel. by left. Qed.

Lemma elem_of_place o s x : x ∈ side_orders (place o s) <-> x = o \/ x ∈ side_orders s.
Proof.
  rewrite !elem_of_side_orders. unfold place. destruct (existsb (in_slot (o_price o)) s) eqn:Hex.
  - set (f := fun lv : level => if in_slot (o_price o) lv then (lv.1, lv.2 ++ [o]) else lv).
    assert (Hf : forall p os, (p, os) ∈ s -> (p, (f (p, os)).2) ∈ f <$> s).
    { intros p os Hin. apply list_elem_of_fmap. exists (p, os). unfold f. by destruct (in_slot _ _). }
    split.
    + intros (p & os & ([q os'] & He & Hin)%list_elem_of_fmap & Hx). unfold f in He.
      destruct (in_slot (o_price o) (q, os')); injection He as -> ->; [|by right; exists q, os'].
      apply elem_of_app in Hx as [Hx| ->%list_elem_of_singleton]; [right; by exists q, os'|by left].
    + intros [->|(p & os & Hin & Hx)].
      * apply existsb_exists in Hex as ([p os] & Hin%list_elem_of_In & Hs).
        eexists p, _. split; [by apply Hf|]. unfold f. rewrite Hs. cbn. set_solver.
      * eexists p, _. split; [by apply Hf|]. unfold f. destruct (in_slot _ _); cbn; set_solver.
  - split.
    + intros (p & os & [[= -> ->]|Hin]%elem_of_insertLevel & Hx); [left; set_solver|right; by exists p, os].
    + intros [->|(p & os & Hin & Hx)].
      * exists (o_price o), [o]. split; [apply elem_of_insertLevel; by left|by apply list_elem_of_singleton].
      * exists p, os. split; [apply elem_of_insertLevel; by right|done].
Qed.

Lemma elem_of_without moid s x :
  x ∈ side_orders (without moid s) <-> x ∈ side_orders s /\ o_marketOrderId x <> moid.
Proof.
  rewrite !elem_of_side_orders. unfold without. split.
  - intros (p & os & ([q os'] & Hin & Hs)%list_elem_of_bind & Hx). cbn in Hin.
    destruct (filter _ os') as [|y l] eqn:Hf; cbn in Hin; [by apply elem_of_nil in Hin|].
    apply list_elem_of_singleton in Hin as [= -> ->]. rewrite <- Hf in Hx.
    apply list_elem_of_filter in Hx as [? ?]. split; [by exists q, os'|done].
  - intros [(p & os & Hin & Hx) Hne]. set (f := filter (fun o => o_marketOrderId o <> moid) os).
    assert (Hf : x ∈ f) by (by apply list_elem_of_filter). exists p, f. split; [|done].
    apply list_elem_of_bind. exists (p, os). split; [|done]. cbn. fold f.
    destruct f; [by apply elem_of_nil in Hf|]. by apply list_elem_of_singleton.
Qed.

(** The orders of a book, by side. *)
Lemma elem_of_sides sd a o : two_sided sd ->
  o ∈ all_orders a <-> o ∈ side_orders (a_side sd a) \/ o ∈ side_orders (a_side (opposite sd) a).
Proof. unfold all_orders. intros [-> | ->]; rewrite elem_of_app; [done|apply or_comm]. Qed.

Lemma elem_of_cancel client oid a o :
  o ∈ all_orders (a_cancel client oid a) <->
  o ∈ all_orders a /\ a_clients a !! (client, oid) <> Some (o_marketOrderId o).
Proof.
  unfold a_cancel. destruct (a_clients a !! (client, oid)) as [moid|]; [|naive_solver].
  unfold all_orders. cbn [a_bids a_asks]. rewrite !elem_of_app, !elem_of_without. naive_solver.
Qed.

Lemma elem_of_rest t a o :
  two_sided (t_side t) -> o ∈ all_orders (a_rest t a) <-> o = rested t a \/ o ∈ all_orders a.
Proof.
  intros Hs. unfold a_rest. fold (rested t a).
  match goal with |- _ ∈ all_orders (set_a_clients ?m ?a') <-> _ =>
    change (all_orders (set_a_clients m a')) with (all_orders a') end.
  rewrite !(elem_of_sides (t_side t)), set_a_side_eq by done.
  rewrite (set_a_side_ne _ (opposite (t_side t)));
    [|done|by apply opposite_two_sided|by destruct Hs as [E|E]; rewrite E].
  rewrite elem_of_place. tauto.
Qed.

End Members.

(** ** Orders *)

(** What the view of a book does not say about its orders. *)
Definition stamped (o : Order) : Prop := in_u 32 (o_tickerId o) /\ in_s64 (o_price o).

Lemma client_range_typed c k : client_in_range c k = true -> in_u 32 c /\ in_u 64 k.
Proof.
  unfold client_in_range. rewrite !andb_true_iff, !Z.leb_le, !Z.ltb_lt. intros [[[? Hc] ?] Hk].
  change MAX_N_CLIENTS with (2 ^ 8) in Hc. change MAX_ORDER_IDS with (2 ^ 20) in Hk.
  assert (2 ^ 8 < 2 ^ 32) by done. assert (2 ^ 20 < 2 ^ 64) by done. unfold in_u. lia.
Qed.

Lemma view_typed b a : View b a -> Forall stamped (all_orders a) -> book_typed a.
Proof.
  intros (ls & Hv & _) Hst. pose proof (vr_rep _ _ _ Hv) as Hr. apply Forall_forall. intros o Ho.
  rewrite Forall_forall in Hst. destruct (Hst o Ho) as [Ht Hp].
  destruct (in_view_alive _ _ _ _ Hv Ho) as (i & x & Hx & Hu).
  destruct (rp_order _ _ Hr i x Hx) as [Hq Hc Hpr Hm]. pose proof (rp_next _ _ Hr) as Hn.
  destruct (rp_alive _ _ Hr i x Hx) as (sd & l & os & Hsd & Hin & Hi).
  destruct (rep_alive_in b ls sd l os Hr Hsd Hin) as [_ Hal].
  destruct (Hal i Hi) as (x' & Hx' & Hs). rewrite Hx in Hx'. injection Hx' as <-. subst o.
  cbn in Ht, Hp. unfold order_typed, in_u in *. cbn.
  destruct (client_range_typed _ _ Hc) as [Hc1 Hc2]. unfold in_u in *.
  rewrite Hs. split_and!; try done; lia.
Qed.

Lemma typed_stamped a : book_typed a -> Forall stamped (all_orders a).
Proof. intros Ht. eapply Forall_impl; [exact Ht|]. by intros o (? & _ & _ & _ & _ & ? & _). Qed.

(** ** Levels *)
Lemma sweep_prices c s : Forall price_typed s -> Forall price_typed (sweep c s).2.
Proof.
  induction s as [|[p os] s IH]; [done|]. intros [Hp Hs]%Forall_cons. cbn [sweep].
  destruct (cross_prefix c os) as [m [|x r]]; [|by constructor].
  specialize (IH Hs). by destruct (sweep c s).
Qed.
Lemma place_prices o s : in_s64 (o_price o) -> Forall price_typed s -> Forall price_typed (place o s).
Proof.
  intros Ho Hs. unfold place. destruct (existsb _ s).
  - apply Forall_fmap. eapply Forall_impl; [exact Hs|]. intros lv Hlv. cbn. by destruct (in_slot _ lv).
  - apply Forall_forall. intros lv [->|Hin]%elem_of_insertLevel; [done|].
    rewrite Forall_forall in Hs. by apply Hs.
Qed.
Lemma without_prices moid s : Forall price_typed s -> Forall price_typed (without moid s).
Proof.
  rewrite !Forall_forall. intros Hs lv ([p os] & Hlv & Hin)%list_elem_of_bind. cbn in Hlv.
  destruct (filter _ os); [by apply elem_of_nil in Hlv|]. apply list_elem_of_singleton in Hlv as ->.
  by apply (Hs (p, os)).
Qed.

Lemma prices_typed_sides a : prices_typed a <-> forall sd, two_sided sd -> Forall price_typed (a_side sd a).
Proof.
  unfold prices_typed. rewrite Forall_app. split.
  - intros [Hb Ha] sd [-> | ->]; done.
  - intros Hs. by split; [apply (Hs Side.BUY); left|apply (Hs Side.SELL); right].
Qed.
Lemma prices_typed_set_side sd s a :
  two_sided sd -> Forall price_typed s -> prices_typed a -> prices_typed (set_a_side sd s a).
Proof.
  rewrite !prices_typed_sides. intros Hsd Hs Ha sd' Hsd'. destruct (decide (sd' = sd)) as [->|Hne].
  - by rewrite set_a_side_eq.
  - rewrite set_a_side_ne by done. by apply Ha.
Qed.

Lemma model_prices_typed ticker r a :
  match r with New _ _ side price _ => two_sided side /\ in_s64 price | Cancel _ _ => True end ->
  prices_typed a -> prices_typed (run_model ticker r a).
Proof.
  destruct r as [client oid side price qty|client oid]; cbn [run_model].
  - intros [Hs Hp] Ha. set (t := taker_of ticker a client oid side price qty). unfold a_add.
    assert (Hm : prices_typed (a_match t (set_a_next (a_next a + 1) a))).
    { unfold a_match. destruct (t_qty t =? 0); [done|].
      pose proof (sweep_prices (taker_crosses t) (a_side (opposite (t_side t)) a)) as Hsw.
      change (a_side _ (set_a_next _ a)) with (a_side (opposite (t_side t)) a).
      destruct (sweep _ _) as [m s]. cbn [snd] in Hsw. pose proof (opposite_two_sided _ Hs) as Hop.
      change (prices_typed (set_a_side (opposite side) s (set_a_next (a_next a + 1) a))).
      apply prices_typed_set_side; [done| |done]. apply Hsw. by apply prices_typed_sides. }
    destruct (t_qty t =? 0); [done|]. unfold a_rest.
    match goal with |- prices_typed (set_a_clients ?m ?a') => change (prices_typed a') end.
    apply prices_typed_set_side; [done| |done]. apply place_prices; [done|].
    by apply prices_typed_sides.
  - intros _ Ha. unfold a_cancel. destruct (a_clients a !! (client, oid)); [|done].
    unfold prices_typed in *. cbn. apply Forall_app in Ha as [? ?].
    apply Forall_app. by split; apply without_prices.
Qed.

(** The heap is typed when the visible book is. *)
Lemma view_heap_typed b a : View b a -> (heap_typed b <-> book_typed a /\ prices_typed a).
Proof.
  intros (ls & Hv & _). pose proof (vr_rep _ _ _ Hv) as Hr. pose proof (rp_levels _ _ Hr) as Hl. split.
  - intros [Ho Hlv _]. split.
    + apply Forall_forall. intros o (i & x & Hx & Hu)%(in_view_alive _ _ _ _ Hv).
      subst o. exact (Ho i x Hx).
    + apply prices_typed_sides. intros sd Hsd. rewrite (vr_side _ _ _ Hv) by done.
      apply Forall_fmap, Forall_forall. intros [l os] Hin. unfold price_typed. cbn.
      destruct (rp_level _ _ Hr sd l os Hsd Hin) as [(lv & Hx & _) _ _ _].
      unfold level_price. rewrite Hx. by apply (Hlv l).
  - intros [Ho Hp]. split.
    + intros i x Hx. destruct (rp_alive _ _ Hr i x Hx) as (sd & l & os & Hsd & Hin & Hi).
      unfold book_typed in Ho. rewrite Forall_forall in Ho. change (order_typed (unlinked x)). apply Ho.
      apply (elem_of_sides sd); [done|]. left. apply elem_of_side_orders.
      exists (level_price (lh b) l), (odata b os). rewrite (vr_side _ _ _ Hv) by done. split.
      * apply list_elem_of_fmap. by exists (l, os).
      * apply list_elem_of_omap. exists i. split; [done|]. by rewrite Hx.
    + intros l lv Hx. destruct (lr_alive _ _ Hl l lv Hx) as (sd & Hsd & Hin).
      destruct (lr_side _ _ Hl sd l Hsd Hin) as (lv' & Hx' & Hside).
      rewrite Hx in Hx'. injection Hx' as <-. split; [by rewrite Hside|].
      apply list_elem_of_fmap in Hin as ([l' os] & -> & Hin). cbn in Hx.
      rewrite prices_typed_sides in Hp. specialize (Hp sd Hsd). rewrite (vr_side _ _ _ Hv) in Hp by done.
      rewrite Forall_forall in Hp. specialize (Hp (level_price (lh b) l', odata b os)).
      unfold price_typed, level_price in Hp. cbn in Hp. rewrite Hx in Hp. apply Hp.
      apply list_elem_of_fmap. exists (l', os). cbn. unfold level_price. by rewrite Hx.
    + pose proof (rp_next _ _ Hr). unfold in_u. lia.
Qed.

(** ** Messages *)
Lemma two_sided_valid sd : two_sided sd -> Side.valid sd.
Proof. by intros [-> | ->]. Qed.
#[local] Hint Resolve two_sided_valid : core.

(** A message whose fields are typed by the context. *)
Ltac typed_event :=
  cbn; unfold response_ok, update_ok; cbn; split_and?; auto; try done.

Lemma price_invalid_typed : in_s64 Price_INVALID.
Proof. done. Qed.

Lemma fill_seq_range qty n : 0 <= qty -> forall q, 0 <= q ->
  Forall (fun f => 0 <= f.1 <= q /\ 0 <= f.2 <= q) (fill_seq n qty q).
Proof.
  intros Hqty. induction n as [|n IH]; intros q Hq; [constructor|]. cbn [fill_seq].
  constructor; [cbn; lia|]. destruct (_ =? 0); [constructor|].
  eapply Forall_impl; [apply (IH (q - Z.min qty q)); lia|]. cbn. intros f. lia.
Qed.

Lemma sweep_fills_range qty os :
  0 <= qty -> Forall order_typed os ->
  Forall (fun f => order_typed f.1 /\ in_u 32 f.2.1 /\ in_u 32 f.2.2) (sweep_fills qty os).
Proof.
  intros Hq Hos. unfold sweep_fills. induction Hos as [|o os Ho _ IH]; [constructor|].
  cbn [fmap list_fmap concat]. apply Forall_app. split; [|done].
  unfold order_fills. apply Forall_fmap. pose proof Ho as (H1 & H2 & H3 & H4 & H5 & H6 & H7 & H8).
  eapply Forall_impl; [apply (fill_seq_range qty _ Hq (o_qty o)); apply H7|].
  unfold in_u in H7 |- *. cbn. intros f Hf. split; [done|]. lia.
Qed.

Record taker_typed (t : Taker) : Prop := {
  tt_client : in_u 32 (t_client t);
  tt_oid : in_u 64 (t_oid t);
  tt_ticker : in_u 32 (t_ticker t);
  tt_side : two_sided (t_side t);
  tt_price : in_s64 (t_price t);
  tt_qty : in_u 32 (t_qty t);
  tt_moid : in_u 64 (t_moid t);
}.

Lemma fill_events_typed t f w :
  taker_typed t -> order_typed f.1 /\ in_u 32 f.2.1 /\ in_u 32 f.2.2 -> word w ->
  Forall event_typed (fill_events t f w).
Proof.
  intros [] ((? & ? & ? & ? & ? & ? & ? & ?) & ? & ?) Hw. destruct f as [o [fill rem]]. cbn [fst snd] in *.
  assert (Hinv : in_u 64 OrderID_INVALID /\ in_u 64 Priority_INVALID) by done. destruct Hinv.
  unfold fill_events. destruct (rem =? 0); repeat (apply Forall_cons; split); try constructor;
    typed_event.
Qed.

Lemma match_events_typed t fs ws :
  taker_typed t -> Forall (fun f => order_typed f.1 /\ in_u 32 f.2.1 /\ in_u 32 f.2.2) fs ->
  Forall word ws -> Forall event_typed (match_events t fs ws).
Proof.
  intros Ht Hf. revert ws. induction Hf as [|f fs Hx _ IH]; intros ws Hw; [constructor|].
  destruct Hw as [|w ws Hw Hws]; [constructor|]. rewrite match_events_cons.
  apply Forall_app. split; [by apply fill_events_typed|by apply IH].
Qed.

Lemma matched_typed t a :
  two_sided (t_side t) -> book_typed a -> Forall order_typed (matched t a).
Proof.
  intros Hs Ht. apply Forall_forall. intros o Ho. unfold book_typed in Ht. rewrite Forall_forall in Ht.
  by apply Ht, (matched_incl t).
Qed.

Lemma reject_event_typed client oid ticker :
  in_u 32 client -> in_u 64 oid -> in_u 32 ticker -> event_typed (reject_event client oid ticker).
Proof. intros. unfold reject_event. typed_event. Qed.

Lemma cancel_events_typed client oid ticker o :
  in_u 32 client -> in_u 64 oid -> in_u 32 ticker -> order_typed o ->
  Forall event_typed (cancel_events client oid ticker o).
Proof.
  intros ? ? ? (? & ? & ? & ? & ? & ? & ? & ?). unfold cancel_events.
  repeat (apply Forall_cons; split); [| |constructor]; typed_event.
Qed.

(** ** Requests and sessions *)
Section Requests.
Context {E : Type} `{OmeSink E} `{StrayMemory OrderBook}.
Implicit Types (b : OrderBook) (e : E) (a : ABook).

Lemma add_events_typed b' t a ws :
  taker_typed t -> book_typed a -> View b' (a_add t a) -> Forall word ws ->
  Forall event_typed (add_events t a ws) /\ book_typed (a_add t a).
Proof.
  intros Ht Ha Hv Hws. pose proof (tt_side _ Ht) as Hs.
  set (a1 := set_a_next (a_next a + 1) a).
  assert (Ha1 : book_typed a1) by done.
  assert (Hnew : book_typed (a_add t a)).
  { apply (view_typed b'); [done|]. apply Forall_forall. intros o Ho.
    apply typed_stamped in Ha. rewrite Forall_forall in Ha. unfold a_add in Ho. fold a1 in Ho.
    destruct (t_qty t =? 0).
    - by apply Ha, (elem_of_match t a1).
    - apply elem_of_rest in Ho as [->|Ho]; [|by apply Ha, (elem_of_match t a1)|done].
      split; [apply Ht|apply Ht]. }
  split; [|done]. unfold add_events. fold a1. apply Forall_cons. split.
  { unfold accept_event. destruct Ht. typed_event. }
  apply Forall_app. split.
  - apply match_events_typed; [done| |done].
    apply sweep_fills_range; [apply Ht|]. by apply matched_typed.
  - unfold a_add in Hnew. fold a1 in Hnew. destruct (t_qty t =? 0); [constructor|].
    apply Forall_cons. split; [|constructor].
    unfold book_typed in Hnew. rewrite Forall_forall in Hnew.
    destruct (Hnew (rested t (a_match t a1))) as (_ & _ & _ & _ & _ & _ & _ & Hpr);
      [apply elem_of_rest; [done|by left]|]. unfold add_event.
    destruct Ht. typed_event.
Qed.

Lemma wp_request_typed ticker r b e a (Q : unit -> OrderBook * E -> Prop) :
  View b a -> book_typed a -> in_u 32 ticker -> request_typed r -> acceptable ticker r a = true ->
  (forall b' evs, View b' (run_model ticker r a) -> book_typed (run_model ticker r a) ->
     Forall event_typed evs -> Q tt (b', emits e evs)) ->
  wp (run_request ticker r) Q (b, e).
Proof.
  intros Hv Ha Htk Hr Hacc HQ. destruct r as [client oid side price qty|client oid]; cbn [run_request].
  - apply acceptable_new in Hacc as (Hs & Hq & Hn & Hmap & Hcr). destruct Hr as (Hc & Ho & Hp).
    assert (Ht : taker_typed (taker_of ticker a client oid side price qty)).
    { split; try done. cbn. destruct Hv as (ls & Hv & _). rewrite (vr_next _ _ _ Hv).
      pose proof (rp_next _ _ (vr_rep _ _ _ Hv)). unfold in_u. lia. }
    apply (wp_addOrder b e a (taker_of ticker a client oid side price qty)); try done.
    intros b' ws Hv' _ Hws.
    destruct (add_events_typed b' _ a ws Ht Ha Hv' Hws). by apply HQ.
  - destruct Hr as [Hc Ho]. apply (wp_cancelOrder b e a); [done| |].
    { intros Hlt. cbn [acceptable] in Hacc. apply orb_true_iff in Hacc as [Hx|Hx];
        [apply Z.leb_le in Hx|apply Z.ltb_lt in Hx]; lia. }
    intros b' Hv'.
    assert (Ha' : book_typed (a_cancel client oid a)).
    { apply (view_typed b'); [done|]. apply Forall_forall. intros o Hin.
      apply typed_stamped in Ha. rewrite Forall_forall in Ha. by apply elem_of_cancel in Hin as [? _]; apply Ha. }
    destruct (a_clients a !! (client, oid)).
    + intros o Hin _ _. apply HQ; [done|done|]. unfold book_typed in Ha. rewrite Forall_forall in Ha.
      apply cancel_events_typed; auto.
    + apply HQ; [done|done|]. apply Forall_cons. split; [|constructor]. by apply reject_event_typed.
Qed.

Lemma wp_session_typed ticker rs : forall b e a (Q : unit -> OrderBook * E -> Prop),
  View b a -> book_typed a -> in_u 32 ticker -> Forall request_typed rs ->
  acceptable_session ticker rs a = true ->
  (forall b' evs, View b' (session_model ticker rs a) -> book_typed (session_model ticker rs a) ->
     Forall event_typed evs -> Q tt (b', emits e evs)) ->
  wp (run_session ticker rs) Q (b, e).
Proof.
  induction rs as [|r rs IH]; intros b e a Q Hv Ha Htk Hrs Hacc HQ;
    cbn [run_session session_model acceptable_session] in *.
  - apply wp_ret. by apply (HQ b []).
  - apply andb_true_iff in Hacc as [Hr Hacc]. apply Forall_cons in Hrs as [Hr1 Hrs]. wp_step.
    apply (wp_request_typed ticker r b e a); try done. intros b1 evs1 Hv1 Ha1 Hev1.
    apply (IH b1 _ (run_model ticker r a)); try done. intros b2 evs2 Hv2 Ha2 Hev2.
    rewrite <- emits_app. apply HQ; [done|done|]. by apply Forall_app.
Qed.

Lemma session_prices_typed ticker rs : forall a,
  Forall request_typed rs -> acceptable_session ticker rs a = true ->
  prices_typed a -> prices_typed (session_model ticker rs a).
Proof.
  induction rs as [|r rs IH]; intros a Hrs Hacc Ha; cbn [session_model acceptable_session] in *; [done|].
  apply andb_true_iff in Hacc as [Hr Hacc]. apply Forall_cons in Hrs as [Hr1 Hrs].
  apply IH; [done|done|]. apply model_prices_typed; [|done].
  destruct r as [client oid side price qty|]; [|done]. apply acceptable_new in Hr as [Hs _].
  by destruct Hr1 as (_ & _ & ?).
Qed.

(** C26. Type safety of sessions.  From a book whose resting orders, levels and
    next id fit their C++ types, acceptable requests whose arguments fit theirs
    leave such a book, and every response and market update sent on the way fits
    the width of its fields: read back from its wire representation, each is the
    message that was sent. *)
Theorem sessions_stay_typed ticker rs b e a :
  View b a -> heap_typed b -> in_u 32 ticker -> Forall request_typed rs ->
  acceptable_session ticker rs a = true ->
  exists b' evs, run_session ticker rs (b, e) = Ok (tt, (b', emits e evs)) /\
    View b' (session_model ticker rs a) /\ heap_typed b' /\
    Forall event_typed evs /\
    (forall r, Resp r ∈ evs -> response_decode (response_encode r) = Ok (r, [])) /\
    (forall u, Upd u ∈ evs -> update_decode (update_encode u) = Ok (u, [])).
Proof.
  intros Hv Hht Htk Hrs Hacc. destruct (proj1 (view_heap_typed b a Hv) Hht) as [Ha Hp].
  assert (Hw : wp (run_session ticker rs) (fun _ w => exists b' evs, w = (b', emits e evs) /\
     View b' (session_model ticker rs a) /\ book_typed (session_model ticker rs a) /\
     Forall event_typed evs) (b, e)).
  { apply (wp_session_typed ticker rs b e a); try done. intros b' evs Hv' Ha' Hev. by exists b', evs. }
  apply wp_ok in Hw as ([] & w & Hrun & b' & evs & -> & Hv' & Ha' & Hev). exists b', evs.
  assert (Hht' : heap_typed b') by (apply (view_heap_typed b' _ Hv'); split; [done|by apply session_prices_typed]).
  split_and!; try done; rewrite Forall_forall in Hev.
  - intros r Hr%Hev. rewrite <- (app_nil_r (response_encode r)). by apply response_decode_encode.
  - intros u Hu%Hev. rewrite <- (app_nil_r (update_encode u)). by apply update_decode_encode.
Qed.

End Requests.

#[local] Existing Instance zeroStray.

Lemma sessions_stay_typed_witness :
  exists b, View b empty_book /\
  exists b' evs, run_session 0 demo (b, @nil OmeEvent) = Ok (tt, (b', emits [] evs)) /\
    View b' demo_book /\ heap_typed b'.
Proof.
  destruct (newOrderBook_ok 0) as (lp & op & Hnew & _).
  pose proof (newOrderBook_view 0 _ Hnew) as Hv. eexists. split; [exact Hv|].
  destruct (sessions_stay_typed 0 demo _ (@nil OmeEvent) empty_book Hv) as (b' & evs & Hrun & Hv' & Ha & _).
  - apply (view_heap_typed _ _ Hv). split; constructor.
  - done.
  - by repeat constructor.
  - reflexivity.
  - by exists b', evs.
Defined.
