(* ===== verification/BookStray.v ===== *)
(** The read through matchOrder's moved pointer, and what depends on it.

    matchOrder subtracts the filled quantity from its pointer parameter, so every
    fill reads a word of the stack that is not the taker's quantity.  The other
    files assume memory where the fills read ([mapped], a part of [acceptable]).
    Here the memory is arbitrary: two memories that agree where both are mapped
    give runs that agree until one of them reads where nothing is mapped, so that
    read is the only way in which an otherwise acceptable session can fail. *)

From S2P Require Import Prelude MemoryPool Types Messages Ring Orders OrderBook BookLevels BookModel BookRep BookSpec BookTheorems.
#[local] Open Scope Z_scope.

(** ** Runs that agree up to a bad read *)
Section Agrees.
Context {S : Type}.

(** [m] does what [m'] does, or ends in a bad read. *)
Definition agrees {A} (m m' : M S A) : Prop := forall s, m s = m' s \/ faults m s BadRead.

Lemma agrees_refl {A} (m : M S A) : agrees m m.
Proof. by left. Qed.

Lemma agrees_bind {A B} (m m' : M S A) (f f' : A -> M S B) :
  agrees m m' -> (forall a, agrees (f a) (f' a)) -> agrees (m ≫= f) (m' ≫= f').
Proof.
  intros Hm Hf s. destruct (Hm s) as [Hs|Hs]; [|by right; apply faults_bind_l].
  unfold mbind, M_bind, faults. rewrite Hs. destruct (m' s) as [[a s']|]; [apply Hf|by left].
Qed.

Lemma agrees_bind_r {A B} (m : M S A) (f f' : A -> M S B) :
  (forall a, agrees (f a) (f' a)) -> agrees (m ≫= f) (m ≫= f').
Proof. apply agrees_bind, agrees_refl. Qed.

End Agrees.

(** [H'] is [H] with every unmapped word replaced by zero, all of it mapped. *)
Definition filled {S} (H : StrayMemory S) : StrayMemory S := {|
  strayWord s k := Some (default 0 (strayWord s k));
  strayRoom := 2 ^ 32;
  strayWord_mapped _ _ _ := mk_is_Some _ _ eq_refl;
|}.

Section Stray.
Context {E : Type} `{OmeSink E} {Hmem : StrayMemory OrderBook}.
Implicit Types (b : OrderBook) (e : E) (a : ABook) (t : Taker).

Notation full := (filled Hmem).

Lemma matchOrder_agrees tk c sd oid moid i q :
  agrees (matchOrder (E := E) tk c sd oid moid i q) (matchOrder (H0 := full) tk c sd oid moid i q).
Proof.
  unfold matchOrder. do 4 (apply agrees_bind_r; intros ?). apply agrees_bind; [|intros; apply agrees_refl].
  intros s. destruct (Z.min _ _ =? 0); [by left|]. cbn [strayWord filled].
  destruct (strayWord _ _); [by left|by right].
Qed.

Lemma findMatchLoop_agrees fuel c oid tk sd price q moid :
  agrees (findMatchLoop (E := E) fuel c oid tk sd price q moid)
    (findMatchLoop (H0 := full) fuel c oid tk sd price q moid).
Proof.
  induction fuel as [|fuel IH]; [apply agrees_refl|]. cbn [findMatchLoop].
  apply agrees_bind_r; intros b. destruct (oppositeBest sd b); [|apply agrees_refl].
  destruct (q =? 0); [apply agrees_refl|]. do 3 (apply agrees_bind_r; intros ?).
  destruct (crosses _ _ _); [|apply agrees_refl]. apply agrees_bind; [apply matchOrder_agrees|intros; apply IH].
Qed.

Lemma run_request_agrees ticker r :
  agrees (run_request (E := E) ticker r) (run_request (H0 := full) ticker r).
Proof.
  destruct r as [client oid side price qty|client oid]; cbn [run_request]; [|apply agrees_refl].
  unfold addOrder. do 2 (apply agrees_bind_r; intros ?). apply agrees_bind; [|intros; apply agrees_refl].
  unfold findMatch. apply agrees_bind_r; intros ?. apply findMatchLoop_agrees.
Qed.

Lemma run_session_agrees ticker rs :
  agrees (run_session (E := E) ticker rs) (run_session (H0 := full) ticker rs).
Proof.
  induction rs as [|r rs IH]; [apply agrees_refl|]. cbn [run_session].
  apply agrees_bind; [apply run_request_agrees|intros; apply IH].
Qed.

(** ** The first fill of a crossing order *)
Lemma first_match_unmapped b e ls a t p o os s :
  VRep b ls a -> two_sided (t_side t) -> 0 < t_qty t < 2 ^ 32 -> 0 < o_qty o ->
  a_side (opposite (t_side t)) a = (p, o :: os) :: s -> taker_crosses t o = true ->
  (forall b', strayWord b' (Z.min (t_qty t) (o_qty o)) = None) ->
  faults (findMatch (t_client t) (t_oid t) (t_ticker t) (t_side t) (t_price t) (t_qty t) (t_moid t))
    (b, e) BadRead.
Proof.
  intros Hv Hs Hq Hqo Ha Hc Hno. pose proof (opposite_two_sided _ Hs) as Hop.
  destruct (vr_head _ _ _ _ _ _ _ _ Hv Hop Ha)
    as (l & i & o2 & L2 & oc & lv & _ & Hoc & Hu & Hlv & H0' & Hbest & _).
  assert (Ho : o_qty oc = o_qty o) by (by rewrite <- Hu).
  unfold findMatch, matchFuel. apply faults_bind, wp_on_book, wp_get. cbn [findMatchLoop].
  apply faults_bind, wp_on_book, wp_get. rewrite opposite_best, Hbest by done.
  rewrite (proj2 (Z.eqb_neq (t_qty t) 0)) by lia.
  apply faults_bind, wp_on_book, (wp_load_level _ lv); [done|]. rewrite H0'.
  apply faults_bind, wp_nonnull, faults_bind, wp_on_book, (wp_load_order _ oc); [done|].
  assert (Hcr : crosses (t_side t) (t_price t) (o_price oc) = true)
    by (by rewrite crosses_reaches, <- Hc, <- Hu).
  rewrite Hcr. apply faults_bind_l. unfold matchOrder.
  apply faults_bind, wp_on_book, (wp_load_order _ oc); [done|].
  apply faults_bind, wp_on_book, wp_upd_order; [eauto|].
  apply faults_bind, wp_on_book, wp_get.
  apply faults_bind, wp_on_book, (wp_load_order _ (order_set_qty (u32 (o_qty oc - Z.min (t_qty t) (o_qty oc))) oc)).
  { bcbn. live_simpl. by rewrite lookup_alter_eq, Hoc. }
  apply faults_bind_l. rewrite Ho, (proj2 (Z.eqb_neq _ 0)) by lia. by rewrite Hno.
Qed.

(** ** What holds in any memory *)

(** C10. findMatch ends, whatever the book, the quantity and the memory below its
    variable: with the quantity it was given and, unless that is 0, with the
    orders at the front of the opposite side filled completely, one after the
    other, and removed, up to the first one the taker's price does not reach
    (what is behind it stays, reached or not); or with the read of an unmapped
    word, which needs a fill larger than the words that are known to be mapped. *)
Theorem find_match_ends b e a t :
  View b a -> two_sided (t_side t) -> 0 <= t_qty t < 2 ^ 32 ->
  (exists b' ws,
    findMatch (t_client t) (t_oid t) (t_ticker t) (t_side t) (t_price t) (t_qty t) (t_moid t) (b, e)
      = Ok (t_qty t, (b', emits e (match_events t (sweep_fills (t_qty t) (matched t a)) ws))) /\
    View b' (a_match t a) /\
    matched t a ++ side_orders (a_side (opposite (t_side t)) (a_match t a)) =
      side_orders (a_side (opposite (t_side t)) a) /\
    (0 < t_qty t ->
       Forall (fun o => reaches (t_side t) (t_price t) (o_price o) = true) (matched t a) /\
       forall o os, side_orders (a_side (opposite (t_side t)) (a_match t a)) = o :: os ->
         reaches (t_side t) (t_price t) (o_price o) = false) /\
    (t_qty t = 0 -> matched t a = [])) \/
  faults (findMatch (t_client t) (t_oid t) (t_ticker t) (t_side t) (t_price t) (t_qty t) (t_moid t))
    (b, e) BadRead /\ ~ mapped (sweep_fills (t_qty t) (matched t a)).
Proof.
  intros Hv Hs Hq.
  assert (Hw : wp (findMatch (H0 := full) (t_client t) (t_oid t) (t_ticker t) (t_side t) (t_price t)
      (t_qty t) (t_moid t)) (fun q w => q = t_qty t /\ View w.1 (a_match t a) /\ exists ws,
      w.2 = emits e (match_events t (sweep_fills (t_qty t) (matched t a)) ws)) (b, e)).
  { apply (wp_findMatch b e a t); [done|done|done|apply mapped_small; cbn; lia|].
    intros b' ws _ _ Hv'. split_and!; eauto. }
  apply wp_ok in Hw as (q & [b' e'] & Hrun & -> & Hv' & ws & He). cbn in Hv', He. subst e'.
  assert (Hag : agrees (findMatch (E := E) (t_client t) (t_oid t) (t_ticker t) (t_side t) (t_price t) (t_qty t) (t_moid t))
    (findMatch (H0 := full) (t_client t) (t_oid t) (t_ticker t) (t_side t) (t_price t) (t_qty t) (t_moid t))).
  { unfold findMatch. apply agrees_bind_r; intros ?. apply findMatchLoop_agrees. }
  destruct (Hag (b, e)) as [Heq|Hbad]; [left|right].
  - exists b', ws. rewrite Heq. split_and!; [done|done|by apply matched_split|by apply matched_reached|].
    intros Hq0. unfold matched. by rewrite Hq0.
  - split; [done|]. intros Hmap. enough (wp (findMatch (t_client t) (t_oid t) (t_ticker t) (t_side t)
      (t_price t) (t_qty t) (t_moid t)) (fun _ _ => True) (b, e)) as Hok by (unfold wp in Hok; by rewrite Hbad in Hok).
    by apply (wp_findMatch b e a t).
Qed.

(** A crossing order whose first fill reads where nothing is mapped. *)
Lemma crossing_order_bad_read ticker b e a client oid side price qty p o os s :
  View b a -> two_sided side -> 0 < qty < 2 ^ 32 -> a_next a + 1 < 2 ^ 64 ->
  a_side (opposite side) a = (p, o :: os) :: s -> reaches side price (o_price o) = true ->
  (forall b', strayWord b' (Z.min qty (o_qty o)) = None) ->
  faults (addOrder client oid ticker side price qty) (b, e) BadRead.
Proof.
  intros Hv Hs Hq Hn Ha Hc Hno. pose proof (view_positive b a Hv) as Hpos.
  destruct Hv as (ls & Hv & _). pose proof (rp_next _ _ (vr_rep _ _ _ Hv)) as Hnb.
  pose proof (vr_next _ _ _ Hv) as Hnx.
  assert (Hqo : 0 < o_qty o).
  { rewrite Forall_forall in Hpos. apply Hpos. unfold all_orders. rewrite elem_of_app.
    assert (Hin : o ∈ side_orders (a_side (opposite side) a)) by (rewrite Ha; apply list_elem_of_here).
    by destruct Hs as [-> | ->]; [right|left]. }
  unfold addOrder. apply faults_bind, wp_on_book. unfold getNewMarketOrderId. wp_steps.
  rewrite wrapU_small by lia. apply faults_bind, wp_respond. rewrite <- Hnx. apply faults_bind_l.
  apply (first_match_unmapped _ _ ls (set_a_next (a_next a + 1) a)
    (mkTaker client oid ticker side price qty (a_next a)) p o os s); try done.
  apply (VRep_core (set_nextOid (a_next a + 1) b)); [done|]. rewrite Hnx. apply (VRep_next b ls a _ Hv). lia.
Qed.

(** C37. The read through matchOrder's moved pointer is the one way in which a
    session can fail.  In any memory a session whose requests are acceptable apart
    from that read ends in the reference model's state or with the read of an
    unmapped word; and it fails so as soon as an order crosses the best resting
    one and the word that lies as far below as the quantity filled is unmapped. *)
Theorem stray_read_is_the_only_fault ticker rs b e a :
  View b a -> acceptable_session (H := full) ticker rs a = true ->
  ((exists b' e', run_session ticker rs (b, e) = Ok (tt, (b', e')) /\
      View b' (session_model ticker rs a)) \/
   faults (run_session ticker rs) (b, e) BadRead) /\
  (forall client oid side price qty rs' p o os s,
     rs = New client oid side price qty :: rs' -> qty <> 0 ->
     a_side (opposite side) a = (p, o :: os) :: s -> reaches side price (o_price o) = true ->
     (forall b', strayWord b' (Z.min qty (o_qty o)) = None) ->
     faults (run_session ticker rs) (b, e) BadRead).
Proof.
  intros Hv Hacc. split.
  - destruct (run_session_agrees ticker rs (b, e)) as [Heq|?]; [left|by right].
    assert (Hw : wp (run_session (H0 := full) ticker rs) (fun _ w => View w.1 (session_model ticker rs a)) (b, e))
      by (by apply (wp_run_session ticker rs b e a)).
    apply wp_ok in Hw as ([] & [b' e'] & Hrun & Hv'). exists b', e'. by rewrite Heq.
  - intros client oid side price qty rs' p o os s -> Hq0 Ha Hc Hno.
    cbn [acceptable_session] in Hacc. apply andb_true_iff in Hacc as [Hacc _].
    apply acceptable_new in Hacc as (Hs & Hq & Hn & _). apply faults_bind_l.
    apply (crossing_order_bad_read ticker b e a client oid side price qty p o os s); try done. lia.
Qed.

End Stray.

(** *** Witnesses *)

(** A stack whose 64 words below the variable are mapped, and nothing else. *)
Definition shallow : StrayMemory OrderBook.
Proof.
  refine {| strayWord _ k := if (0 <? k) && (k <=? 64) then Some 7 else None; strayRoom := 64 |}.
  intros _ k Hk. replace ((0 <? k) && (k <=? 64)) with true by lia. by eexists.
Defined.

Example find_match_ends_witness :
  exists b, View b demo_book /\
    ((exists b' ws, findMatch (H0 := shallow) 4 9 0 Side.BUY 10 3 7 (b, @nil OmeEvent) =
        Ok (3, (b', emits [] (match_events (mkTaker 4 9 0 Side.BUY 10 3 7)
          (sweep_fills 3 (matched (mkTaker 4 9 0 Side.BUY 10 3 7) demo_book)) ws)))) \/
     faults (findMatch (H0 := shallow) 4 9 0 Side.BUY 10 3 7) (b, @nil OmeEvent) BadRead).
Proof.
  destruct demo_view as [b Hv]. exists b. split; [done|].
  destruct (find_match_ends (Hmem := shallow) b (@nil OmeEvent) demo_book
    (mkTaker 4 9 0 Side.BUY 10 3 7) Hv) as [(b' & ws & Hrun & _)|[Hbad _]]; [by left|cbn; lia|left|by right].
  exists b', ws. exact Hrun.
Defined.

(** An ask of 100 and a bid of 100: the fill reads 100 words below. *)
Example stray_read_is_the_only_fault_witness :
  exists b, View b (session_model 0 [New 1 1 Side.SELL 10 100] empty_book) /\
    faults (run_session (H0 := shallow) 0 [New 2 1 Side.BUY 10 100; Cancel 2 1]) (b, @nil OmeEvent) BadRead.
Proof.
  destruct (session_view [New 1 1 Side.SELL 10 100]) as [b Hv]; [vm_compute; reflexivity|].
  exists b. split; [exact Hv|].
  destruct (stray_read_is_the_only_fault (Hmem := shallow) 0 [New 2 1 Side.BUY 10 100; Cancel 2 1] b
    (@nil OmeEvent) _ Hv) as [_ Hbad]; [vm_compute; reflexivity|].
  eapply (Hbad 2 1 Side.BUY 10 100); [reflexivity|lia|vm_compute; reflexivity|vm_compute; reflexivity|].
  intros b'. vm_compute. reflexivity.
Defined.
