(* ===== verification/BookFaults.v ===== *)
(** Requests the book does not guard against: what the code does with an order
    of an unknown client, a repeated order id, an order id beyond the array, two
    prices in one slot, and levels linked out of order. *)

From S2P Require Import Prelude MemoryPool Types Messages Ring Orders OrderBook BookLevels BookModel BookRep BookSpec BookTheorems BookStray BookTyping.
#[local] Open Scope Z_scope.

Section Faults.
Context {E : Type} `{OmeSink E} `{StrayMemory OrderBook}.
Implicit Types (b : OrderBook) (e : E) (a : ABook) (t : Taker).

(** *** The client and the order id *)

Lemma faults_on_book {A} (m : M OrderBook A) b e x : faults m b x -> faults (on_book m) (b, e) x.
Proof. unfold faults, on_book, zoom. cbn. by intros ->. Qed.

(** A taker rests, with room in the pool: its order gets a block [i] that was
    free, and addOrderToBook runs on the book with that order in the pool. *)
Definition taker_order t (priority : Z) : Order :=
  mkOrder (t_ticker t) (t_client t) (t_oid t) (t_moid t) (t_side t) (t_price t) (t_qty t) priority None None.

Lemma rest_allocated b ls e a t :
  VRep b ls a -> Z.of_nat (length (all_orders a)) < MAX_ORDER_IDS ->
  exists pr i p, oh b !! i = None /\ live p = <[i := taker_order t pr]> (oh b) /\ pool_ok p /\
    totalBlocks_ p = MAX_ORDER_IDS /\
    rest_phase t (b, e) =
      (on_book (addOrderToBook i);;
       set_marketUpdate (mkUpdate UpdateType.ADD (t_moid t) (t_ticker t) (t_side t) (t_price t)
                           (t_qty t) pr);;
       publish) (set_orderPool p b, e).
Proof.
  intros Hv Hroom. pose proof (vr_rep _ _ _ Hv) as Hr.
  assert (Hw : wp (getNextPriority (t_price t)) (fun _ b' => b' = b) b)
    by (by apply (wp_getNextPriority b ls)).
  apply wp_ok in Hw as (pr & ? & Hpr & ->).
  assert (Hw : wp (zoom orderPool_ set_orderPool (allocate (taker_order t pr))) (fun q b' => exists i p,
      q = Some i /\ b' = set_orderPool p b /\ oh b !! i = None /\
      live p = <[i := taker_order t pr]> (oh b) /\ pool_ok p /\ totalBlocks_ p = MAX_ORDER_IDS) b).
  { apply (wp_alloc_order (taker_order t pr)); [apply (rp_pool _ _ Hr)|by apply (pool_room b ls a)|].
    intros i p Hpok Hi Hlive Htot. exists i, p. split_and!; try done. rewrite Htot. apply (rp_total _ _ Hr). }
  apply wp_ok in Hw as (? & ? & Hal & i & p & -> & -> & Hi & Hlive & Hok & Htot).
  exists pr, i, p. split_and!; try done. unfold rest_phase.
  rewrite (bind_ok _ _ _ pr (b, e)) by (unfold on_book, zoom; cbn; by rewrite Hpr).
  rewrite (bind_ok _ _ _ (Some i) (set_orderPool p b, e)); [done|].
  unfold on_book. unfold zoom at 1. cbn [fst snd]. unfold taker_order in Hal. by rewrite Hal.
Qed.

(** A new order with quantity rests after its matching. *)
Lemma addOrder_rests b e a t :
  View b a -> two_sided (t_side t) -> 0 < t_qty t < 2 ^ 32 -> t_moid t = a_next a -> a_next a + 1 < 2 ^ 64 ->
  mapped (new_fills t a) ->
  exists b1 ls e1, VRep b1 ls (after_match t a) /\
    addOrder (t_client t) (t_oid t) (t_ticker t) (t_side t) (t_price t) (t_qty t) (b, e) =
      rest_phase t (b1, e1).
Proof.
  intros Hv Hs Hq Hm Hn Hmap.
  destruct (addOrder_matched b e a t) as (b1 & ws & (ls & Hv1 & _) & _ & _ & ->); try done; [lia|].
  rewrite (proj2 (Z.eqb_neq (t_qty t) 0)) by lia. eauto.
Qed.

(** Distinct orders of the visible book are distinct live blocks. *)
Lemma all_orders_le_size b a : View b a -> (length (all_orders a) <= size (oh b))%nat.
Proof.
  intros Hv. pose proof (view_ids_NoDup b a Hv) as Hnd. destruct Hv as (ls & Hv & _).
  rewrite <- (length_fmap o_marketOrderId), <- length_map_to_list,
    <- (length_fmap (fun ix : Z * Order => o_marketOrderId ix.2)).
  apply submseteq_length, NoDup_submseteq; [done|].
  intros m (o & -> & (i & x & Hx & Hu)%(in_view_alive _ _ _ _ Hv))%list_elem_of_fmap.
  apply list_elem_of_fmap. exists (i, x). split; [by subst o|by apply elem_of_map_to_list].
Qed.

(** Without a free block the pointer of the new order is null. *)
Lemma rest_full b e a t :
  View b a -> Z.of_nat (length (all_orders a)) = MAX_ORDER_IDS -> faults (rest_phase t) (b, e) NullDeref.
Proof.
  intros Hview Hfull. pose proof (all_orders_le_size b a Hview) as Hle.
  destruct Hview as (ls & Hv & _). pose proof (vr_rep _ _ _ Hv) as Hr.
  assert (Hw : wp (getNextPriority (t_price t)) (fun _ b' => b' = b) b)
    by (by apply (wp_getNextPriority b ls)).
  unfold rest_phase. apply faults_bind, wp_on_book. eapply wp_mono; [exact Hw|]. intros pr ? ->.
  apply faults_bind, wp_on_book, wp_zoom, wp_ok. exists None, (orderPool_ b).
  split; [apply allocate_full|by apply faults_bind_l].
  rewrite (ok_count _ (rp_pool _ _ Hr)), (rp_total _ _ Hr). pose proof (size_all_orders _ _ _ Hv). lia.
Qed.

(** C38. addOrder does not check the client.  On every book, a client id of
    MAX_N_CLIENTS or more, or an order id of MAX_ORDER_IDS or more, makes no
    difference until the new order rests: without quantity it is accepted like any
    other; when it crosses the best resting order, the fill's stray read, if it
    finds no memory, comes first; when no block is left after the matching, the
    null pointer of the allocation comes first; and when the stray reads find
    memory and a block is left, addOrder ends in the access outside the client's
    row of the map, or outside the map. *)
Theorem unknown_client_writes_out_of_bounds ticker b e a client oid side price qty :
  View b a -> side = Side.BUY \/ side = Side.SELL -> 0 <= qty < 2 ^ 32 -> a_next a + 1 < 2 ^ 64 ->
  client_in_range client oid = false ->
  let t := taker_of ticker a client oid side price qty in
  let left := Z.of_nat (length (all_orders (after_match t a))) in
  (qty = 0 ->
     exists b', addOrder client oid ticker side price qty (b, e) = Ok (tt, (b', emits e [accept_event t])) /\
       View b' (set_a_next (a_next a + 1) a)) /\
  (0 < qty ->
     (forall p o os s,
        a_side (opposite side) a = (p, o :: os) :: s -> reaches side price (o_price o) = true ->
        (forall b', strayWord b' (Z.min qty (o_qty o)) = None) ->
        faults (addOrder client oid ticker side price qty) (b, e) BadRead) /\
     (mapped (new_fills t a) -> left = MAX_ORDER_IDS ->
        faults (addOrder client oid ticker side price qty) (b, e) NullDeref) /\
     (mapped (new_fills t a) -> left < MAX_ORDER_IDS ->
        faults (addOrder client oid ticker side price qty) (b, e) OutOfBounds)).
Proof.
  intros Hv Hs Hq Hn Hcl. cbn zeta. set (t := taker_of ticker a client oid side price qty). split.
  - intros ->. destruct (addOrder_matched b e a t) as (b1 & ws & Hv1 & Hl & _ & Hrun);
      [done|done|done|done|done|constructor|]. exists b1. split; [|exact Hv1].
    cbn [t_qty taker_of t] in Hrun. by destruct ws.
  - intros Hpos. assert (Hpos' : 0 < t_qty t < 2 ^ 32) by (cbn; lia). split; [|split].
    + intros p o os s. apply (crossing_order_bad_read ticker b e a client oid side price qty p o os s); done || lia.
    + intros Hmap Hfull.
      destruct (addOrder_matched b e a t) as (b1 & ws & Hv1 & _ & _ & Hrun); try done.
      rewrite (proj2 (Z.eqb_neq (t_qty t) 0)) in Hrun by lia.
      etransitivity; [exact Hrun|]. by apply (rest_full b1 _ (after_match t a) t).
    + intros Hmap Hroom. destruct (addOrder_rests b e a t) as (b1 & ls & e1 & Hv1 & Hrun); try done.
      destruct (rest_allocated b1 ls e1 (after_match t a) t Hv1 Hroom)
        as (pr & i & p & Hi & Hlive & Hok & Htot & Hrest).
      etransitivity; [exact Hrun|]. rewrite Hrest. apply faults_bind_l, faults_on_book.
      by apply (addOrderToBook_unknown_client b1 ls i (taker_order t pr) p (vr_rep _ _ _ Hv1)).
Qed.

(** *** A repeated order id *)




(** *** Two prices in one slot *)

(** Prices that differ by a multiple of MAX_PRICE_LEVELS share a level.  When
    the new order's own side has a level in the slot of its price, the order
    joins that level at the end, at whatever price the level stands; if the two
    prices differ, the side no longer holds every order at its level's price. *)
Theorem colliding_price_joins_level ticker b e a client oid side price qty p os :
  View b a -> acceptable ticker (New client oid side price qty) a = true -> qty <> 0 ->
  (p, os) ∈ a_side side a -> priceToIndex p = priceToIndex price ->
  exists b' e' a' o, addOrder client oid ticker side price qty (b, e) = Ok (tt, (b', e')) /\
    View b' a' /\ (p, os ++ [o]) ∈ a_side side a' /\ o_price o = price /\ o_qty o = qty /\
    (p <> price -> ~ priced (a_side side a')).
Proof.
  intros Hv Hacc Hq Hin Hp. set (t := taker_of ticker a client oid side price qty).
  pose proof (acceptable_new ticker a client oid side price qty Hacc) as (Hs & Hqr & Hn & Hmap & Hcr).
  assert (Hw : wp (addOrder client oid ticker side price qty) (fun _ w => View w.1 (a_add t a)) (b, e))
    by (by apply (wp_addOrder b e a t)).
  apply wp_ok in Hw as ([] & [b' e'] & Hrun & Hv'). cbn [fst] in Hv'.
  set (a1 := after_match t a) in *. set (o := rested t a1).
  assert (Hside : a_side side (a_add t a) = place o (a_side side a)).
  { unfold a_add. fold (after_match t a). fold a1. change (t_qty t) with qty.
    rewrite (proj2 (Z.eqb_neq _ _) Hq). unfold a_rest. rewrite a_side_clients.
    change (t_side t) with side. rewrite set_a_side_eq by done. unfold o, rested.
    change (t_side t) with side. f_equal. unfold a1, after_match.
    exact (a_side_own_match t (set_a_next (a_next a + 1) a) Hs). }
  assert (Hl : (p, os ++ [o]) ∈ a_side side (a_add t a)).
  { assert (Hslot : in_slot (o_price o) (p, os) = true) by (unfold in_slot; by apply Z.eqb_eq).
    rewrite Hside. unfold place.
    replace (existsb (in_slot (o_price o)) (a_side side a)) with true.
    - apply list_elem_of_fmap. exists (p, os). by rewrite Hslot.
    - symmetry. apply existsb_exists. exists (p, os). split; [by apply list_elem_of_In|done]. }
  exists b', e', (a_add t a), o. split_and!; try done.
  intros Hne Hpr. unfold priced in Hpr. rewrite Forall_forall in Hpr. specialize (Hpr _ Hl). cbn in Hpr.
  rewrite Forall_forall in Hpr. specialize (Hpr o). apply Hne. symmetry. apply Hpr. set_solver.
Qed.

(** *** A slot held by the other side *)

Lemma opposite_ne sd : two_sided sd -> opposite sd <> sd.
Proof. by intros [-> | ->]. Qed.

(** An order stored in a level of the other side: the slot of its price holds a
    level of side [opposite (o_side o)], the client's slot holds the order, and
    the order closes the circle of the level's first order. *)
Definition joined_opposite (b : OrderBook) (o : Order) : Prop :=
  exists l lv j x first y,
    mapPriceToPriceLevel_ b !! priceToIndex (o_price o) = Some l /\ lh b !! l = Some lv /\
    l_side lv = opposite (o_side o) /\
    mapClientIdToOrder_ b !! (o_clientId o, o_clientOrderId o) = Some j /\ oh b !! j = Some x /\
    unlinked x = unlinked o /\ l_order0 lv = Some first /\ oh b !! first = Some y /\ o_prev y = Some j.

(** Such a book represents nothing: its order would be in a level of its own side. *)
Lemma joined_opposite_no_view b o a : two_sided (o_side o) -> joined_opposite b o -> ~ View b a.
Proof.
  intros Hs (l & lv & j & x & first & y & Hm & Hlv & Hsd & _ & Hx & Hu & _) (ls & Hv & _).
  pose proof (vr_rep _ _ _ Hv) as Hr. symmetry in Hu.
  apply unlinked_order_eq in Hu as (_ & _ & _ & _ & Hside & Hprice & _).
  destruct (rp_alive _ _ Hr j x Hx) as (sd & l' & os & Hsd' & Hin & Hj).
  destruct (lp_level _ _ _ _ _ (rp_level _ _ Hr _ _ _ Hsd' Hin)) as (lv' & Hlv' & Hs' & _ & Hos).
  destruct (Hos j Hj) as (x' & Hx' & Hxs & Hxp). simplify_eq.
  assert (Hm' : mapPriceToPriceLevel_ b !! priceToIndex (o_price x) = Some l').
  { apply (lr_map _ _ (rp_levels _ _ Hr)). by exists lv'. }
  assert (l' = l) as -> by congruence. apply (opposite_ne (o_side o)); [done|congruence].
Qed.

(** Linking an order into the level found in its slot. *)
Lemma wp_join_opposite b ls i o p (Q : unit -> OrderBook -> Prop) l os :
  Rep b ls -> two_sided (o_side o) -> (l, os) ∈ ls (opposite (o_side o)) ->
  priceToIndex (level_price (lh b) l) = priceToIndex (o_price o) -> oh b !! i = None ->
  live p = <[i := o]> (oh b) -> pool_ok p -> totalBlocks_ p = MAX_ORDER_IDS ->
  client_in_range (o_clientId o) (o_clientOrderId o) = true ->
  (forall b', joined_opposite b' o -> Q tt b') ->
  wp (addOrderToBook i) Q (set_orderPool p b).
Proof.
  intros Hr Hs Hin Hslot Hi Hlp Hok Htot Hcl HQ. pose proof (opposite_two_sided _ Hs) as Hop.
  destruct (rp_level _ _ Hr _ _ _ Hop Hin) as [(lv & Hlv & Hsd & Hfirst & _) Hne _ _].
  assert (Hm : mapPriceToPriceLevel_ b !! priceToIndex (o_price o) = Some l).
  { apply (lr_map _ _ (rp_levels _ _ Hr)). exists lv. split; [done|].
    unfold level_price in Hslot. by rewrite Hlv in Hslot. }
  destruct os as [|i0 os]; [done|]. apply list_elem_of_split in Hin as (L1 & L2 & Hls).
  apply (wp_join_level b ls _ L1 l (i0 :: os) L2 i o p Q Hr Hop Hls Hm Hi Hlp Hok Htot Hcl).
  intros p' _ _ Hh Hring _. apply HQ.
  destruct (ring_last (live p') i0 (os ++ [i]) i Hring (last_snoc i (i0 :: os))) as [Hpv _].
  symmetry in Hh. destruct (heap_eq_lookup _ _ i o Hh) as (x & Hx & Hu); [by rewrite lookup_insert_eq|].
  unfold pv in Hpv. destruct (live p' !! i0) as [y|] eqn:Hy; [|done].
  exists l, lv, i, x, i0, y. split_and!; try done. bcbn. apply lookup_insert_eq.
Qed.

(** C36. An order joins a level of the other side.  When the matching leaves a level
    of the opposite side in the slot of the new order's price (it did not cross,
    or it was not reached), addOrder puts the order into that level: the slot
    keeps a level of the opposite side, the new order closes the circle of its
    first order, and no abstract book describes the result, so that every later
    guarantee is lost. *)
Theorem order_joins_opposite_level ticker b e a client oid side price qty lv :
  View b a -> side = Side.BUY \/ side = Side.SELL -> 0 < qty < 2 ^ 32 -> a_next a + 1 < 2 ^ 64 ->
  mapped (new_fills (taker_of ticker a client oid side price qty) a) ->
  client_in_range client oid = true ->
  Z.of_nat (length (all_orders (after_match (taker_of ticker a client oid side price qty) a))) <
    MAX_ORDER_IDS ->
  lv ∈ a_side (opposite side) (after_match (taker_of ticker a client oid side price qty) a) ->
  in_slot price lv = true ->
  exists b' e' o, addOrder client oid ticker side price qty (b, e) = Ok (tt, (b', e')) /\
    o_side o = side /\ o_price o = price /\ o_qty o = qty /\ client_key o = (client, oid) /\
    joined_opposite b' o /\ forall a', ~ View b' a'.
Proof.
  intros Hv Hs Hq Hn Hmap Hcl Hroom Hin Hslot. set (t := taker_of ticker a client oid side price qty) in *.
  destruct (addOrder_rests b e a t) as (b1 & ls & e1 & Hv1 & Hrun); try done.
  destruct (rest_allocated b1 ls e1 (after_match t a) t Hv1 Hroom)
    as (pr & i & p & Hi & Hlive & Hok & Htot & Hrest).
  rewrite (vr_side _ _ _ Hv1) in Hin by (by apply opposite_two_sided).
  apply list_elem_of_fmap in Hin as ([l os] & -> & Hin).
  assert (Hw : wp (rest_phase t) (fun _ w => joined_opposite w.1 (taker_order t pr)) (b1, e1)).
  { unfold wp. rewrite Hrest. apply wp_bind, wp_on_book.
    apply (wp_join_opposite b1 ls i (taker_order t pr) p _ l os); try done;
      [apply (vr_rep _ _ _ Hv1)|by apply Z.eqb_eq in Hslot]. }
  apply wp_ok in Hw as ([] & [b' e'] & Hfin & Hj). exists b', e', (taker_order t pr).
  split_and!; try done; [by etransitivity; [exact Hrun|]|].
  intros a'. by apply joined_opposite_no_view with (taker_order t pr).
Qed.

(** *** The quantity of the taker *)

Lemma all_orders_rest t a b :
  two_sided (t_side t) -> ids_below (t_moid t) a -> NoDup (o_marketOrderId <$> all_orders a) ->
  View b (a_rest t a) -> all_orders (a_rest t a) ≡ₚ rested t a :: all_orders a.
Proof.
  intros Hs Hb Hnd Hv. pose proof (view_ids_NoDup _ _ Hv) as Hnd'. apply NoDup_Permutation.
  - by eapply NoDup_fmap_1.
  - apply NoDup_cons. split; [|by eapply NoDup_fmap_1]. intros Hin.
    unfold ids_below in Hb. rewrite Forall_forall in Hb. specialize (Hb _ Hin).
    change (o_marketOrderId (rested t a)) with (t_moid t) in Hb. lia.
  - intros o. by rewrite elem_of_rest, elem_of_cons by done.
Qed.

(** What addOrder reports as traded. *)
Lemma traded_add b t a ws :
  View b a -> two_sided (t_side t) -> 0 < t_qty t ->
  length ws = length (sweep_fills (t_qty t) (matched t (set_a_next (a_next a + 1) a))) ->
  traded (add_events t a ws) = total_qty (matched t (set_a_next (a_next a + 1) a)).
Proof.
  intros Hv Hs Hq Hl. set (a1 := set_a_next (a_next a + 1) a) in *. unfold add_events. fold a1.
  rewrite (proj2 (Z.eqb_neq _ _)) by lia.
  change (traded (match_events t (sweep_fills (t_qty t) (matched t a1)) ws ++
    [add_event t (rested t (a_match t a1))]) = total_qty (matched t a1)).
  rewrite traded_app, traded_match by done. unfold traded at 1. cbn [foldr ev_traded add_event mu_type].
  rewrite decide_False by done. destruct (sweep_fills_volume (t_qty t) (matched t a1)) as [-> _]; [lia| |lia].
  apply Forall_forall. intros o Ho. pose proof (view_positive b a Hv) as Hpos.
  rewrite Forall_forall in Hpos. apply Hpos. by apply (matched_incl t a1).
Qed.

End Faults.

(** C24. The quantity balance of addOrder.  The updates report as traded exactly
    the quantity of the resting orders that were matched, and these leave the
    book; yet the new order rests with all of its quantity, whatever it traded.
    So the open quantity of the book changes by the order's full quantity minus
    what was traded, where an exchange would take the traded quantity off both
    sides. *)
Theorem taker_rests_whole `{StrayMemory OrderBook} ticker b evs0 a client oid side price qty :
  View b a -> acceptable ticker (New client oid side price qty) a = true -> qty <> 0 ->
  let t := taker_of ticker a client oid side price qty in
  exists b' evs a' o,
    addOrder client oid ticker side price qty (b, evs0) = Ok (tt, (b', evs0 ++ evs)) /\ View b' a' /\
    traded evs = total_qty (matched t (set_a_next (a_next a + 1) a)) /\
    o ∈ all_orders a' /\ o_marketOrderId o = a_next a /\ o_qty o = qty /\
    total_qty (all_orders a') = total_qty (all_orders a) - traded evs + qty.
Proof.
  intros Hv Hacc Hq. cbn zeta. set (t := taker_of ticker a client oid side price qty).
  pose proof (acceptable_new ticker a client oid side price qty Hacc) as (Hs & Hqr & Hn & Hmap & Hcr).
  set (a1 := set_a_next (a_next a + 1) a). pose proof Hv as (ls & Hvr & _).
  assert (Hw : wp (addOrder client oid ticker side price qty) (fun _ w => View w.1 (a_add t a) /\
    exists ws, length ws = length (sweep_fills qty (matched t a1)) /\
      w.2 = emits evs0 (add_events t a ws)) (b, evs0)).
  { apply (wp_addOrder b evs0 a t); try done. intros b' ws Hv' Hl _. split; [done|]. by exists ws. }
  apply wp_ok in Hw as ([] & [b' e'] & Hrun & Hv' & ws & Hl & He). cbn [fst snd] in Hv', He. subst e'.
  rewrite emits_trace in Hrun.
  assert (Htr : traded (add_events t a ws) = total_qty (matched t a1))
    by (apply (traded_add b); [done|done|cbn; lia|done]).
  assert (Ha : a_add t a = a_rest t (a_match t a1)).
  { unfold a_add. change (t_qty t) with qty. by rewrite (proj2 (Z.eqb_neq _ _) Hq). }
  rewrite Ha in Hv'.
  assert (Hp : all_orders (a_rest t (a_match t a1)) ≡ₚ rested t (a_match t a1) :: all_orders (a_match t a1)).
  { apply (all_orders_rest t _ b' Hs); [|by apply NoDup_match, (view_ids_NoDup b a)|done].
    apply ids_below_match; [done|]. exact (view_ids_below b ls a Hvr). }
  exists b', (add_events t a ws), (a_rest t (a_match t a1)), (rested t (a_match t a1)).
  split_and!; try done.
  - rewrite Hp. by left.
  - rewrite (total_qty_perm _ _ Hp), Htr. change (all_orders a) with (all_orders a1).
    rewrite (total_qty_match t a1 Hs). unfold total_qty at 1. cbn [foldr].
    change (o_qty (rested t (a_match t a1))) with qty. unfold total_qty. lia.
Qed.


(** *** Concrete runs *)
#[local] Existing Instance zeroStray.

(** A cancel whose order id is not below MAX_ORDER_IDS ends the process:
    std::array::at throws in a noexcept function, before any response. *)
Theorem cancel_large_order_id_terminates {E} `{OmeSink E} `{StrayMemory OrderBook}
    ticker (b : OrderBook) (e : E) client oid :
  client < MAX_N_CLIENTS -> MAX_ORDER_IDS <= oid ->
  faults (cancelOrder client oid ticker) (b, e) Terminate.
Proof.
  intros Hc Ho. unfold faults, cancelOrder.
  rewrite (bind_ok (on_book get) _ (b, e) b (b, e)) by done.
  rewrite (proj2 (Z.ltb_lt _ _) Hc), (proj2 (Z.ltb_ge _ _) Ho). done.
Qed.

(** The taker's quantity does not bound what it trades.  Two asks of 5 and 7
    at 10, then a bid of 3: 12 units are traded, the asks are gone, and a bid for
    all 3 units still rests. *)
Theorem taker_quantity_overfilled :
  exists b evs, play [New 1 1 Side.SELL 10 5; New 2 1 Side.SELL 10 7; New 3 1 Side.BUY 20 3]
                = Ok (tt, (b, evs)) /\
    traded evs = 12 /\ asksByPrice_ b = None /\ is_Some (bidsByPrice_ b) /\
    (map_to_list (o_qty <$> live (orderPool_ b))).*2 = [3].
Proof. eexists _, _. split; [vm_compute; reflexivity|]. vm_compute. eauto. Qed.

(** Use after free at legal prices.  Asks at 10, 20 and 30 are linked as 10,
    30, 20; once the ask at 10 is cancelled the best ask reads 30, a bid at 20
    joins the hidden ask level, and after the cancels the next bid reads a level
    that was freed. *)
Theorem hidden_ask_level_use_after_free :
  play [New 1 1 Side.SELL 10 5; New 1 2 Side.SELL 20 5; New 1 3 Side.SELL 30 5; Cancel 1 1;
        New 2 1 Side.BUY 20 5; Cancel 1 2; Cancel 1 3; Cancel 2 1; New 2 2 Side.BUY 5 1]
  = Err DanglingDeref.
Proof. vm_compute. reflexivity. Qed.

(** Two prices that differ by MAX_PRICE_LEVELS share a slot: a bid 256 below
    an ask joins the ask's level and the side that is left points to a freed one. *)
Theorem colliding_prices_use_after_free :
  play [New 1 1 Side.SELL 300 5; New 2 1 Side.BUY 44 3; Cancel 1 1; Cancel 2 1; New 2 2 Side.BUY 305 1]
  = Err DanglingDeref.
Proof. vm_compute. reflexivity. Qed.

(** addOrder does not check the client: resting an order of client 256 writes
    past the client map, and an order of a valid client with a repeated order id
    takes over the slot, so that the first order can no longer be cancelled. *)
Theorem client_and_order_id_unchecked :
  play [New 256 1 Side.SELL 10 5] = Err OutOfBounds /\
  exists b evs, play [New 1 1 Side.SELL 10 5; New 1 1 Side.SELL 11 6; Cancel 1 1; Cancel 1 1]
                = Ok (tt, (b, evs)) /\
    last evs = Some (reject_event 1 1 0) /\ size (live (orderPool_ b)) = 1%nat.
Proof.
  split; [vm_compute; reflexivity|]. eexists _, _. split; [vm_compute; reflexivity|].
  vm_compute. done.
Qed.

Example cancel_large_order_id_terminates_witness :
  exists b, newOrderBook 0 = Ok b /\
    faults (cancelOrder 1 2000000 0) (b, @nil OmeEvent) Terminate.
Proof.
  destruct (newOrderBook_ok 0) as (lp & op & Hnew & _). eexists. split; [exact Hnew|].
  apply (cancel_large_order_id_terminates 0 _ (@nil OmeEvent) 1 2000000); [reflexivity|by vm_compute].
Defined.

(** Client 256: without quantity, with 5, and with 100 where the stack is shallow. *)
Example unknown_client_writes_out_of_bounds_witness :
  (exists b, View b demo_book /\
     (exists b', addOrder 256 1 0 Side.BUY 9 0 (b, []) =
        Ok (tt, (b', [accept_event (taker_of 0 demo_book 256 1 Side.BUY 9 0)]))) /\
     faults (addOrder 256 1 0 Side.BUY 9 5) (b, @nil OmeEvent) OutOfBounds) /\
  (exists b, View b (session_model 0 [New 1 1 Side.SELL 10 100] empty_book) /\
     faults (addOrder (H0 := shallow) 256 1 0 Side.BUY 10 100) (b, @nil OmeEvent) BadRead).
Proof.
  split.
  - destruct demo_view as [b Hv]. exists b. split; [done|]. split.
    + destruct (unknown_client_writes_out_of_bounds 0 b (@nil OmeEvent) demo_book 256 1 Side.BUY 9 0 Hv)
        as [(b' & Hrun & _) _]; [by left|lia|vm_compute; reflexivity|reflexivity|reflexivity|].
      exists b'. exact Hrun.
    + apply (unknown_client_writes_out_of_bounds 0 b (@nil OmeEvent) demo_book 256 1 Side.BUY 9 5 Hv).
      * by left.
      * lia.
      * vm_compute. reflexivity.
      * reflexivity.
      * lia.
      * by apply mapped_small; vm_compute.
      * vm_compute. reflexivity.
  - destruct (session_view [New 1 1 Side.SELL 10 100]) as [b Hv]; [vm_compute; reflexivity|].
    exists b. split; [exact Hv|].
    destruct (unknown_client_writes_out_of_bounds (H0 := shallow) 0 b (@nil OmeEvent) _ 256 1 Side.BUY 10 100 Hv)
      as [_ Hpos]; [by left|lia|vm_compute; reflexivity|reflexivity|].
    destruct (Hpos eq_refl) as [Hbad _]. eapply Hbad; [vm_compute; reflexivity|reflexivity|].
    intros b'. vm_compute. reflexivity.
Defined.


(** An ask at 266 joins the level of the asks at 10. *)
Example colliding_price_joins_level_witness :
  exists b, View b demo_book /\ exists b' e' a' os o,
    addOrder 5 1 0 Side.SELL 266 2 (b, @nil OmeEvent) = Ok (tt, (b', e')) /\ View b' a' /\
    (10, os ++ [o]) ∈ a_asks a' /\ o_price o = 266 /\ ~ priced (a_asks a').
Proof.
  destruct demo_view as [b Hv]. exists b. split; [done|].
  destruct (colliding_price_joins_level 0 b (@nil OmeEvent) demo_book 5 1 Side.SELL 266 2 10
    [mkOrder 0 1 1 1 Side.SELL 10 5 1 None None; mkOrder 0 2 1 3 Side.SELL 10 4 2 None None] Hv)
    as (b' & e' & a' & o & Hrun & Hv' & Hin & Hp & _ & Hnp).
  - vm_compute. reflexivity.
  - lia.
  - vm_compute. left.
  - vm_compute. reflexivity.
  - exists b', e', a', [mkOrder 0 1 1 1 Side.SELL 10 5 1 None None; mkOrder 0 2 1 3 Side.SELL 10 4 2 None None], o.
    split; [exact Hrun|]. split; [exact Hv'|]. split; [exact Hin|]. split; [exact Hp|]. apply Hnp. lia.
Defined.

(** An ask at 264 does not cross the bid at 8 and joins its level. *)
Example order_joins_opposite_level_witness :
  exists b, View b demo_book /\ exists b' e' o,
    addOrder 5 1 0 Side.SELL 264 2 (b, @nil OmeEvent) = Ok (tt, (b', e')) /\ o_price o = 264 /\
    joined_opposite b' o /\ forall a', ~ View b' a'.
Proof.
  destruct demo_view as [b Hv]. exists b. split; [done|].
  destruct (order_joins_opposite_level 0 b (@nil OmeEvent) demo_book 5 1 Side.SELL 264 2
    (8, [mkOrder 0 3 1 4 Side.BUY 8 6 1 None None]) Hv) as (b' & e' & o & Hrun & _ & Hp & _ & _ & Hj & Hno).
  - by right.
  - lia.
  - vm_compute. reflexivity.
  - by apply mapped_small; vm_compute.
  - reflexivity.
  - vm_compute. reflexivity.
  - vm_compute. left.
  - reflexivity.
  - exists b', e', o. split; [exact Hrun|]. split; [exact Hp|]. split; [exact Hj|exact Hno].
Defined.

(** A bid of 3 trades the 9 units offered at 10 and rests with 3. *)
Example taker_rests_whole_witness :
  exists b, View b demo_book /\ exists b' evs a' o,
    addOrder 4 9 0 Side.BUY 11 3 (b, @nil OmeEvent) = Ok (tt, (b', evs)) /\ traded evs = 9 /\
    o ∈ all_orders a' /\ View b' a' /\ o_qty o = 3.
Proof.
  destruct demo_view as [b Hv]. exists b. split; [done|].
  destruct (taker_rests_whole 0 b (@nil OmeEvent) demo_book 4 9 Side.BUY 11 3 Hv)
    as (b' & evs & a' & o & Hrun & Hv' & Ht & Ho & _ & Hq & _).
  - vm_compute. reflexivity.
  - lia.
  - exists b', evs, a', o. split; [exact Hrun|]. split; [rewrite Ht; vm_compute; reflexivity|].
    split; [exact Ho|]. split; [exact Hv'|exact Hq].
Defined.
