(* ===== verification/BookPrint.v ===== *)
(** Printing the order book: OrderBook::toString and the destructor that logs it
    (src/src/core/matching_engine/order_book.cpp).

    toString walks the circles of the levels and of their orders, and with the
    validity check on it throws when a side is not in price order.  [render] is
    the text as a function of the reference model's state. *)

From Stdlib Require Import Ascii String.
From stdpp Require Import sorting.
From S2P Require Import Prelude MemoryPool Types Messages Ring Logger Orders OrderBook BookLevels BookModel BookRep BookSpec BookTheorems.
#[local] Open Scope string_scope.
#[local] Open Scope list_scope.
#[local] Open Scope Z_scope.
#[local] Open Scope hft_scope.

(** ** std::format's width

    A string is padded on the right, an integer on the left. *)
Fixpoint spaces (n : nat) : string :=
  match n with O => "" | S n' => String " " (spaces n') end.
Definition str_width (n : nat) (s : string) : string := s +:+ spaces (n - String.length s).
Definition int_width (n : nat) (z : Z) : string := let s := pretty z in spaces (n - String.length s) +:+ s.

Definition nl : string := String (ascii_of_nat 10) "".
Definition tabs : string := String (ascii_of_nat 9) (String (ascii_of_nat 9) (String (ascii_of_nat 9) "")).

(** The line of a level: its price, its neighbours' prices, the sum of its
    orders' quantities and their number. *)
Definition level_line (price prev next totalQty orderCount : Z) : string :=
  " { p:" +:+ str_width 3 (priceToStr price) +:+ " [-]:" +:+ str_width 3 (priceToStr prev)
  +:+ " [+]:" +:+ str_width 3 (priceToStr next) +:+ " } " +:+ str_width 5 (qtyToStr totalQty)
  +:+ " @ " +:+ str_width 3 (priceToStr price) +:+ " (" +:+ int_width 4 orderCount +:+ ")" +:+ nl.

Definition order_line (moid qty prev next : Z) : string :=
  tabs +:+ "{ oid:" +:+ orderIdToStr moid +:+ ", q:" +:+ qtyToStr qty
  +:+ ", p:" +:+ orderIdToStr prev +:+ ", n:" +:+ orderIdToStr next +:+ " }" +:+ nl.

(** ** toString *)

(** The first loop of printer, one unit of fuel per order. *)
Fixpoint countOrders (fuel : nat) (order0 order : ptr) (totalQty orderCount : Z)
    : M OrderBook (Z * Z) :=
  match fuel with
  | O => fail OutOfFuel
  | S fuel' =>
      i ← nonnull order;
      o ← load_order i;
      let totalQty := u32 (totalQty + o_qty o) in
      let orderCount := u64 (orderCount + 1) in
      if decide (o_next o = order0) then mret (totalQty, orderCount)
      else countOrders fuel' order0 (o_next o) totalQty orderCount
  end.

(** p ? p->marketOrderId_ : OrderID_INVALID *)
Definition neighbourId (p : ptr) : M OrderBook Z :=
  match p with
  | Some i => o ← load_order i; mret (o_marketOrderId o)
  | None => mret OrderID_INVALID
  end.

(** The second loop, run when the text is detailed. *)
Fixpoint printOrders (fuel : nat) (order0 order : ptr) (result : string) : M OrderBook string :=
  match fuel with
  | O => fail OutOfFuel
  | S fuel' =>
      i ← nonnull order;
      o ← load_order i;
      p ← neighbourId (o_prev o);
      n ← neighbourId (o_next o);
      let result := result +:+ order_line (o_marketOrderId o) (o_qty o) p n in
      if decide (o_next o = order0) then mret result
      else printOrders fuel' order0 (o_next o) result
  end.

Definition isSorted (side : Side.t) (lastPrice price : Z) : bool :=
  (bool_decide (side = Side.SELL) && (lastPrice <? price)) ||
  (bool_decide (side = Side.BUY) && (price <? lastPrice)).

(** Reading through a pointer that may be null. *)
Definition touch {A} (load : Z -> M OrderBook A) (p : ptr) : M OrderBook unit :=
  match p with
  | Some i => _ ← load i; mret tt
  | None => mret tt
  end.

(** levels->toString(), for the message of the exception. *)
Definition describeLevel (l : Z) : M OrderBook string :=
  b ← get;
  lv ← load_level l;
  match l_order0 lv with
  | Some i => o ← load_order i; touch load_order (o_prev o);; touch load_order (o_next o)
  | None => mret tt
  end;;
  touch load_level (l_prev lv);;
  touch load_level (l_next lv);;
  mret (OrdersAtPrice_toString (fun p => p ≫= (fun i => live (orderPool_ b) !! i))
          (fun p => p ≫= (fun i => live (ordersAtPricePool_ b) !! i)) lv).

(** The lambda printer: the text so far and the new lastPrice, or the message of
    the exception it throws. *)
Definition printer (isDetailed hasValidityCheck : bool) (levels : Z) (side : Side.t)
    (lastPrice : Z) (result : string) : M OrderBook ((string * Z) + string) :=
  b ← get;
  let fuel := size (live (orderPool_ b)) in
  lv ← load_level levels;
  counted ← countOrders fuel (l_order0 lv) (l_order0 lv) 0 0;
  prev ← nonnull (l_prev lv);
  pl ← load_level prev;
  next ← nonnull (l_next lv);
  nextl ← load_level next;
  let result := result +:+ level_line (l_price lv) (l_price pl) (l_price nextl) counted.1 counted.2 in
  result ← (if isDetailed then printOrders fuel (l_order0 lv) (l_order0 lv) result else mret result);
  if hasValidityCheck then
    if isSorted side lastPrice (l_price lv) then mret (inl (result, l_price lv))
    else
      what ← describeLevel levels;
      mret (inr ("Bid/ask price levels not sorted correctly: " +:+ priceToStr lastPrice
                 +:+ " levels:" +:+ what))
  else mret (inl (result, lastPrice)).

(** for (count = 0; levels; ++count), one unit of fuel per level. *)
Fixpoint printSide (fuel : nat) (isDetailed hasValidityCheck : bool) (label : string)
    (side : Side.t) (best levels : ptr) (count lastPrice : Z) (result : string)
    : M OrderBook (string + string) :=
  match fuel with
  | O => fail OutOfFuel
  | S fuel' =>
      match levels with
      | None => mret (inl result)
      | Some l =>
          printed ← printer isDetailed hasValidityCheck l side lastPrice
                      (result +:+ label +:+ "[" +:+ pretty count +:+ "] => ");
          match printed with
          | inr what => mret (inr what)
          | inl (result, lastPrice) =>
              lv ← load_level l;
              printSide fuel' isDetailed hasValidityCheck label side best
                (if decide (l_next lv = best) then None else l_next lv)
                (u64 (count + 1)) lastPrice result
          end
      end
  end.

Definition toString (isDetailed hasValidityCheck : bool) : M OrderBook (string + string) :=
  b ← get;
  let fuel := S (size (live (ordersAtPricePool_ b))) in
  let result := nl +:+ "----- ORDER BOOK FOR TICKER: " +:+ tickerIdToStr (assignedTicker_ b) +:+ " -----" +:+ nl in
  asks ← match asksByPrice_ b with
         | None => mret (inl (result +:+ nl +:+ "                  [NO ASKS ON BOOK]" +:+ nl))
         | Some l => printSide fuel isDetailed hasValidityCheck "ASKS" Side.SELL
                       (asksByPrice_ b) (Some l) 0 (minS 64) result
         end;
  match asks with
  | inr what => mret (inr what)
  | inl result =>
      let result := result +:+ nl +:+ "                          X" +:+ nl +:+ nl in
      match bidsByPrice_ b with
      | None => mret (inl (result +:+ nl +:+ "                  [NO BIDS ON BOOK]" +:+ nl))
      | Some l => printSide fuel isDetailed hasValidityCheck "BIDS" Side.BUY
                    (bidsByPrice_ b) (Some l) 0 (maxS 64) result
      end
  end.

Definition clear_clients (b : OrderBook) : OrderBook :=
  mkBook (assignedTicker_ b) ∅ (bidsByPrice_ b) (asksByPrice_ b) (mapPriceToPriceLevel_ b)
    (ordersAtPricePool_ b) (orderPool_ b) (clientResponse_ b) (marketUpdate_ b) (nextMarketOid_ b).

(** The destructor; an exception that leaves it terminates the program.  The
    result is what it logs. *)
Definition destroyOrderBook : M OrderBook LogElement :=
  text ← toString false true;
  match text with
  | inr _ => fail Terminate
  | inl s =>
      modify (set_asks None);;
      modify (set_bids None);;
      modify clear_clients;;
      mret (mkLog INFO ("{}" +:+ nl) [AString s])
  end.

(** ** The reference text *)

(** Every element of a circle between its predecessor and its successor. *)
Fixpoint around_from {A} (first prev : A) (l : list A) : list (A * A * A) :=
  match l with
  | [] => []
  | x :: l' => (prev, default first (head l'), x) :: around_from first x l'
  end.
Definition around {A} (l : list A) : list (A * A * A) :=
  match l with
  | [] => []
  | x :: _ => around_from x (default x (last l)) l
  end.

Definition texts (l : list string) : string := foldr String.append "" l.

Definition order_text (t : Order * Order * Order) : string :=
  let '(p, n, o) := t in
  order_line (o_marketOrderId o) (o_qty o) (o_marketOrderId p) (o_marketOrderId n).

Definition level_text (isDetailed : bool) (t : level * level * level) : string :=
  let '(p, n, lv) := t in
  level_line lv.1 p.1 n.1 (u32 (total_qty lv.2)) (Z.of_nat (length lv.2))
  +:+ (if isDetailed then texts (order_text <$> around lv.2) else "").

Fixpoint side_text (isDetailed : bool) (label : string) (count : Z)
    (ts : list (level * level * level)) : string :=
  match ts with
  | [] => ""
  | t :: ts' =>
      label +:+ "[" +:+ pretty count +:+ "] => " +:+ level_text isDetailed t
      +:+ side_text isDetailed label (count + 1) ts'
  end.

Definition render_side (isDetailed : bool) (label : string) (s : list level) : string :=
  match s with
  | [] => nl +:+ "                  [NO " +:+ label +:+ " ON BOOK]" +:+ nl
  | _ => side_text isDetailed label 0 (around s)
  end.

Definition render (isDetailed : bool) (ticker : Z) (a : ABook) : string :=
  nl +:+ "----- ORDER BOOK FOR TICKER: " +:+ tickerIdToStr ticker +:+ " -----" +:+ nl
  +:+ render_side isDetailed "ASKS" (a_asks a)
  +:+ nl +:+ "                          X" +:+ nl +:+ nl
  +:+ render_side isDetailed "BIDS" (a_bids a).

(** What the validity check demands: prices that get strictly worse from the
    extreme value of the type on. *)
Fixpoint sorted_from (side : Side.t) (lastPrice : Z) (ps : list Z) : bool :=
  match ps with
  | [] => true
  | p :: ps' => isSorted side lastPrice p && sorted_from side p ps'
  end.
Definition book_sorted (a : ABook) : bool :=
  sorted_from Side.SELL (minS 64) (a_asks a).*1 && sorted_from Side.BUY (maxS 64) (a_bids a).*1.

(** A text on success, an exception otherwise; the book is only read. *)
Definition prints (m : M OrderBook (string + string)) (b : OrderBook) (ok : bool) (text : string) : Prop :=
  if ok then m b = Ok (inl text, b) else exists what, m b = Ok (inr what, b).

Section Facts.
Implicit Types (b : OrderBook) (ls : Side.t -> side_levels) (a : ABook).

Lemma load_order_ok b i o : oh b !! i = Some o -> load_order i b = Ok (o, b).
Proof.
  intros Ho. assert (Hw : wp (load_order i) (fun x b' => x = o /\ b' = b) b) by (by apply (wp_load_order i o)).
  by apply wp_ok in Hw as (? & ? & ? & -> & ->).
Qed.
Lemma load_level_ok b l lv : lh b !! l = Some lv -> load_level l b = Ok (lv, b).
Proof.
  intros Hl. assert (Hw : wp (load_level l) (fun x b' => x = lv /\ b' = b) b) by (by apply (wp_load_level l lv)).
  by apply wp_ok in Hw as (? & ? & ? & -> & ->).
Qed.

(** The neighbours of a node in the middle of a ring. *)
Lemma ring_at {T} `{Linked T} (h : gmap Z T) L1 x L2 :
  ring h (L1 ++ x :: L2) ->
  nx h x = head (L2 ++ L1 ++ [x]) /\ pv h x = last (x :: L2 ++ L1).
Proof.
  intros Hr%ring_rotate. cbn [app] in Hr.
  destruct (last (x :: L2 ++ L1)) as [z|] eqn:Hz; [|by apply last_None in Hz].
  destruct (ring_last _ _ _ _ Hr Hz) as [Hp Hn]. split; [|done].
  rewrite app_assoc. destruct (L2 ++ L1) as [|y l] eqn:E; cbn.
  - cbn in Hz. by injection Hz as ->.
  - by apply (ring_next _ _ _ l).
Qed.

(** Walking a ring from its head comes back to the head at its end only. *)
Lemma ring_step {T} `{Linked T} (h : gmap Z T) L1 x L2 :
  ring h (L1 ++ x :: L2) ->
  (nx h x = head (L1 ++ x :: L2) <-> L2 = []) /\
  (forall y L2', L2 = y :: L2' -> nx h x = Some y /\ pv h y = Some x).
Proof.
  intros Hr. destruct (ring_at h L1 x L2 Hr) as [Hn _]. destruct L2 as [|y L2].
  - cbn in Hn. split; [|done]. rewrite Hn. by split.
  - cbn in Hn. split.
    + rewrite Hn. split; [|done]. intros Hh. exfalso. destruct Hr as [Hnd _].
      assert (Hy : y ∈ L1 ++ [x]) by (destruct L1; cbn in Hh; injection Hh as ->; set_solver).
      replace (L1 ++ x :: y :: L2) with ((L1 ++ [x]) ++ y :: L2) in Hnd
        by (by rewrite <- app_assoc).
      apply NoDup_app in Hnd as (_ & Hnd & _). apply (Hnd y Hy). set_solver.
    + intros y' L2' [= <- <-]. split; [done|].
      replace (L1 ++ x :: y :: L2) with ((L1 ++ [x]) ++ y :: L2) in Hr
        by (by rewrite <- app_assoc).
      destruct (ring_at h _ _ _ Hr) as [_ ->]. by rewrite app_assoc, last_cons, last_snoc.
Qed.

(** ** The loops over the orders of a level *)
Lemma u32_add z q : u32 (u32 z + q) = u32 (z + q).
Proof. unfold wrapU. by rewrite Zplus_mod_idemp_l. Qed.

Lemma total_qty_cons o os : total_qty (o :: os) = o_qty o + total_qty os.
Proof. done. Qed.

Lemma countOrders_ok b L1 i L2 : forall fuel q n,
  ring (oh b) (L1 ++ i :: L2) -> (length (i :: L2) <= fuel)%nat ->
  0 <= n -> n + Z.of_nat (length (i :: L2)) < 2 ^ 64 ->
  countOrders fuel (head (L1 ++ i :: L2)) (Some i) (u32 q) n b =
    Ok ((u32 (q + total_qty (odata b (i :: L2))), n + Z.of_nat (length (i :: L2))), b).
Proof.
  revert L1 i. induction L2 as [|j L2 IH]; intros L1 i fuel q n Hr Hf Hn Hlt;
    (destruct fuel as [|fuel]; [cbn in Hf; lia|]); cbn [countOrders length] in *;
    destruct (ring_alive _ _ i Hr) as [o Ho]; try set_solver;
    destruct (ring_step _ _ _ _ Hr) as [Hend Hnext]; unfold nx in Hend, Hnext; rewrite Ho in Hend;
    cbn [mbind option_bind lnext order_linked] in Hend;
    rewrite (bind_ok (nonnull _) _ b i b), (bind_ok _ _ _ _ _ (load_order_ok b i o Ho)) by done;
    (assert (Hw : u64 (n + 1) = n + 1) by (apply wrapU_small; lia));
    rewrite u32_add, Hw, (odata_cons b i _ o Ho), total_qty_cons.
  - rewrite decide_True by (by apply Hend).
    change (total_qty _) with 0. rewrite Z.add_0_r. done.
  - destruct (Hnext j L2 eq_refl) as [Hj _]. rewrite Ho in Hj. cbn in Hj.
    rewrite decide_False by (by rewrite Hend). rewrite Hj.
    replace (L1 ++ i :: j :: L2) with ((L1 ++ [i]) ++ j :: L2) in * by (by rewrite <- app_assoc).
    rewrite (IH (L1 ++ [i]) j) by (done || cbn [length] in *; lia). cbn [length].
    do 3 f_equal; [|lia]. f_equal. cbn. lia.
Qed.

(** What a live index stands for. *)
Definition order_at b (i : Z) : Order :=
  from_option unlinked (mkOrder 0 0 0 0 Side.INVALID 0 0 0 None None) (oh b !! i).

Lemma order_at_ok b i o : oh b !! i = Some o -> order_at b i = unlinked o.
Proof. unfold order_at. by intros ->. Qed.

Lemma odata_fmap b (os : list Z) : (forall i, i ∈ os -> is_Some (oh b !! i)) -> odata b os = order_at b <$> os.
Proof.
  induction os as [|i os IH]; intros Hal; [done|].
  destruct (Hal i) as [o Ho]; [apply list_elem_of_here|].
  rewrite (odata_cons b i os o Ho), IH by (intros j Hj; apply Hal; by apply list_elem_of_further).
  cbn. by rewrite (order_at_ok b i o).
Qed.

Lemma around_from_fmap {A B} (f : A -> B) x y l :
  around_from (f x) (f y) (f <$> l) = (fun t => (f t.1.1, f t.1.2, f t.2)) <$> around_from x y l.
Proof.
  revert y. induction l as [|z l IH]; intros y; [done|]. cbn. rewrite IH. by destruct l.
Qed.
Lemma around_fmap {A B} (f : A -> B) l :
  around (f <$> l) = (fun t => (f t.1.1, f t.1.2, f t.2)) <$> around l.
Proof.
  destruct l as [|x l]; [done|]. unfold around. rewrite fmap_last. change (f <$> x :: l) with (f x :: (f <$> l)).
  cbn iota. destruct (last (x :: l)) as [z|] eqn:Hz; [|by apply last_None in Hz].
  apply (around_from_fmap f x z (x :: l)).
Qed.

Lemma append_assoc (s1 s2 s3 : string) : s1 +:+ (s2 +:+ s3) = (s1 +:+ s2) +:+ s3.
Proof. induction s1 as [|c s1 IH]; [done|]. exact (f_equal (String c) IH). Qed.
Lemma append_nil_r (s : string) : s +:+ "" = s.
Proof. induction s as [|c s IH]; [done|]. exact (f_equal (String c) IH). Qed.

Lemma neighbourId_ok b i : is_Some (oh b !! i) ->
  neighbourId (Some i) b = Ok (o_marketOrderId (order_at b i), b).
Proof.
  intros [o Ho]. unfold neighbourId. rewrite (bind_ok _ _ _ _ _ (load_order_ok b i o Ho)).
  by rewrite (order_at_ok b i o).
Qed.

Definition order_texts b (ts : list (Z * Z * Z)) : string :=
  texts ((fun t => order_text (order_at b t.1.1, order_at b t.1.2, order_at b t.2)) <$> ts).

Lemma printOrders_ok b L1 i L2 : forall fuel prev first result,
  ring (oh b) (L1 ++ i :: L2) -> (length (i :: L2) <= fuel)%nat ->
  pv (oh b) i = Some prev -> head (L1 ++ i :: L2) = Some first ->
  printOrders fuel (Some first) (Some i) result b =
    Ok (result +:+ order_texts b (around_from first prev (i :: L2)), b).
Proof.
  revert L1 i. induction L2 as [|j L2 IH]; intros L1 i fuel prev first result Hr Hf Hp Hh;
    (destruct fuel as [|fuel]; [cbn in Hf; lia|]); cbn [printOrders length] in *;
    destruct (ring_alive _ _ i Hr) as [o Ho]; try set_solver;
    destruct (ring_step _ _ _ _ Hr) as [Hend Hnext];
    unfold nx in Hend; rewrite Ho, Hh in Hend; unfold pv in Hp; rewrite Ho in Hp;
    cbn [mbind option_bind lnext lprev order_linked] in Hend, Hp;
    rewrite (bind_ok (nonnull _) _ b i b), (bind_ok _ _ _ _ _ (load_order_ok b i o Ho)) by done;
    (assert (Hpl : is_Some (oh b !! prev)) by
      (destruct (ring_pv _ _ i Hr) as (z & Hz & Hz'); [set_solver|]; unfold pv in Hz';
       rewrite Ho in Hz'; cbn in Hz'; rewrite Hp in Hz'; injection Hz' as ->; by apply (ring_alive _ _ _ Hr)));
    rewrite Hp, (bind_ok _ _ _ _ _ (neighbourId_ok b prev Hpl)).
  - rewrite (proj2 Hend) by done.
    assert (Hfl : is_Some (oh b !! first)).
    { apply (ring_alive _ _ _ Hr). destruct L1; cbn in Hh; injection Hh as ->; set_solver. }
    rewrite (bind_ok _ _ _ _ _ (neighbourId_ok b first Hfl)), decide_True by done.
    unfold order_texts. cbn. by rewrite append_nil_r, (order_at_ok b i o).
  - destruct (Hnext j L2 eq_refl) as [Hj Hpj]. unfold nx in Hj. rewrite Ho in Hj. cbn in Hj.
    assert (Hjl : is_Some (oh b !! j)) by (apply (ring_alive _ _ _ Hr); set_solver).
    rewrite Hj, (bind_ok _ _ _ _ _ (neighbourId_ok b j Hjl)).
    rewrite decide_False by (rewrite <- Hj; by rewrite Hend).
    replace (L1 ++ i :: j :: L2) with ((L1 ++ [i]) ++ j :: L2) in * by (by rewrite <- app_assoc).
    rewrite (IH (L1 ++ [i]) j fuel i first) by (done || cbn [length] in *; lia).
    rewrite <- append_assoc. unfold order_texts. cbn. by rewrite (order_at_ok b i o).
Qed.

(** ** One level *)
Lemma touch_ok {A} (load : Z -> M OrderBook A) b i x :
  load i b = Ok (x, b) -> touch load (Some i) b = Ok (tt, b).
Proof. intros Hx. unfold touch. by rewrite (bind_ok _ _ _ _ _ Hx). Qed.

Lemma level_order0 b ls sd l (os : list Z) :
  Rep b ls -> two_sided sd -> (l, os) ∈ ls sd ->
  exists lv i os', lh b !! l = Some lv /\ os = i :: os' /\ l_order0 lv = Some i /\ ring (oh b) os.
Proof.
  intros Hr Hsd Hin. destruct (rp_level _ _ Hr _ _ _ Hsd Hin) as [(lv & Hlv & _ & H0 & _) Hne Hri _].
  destruct os as [|i os']; [done|]. by exists lv, i, os'.
Qed.

Lemma describeLevel_ok b ls sd l (os : list Z) lv p n :
  Rep b ls -> two_sided sd -> (l, os) ∈ ls sd -> lh b !! l = Some lv ->
  l_prev lv = Some p -> l_next lv = Some n -> is_Some (lh b !! p) -> is_Some (lh b !! n) ->
  exists s, describeLevel l b = Ok (s, b).
Proof.
  intros Hr Hsd Hin Hlv Hp Hn [pl Hpl] [nl' Hnl].
  destruct (level_order0 b ls sd l os Hr Hsd Hin) as (lv' & i & os' & Hlv' & -> & H0 & Hri).
  rewrite Hlv in Hlv'. injection Hlv' as <-.
  destruct (ring_nx _ _ i Hri) as (x & Hx & Hxn); [set_solver|].
  destruct (ring_pv _ _ i Hri) as (y & Hy & Hyp); [set_solver|].
  destruct (ring_alive _ _ i Hri) as [o Ho]; [set_solver|].
  destruct (ring_alive _ _ x Hri Hx) as [xo Hxo], (ring_alive _ _ y Hri Hy) as [yo Hyo].
  unfold nx in Hxn. unfold pv in Hyp. rewrite Ho in Hxn, Hyp. cbn in Hxn, Hyp.
  unfold describeLevel. rewrite (bind_ok get _ b b b) by done.
  rewrite (bind_ok _ _ _ _ _ (load_level_ok b l lv Hlv)), H0.
  rewrite (bind_ok _ _ b tt b).
  2: { rewrite (bind_ok _ _ _ _ _ (load_order_ok b i o Ho)), Hxn, Hyp.
       rewrite (bind_ok _ _ _ _ _ (touch_ok _ b y yo (load_order_ok b y yo Hyo))).
       apply (touch_ok _ b x xo), load_order_ok, Hxo. }
  rewrite Hp, Hn, (bind_ok _ _ _ _ _ (touch_ok _ b p pl (load_level_ok b p pl Hpl))).
  rewrite (bind_ok _ _ _ _ _ (touch_ok _ b n nl' (load_level_ok b n nl' Hnl))). by eexists.
Qed.

(** The level of an entry of the side, as the model sees it. *)
Definition level_at b (x : Z * list Z) : level := (level_price (lh b) x.1, odata b x.2).

Lemma printed_orders b i (os : list Z) result (d : bool) :
  ring (oh b) (i :: os) ->
  (if d then printOrders (size (oh b)) (Some i) (Some i) result else mret result) b =
  Ok (result +:+ (if d then texts (order_text <$> around (odata b (i :: os))) else ""), b).
Proof.
  intros Hri. destruct d; [|by rewrite append_nil_r].
  destruct (last (i :: os)) as [z|] eqn:Hz; [|by apply last_None in Hz].
  destruct (ring_last _ _ _ _ Hri Hz) as [Hp _].
  rewrite (printOrders_ok b [] i os _ z i); try done.
  - rewrite odata_fmap by (intros k Hk; by apply (ring_alive _ _ _ Hri)).
    rewrite around_fmap, <- list_fmap_compose. unfold around. by rewrite Hz.
  - apply alive_length; [by apply Hri|]. intros k Hk. by apply (ring_alive _ _ _ Hri).
Qed.

Lemma counted_orders b i (os : list Z) :
  ring (oh b) (i :: os) -> Z.of_nat (size (oh b)) < 2 ^ 64 ->
  countOrders (size (oh b)) (Some i) (Some i) 0 0 b =
    Ok ((u32 (total_qty (odata b (i :: os))), Z.of_nat (length (odata b (i :: os)))), b).
Proof.
  intros Hri Hsz. assert (Hlen : (length (i :: os) <= size (oh b))%nat).
  { apply alive_length; [by apply Hri|]. intros k Hk. by apply (ring_alive _ _ _ Hri). }
  pose proof (countOrders_ok b [] i os (size (oh b)) 0 0 Hri Hlen) as Hc.
  change (u32 0) with 0 in Hc. cbn [app head] in Hc. rewrite Hc by lia.
  assert (Hl : length (odata b (i :: os)) = length (i :: os)); [|by rewrite Hl].
  rewrite odata_fmap by (intros k Hk; by apply (ring_alive _ _ _ Hri)). apply length_fmap.
Qed.

Lemma printer_ok b ls d c sd l (os : list Z) lv (p n : Z * list Z) lastPrice result :
  Rep b ls -> two_sided sd -> (l, os) ∈ ls sd -> lh b !! l = Some lv ->
  l_prev lv = Some p.1 -> l_next lv = Some n.1 -> is_Some (lh b !! p.1) -> is_Some (lh b !! n.1) ->
  Z.of_nat (size (oh b)) < 2 ^ 64 ->
  if negb c || isSorted sd lastPrice (l_price lv)
  then printer d c l sd lastPrice result b =
         Ok (inl (result +:+ level_text d (level_at b p, level_at b n, level_at b (l, os)),
                  if c then l_price lv else lastPrice), b)
  else exists what, printer d c l sd lastPrice result b = Ok (inr what, b).
Proof.
  intros Hr Hsd Hin Hlv Hp Hn Hpa Hna Hsz.
  destruct (describeLevel_ok b ls sd l os lv p.1 n.1) as [what Hwhat]; try done.
  destruct (level_order0 b ls sd l os Hr Hsd Hin) as (lv' & i & os' & Hlv' & -> & H0 & Hri).
  rewrite Hlv in Hlv'. injection Hlv' as <-. destruct Hpa as [pl Hpl], Hna as [nl' Hnl].
  set (text := level_text d (level_at b p, level_at b n, level_at b (l, i :: os'))).
  assert (Hbody : printer d c l sd lastPrice result b =
    (if c then
       if isSorted sd lastPrice (l_price lv) then mret (inl (result +:+ text, l_price lv))
       else what ← describeLevel l;
            mret (inr ("Bid/ask price levels not sorted correctly: " +:+ priceToStr lastPrice
                       +:+ " levels:" +:+ what))
     else mret (inl (result +:+ text, lastPrice))) b).
  { unfold printer. rewrite (bind_ok get _ b b b) by done.
    rewrite (bind_ok _ _ _ _ _ (load_level_ok b l lv Hlv)), H0.
    rewrite (bind_ok _ _ _ _ _ (counted_orders b i os' Hri Hsz)), Hp, Hn.
    rewrite (bind_ok (nonnull _) _ b p.1 b), (bind_ok _ _ _ _ _ (load_level_ok b _ pl Hpl)) by done.
    rewrite (bind_ok (nonnull _) _ b n.1 b), (bind_ok _ _ _ _ _ (load_level_ok b _ nl' Hnl)) by done.
    rewrite (bind_ok _ _ _ _ _ (printed_orders b i os' _ d Hri)).
    assert (Ht : text = level_line (l_price lv) (l_price pl) (l_price nl')
        (u32 (total_qty (odata b (i :: os')))) (Z.of_nat (length (odata b (i :: os')))) +:+
        (if d then texts (order_text <$> around (odata b (i :: os'))) else "")).
    { unfold text, level_text, level_at, level_price. cbn [fst snd]. by rewrite Hpl, Hnl, Hlv. }
    rewrite Ht, append_assoc. done. }
  rewrite Hbody. destruct c; cbn [negb orb]; [|done].
  destruct (isSorted sd lastPrice (l_price lv)); [done|].
  rewrite (bind_ok _ _ _ _ _ Hwhat). by eexists.
Qed.

(** ** One side *)
Lemma side_ring b ls sd L1 l (os : list Z) (L2 : side_levels) first :
  Rep b ls -> two_sided sd -> ls sd = L1 ++ (l, os) :: L2 -> head (ls sd) = Some first ->
  exists lv n, lh b !! l = Some lv /\ l_next lv = Some n.1 /\ n ∈ ls sd /\
    n = default first (head L2) /\
    (l_next lv = Some first.1 <-> L2 = []) /\
    (forall x L2', L2 = x :: L2' -> pv (lh b) x.1 = Some l).
Proof.
  intros Hr Hsd Hls Hf. pose proof (lr_ring _ _ (rp_levels _ _ Hr) sd Hsd) as Hri.
  cbn beta in Hri. rewrite Hls, fmap_app in Hri. cbn [fmap list_fmap fst] in Hri.
  change (list_fmap (Z * list Z)%type Z fst L2) with (L2.*1) in Hri.
  destruct (ring_alive _ _ l Hri) as [lv Hlv]; [set_solver|].
  destruct (ring_step _ _ _ _ Hri) as [Hend Hnext].
  assert (Hh : head (L1.*1 ++ l :: L2.*1) = Some first.1).
  { rewrite Hls in Hf. destruct L1; cbn in Hf |- *; by injection Hf as <-. }
  unfold nx in Hend, Hnext. rewrite Hlv in Hend, Hnext. cbn [mbind option_bind lnext level_linked] in *.
  rewrite Hh in Hend. exists lv, (default first (head L2)). split; [done|].
  assert (Hfin : first ∈ ls sd) by (rewrite Hls in Hf |- *; destruct L1; cbn in Hf; injection Hf as <-; set_solver).
  destruct L2 as [|x L2']; cbn [head default].
  - split; [by apply Hend|]. split; [done|]. split; [done|]. by split; [rewrite Hend|].
  - destruct (Hnext x.1 (L2'.*1) eq_refl) as [Hx Hpx]. split; [done|].
    split; [rewrite Hls; set_solver|]. split; [done|].
    split; [by rewrite Hend|]. by intros y L2'' [= <- <-].
Qed.

Lemma prints_eq m m' b ok ok' text text' :
  prints m' b ok' text' -> m b = m' b -> ok = ok' -> text = text' -> prints m b ok text.
Proof. unfold prints. by intros Hp -> -> ->. Qed.

Lemma printSide_ok b ls d c sd label first :
  Rep b ls -> two_sided sd -> Z.of_nat (size (oh b)) < 2 ^ 64 -> head (ls sd) = Some first ->
  forall L2 L1 l os fuel prev count lastPrice result,
  ls sd = L1 ++ (l, os) :: L2 -> (length ((l, os) :: L2) < fuel)%nat ->
  pv (lh b) l = Some prev.1 -> prev ∈ ls sd ->
  0 <= count -> count + Z.of_nat (length ((l, os) :: L2)) < 2 ^ 64 ->
  prints (printSide fuel d c label sd (Some first.1) (Some l) count lastPrice result) b
    (negb c || sorted_from sd lastPrice (level_at b <$> (l, os) :: L2).*1)
    (result +:+ side_text d label count
       (around_from (level_at b first) (level_at b prev) (level_at b <$> (l, os) :: L2))).
Proof.
  intros Hr Hsd Hsz Hfirst. induction L2 as [|x L2 IH];
    intros L1 l os fuel prev count lastPrice result Hls Hf Hp Hpin Hc0 Hc;
    (destruct fuel as [|fuel]; [lia|]); cbn [printSide];
    destruct (side_ring b ls sd L1 l os _ first Hr Hsd Hls Hfirst) as (lv & n & Hlv & Hn & Hnin & Hnd & Hend & Hnext);
    (assert (Hal : forall y, y ∈ ls sd -> is_Some (lh b !! y.1)) by
      (intros [y yo] Hy; by apply (rep_alive_in b ls sd y yo)));
    (assert (Hin : (l, os) ∈ ls sd) by (rewrite Hls; set_solver));
    unfold pv in Hp; rewrite Hlv in Hp; cbn in Hp;
    pose proof (printer_ok b ls d c sd l os lv prev n lastPrice
      (result +:+ label +:+ "[" +:+ pretty count +:+ "] => ") Hr Hsd Hin Hlv Hp Hn (Hal _ Hpin) (Hal _ Hnin) Hsz) as Hpr;
    (assert (Hlp : level_price (lh b) l = l_price lv) by (unfold level_price; by rewrite Hlv));
    cbn [fmap list_fmap sorted_from level_at fst]; rewrite Hlp;
    (destruct (negb c || isSorted sd lastPrice (l_price lv)) eqn:Es;
     [|destruct Hpr as [what Hpr]; apply orb_false_iff in Es as [-> ->]; cbn; exists what;
       by rewrite (bind_ok _ _ _ _ _ Hpr)]).
  - rewrite andb_true_r, Es. cbn [prints]. rewrite (bind_ok _ _ _ _ _ Hpr).
    rewrite (bind_ok _ _ _ _ _ (load_level_ok b l lv Hlv)), decide_True by (by apply Hend).
    destruct fuel as [|fuel]; [cbn in Hf; lia|]. cbn [printSide around_from side_text head default from_option].
    subst n. cbn [head default from_option]. rewrite append_nil_r, <- !append_assoc. done.
  - subst n. destruct x as [l' os'].
    replace (L1 ++ (l, os) :: (l', os') :: L2) with ((L1 ++ [(l, os)]) ++ (l', os') :: L2) in Hls
      by (by rewrite <- app_assoc).
    cbn [length head default from_option id] in *.
    eapply prints_eq; [eapply (IH (L1 ++ [(l, os)]) l' os' fuel (l, os) (count + 1)
        (if c then l_price lv else lastPrice)); [exact Hls|lia|by apply (Hnext (l', os') L2)|done|lia|lia]
      |rewrite (bind_ok _ _ _ _ _ Hpr)|..].
    + rewrite (bind_ok _ _ _ _ _ (load_level_ok b l lv Hlv)), decide_False by (by rewrite Hend).
      rewrite Hn. cbn [head default from_option fst]. by rewrite (wrapU_small 64 (count + 1)) by lia.
    + destruct c; cbn [negb orb] in *; [|done]. by rewrite Es.
    + cbn [around_from side_text fmap list_fmap head default from_option].
      by rewrite <- !append_assoc.
Qed.

Lemma side_prints b ls a sd d c label lastPrice result :
  VRep b ls a -> two_sided sd ->
  prints (match bestOrdersByPrice sd b with
          | None => mret (inl (result +:+ nl +:+ "                  [NO " +:+ label +:+ " ON BOOK]" +:+ nl))
          | Some l => printSide (S (size (lh b))) d c label sd (bestOrdersByPrice sd b) (Some l) 0 lastPrice result
          end) b
    (negb c || sorted_from sd lastPrice (a_side sd a).*1) (result +:+ render_side d label (a_side sd a)).
Proof.
  intros Hv Hsd. pose proof (vr_rep _ _ _ Hv) as Hr.
  rewrite (vr_side _ _ _ Hv sd Hsd), (lr_best _ _ (rp_levels _ _ Hr) sd Hsd).
  destruct (ls sd) as [|[l os] L2] eqn:Hls; [cbn; by rewrite orb_true_r|]. cbn [fmap list_fmap head fst].
  pose proof (lr_ring _ _ (rp_levels _ _ Hr) sd Hsd) as Hri. cbn beta in Hri.
  assert (Hlen : (length ((l, os) :: L2) <= size (lh b))%nat).
  { replace (length ((l, os) :: L2)) with (length (ls sd).*1) by (by rewrite Hls, length_fmap).
    apply alive_length; [by apply Hri|]. intros x Hx. by apply (ring_alive _ _ _ Hri). }
  assert (Hm : MAX_ORDER_IDS = 2 ^ 20 /\ MAX_PRICE_LEVELS = 2 ^ 8) by done. destruct Hm as [Hm1 Hm2].
  pose proof (pool_size_bound _ (rp_pool _ _ Hr)) as Hso. rewrite (rp_total _ _ Hr) in Hso.
  pose proof (pool_size_bound _ (lr_pool _ _ (rp_levels _ _ Hr))) as Hsl.
  rewrite (lr_total _ _ (rp_levels _ _ Hr)) in Hsl.
  destruct (last ((l, os) :: L2)) as [z|] eqn:Hz; [|by apply last_None in Hz].
  destruct (ring_last (lh b) l (L2.*1) z.1) as [Hp _].
  { by rewrite Hls in Hri. }
  { change (l :: L2.*1) with ((l, os) :: L2).*1. by rewrite fmap_last, Hz. }
  eapply prints_eq; [apply (printSide_ok b ls d c sd label (l, os) Hr Hsd) with
    (L1 := []) (L2 := L2) (l := l) (os := os) (prev := z)|done|done|].
  - change 64 with (20 + 44). rewrite Z.pow_add_r by lia. lia.
  - by rewrite Hls.
  - done.
  - lia.
  - done.
  - rewrite Hls. apply last_Some in Hz as [l0 ->]. set_solver.
  - lia.
  - change 64 with (8 + 56). rewrite Z.pow_add_r by lia. lia.
  - unfold render_side, absl, around. change (_ <$> (l, os) :: L2) with (level_at b <$> (l, os) :: L2).
    by rewrite fmap_last, Hz.
Qed.

(** toString prints the model's state, or with the check on throws when the book
    is out of order. *)
Lemma toString_prints b a d c :
  View b a -> prints (toString d c) b (negb c || book_sorted a) (render d (assignedTicker_ b) a).
Proof.
  intros (ls & Hv & _). unfold toString, prints.
  pose proof (side_prints b ls a Side.SELL d c "ASKS" (minS 64)
    (nl +:+ "----- ORDER BOOK FOR TICKER: " +:+ tickerIdToStr (assignedTicker_ b) +:+ " -----" +:+ nl)
    Hv (or_intror eq_refl)) as Ha.
  rewrite (bind_ok get _ b b b) by done. unfold book_sorted. rewrite orb_andb_distrib_r.
  unfold prints in Ha. change (a_side Side.SELL a) with (a_asks a) in Ha.
  destruct (negb c || sorted_from Side.SELL _ _).
  2: { destruct Ha as [what Ha]. exists what. cbn [andb]. by erewrite (bind_ok _ _ _ _ _ Ha). }
  cbn [andb]. erewrite (bind_ok _ _ _ _ _ Ha). cbn iota beta.
  match goal with |- context [?r +:+ nl +:+ "                  [NO BIDS ON BOOK]" +:+ nl] =>
    pose proof (side_prints b ls a Side.BUY d c "BIDS" (maxS 64) r Hv (or_introl eq_refl)) as Hb end.
  eapply prints_eq; [exact Hb|done|done|]. unfold render. by rewrite <- !append_assoc.
Qed.

(** The validity check in terms of the model: strictly worsening prices that do
    not start at the extreme value. *)
Lemma sorted_from_iff sd lastPrice ps :
  two_sided sd ->
  sorted_from sd lastPrice ps = true <->
  sorted_side sd ps /\ Forall (fun p => isSorted sd lastPrice p = true) ps.
Proof.
  intros Hsd. assert (Hb : forall p q, isSorted sd p q = true <-> better sd p q).
  { intros p q. rewrite <- better_after. destruct Hsd as [-> | ->]; unfold isSorted, shouldAddAfter; cbn;
      by rewrite ?orb_false_r, ?Z.ltb_lt. }
  revert lastPrice. induction ps as [|p ps IH]; intros lastPrice; cbn [sorted_from].
  - split; [|done]. intros _. by repeat constructor.
  - rewrite andb_true_iff, IH, Forall_cons. unfold sorted_side. rewrite StronglySorted_cons.
    assert (Hf : Forall (fun q => isSorted sd p q = true) ps <-> Forall (better sd p) ps)
      by (apply Forall_iff; intros q; apply Hb).
    rewrite Hf. split; [|naive_solver]. intros (Hp & Hs & Hps). split_and!; try done.
    eapply Forall_impl; [exact Hps|]. cbn. intros q Hq. apply Hb, (better_trans _ _ p); [by apply Hb|done].
Qed.

Definition in_order a : Prop :=
  sorted_side Side.SELL (a_asks a).*1 /\ sorted_side Side.BUY (a_bids a).*1 /\
  Forall (fun p => minS 64 < p) (a_asks a).*1 /\ Forall (fun p => p < maxS 64) (a_bids a).*1.

Lemma book_sorted_iff a : book_sorted a = true <-> in_order a.
Proof.
  unfold book_sorted, in_order. rewrite andb_true_iff, (sorted_from_iff Side.SELL) by by right.
  rewrite (sorted_from_iff Side.BUY) by by left.
  assert (HS : forall ps, Forall (fun p => isSorted Side.SELL (minS 64) p = true) ps <-> Forall (fun p => minS 64 < p) ps).
  { intros ps. apply Forall_iff. intros p. unfold isSorted. cbn [bool_decide andb orb].
    by rewrite bool_decide_true, bool_decide_false, andb_true_l, andb_false_l, orb_false_r, Z.ltb_lt. }
  assert (HB : forall ps, Forall (fun p => isSorted Side.BUY (maxS 64) p = true) ps <-> Forall (fun p => p < maxS 64) ps).
  { intros ps. apply Forall_iff. intros p. unfold isSorted.
    by rewrite bool_decide_false, bool_decide_true, andb_true_l, andb_false_l, orb_false_l, Z.ltb_lt. }
  rewrite HS, HB. naive_solver.
Qed.

(** C32. Destroying a book logs it: on a book whose sides are strictly in price
    order, no ask at the least and no bid at the greatest representable price, the
    destructor logs exactly the rendering of the model's state and clears the
    pointers; on every other book the validity check of toString throws out of the
    destructor and the program terminates. *)
Theorem destructor_logs_or_terminates b a :
  View b a ->
  (in_order a -> exists b',
     destroyOrderBook b =
       Ok (mkLog INFO ("{}" +:+ nl) [AString (render false (assignedTicker_ b) a)], b') /\
     bidsByPrice_ b' = None /\ asksByPrice_ b' = None /\ mapClientIdToOrder_ b' = ∅) /\
  (~ in_order a -> faults destroyOrderBook b Terminate).
Proof.
  intros Hv. pose proof (toString_prints b a false true Hv) as Hp. cbn [negb orb] in Hp.
  rewrite <- book_sorted_iff. unfold prints in Hp. unfold destroyOrderBook, faults.
  split; intros Hs.
  - rewrite Hs in Hp. rewrite (bind_ok _ _ _ _ _ Hp). eexists. by split.
  - apply not_true_is_false in Hs. rewrite Hs in Hp. destruct Hp as [what Hp].
    by rewrite (bind_ok _ _ _ _ _ Hp).
Qed.

End Facts.

(** A book whose asks are linked as 10, 30, 20. *)
Definition unsorted : list request :=
  [New 1 1 Side.SELL 10 5; New 1 2 Side.SELL 20 5; New 1 3 Side.SELL 30 5].

Lemma destructor_logs_or_terminates_witness :
  (exists b, View b demo_book /\ is_Ok (destroyOrderBook b)) /\
  (exists b, View b (session_model 0 unsorted empty_book) /\ faults destroyOrderBook b Terminate).
Proof.
  split.
  - destruct demo_view as [b Hv]. exists b. split; [done|].
    destruct (proj1 (destructor_logs_or_terminates b demo_book Hv)) as (b' & -> & _); [|done].
    by apply book_sorted_iff.
  - destruct (session_view unsorted) as [b Hv]; [reflexivity|]. exists b. split; [done|].
    apply (proj2 (destructor_logs_or_terminates b _ Hv)). rewrite <- book_sorted_iff. by vm_compute.
Defined.
