(* ===== verification/MatchingEngine.v ===== *)
(** The matching engine: src/src/core/matching_engine/matching_engine.h and
    matching_engine.cpp.

    [EngineOut] is what the order books see of the engine, the two outgoing
    queues and the log, and implements their interface [OmeSink].  [Engine] adds
    the books and the incoming queue.  The worker thread and the thread that
    starts and stops it are the step relation [engine_step]. *)

From S2P Require Import Prelude LFQueue MemoryPool Types Messages Logger Ring Orders OrderBook BookLevels BookModel BookRep BookSpec BookTheorems.
#[local] Open Scope Z_scope.

(** ** The outgoing side *)
Record EngineOut := mkOut {
  txResponses_ : LFQueue OMEClientResponse;
  txMarketUpdates_ : LFQueue OMEMarketUpdate;
  log_ : list LogElement;  (* the Logger::log calls made *)
}.

Definition log (level : LogLevel) (fmt : string) (args : list Any) (o : EngineOut) : EngineOut :=
  mkOut (txResponses_ o) (txMarketUpdates_ o) (log_ o ++ [mkLog level fmt args]).

(** LFQueue::push as the engine uses it; it does not fault on a queue built by
    its constructor ([push_spec]). *)
Definition try_push {T} `{Default T} (v : T) (q : LFQueue T) : bool * LFQueue T :=
  match push v q with
  | Ok r => r
  | Err _ => (false, q)
  end.

Definition engine_dispatchClientResponse (r : OMEClientResponse) (o : EngineOut) : EngineOut :=
  let o1 := log INFO "Publishing market update: {}" [AString (OMEClientResponse_toStr r)] o in
  let '(ok, q) := try_push r (txResponses_ o1) in
  let o2 := mkOut q (txMarketUpdates_ o1) (log_ o1) in
  if ok then o2 else log ERROR "Failed to push client response to queue" [] o2.

Definition engine_publishMarketUpdate (u : OMEMarketUpdate) (o : EngineOut) : EngineOut :=
  let o1 := log INFO "Publishing market update: {}" [AString (OMEMarketUpdate_toStr u)] o in
  let '(ok, q) := try_push u (txMarketUpdates_ o1) in
  let o2 := mkOut (txResponses_ o1) q (log_ o1) in
  if ok then o2 else log ERROR "Failed to push market update to queue" [] o2.

#[export] Instance engine_sink : OmeSink EngineOut := {
  dispatchClientResponse := engine_dispatchClientResponse;
  publishMarketUpdate := engine_publishMarketUpdate;
}.

(** ** State *)
Record Engine := mkEngine {
  orderBookForTicker_ : gmap Z OrderBook;
  rxRequests_ : LFQueue OMEClientRequest;
  out_ : EngineOut;
  isRunning_ : bool;
}.

Definition set_books (m : gmap Z OrderBook) (s : Engine) : Engine :=
  mkEngine m (rxRequests_ s) (out_ s) (isRunning_ s).
Definition set_rx (q : LFQueue OMEClientRequest) (s : Engine) : Engine :=
  mkEngine (orderBookForTicker_ s) q (out_ s) (isRunning_ s).
Definition set_out (o : EngineOut) (s : Engine) : Engine :=
  mkEngine (orderBookForTicker_ s) (rxRequests_ s) o (isRunning_ s).
Definition set_running (r : bool) (s : Engine) : Engine :=
  mkEngine (orderBookForTicker_ s) (rxRequests_ s) (out_ s) r.

(** The constructor's loop over the tickers. *)
Fixpoint makeBooks (n : nat) (i : Z) : res (gmap Z OrderBook) :=
  match n with
  | O => Ok ∅
  | S n' =>
      match newOrderBook i, makeBooks n' (i + 1) with
      | Ok b, Ok m => Ok (<[i := b]> m)
      | Err e, _ => Err e
      | _, Err e => Err e
      end
  end.

Definition newEngine (rx : LFQueue OMEClientRequest) (tx : LFQueue OMEClientResponse)
    (mu : LFQueue OMEMarketUpdate) : res Engine :=
  match makeBooks (Z.to_nat MAX_TICKERS) 0 with
  | Ok m => Ok (mkEngine m rx (mkOut tx mu []) false)
  | Err e => Err e
  end.

(** ** Requests *)
Section Handlers.
Context `{StrayMemory OrderBook}.

(** orderBookForTicker_[ticker]->m *)
Definition with_book (ticker : Z) (m : M (OrderBook * EngineOut) unit) : M Engine unit := fun s =>
  match orderBookForTicker_ s !! ticker with
  | Some b =>
      match m (b, out_ s) with
      | Ok (_, (b', o')) => Ok (tt, set_out o' (set_books (<[ticker := b']> (orderBookForTicker_ s)) s))
      | Err e => Err e
      end
  | None => Err OutOfBounds
  end.

Definition logs (level : LogLevel) (fmt : string) (args : list Any) : M Engine unit :=
  modify (fun s => set_out (log level fmt args (out_ s)) s).

Definition handleClientRequest (request : OMEClientRequest) : M Engine unit :=
  match rq_type request with
  | RequestType.NEW =>
      with_book (rq_tickerId request)
        (addOrder (rq_clientId request) (rq_orderId request) (rq_tickerId request)
           (rq_side request) (rq_price request) (rq_qty request))
  | RequestType.CANCEL =>
      with_book (rq_tickerId request)
        (cancelOrder (rq_clientId request) (rq_orderId request) (rq_tickerId request))
  | _ => logs INFO "Received invalid client request: {}" [AStringView (RequestType.typeToStr (rq_type request))]
  end.

(** One turn of runMatchingEngine's loop; [now] is getCurrentTimeStr(). *)
Definition engineTurn (now : string) : M Engine unit :=
  request ← zoom rxRequests_ set_rx pop;
  match request with
  | Some r => logs INFO "rx request: {} {}" [AString now; AString (OMEClientRequest_toStr r)];; handleClientRequest r
  | None => mret tt
  end.

(** Turns of the loop at the times of [clock]. *)
Fixpoint engineTurns (clock : list string) : M Engine unit :=
  match clock with
  | [] => mret tt
  | now :: clock' => engineTurn now;; engineTurns clock'
  end.

(** ** The two threads *)
Inductive worker := NotCreated | Starting | Looping | Exited.
Inductive owner := Idle | Joining | Stopped.

Record econf := mkEConf {
  ec_engine : Engine;
  ec_worker : worker;
  ec_owner : owner;
  ec_stop_requested : bool;
}.

(** What the worker does: runMatchingEngine sets isRunning_ and loops while it is
    set. *)
Inductive worker_step : econf -> econf -> Prop :=
  | step_enter s o r :
      worker_step (mkEConf s Starting o r)
        (mkEConf (set_out (log INFO "Matching engine thread started" [] (out_ s))
                    (set_running true s)) Looping o r)
  | step_turn s s' o r now :
      isRunning_ s = true -> engineTurn now s = Ok (tt, s') ->
      worker_step (mkEConf s Looping o r) (mkEConf s' Looping o r)
  | step_leave s o r :
      isRunning_ s = false ->
      worker_step (mkEConf s Looping o r) (mkEConf (set_running false s) Exited o r).

(** The owner, the worker and the gateway, which pushes requests.
    stopMatchingEngine requests a stop on the jthread and joins it; the destructor
    is that call and a sleep. *)
Inductive engine_step : econf -> econf -> Prop :=
  | step_start s r : engine_step (mkEConf s NotCreated Idle r) (mkEConf s Starting Idle r)
  | step_worker c c' : worker_step c c' -> engine_step c c'
  | step_receive s w o r q :
      engine_step (mkEConf s w o r) (mkEConf (set_rx q s) w o r)
  | step_stop s w r :
      w <> NotCreated -> engine_step (mkEConf s w Idle r) (mkEConf s w Joining true)
  | step_stop_unstarted s r :
      engine_step (mkEConf s NotCreated Idle r) (mkEConf s NotCreated Stopped r)
  | step_join s r : engine_step (mkEConf s Exited Joining r) (mkEConf s Exited Stopped r).

End Handlers.


(** ** The outgoing queues *)
Definition resp_of (ev : OmeEvent) : option OMEClientResponse :=
  match ev with Resp r => Some r | Upd _ => None end.
Definition upd_of (ev : OmeEvent) : option OMEMarketUpdate :=
  match ev with Resp _ => None | Upd u => Some u end.

Definition is_error (c : LogElement) : bool :=
  match lg_level c with ERROR => true | _ => false end.
Definition errors (o : EngineOut) : nat := length (filter (fun c => is_error c = true) (log_ o)).

Record out_ok (o : EngineOut) : Prop := {
  out_tx : queue_ok (txResponses_ o);
  out_mu : queue_ok (txMarketUpdates_ o);
}.

Lemma try_push_spec {T} `{Default T} (v : T) q :
  queue_ok q ->
  exists q', try_push v q = ((fifo_push (capacity_ q) v (contents q)).1, q') /\ queue_ok q' /\
    capacity_ q' = capacity_ q /\ contents q' = (fifo_push (capacity_ q) v (contents q)).2.
Proof.
  intros Hq. destruct (push_spec v q Hq) as (q' & Hp & Hrest). exists q'. unfold try_push.
  by rewrite Hp.
Qed.

Lemma errors_snoc level fmt args o :
  errors (log level fmt args o) = (errors o + (if is_error (mkLog level fmt args) then 1 else 0))%nat.
Proof.
  unfold errors, log. cbn [log_]. rewrite filter_app, length_app, filter_cons.
  by destruct (is_error _); case_decide.
Qed.

Lemma errors_ext o o' : log_ o = log_ o' -> errors o = errors o'.
Proof. unfold errors. by intros ->. Qed.

Lemma dispatch_spec r o :
  out_ok o ->
  let o' := engine_dispatchClientResponse r o in
  let fifo := fifo_push (capacity_ (txResponses_ o)) r (contents (txResponses_ o)) in
  out_ok o' /\ capacity_ (txResponses_ o') = capacity_ (txResponses_ o) /\
  contents (txResponses_ o') = fifo.2 /\ txMarketUpdates_ o' = txMarketUpdates_ o /\
  errors o' = (errors o + (if fifo.1 then 0 else 1))%nat.
Proof.
  intros [Ht Hm]. cbn zeta. unfold engine_dispatchClientResponse.
  destruct (try_push_spec r (txResponses_ o) Ht) as (q & Hp & Hq & Hc & Hl).
  change (txResponses_ (log _ _ _ o)) with (txResponses_ o). rewrite Hp.
  destruct (fifo_push _ _ _).1; split_and!; try done; rewrite ?errors_snoc;
    rewrite (errors_ext _ (log INFO "Publishing market update: {}" [AString (OMEClientResponse_toStr r)] o))
      by done; rewrite errors_snoc; cbn; lia.
Qed.

Lemma publish_spec u o :
  out_ok o ->
  let o' := engine_publishMarketUpdate u o in
  let fifo := fifo_push (capacity_ (txMarketUpdates_ o)) u (contents (txMarketUpdates_ o)) in
  out_ok o' /\ capacity_ (txMarketUpdates_ o') = capacity_ (txMarketUpdates_ o) /\
  contents (txMarketUpdates_ o') = fifo.2 /\ txResponses_ o' = txResponses_ o /\
  errors o' = (errors o + (if fifo.1 then 0 else 1))%nat.
Proof.
  intros [Ht Hm]. cbn zeta. unfold engine_publishMarketUpdate.
  destruct (try_push_spec u (txMarketUpdates_ o) Hm) as (q & Hp & Hq & Hc & Hl).
  change (txMarketUpdates_ (log _ _ _ o)) with (txMarketUpdates_ o). rewrite Hp.
  destruct (fifo_push _ _ _).1; split_and!; try done; rewrite ?errors_snoc;
    rewrite (errors_ext _ (log INFO "Publishing market update: {}" [AString (OMEMarketUpdate_toStr u)] o))
      by done; rewrite errors_snoc; cbn; lia.
Qed.

(** The outgoing side after any messages of the books. *)
Lemma emits_outbox o evs :
  out_ok o ->
  let o' := emits o evs in
  let tx := txResponses_ o in let mu := txMarketUpdates_ o in
  out_ok o' /\
  contents (txResponses_ o') = kept (capacity_ tx) (contents tx) (omap resp_of evs) /\
  contents (txMarketUpdates_ o') = kept (capacity_ mu) (contents mu) (omap upd_of evs) /\
  errors o' = (errors o + refused (capacity_ tx) (contents tx) (omap resp_of evs)
                        + refused (capacity_ mu) (contents mu) (omap upd_of evs))%nat.
Proof.
  revert o. induction evs as [|ev evs IH]; intros o Ho; cbn zeta.
  - cbn [emits foldl omap list_omap]. rewrite !kept_nil. unfold refused. cbn. split_and!; try done. lia.
  - pose proof Ho as [Ht Hm]. pose proof (qok_cap _ Ht). pose proof (qok_cap _ Hm).
    rewrite emits_cons. destruct ev as [r|u].
    + destruct (dispatch_spec r o Ho) as (Ho' & Hc & Hl & Hsame & He).
      destruct (IH _ Ho') as (? & Hr & Hu & Her). clear IH.
      change (emit o (Resp r)) with (engine_dispatchClientResponse r o).
      rewrite Hr, Hu, Her, He, Hc, Hl, Hsame. cbn [omap list_omap resp_of upd_of].
      rewrite kept_cons, refused_cons by lia. split_and!; try done. lia.
    + destruct (publish_spec u o Ho) as (Ho' & Hc & Hl & Hsame & He).
      destruct (IH _ Ho') as (? & Hr & Hu & Her). clear IH.
      change (emit o (Upd u)) with (engine_publishMarketUpdate u o).
      rewrite Hr, Hu, Her, He, Hc, Hl, Hsame. cbn [omap list_omap resp_of upd_of].
      rewrite kept_cons, (refused_cons (capacity_ (txMarketUpdates_ o))) by lia.
      split_and!; try done. lia.
Qed.

Lemma emits_capacity o evs :
  out_ok o -> capacity_ (txResponses_ (emits o evs)) = capacity_ (txResponses_ o) /\
    capacity_ (txMarketUpdates_ (emits o evs)) = capacity_ (txMarketUpdates_ o).
Proof.
  revert o. induction evs as [|[r|u] evs IH]; intros o Ho; [done|..]; rewrite emits_cons.
  - destruct (dispatch_spec r o Ho) as (Ho' & Hc & _ & Hs & _). rewrite <- Hc, <- Hs. by apply IH.
  - destruct (publish_spec u o Ho) as (Ho' & Hc & _ & Hs & _). rewrite <- Hc, <- Hs. by apply IH.
Qed.

(** C17. The engine's outgoing side under any sequence of messages from the
    books: each queue ends up holding what it held followed by the messages of
    its kind in the order they were sent, cut at its capacity; nothing is
    reordered or duplicated; and every message that does not fit is dropped,
    leaving one LOG_ERROR and no other trace. *)
Theorem engine_outbox_keeps_order o evs :
  out_ok o ->
  let o' := emits o evs in
  let tx := txResponses_ o in let mu := txMarketUpdates_ o in
  out_ok o' /\
  contents (txResponses_ o') = kept (capacity_ tx) (contents tx) (omap resp_of evs) /\
  contents (txMarketUpdates_ o') = kept (capacity_ mu) (contents mu) (omap upd_of evs) /\
  errors o' = (errors o + refused (capacity_ tx) (contents tx) (omap resp_of evs)
                        + refused (capacity_ mu) (contents mu) (omap upd_of evs))%nat.
Proof. apply emits_outbox. Qed.

(** ** The books the engine shows *)
Section EngineSpec.
Context `{StrayMemory OrderBook}.
Implicit Types (s : Engine) (am : gmap Z ABook) (r : OMEClientRequest).

(** Every ticker's book shows the model's, and both have the same tickers. *)
Definition Books s am : Prop := forall i, option_Forall2 View (orderBookForTicker_ s !! i) (am !! i).

(** The book request that a queued request carries. *)
Definition request_of r : option request :=
  match rq_type r with
  | RequestType.NEW =>
      Some (New (rq_clientId r) (rq_orderId r) (rq_side r) (rq_price r) (rq_qty r))
  | RequestType.CANCEL => Some (Cancel (rq_clientId r) (rq_orderId r))
  | _ => None
  end.

(** The messages a book sends for a request. *)
Definition sends (ticker : Z) (q : request) a (evs : list OmeEvent) : Prop :=
  match q with
  | New client oid side price qty =>
      let t := taker_of ticker a client oid side price qty in
      exists ws, evs = add_events t a ws /\ Forall word ws /\
        length ws = length (sweep_fills qty (matched t (set_a_next (a_next a + 1) a)))
  | Cancel client oid =>
      match a_clients a !! (client, oid) with
      | None => evs = [reject_event client oid ticker]
      | Some moid => forall o, o ∈ all_orders a -> o_marketOrderId o = moid ->
          client_key o = (client, oid) -> evs = cancel_events client oid ticker o
      end
  end.

Lemma wp_run_sends {E} `{OmeSink E} ticker q b (e : E) a (Q : unit -> OrderBook * E -> Prop) :
  View b a -> acceptable ticker q a = true ->
  (forall b' evs, View b' (run_model ticker q a) -> sends ticker q a evs -> Q tt (b', emits e evs)) ->
  wp (run_request ticker q) Q (b, e).
Proof.
  intros Hv Hacc HQ. destruct q as [client oid side price qty|client oid]; cbn [run_request].
  - apply acceptable_new in Hacc as (Hs & Hq & Hn & Hmap & Hcr).
    apply (wp_addOrder b e a (taker_of ticker a client oid side price qty)); try done.
    intros b' ws Hv' Hl Hws. apply HQ; [done|]. by exists ws.
  - apply (wp_cancelOrder b e a); [done| |].
    { intros Hc. cbn [acceptable] in Hacc. apply orb_true_iff in Hacc as [Ha|Ha];
        [apply Z.leb_le in Ha|apply Z.ltb_lt in Ha]; lia. }
    intros b' Hv'. destruct (a_clients a !! (client, oid)) as [moid|] eqn:Hc.
    + intros o Ho Hm Hk. apply HQ; [done|]. cbn [sends]. rewrite Hc. intros o' Ho' Hm' _.
      destruct Hv as (ls & Hv & _). by rewrite (view_moid_inj b ls a o o' Hv Ho Ho') by congruence.
    + apply HQ; [done|]. cbn [sends]. by rewrite Hc.
Qed.

Lemma handle_eq r q s :
  request_of r = Some q ->
  handleClientRequest r s = with_book (rq_tickerId r) (run_request (rq_tickerId r) q) s.
Proof.
  unfold request_of, handleClientRequest. by destruct (rq_type r); intros [= <-].
Qed.

Lemma wp_handle r q s am a (Q : unit -> Engine -> Prop) :
  Books s am -> request_of r = Some q -> am !! rq_tickerId r = Some a ->
  acceptable (rq_tickerId r) q a = true ->
  (forall s' evs, Books s' (<[rq_tickerId r := run_model (rq_tickerId r) q a]> am) ->
     sends (rq_tickerId r) q a evs -> out_ s' = emits (out_ s) evs ->
     rxRequests_ s' = rxRequests_ s -> isRunning_ s' = isRunning_ s -> Q tt s') ->
  wp (handleClientRequest r) Q s.
Proof.
  intros Hb Hr Ha Hacc HQ. unfold wp. rewrite (handle_eq r q) by done. unfold with_book.
  pose proof (Hb (rq_tickerId r)) as Hbk. rewrite Ha in Hbk. inversion Hbk as [b a' Hv E1 E2|].
  subst a'. symmetry in E1.
  assert (Hw : wp (run_request (rq_tickerId r) q) (fun _ w => exists evs,
    View w.1 (run_model (rq_tickerId r) q a) /\ sends (rq_tickerId r) q a evs /\
    w.2 = emits (out_ s) evs) (b, out_ s)).
  { apply (wp_run_sends _ _ _ _ a); [done|done|]. intros b' evs Hv' Hs. by exists evs. }
  apply wp_ok in Hw as ([] & [b' o'] & Hrun & evs & Hv' & Hs & He). cbn in Hv', He.
  rewrite Hrun. apply (HQ _ evs); try done.
  intros i. cbn. destruct (decide (i = rq_tickerId r)) as [->|Hne].
  - rewrite !lookup_insert_eq. by constructor.
  - rewrite !lookup_insert_ne by done. apply Hb.
Qed.

(** C16. handleClientRequest on NEW and CANCEL: the book of the request's ticker
    moves as the reference model says, the books of all other tickers, the
    incoming queue and the run flag are untouched, and what goes out is exactly
    what that book sends for the request. *)
Theorem handle_request_refines_model r q s am a :
  Books s am -> request_of r = Some q -> am !! rq_tickerId r = Some a ->
  acceptable (rq_tickerId r) q a = true ->
  exists s' evs, handleClientRequest r s = Ok (tt, s') /\
    Books s' (<[rq_tickerId r := run_model (rq_tickerId r) q a]> am) /\
    (forall i, i <> rq_tickerId r -> orderBookForTicker_ s' !! i = orderBookForTicker_ s !! i) /\
    sends (rq_tickerId r) q a evs /\ out_ s' = emits (out_ s) evs /\
    rxRequests_ s' = rxRequests_ s /\ isRunning_ s' = isRunning_ s.
Proof.
  intros Hb Hr Ha Hacc.
  assert (Hw : wp (handleClientRequest r) (fun _ s' => exists evs,
    Books s' (<[rq_tickerId r := run_model (rq_tickerId r) q a]> am) /\
    sends (rq_tickerId r) q a evs /\ out_ s' = emits (out_ s) evs /\
    rxRequests_ s' = rxRequests_ s /\ isRunning_ s' = isRunning_ s) s).
  { apply (wp_handle r q s am a); try done. intros s' evs ? ? ? ? ?. by exists evs. }
  apply wp_ok in Hw as ([] & s' & Hrun & evs & ? & ? & ? & ? & ?).
  exists s', evs. split_and!; try done. intros i Hi.
  rewrite (handle_eq r q) in Hrun by done. unfold with_book in Hrun.
  destruct (orderBookForTicker_ s !! rq_tickerId r); [|done].
  destruct (run_request _ _ _) as [[? [? ?]]|]; [|done]. injection Hrun as <-.
  cbn. by rewrite lookup_insert_ne.
Qed.

(** The other branches of handleClientRequest.  A request of any other type
    only leaves a log line; a NEW or CANCEL whose ticker has no book reads past
    orderBookForTicker_, since nothing checks the ticker. *)
Theorem handle_request_invalid_or_unknown r s :
  (request_of r = None ->
     handleClientRequest r s = Ok (tt, set_out (log INFO "Received invalid client request: {}"
       [AStringView (RequestType.typeToStr (rq_type r))] (out_ s)) s)) /\
  (request_of r <> None -> orderBookForTicker_ s !! rq_tickerId r = None ->
     faults (handleClientRequest r) s OutOfBounds).
Proof.
  split.
  - unfold request_of, handleClientRequest. by destruct (rq_type r).
  - intros Hq Hn. destruct (request_of r) as [q|] eqn:Hr; [|done].
    unfold faults. rewrite (handle_eq r q) by done. unfold with_book. by rewrite Hn.
Qed.

(** ** Draining the incoming queue *)
Definition engine_model r am : gmap Z ABook :=
  match request_of r, am !! rq_tickerId r with
  | Some q, Some a => <[rq_tickerId r := run_model (rq_tickerId r) q a]> am
  | _, _ => am
  end.
Definition engine_acceptable r am : bool :=
  match request_of r, am !! rq_tickerId r with
  | Some q, Some a => acceptable (rq_tickerId r) q a
  | Some _, None => false
  | None, _ => true
  end.
Fixpoint engine_session (rs : list OMEClientRequest) am : gmap Z ABook :=
  match rs with
  | [] => am
  | r :: rs' => engine_session rs' (engine_model r am)
  end.
Fixpoint engine_acceptable_session (rs : list OMEClientRequest) am : bool :=
  match rs with
  | [] => true
  | r :: rs' => engine_acceptable r am && engine_acceptable_session rs' (engine_model r am)
  end.

Lemma Books_ext s s' am :
  orderBookForTicker_ s' = orderBookForTicker_ s -> Books s am -> Books s' am.
Proof. unfold Books. by intros ->. Qed.

(** The messages of a turn: those of the request's book, or none. *)
Definition turn_sends r am (evs : list OmeEvent) : Prop :=
  match request_of r, am !! rq_tickerId r with
  | Some q, Some a => sends (rq_tickerId r) q a evs
  | _, _ => evs = []
  end.
Definition head_sends (rs : list OMEClientRequest) am (evs : list OmeEvent) : Prop :=
  match rs with r :: _ => turn_sends r am evs | [] => evs = [] end.
Definition head_model (rs : list OMEClientRequest) am : gmap Z ABook :=
  match rs with r :: _ => engine_model r am | [] => am end.
Definition head_acceptable (rs : list OMEClientRequest) am : Prop :=
  match rs with r :: _ => engine_acceptable r am = true | [] => True end.

(** The messages of handling [rs] one after the other. *)
Fixpoint session_sends (rs : list OMEClientRequest) am (evs : list OmeEvent) : Prop :=
  match rs with
  | [] => evs = []
  | r :: rs' => exists evs1 evs2, evs = evs1 ++ evs2 /\ turn_sends r am evs1 /\
      session_sends rs' (engine_model r am) evs2
  end.

(** Outgoing sides that differ in their log only. *)
Definition same_queues (o o' : EngineOut) : Prop :=
  txResponses_ o = txResponses_ o' /\ txMarketUpdates_ o = txMarketUpdates_ o'.

Lemma wp_turn now s am (Q : unit -> Engine -> Prop) :
  Books s am -> queue_ok (rxRequests_ s) -> head_acceptable (contents (rxRequests_ s)) am ->
  (forall s' o1 evs, queue_ok (rxRequests_ s') -> isRunning_ s' = isRunning_ s ->
     capacity_ (rxRequests_ s') = capacity_ (rxRequests_ s) ->
     contents (rxRequests_ s') = tail (contents (rxRequests_ s)) ->
     Books s' (head_model (contents (rxRequests_ s)) am) ->
     head_sends (contents (rxRequests_ s)) am evs ->
     same_queues o1 (out_ s) -> out_ s' = emits o1 evs -> Q tt s') ->
  wp (engineTurn now) Q s.
Proof.
  intros Hb Hq Hacc HQ. unfold engineTurn. wp_step. apply wp_zoom.
  destruct (pop_spec _ Hq) as (q' & Hp & Hq' & Hcap & Hl). apply wp_ok. do 2 eexists.
  split; [exact Hp|]. unfold head_sends, head_model, head_acceptable in *.
  destruct (contents (rxRequests_ s)) as [|r rs] eqn:Hc; cbn [fifo_pop fst snd] in *.
  - apply wp_ret. by apply (HQ _ (out_ s) []).
  - wp_step. apply wp_modify. unfold engine_acceptable, engine_model, turn_sends in *.
    destruct (request_of r) as [q|] eqn:Hr.
    + destruct (am !! rq_tickerId r) as [a|] eqn:Ha; [|done].
      eapply (wp_handle r q _ am a); [by apply (Books_ext s)|done|done|done|].
      intros s' evs Hb' Hs Hout Hrx Hrun.
      eapply (HQ s' _ evs); [by rewrite Hrx|by rewrite Hrun|by rewrite Hrx|by rewrite Hrx|done|done| |exact Hout]. done.
    + unfold request_of, handleClientRequest in *.
      destruct (rq_type r); try done; apply wp_modify;
        (eapply (HQ _ _ []); [done|done|done|done|done|done| |reflexivity]; done).
Qed.

(** The same, with what the turn leaves in the outgoing queues. *)
Lemma wp_turn_sends now s am (Q : unit -> Engine -> Prop) :
  Books s am -> queue_ok (rxRequests_ s) -> out_ok (out_ s) ->
  head_acceptable (contents (rxRequests_ s)) am ->
  (forall s' evs, queue_ok (rxRequests_ s') -> out_ok (out_ s') ->
     capacity_ (rxRequests_ s') = capacity_ (rxRequests_ s) ->
     contents (rxRequests_ s') = tail (contents (rxRequests_ s)) ->
     Books s' (head_model (contents (rxRequests_ s)) am) ->
     head_sends (contents (rxRequests_ s)) am evs ->
     capacity_ (txResponses_ (out_ s')) = capacity_ (txResponses_ (out_ s)) ->
     capacity_ (txMarketUpdates_ (out_ s')) = capacity_ (txMarketUpdates_ (out_ s)) ->
     contents (txResponses_ (out_ s')) =
       kept (capacity_ (txResponses_ (out_ s))) (contents (txResponses_ (out_ s))) (omap resp_of evs) ->
     contents (txMarketUpdates_ (out_ s')) =
       kept (capacity_ (txMarketUpdates_ (out_ s))) (contents (txMarketUpdates_ (out_ s))) (omap upd_of evs) ->
     Q tt s') ->
  wp (engineTurn now) Q s.
Proof.
  intros Hb Hq Ho Hacc HQ. apply (wp_turn now s am); [done|done|done|].
  intros s' o1 evs Hq' _ Hcrx Hc Hb' Hs [E1 E2] Hout.
  assert (Ho1 : out_ok o1) by (destruct Ho; split; by rewrite ?E1, ?E2).
  destruct (emits_outbox o1 evs Ho1) as (Hok & Hresp & Hupd & _).
  destruct (emits_capacity o1 evs Ho1) as [Hcr Hcu]. rewrite E1 in *. rewrite E2 in *.
  apply (HQ s' evs); rewrite ?Hout; done.
Qed.

Lemma engine_turns_run clock s am rs :
  Books s am -> queue_ok (rxRequests_ s) -> contents (rxRequests_ s) = rs ->
  engine_acceptable_session rs am = true ->
  exists s', engineTurns clock s = Ok (tt, s') /\
    Books s' (engine_session (take (length clock) rs) am) /\
    contents (rxRequests_ s') = drop (length clock) rs /\ isRunning_ s' = isRunning_ s.
Proof.
  revert s am rs. induction clock as [|now clock IH]; intros s am rs Hb Hq Hc Hacc.
  { by exists s. }
  cbn [engineTurns length].
  assert (Hw : wp (engineTurn now;; engineTurns clock) (fun _ s' =>
    Books s' (engine_session (take (S (length clock)) rs) am) /\
    contents (rxRequests_ s') = drop (S (length clock)) rs /\ isRunning_ s' = isRunning_ s) s).
  { wp_step. apply (wp_turn now s am); [done|done| |].
    - rewrite Hc. destruct rs as [|r rs]; [done|]. by apply andb_true_iff in Hacc as [? _].
    - intros s1 o1 evs Hq1 Hrun1 _ Hc1 Hb1 _ _ _. rewrite Hc in Hc1, Hb1.
      assert (Hacc1 : engine_acceptable_session (tail rs) (head_model rs am) = true).
      { destruct rs as [|r rs]; [done|]. by apply andb_true_iff in Hacc as [_ ?]. }
      destruct (IH s1 _ (tail rs) Hb1 Hq1 Hc1 Hacc1) as (s' & Hrun & Hb' & Hc' & Hr').
      apply wp_ok. exists tt, s'. split; [exact Hrun|]. rewrite Hr', Hrun1.
      destruct rs as [|r rs]; cbn in *; [|done]. by rewrite take_nil, drop_nil in *. }
  apply wp_ok in Hw as ([] & s' & Hrun & ?). by exists s'.
Qed.

(** The engine loop handles requests first in, first out.  From a state
    whose incoming queue holds [rs], after any number of turns the first that
    many requests have been handled in order, each on its own ticker's book, the
    rest is still queued, and nothing faulted. *)
Theorem engine_turns_process_in_order clock s am rs :
  Books s am -> queue_ok (rxRequests_ s) -> contents (rxRequests_ s) = rs ->
  engine_acceptable_session rs am = true ->
  exists s', engineTurns clock s = Ok (tt, s') /\
    Books s' (engine_session (take (length clock) rs) am) /\
    contents (rxRequests_ s') = drop (length clock) rs /\ isRunning_ s' = isRunning_ s.
Proof. apply engine_turns_run. Qed.

(** ** Construction *)
Definition fresh_books : gmap Z ABook :=
  list_to_map ((fun i => (i, empty_book)) <$> seqZ 0 MAX_TICKERS).

Lemma makeBooks_spec n : forall i,
  exists m, makeBooks n i = Ok m /\
    forall j, option_Forall2 View (m !! j)
      ((list_to_map ((fun i => (i, empty_book)) <$> seqZ i (Z.of_nat n)) : gmap Z ABook) !! j).
Proof.
  induction n as [|n IH]; intros i.
  - exists ∅. split; [done|]. intros j. cbn. rewrite !lookup_empty. constructor.
  - destruct (IH (i + 1)) as (m & Hm & Hv).
    destruct (newOrderBook_ok i) as (lp & op & Hnew & _).
    exists (<[i := mkBook i ∅ None None ∅ lp op dflt dflt 1]> m). cbn [makeBooks]. rewrite Hnew, Hm.
    split; [done|]. intros j. rewrite seqZ_cons by lia.
    replace (Z.pred (Z.of_nat (S n))) with (Z.of_nat n) by lia.
    replace (Z.succ i) with (i + 1) by lia. cbn [fmap list_fmap list_to_map foldr].
    destruct (decide (j = i)) as [->|Hne].
    + rewrite !lookup_insert_eq. constructor. by apply (newOrderBook_view i).
    + rewrite !lookup_insert_ne by done. apply Hv.
Qed.

Lemma newEngine_spec rx tx mu :
  exists m, newEngine rx tx mu = Ok (mkEngine m rx (mkOut tx mu []) false) /\
    Books (mkEngine m rx (mkOut tx mu []) false) fresh_books.
Proof.
  destruct (makeBooks_spec (Z.to_nat MAX_TICKERS) 0) as (m & Hm & Hv).
  exists m. unfold newEngine. rewrite Hm. split; [done|exact Hv].
Qed.

(** The engine from its constructor on.  Construction never fails; and
    whatever acceptable requests, for any of the eight tickers, the incoming
    queue holds, as many turns of the loop handle them all without a fault,
    leave the queue empty and every book at the model's state. *)
Theorem engine_serves_from_construction rx tx mu clock :
  queue_ok rx -> engine_acceptable_session (contents rx) fresh_books = true ->
  length clock = length (contents rx) ->
  exists s s', newEngine rx tx mu = Ok s /\ engineTurns clock s = Ok (tt, s') /\
    Books s' (engine_session (contents rx) fresh_books) /\ contents (rxRequests_ s') = [].
Proof.
  intros Hq Hacc Hlen. destruct (newEngine_spec rx tx mu) as (m & Hm & Hb).
  destruct (engine_turns_run clock _ fresh_books (contents rx) Hb Hq eq_refl Hacc)
    as (s' & Hrun & Hb' & Hc' & _).
  rewrite Hlen in *. rewrite firstn_all in Hb'. rewrite drop_all in Hc'.
  by exists (mkEngine m rx (mkOut tx mu []) false), s'.
Qed.

(** ** Starting and stopping *)
Lemma turn_keeps_running now s s' :
  engineTurn now s = Ok (tt, s') -> isRunning_ s' = isRunning_ s.
Proof.
  unfold engineTurn. intros (o & s1 & Hp & Hk)%bind_inv.
  unfold zoom in Hp. destruct (pop (rxRequests_ s)) as [[v q]|]; [|done].
  injection Hp as -> <-. destruct o as [r|]; [|by injection Hk as <-].
  apply bind_inv in Hk as ([] & s2 & Hlog & Hh). injection Hlog as <-.
  unfold handleClientRequest, with_book, logs, modify in Hh.
  destruct (rq_type r); cbn in Hh; repeat case_match; simplify_eq; done.
Qed.

Record looping_inv (c : econf) : Prop := {
  li_running : ec_worker c = Looping -> isRunning_ (ec_engine c) = true;
  li_created : ec_worker c <> NotCreated;
  li_exited : ec_worker c <> Exited;
  li_stopped : ec_owner c <> Stopped;
}.

Lemma looping_inv_worker c c' : looping_inv c -> worker_step c c' -> looping_inv c'.
Proof.
  intros [H1 H2 H3 H4] Hst. destruct Hst; cbn in *; split; cbn; try done; try congruence.
  - intros _. by erewrite turn_keeps_running.
  - by rewrite H1 in *.
Qed.

Lemma looping_inv_step c c' : looping_inv c -> engine_step c c' -> looping_inv c'.
Proof.
  intros Hi Hst. destruct Hst as [|c c' Hst| | | |];
    [|by apply (looping_inv_worker c)|..]; destruct Hi as [H1 H2 H3 H4]; cbn in *; split; cbn; try done; congruence.
Qed.

(** C34. stopMatchingEngine never returns once the engine was started.  Nothing
    but the end of the loop clears isRunning_, and the loop ends only when it is
    clear: in no execution after startMatchingEngine, whether a stop was
    requested or not, does the worker leave its loop or the join succeed. *)
Theorem engine_stop_never_returns s c :
  rtc engine_step (mkEConf s Starting Idle false) c ->
  ec_worker c <> Exited /\ ec_owner c <> Stopped.
Proof.
  intros Hr.
  assert (Hi : looping_inv (mkEConf s Starting Idle false)) by (by split).
  revert Hi. induction Hr as [c|c1 c2 c3 Hst _ IH]; intros Hi; [by destruct Hi|].
  apply IH. by eapply looping_inv_step.
Qed.

End EngineSpec.

(** *** Witnesses *)
#[local] Existing Instance zeroStray.

Definition demo_requests : list OMEClientRequest :=
  [mkRequest RequestType.NEW 1 0 1 Side.SELL 10 5; mkRequest RequestType.INVALID 2 9 1 Side.BUY 1 1;
   mkRequest RequestType.NEW 2 3 7 Side.BUY 10 2; mkRequest RequestType.NEW 2 0 1 Side.BUY 11 2;
   mkRequest RequestType.CANCEL 2 3 7 Side.INVALID 0 0].
Definition demo_rx : LFQueue OMEClientRequest :=
  match run_qcalls (QPush <$> demo_requests) (newQueue 16) with
  | Ok (_, q) => q
  | Err _ => newQueue 16
  end.

Lemma demo_rx_ok : queue_ok demo_rx /\ contents demo_rx = demo_requests.
Proof.
  split; [|vm_compute; reflexivity].
  split; vm_compute; try done; intros; by split.
Qed.

Lemma demo_engine : exists s, Books s fresh_books /\ queue_ok (rxRequests_ s) /\
  contents (rxRequests_ s) = demo_requests /\ orderBookForTicker_ s !! 9 = None /\
  out_ s = mkOut (newQueue 1) (newQueue 2) [].
Proof.
  destruct (newEngine_spec demo_rx (newQueue 1) (newQueue 2)) as (m & _ & Hb).
  exists (mkEngine m demo_rx (mkOut (newQueue 1) (newQueue 2) []) false).
  split; [done|]. destruct demo_rx_ok. split_and!; try done.
  specialize (Hb 9). cbn in Hb |- *. by inversion Hb.
Qed.

Example engine_outbox_keeps_order_witness :
  let o := mkOut (newQueue 1) (newQueue 2) [] in
  let evs := [Resp dflt; Upd dflt; reject_event 1 1 0; Upd dflt; Upd dflt] in
  contents (txResponses_ (emits o evs)) = [dflt] /\ errors (emits o evs) = 2%nat.
Proof.
  cbn zeta. destruct (engine_outbox_keeps_order (mkOut (newQueue 1) (newQueue 2) [])
    [Resp dflt; Upd dflt; reject_event 1 1 0; Upd dflt; Upd dflt]) as (_ & Hr & _ & He).
  { split; by apply newQueue_ok. }
  split; [exact Hr|exact He].
Defined.

Example handle_request_refines_model_witness :
  exists s a s', Books s fresh_books /\
    handleClientRequest (mkRequest RequestType.NEW 1 0 1 Side.SELL 10 5) s = Ok (tt, s') /\
    Books s' (<[0 := run_model 0 (New 1 1 Side.SELL 10 5) a]> fresh_books).
Proof.
  destruct demo_engine as (s & Hb & _).
  destruct (handle_request_refines_model (mkRequest RequestType.NEW 1 0 1 Side.SELL 10 5)
    (New 1 1 Side.SELL 10 5) s fresh_books empty_book Hb) as (s' & evs & Hrun & Hb' & _);
    [vm_compute; reflexivity..|].
  exists s, empty_book, s'. split; [done|]. split; [exact Hrun|exact Hb'].
Defined.

Example handle_request_invalid_or_unknown_witness :
  exists s, faults (handleClientRequest (mkRequest RequestType.NEW 1 9 1 Side.SELL 10 5)) s OutOfBounds.
Proof.
  destruct demo_engine as (s & _ & _ & _ & Hn & _). exists s.
  apply (handle_request_invalid_or_unknown (mkRequest RequestType.NEW 1 9 1 Side.SELL 10 5) s).
  - discriminate.
  - exact Hn.
Defined.

Example engine_turns_process_in_order_witness :
  exists s, contents (rxRequests_ s) = demo_requests /\ exists s', 
    engineTurns ["09:00"; "09:01"; "09:02"]%string s = Ok (tt, s') /\
    contents (rxRequests_ s') = drop 3 demo_requests.
Proof.
  destruct demo_engine as (s & Hb & Hq & Hc & _). exists s. split; [done|].
  destruct (engine_turns_process_in_order ["09:00"; "09:01"; "09:02"]%string s fresh_books
    demo_requests Hb Hq Hc) as (s' & Hrun & _ & Hc' & _); [vm_compute; reflexivity|].
  exists s'. split; [exact Hrun|exact Hc'].
Defined.

Example engine_serves_from_construction_witness :
  exists s s', newEngine demo_rx (newQueue 1) (newQueue 2) = Ok s /\
    engineTurns (replicate 5 "09:00"%string) s = Ok (tt, s') /\ contents (rxRequests_ s') = [].
Proof.
  destruct (engine_serves_from_construction demo_rx (newQueue 1) (newQueue 2)
    (replicate 5 "09:00"%string)) as (s & s' & Hn & Hrun & _ & Hc).
  - apply demo_rx_ok.
  - destruct demo_rx_ok as [_ ->]. vm_compute. reflexivity.
  - destruct demo_rx_ok as [_ ->]. reflexivity.
  - exists s, s'. split; [exact Hn|]. split; [exact Hrun|exact Hc].
Defined.

(** The worker entered its loop and a stop was requested. *)
Example engine_stop_never_returns_witness :
  exists s c, rtc engine_step (mkEConf s Starting Idle false) c /\ ec_stop_requested c = true /\
    ec_owner c = Joining /\ (ec_worker c <> Exited /\ ec_owner c <> Stopped).
Proof.
  destruct demo_engine as (s & _).
  assert (Hr : rtc engine_step (mkEConf s Starting Idle false)
    (mkEConf (set_out (log INFO "Matching engine thread started" [] (out_ s)) (set_running true s))
       Looping Joining true)).
  { eapply rtc_l; [apply step_worker, step_enter|]. eapply rtc_l; [by apply step_stop|]. apply rtc_refl. }
  eexists s, _. split; [exact Hr|]. split; [done|]. split; [done|].
  exact (engine_stop_never_returns s _ Hr).
Defined.
