(* ===== verification/MarketData.v ===== *)
(** What the stream of market updates is worth to its reader.

    market_data.h says that a reader of the numbered updates can reconstruct the
    market on its side.  No reader is part of the program, so [apply_update] is
    what the types of the updates ask of one: ADD and MODIFY store an order under
    its market order id, CANCEL drops it, CLEAR empties the copy and the other
    types leave it alone.  The theorems say that this copy is the book: after any
    session of one book, and for all tickers together when a reader takes the
    updates from the engine's queue at its own pace. *)

From S2P Require Import Prelude LFQueue MemoryPool Types Messages Ring Orders OrderBook BookLevels BookModel BookRep BookSpec BookTheorems BookTyping MatchingEngine.
#[local] Open Scope Z_scope.

(** ** The reader *)
Record Quote := mkQuote {
  qt_side : Side.t;
  qt_price : Z;
  qt_qty : Z;
  qt_priority : Z;
}.
Abbreviation depth := (gmap Z Quote).

Definition quote_of (o : Order) : Quote := mkQuote (o_side o) (o_price o) (o_qty o) (o_priority o).
Definition entry (o : Order) : Z * Quote := (o_marketOrderId o, quote_of o).
Definition depth_of (os : list Order) : depth := list_to_map (entry <$> os).

(** What a book shows. *)
Definition shown (a : ABook) : depth := depth_of (all_orders a).

Definition apply_update (m : depth) (u : OMEMarketUpdate) : depth :=
  match mu_type u with
  | UpdateType.ADD | UpdateType.MODIFY =>
      <[mu_orderId u := mkQuote (mu_side u) (mu_price u) (mu_qty u) (mu_priority u)]> m
  | UpdateType.CANCEL => delete (mu_orderId u) m
  | UpdateType.CLEAR => ∅
  | _ => m
  end.
Definition replay (us : list OMEMarketUpdate) (m : depth) : depth := foldl apply_update m us.

(** The updates among the messages of a book. *)
Abbreviation feed := (omap upd_of).

Definition drop_order (m : depth) (o : Order) : depth := delete (o_marketOrderId o) m.

(** ** Copies of order lists *)
Section Depth.
Implicit Types (m : depth) (os : list Order) (o : Order).

Lemma entry_ids os : (entry <$> os).*1 = o_marketOrderId <$> os.
Proof. by rewrite <- list_fmap_compose. Qed.

Lemma depth_lookup os i q :
  NoDup (o_marketOrderId <$> os) ->
  depth_of os !! i = Some q <-> exists o, o ∈ os /\ entry o = (i, q).
Proof.
  intros Hnd. unfold depth_of. rewrite <- elem_of_list_to_map by by rewrite entry_ids.
  rewrite list_elem_of_fmap. split; intros (o & H1 & H2); exists o; by split.
Qed.

(** A copy depends on the set of orders only. *)
Lemma depth_ext os1 os2 :
  NoDup (o_marketOrderId <$> os1) -> NoDup (o_marketOrderId <$> os2) ->
  (forall o, o ∈ os1 <-> o ∈ os2) -> depth_of os1 = depth_of os2.
Proof.
  intros H1 H2 Hin. apply map_eq. intros i. apply option_eq. intros q.
  rewrite !depth_lookup by done. by setoid_rewrite Hin.
Qed.

Lemma depth_none os i : i ∉ (o_marketOrderId <$> os) -> depth_of os !! i = None.
Proof. intros Hi. apply not_elem_of_list_to_map_1. by rewrite entry_ids. Qed.

Lemma ids_perm os1 os2 :
  os1 ≡ₚ os2 -> NoDup (o_marketOrderId <$> os1) -> NoDup (o_marketOrderId <$> os2).
Proof. by intros ->. Qed.

Lemma depth_drop os1 os2 :
  NoDup (o_marketOrderId <$> (os1 ++ os2)) ->
  foldl drop_order (depth_of (os1 ++ os2)) os1 = depth_of os2.
Proof.
  induction os1 as [|o os1 IH]; [done|]. cbn [app fmap list_fmap foldl].
  intros [Hi Hnd]%NoDup_cons. rewrite <- IH by done. f_equal.
  apply delete_insert_id. by apply depth_none.
Qed.

Lemma replay_app us1 us2 m : replay (us1 ++ us2) m = replay us2 (replay us1 m).
Proof. apply foldl_app. Qed.

End Depth.

(** ** The updates of a request *)
Section Requests.
Implicit Types (m : depth) (a : ABook) (t : Taker) (o : Order).

(** The fills of one order end with its CANCEL, whatever MODIFYs come before. *)
Lemma replay_fill_seq t o n : forall qty q ws m,
  0 < qty -> 0 < q -> (fills qty q <= n)%nat -> length ws = length (fill_seq n qty q) ->
  replay (feed (match_events t ((fun fr => (o, fr)) <$> fill_seq n qty q) ws)) m = drop_order m o.
Proof.
  induction n as [|n IH]; intros qty q ws m Hqty Hq Hf Hl.
  { destruct (Z.leb_spec q qty); [rewrite fills_small in Hf by lia|rewrite fills_step in Hf by lia]; lia. }
  cbn [fill_seq] in *. destruct ws as [|w ws]; [done|]. cbn [fmap list_fmap].
  rewrite match_events_cons, omap_app, replay_app. unfold fill_events.
  destruct (Z.leb_spec q qty).
  - rewrite Z.min_r, Z.sub_diag in * by lia. cbn [Z.eqb] in *. by destruct ws.
  - rewrite Z.min_l in * by lia. rewrite (proj2 (Z.eqb_neq (q - qty) 0)) in * by lia.
    cbn [length] in Hl. rewrite fills_step in Hf by lia. rewrite IH by lia.
    unfold drop_order. apply delete_insert_eq.
Qed.

Lemma replay_order t o qty ws m :
  0 < qty -> 0 < o_qty o -> length ws = length (order_fills qty o) ->
  replay (feed (match_events t (order_fills qty o) ws)) m = drop_order m o.
Proof. unfold order_fills. rewrite length_fmap. intros. by apply replay_fill_seq. Qed.

Lemma match_events_app t fs1 fs2 ws1 ws2 :
  length ws1 = length fs1 ->
  match_events t (fs1 ++ fs2) (ws1 ++ ws2) = match_events t fs1 ws1 ++ match_events t fs2 ws2.
Proof. intros Hl. unfold match_events. by rewrite zip_with_app, concat_app. Qed.

Lemma replay_match t qty os : forall ws m,
  0 < qty -> Forall (fun o => 0 < o_qty o) os -> length ws = length (sweep_fills qty os) ->
  replay (feed (match_events t (sweep_fills qty os) ws)) m = foldl drop_order m os.
Proof.
  induction os as [|o os IH]; intros ws m Hqty Hpos Hl; [done|].
  apply Forall_cons in Hpos as [Ho Hpos]. unfold sweep_fills in *. cbn [fmap list_fmap concat foldl] in *.
  rewrite length_app in Hl.
  rewrite <- (take_drop (length (order_fills qty o)) ws).
  rewrite match_events_app, omap_app, replay_app by (rewrite length_take; lia).
  rewrite replay_order; [|done|done|rewrite length_take; lia].
  apply IH; [done|done|]. rewrite length_drop. lia.
Qed.

Lemma shown_match t a ws :
  two_sided (t_side t) -> 0 <= t_qty t -> NoDup (o_marketOrderId <$> all_orders a) ->
  Forall (fun o => 0 < o_qty o) (all_orders a) ->
  length ws = length (sweep_fills (t_qty t) (matched t a)) ->
  replay (feed (match_events t (sweep_fills (t_qty t) (matched t a)) ws)) (shown a) = shown (a_match t a).
Proof.
  intros Hs Hq Hnd Hpos Hl. destruct (Z.eqb_spec (t_qty t) 0) as [Hz|Hz].
  { unfold matched, a_match. by rewrite Hz. }
  pose proof (all_orders_match t a Hs) as Hp.
  rewrite replay_match; [|lia| |done].
  - unfold shown. rewrite <- (depth_drop (matched t a) (all_orders (a_match t a))) by by eapply ids_perm.
    f_equal.
    apply depth_ext; [done|by eapply ids_perm|]. intros o. by rewrite Hp.
  - apply Forall_forall. intros o Ho. rewrite Forall_forall in Hpos. by apply Hpos, (matched_incl t).
Qed.

Lemma shown_rest t a :
  two_sided (t_side t) -> NoDup (o_marketOrderId <$> all_orders (a_rest t a)) ->
  NoDup (o_marketOrderId <$> all_orders a) -> ids_below (t_moid t) a ->
  replay (feed [add_event t (rested t a)]) (shown a) = shown (a_rest t a).
Proof.
  intros Hs Hnd Hnd0 Hb. change (depth_of (rested t a :: all_orders a) = shown (a_rest t a)).
  apply depth_ext; [|done|].
  - cbn [fmap list_fmap]. apply NoDup_cons. split; [|done]. intros (o & He & Ho)%list_elem_of_fmap.
    unfold ids_below in Hb. rewrite Forall_forall in Hb. specialize (Hb o Ho). rewrite <- He in Hb.
    change (o_marketOrderId (rested t a)) with (t_moid t) in Hb. lia.
  - intros o. by rewrite elem_of_rest, elem_of_cons by done.
Qed.

Lemma shown_cancel client oid a o :
  NoDup (o_marketOrderId <$> all_orders a) ->
  NoDup (o_marketOrderId <$> all_orders (a_cancel client oid a)) ->
  a_clients a !! (client, oid) = Some (o_marketOrderId o) ->
  drop_order (shown a) o = shown (a_cancel client oid a).
Proof.
  intros H1 H2 Hc. apply map_eq. intros i. apply option_eq. intros q. unfold drop_order.
  rewrite lookup_delete_Some. unfold shown. rewrite !depth_lookup by done.
  setoid_rewrite elem_of_cancel. rewrite Hc. unfold entry. split.
  - intros (Hne & x & Hx & He). exists x. split; [|done]. split; [done|]. intros [= E]. naive_solver.
  - intros (x & [Hx Hne] & He). split; [|by exists x]. intros <-. apply Hne. by injection He as ->.
Qed.

(** What a book sends for a request keeps the copy in step with the book. *)
Lemma replay_sends `{StrayMemory OrderBook} ticker q b b' a evs :
  View b a -> View b' (run_model ticker q a) -> acceptable ticker q a = true ->
  sends ticker q a evs -> replay (feed evs) (shown a) = shown (run_model ticker q a).
Proof.
  intros Hv Hv' Hacc Hs. pose proof (view_ids_NoDup b a Hv) as Hnd.
  pose proof (view_ids_NoDup _ _ Hv') as Hnd'.
  destruct q as [client oid side price qty|client oid]; cbn [sends run_model] in *.
  - destruct Hs as (ws & -> & _ & Hl). apply acceptable_new in Hacc as (Hsd & Hq & _).
    set (t := taker_of ticker a client oid side price qty) in *. unfold add_events, a_add in *.
    set (a1 := set_a_next (a_next a + 1) a) in *. cbn [omap list_omap upd_of accept_event].
    rewrite omap_app, replay_app. change (shown a) with (shown a1).
    rewrite (shown_match t a1); [|done|cbn; lia|done|exact (view_positive b a Hv)|done].
    destruct (t_qty t =? 0); [done|]. apply shown_rest; [done|done| |].
    + by apply NoDup_match.
    + apply ids_below_match; [done|]. destruct Hv as (ls & Hv & _). exact (view_ids_below b ls a Hv).
  - destruct (a_clients a !! (client, oid)) as [moid|] eqn:Hc.
    + destruct (view_client_order b a client oid moid Hv Hc) as (o & Ho & Hm & Hk).
      rewrite (Hs o Ho Hm Hk). apply shown_cancel; [done|done|]. by rewrite Hc, Hm.
    + subst evs. unfold a_cancel. by rewrite Hc.
Qed.

(** Every update names the ticker of the request. *)
Definition about (ticker : Z) (u : OMEMarketUpdate) : Prop := mu_tickerId u = ticker.

Lemma sends_about ticker q b a evs :
  View b a -> sends ticker q a evs -> Forall (about ticker) (feed evs).
Proof.
  intros Hv Hs. destruct q as [client oid side price qty|client oid]; cbn [sends] in Hs.
  - destruct Hs as (ws & -> & _). set (t := taker_of ticker a client oid side price qty).
    unfold add_events. cbn [omap list_omap upd_of accept_event]. rewrite omap_app. apply Forall_app. split.
    + generalize (sweep_fills (t_qty t) (matched t (set_a_next (a_next a + 1) a))). intros fs.
      revert ws. induction fs as [|[o [f r]] fs IH]; intros [|w ws]; try by apply Forall_nil_2.
      rewrite match_events_cons, omap_app. apply Forall_app. split; [|apply IH].
      unfold fill_events. destruct (r =? 0); by repeat constructor.
    + destruct (t_qty t =? 0); by repeat constructor.
  - destruct (a_clients a !! (client, oid)) as [moid|] eqn:Hc.
    + destruct (view_client_order b a client oid moid Hv Hc) as (o & Ho & Hm & Hk).
      rewrite (Hs o Ho Hm Hk). by repeat constructor.
    + subst evs. by repeat constructor.
Qed.

End Requests.

(** ** One book *)
Section Book.
Context {E : Type} `{OmeSink E} `{StrayMemory OrderBook}.
Implicit Types (b : OrderBook) (e : E) (a : ABook).

Lemma wp_session_feed ticker rs : forall b e a (Q : unit -> OrderBook * E -> Prop),
  View b a -> acceptable_session ticker rs a = true ->
  (forall b' evs, View b' (session_model ticker rs a) ->
     replay (feed evs) (shown a) = shown (session_model ticker rs a) ->
     Forall (about ticker) (feed evs) -> Q tt (b', emits e evs)) ->
  wp (run_session ticker rs) Q (b, e).
Proof.
  induction rs as [|r rs IH]; intros b e a Q Hv Hacc HQ;
    cbn [run_session session_model acceptable_session] in *.
  - apply wp_ret. by apply (HQ b []).
  - apply andb_true_iff in Hacc as [Hr Hacc]. wp_step.
    apply (wp_run_sends ticker r b e a); [done|done|]. intros b1 evs1 Hv1 Hs1.
    apply (IH b1 _ (run_model ticker r a)); [done|done|]. intros b2 evs2 Hv2 Hrep Hab.
    rewrite <- emits_app. apply HQ; [done| |].
    + rewrite omap_app, replay_app. by rewrite (replay_sends ticker r b b1 a).
    + rewrite omap_app. apply Forall_app. split; [by apply (sends_about ticker r b a)|done].
Qed.

(** C3. The market updates of a book describe it.  Take any session of
    acceptable requests from a book that shows [a]: a reader that starts from the
    orders of [a] and applies the updates sent on the way, in order, ends with
    exactly the orders of the book, each under its market order id with its side,
    price, open quantity and priority, however often an order was filled in
    part, and nothing else. *)
Theorem market_updates_describe_book ticker rs b e a :
  View b a -> acceptable_session ticker rs a = true ->
  exists b' evs, run_session ticker rs (b, e) = Ok (tt, (b', emits e evs)) /\
    View b' (session_model ticker rs a) /\
    replay (feed evs) (shown a) = shown (session_model ticker rs a) /\
    Forall (about ticker) (feed evs).
Proof.
  intros Hv Hacc.
  assert (Hw : wp (run_session ticker rs) (fun _ w => exists b' evs, w = (b', emits e evs) /\
    View b' (session_model ticker rs a) /\
    replay (feed evs) (shown a) = shown (session_model ticker rs a) /\
    Forall (about ticker) (feed evs)) (b, e)).
  { apply (wp_session_feed ticker rs b e a); [done|done|]. intros b' evs Hv' Hr Hab. by exists b', evs. }
  apply wp_ok in Hw as ([] & w & Hrun & b' & evs & -> & Hr). by exists b', evs.
Qed.

End Book.

(** ** All tickers, and a reader with its own pace *)
#[export] Instance about_dec i u : Decision (about i u) := decide (mu_tickerId u = i).
Definition for_ticker (i : Z) (us : list OMEMarketUpdate) : list OMEMarketUpdate :=
  filter (about i) us.

(** The engine, and the copies of the reader by ticker. *)
Record Market := mkMarket {
  mk_engine : Engine;
  mk_copies : gmap Z depth;
}.

Definition copy (i : Z) (m : Market) : depth := default ∅ (mk_copies m !! i).

Definition set_engine (e : Engine) (m : Market) : Market := mkMarket e (mk_copies m).
Definition updates (m : Market) : LFQueue OMEMarketUpdate := txMarketUpdates_ (out_ (mk_engine m)).
Definition set_updates (q : LFQueue OMEMarketUpdate) (m : Market) : Market :=
  let e := mk_engine m in
  set_engine (set_out (mkOut (txResponses_ (out_ e)) q (log_ (out_ e))) e) m.
Definition requests_in (m : Market) : LFQueue OMEClientRequest := rxRequests_ (mk_engine m).

Inductive market_act :=
  | Arrive (r : OMEClientRequest)
  | Turn (now : string)
  | Read.

Section Reader.
Context `{StrayMemory OrderBook}.

(** The reader takes the oldest update, if there is one. *)
Definition read_update : M Market unit :=
  ou ← zoom updates set_updates pop;
  match ou with
  | Some u => modify (fun m => mkMarket (mk_engine m)
      (<[mu_tickerId u := apply_update (copy (mu_tickerId u) m) u]> (mk_copies m)))
  | None => mret tt
  end.

Definition market_step (x : market_act) : M Market unit :=
  match x with
  | Arrive r => zoom requests_in (fun q m => set_engine (set_rx q (mk_engine m)) m) (push r);; mret tt
  | Turn now => zoom mk_engine set_engine (engineTurn now)
  | Read => read_update
  end.

Fixpoint market_run (xs : list market_act) : M Market unit :=
  match xs with
  | [] => mret tt
  | x :: xs' => market_step x;; market_run xs'
  end.

End Reader.

(** The number of updates a request causes. *)
Definition book_feed_size (ticker : Z) (q : request) (a : ABook) : nat :=
  match q with
  | New client oid side price qty =>
      let t := taker_of ticker a client oid side price qty in
      2 * length (sweep_fills qty (matched t (set_a_next (a_next a + 1) a))) +
      (if qty =? 0 then 0 else 1)
  | Cancel client oid => if a_clients a !! (client, oid) then 1 else 0
  end.
Definition feed_size (rs : list OMEClientRequest) (am : gmap Z ABook) : nat :=
  match rs with
  | r :: _ =>
      match request_of r, am !! rq_tickerId r with
      | Some q, Some a => book_feed_size (rq_tickerId r) q a
      | _, _ => 0
      end
  | [] => 0
  end.

(** What a run looks like from outside: the requests and the number of updates
    that are queued, and the books. *)
Record Outline := mkOutline {
  ol_requests : list OMEClientRequest;
  ol_updates : nat;
  ol_books : gmap Z ABook;
}.

Definition outline_step (rxcap : Z) (x : market_act) (l : Outline) : Outline :=
  match x with
  | Arrive r => mkOutline (fifo_push rxcap r (ol_requests l)).2 (ol_updates l) (ol_books l)
  | Turn _ => mkOutline (tail (ol_requests l)) (ol_updates l + feed_size (ol_requests l) (ol_books l))
                (head_model (ol_requests l) (ol_books l))
  | Read => mkOutline (ol_requests l) (pred (ol_updates l)) (ol_books l)
  end.

(** A turn needs an acceptable request and room for its updates. *)
Definition outline_ok `{StrayMemory OrderBook} (mucap : Z) (x : market_act) (l : Outline) : bool :=
  match x with
  | Turn _ =>
      match ol_requests l with [] => true | r :: _ => engine_acceptable r (ol_books l) end &&
      (Z.of_nat (ol_updates l + feed_size (ol_requests l) (ol_books l)) <=? mucap)
  | _ => true
  end.

Fixpoint outline_run (rxcap : Z) (xs : list market_act) (l : Outline) : Outline :=
  match xs with
  | [] => l
  | x :: xs' => outline_run rxcap xs' (outline_step rxcap x l)
  end.
Fixpoint outline_run_ok `{StrayMemory OrderBook} (rxcap mucap : Z) (xs : list market_act) (l : Outline) : bool :=
  match xs with
  | [] => true
  | x :: xs' => outline_ok mucap x l && outline_run_ok rxcap mucap xs' (outline_step rxcap x l)
  end.

(** The reader is in step with the engine: for every ticker the updates still
    queued turn its copy into what the book shows. *)
Record in_step (rxcap mucap : Z) (m : Market) (l : Outline) : Prop := {
  is_books : Books (mk_engine m) (ol_books l);
  is_rx : queue_ok (requests_in m);
  is_out : out_ok (out_ (mk_engine m));
  is_rxcap : capacity_ (requests_in m) = rxcap;
  is_mucap : capacity_ (updates m) = mucap;
  is_requests : contents (requests_in m) = ol_requests l;
  is_updates : length (contents (updates m)) = ol_updates l;
  is_copy i a : ol_books l !! i = Some a ->
    replay (for_ticker i (contents (updates m))) (copy i m) = shown a;
}.

Section Convergence.
Context `{StrayMemory OrderBook}.
Implicit Types (am : gmap Z ABook) (m : Market) (l : Outline) (e : Engine).

Lemma match_feed_size t fs : forall ws, length ws = length fs ->
  length (feed (match_events t fs ws)) = (2 * length fs)%nat.
Proof.
  induction fs as [|[o [f r]] fs IH]; intros [|w ws] Hl; try done. injection Hl as Hl.
  rewrite match_events_cons, omap_app, length_app, IH by done. unfold fill_events.
  destruct (r =? 0); cbn; lia.
Qed.

Lemma sends_feed_size ticker q b a evs :
  View b a -> sends ticker q a evs -> length (feed evs) = book_feed_size ticker q a.
Proof.
  intros Hv Hs. destruct q as [client oid side price qty|client oid]; cbn [sends book_feed_size] in *.
  - destruct Hs as (ws & -> & _ & Hl). set (t := taker_of ticker a client oid side price qty) in *.
    unfold add_events. cbn [omap list_omap upd_of accept_event].
    rewrite omap_app, length_app, match_feed_size by exact Hl. f_equal.
    change (t_qty t) with qty. by destruct (qty =? 0).
  - destruct (a_clients a !! (client, oid)) as [moid|] eqn:Hc; [|by subst evs].
    destruct (view_client_order b a client oid moid Hv Hc) as (o & Ho & Hm & Hk).
    by rewrite (Hs o Ho Hm Hk).
Qed.

Lemma for_ticker_app i us1 us2 : for_ticker i (us1 ++ us2) = for_ticker i us1 ++ for_ticker i us2.
Proof. apply filter_app. Qed.

Lemma for_ticker_about i us : Forall (about i) us -> for_ticker i us = us.
Proof.
  induction 1 as [|u us Hu _ IH]; [done|]. unfold for_ticker in *. by rewrite filter_cons_True, IH.
Qed.

Lemma for_ticker_other i j us : i <> j -> Forall (about j) us -> for_ticker i us = [].
Proof.
  intros Hne Hus. induction Hus as [|u us Hu _ IH]; [done|]. unfold for_ticker in *.
  rewrite filter_cons_False; [done|]. unfold about in *. congruence.
Qed.

Lemma Books_view e am i a : Books e am -> am !! i = Some a -> exists b, View b a.
Proof. intros Hb Ha. specialize (Hb i). rewrite Ha in Hb. inversion Hb; subst. eauto. Qed.

(** The updates of a turn. *)
Lemma head_feed e e' rs am evs :
  Books e am -> Books e' (head_model rs am) -> head_acceptable rs am -> head_sends rs am evs ->
  length (feed evs) = feed_size rs am /\
  forall i a', head_model rs am !! i = Some a' -> exists a, am !! i = Some a /\
    replay (for_ticker i (feed evs)) (shown a) = shown a'.
Proof.
  intros Hb Hb' Hacc Hs. destruct rs as [|r rs]; cbn [head_model head_acceptable head_sends feed_size] in *.
  { subst evs. split; [done|]. intros i a Ha. by exists a. }
  unfold engine_model, engine_acceptable, turn_sends in *.
  destruct (request_of r) as [q|]; [|subst evs; split; [done|]; intros i a Ha; by exists a].
  destruct (am !! rq_tickerId r) as [a|] eqn:Ha; [|done].
  destruct (Books_view e am _ a Hb Ha) as [b Hv]. split; [by apply (sends_feed_size _ _ b)|].
  pose proof (sends_about _ _ b a evs Hv Hs) as Hab.
  intros i a' Ha'. destruct (decide (i = rq_tickerId r)) as [->|Hne].
  - exists a. split; [done|]. destruct (Books_view e' _ _ a' Hb' Ha') as [b' Hv'].
    rewrite lookup_insert_eq in Ha'. injection Ha' as <-.
    rewrite for_ticker_about by done. by apply (replay_sends _ _ b b').
  - rewrite lookup_insert_ne in Ha' by done. exists a'. split; [done|].
    by rewrite (for_ticker_other i (rq_tickerId r)).
Qed.

Lemma wp_engine_turn rxcap mucap now m l (Q : unit -> Market -> Prop) :
  in_step rxcap mucap m l -> outline_ok mucap (Turn now) l = true ->
  (forall m', in_step rxcap mucap m' (outline_step rxcap (Turn now) l) -> Q tt m') ->
  wp (market_step (Turn now)) Q m.
Proof.
  intros [Hb Hrx Ho Hrc Hmc Hr Hu Hcp] [Hacc Hroom%Z.leb_le]%andb_true_iff HQ. apply wp_zoom.
  assert (Ha : head_acceptable (contents (requests_in m)) (ol_books l))
    by (rewrite Hr; by destruct (ol_requests l)).
  apply (wp_turn_sends now (mk_engine m) (ol_books l)); [done|done|done|exact Ha|].
  unfold requests_in, updates in *. rewrite Hr in *.
  intros e' evs Hq' Ho' Hrc' Hr' Hb' Hse _ Hmc' _ Hmu. apply HQ.
  destruct (head_feed _ _ _ _ _ Hb Hb' Ha Hse) as [Hsz Hrep].
  assert (Hkept : contents (txMarketUpdates_ (out_ e')) =
    contents (txMarketUpdates_ (out_ (mk_engine m))) ++ feed evs).
  { rewrite Hmu. unfold kept. f_equal. apply take_ge. rewrite Hmc, Hsz, Hu. lia. }
  split; try done; unfold requests_in, updates; cbn [mk_engine set_engine].
  - exact (eq_trans Hrc' Hrc).
  - exact (eq_trans Hmc' Hmc).
  - cbn [ol_updates outline_step]. by rewrite Hkept, length_app, Hu, Hsz.
  - intros i a' Ha'. rewrite Hkept, for_ticker_app, replay_app.
    destruct (Hrep i a' Ha') as (a & Hai & <-). by rewrite <- (Hcp i a Hai).
Qed.

(** The reader's copy after one more update. *)
Lemma copy_read i u us e (cs : gmap Z depth) m :
  mk_copies m = cs ->
  replay (for_ticker i us)
    (copy i (mkMarket e (<[mu_tickerId u := apply_update (copy (mu_tickerId u) m) u]> cs))) =
  replay (for_ticker i (u :: us)) (copy i m).
Proof.
  intros <-. unfold copy, for_ticker. cbn [mk_copies]. destruct (decide (i = mu_tickerId u)) as [->|Hne].
  - by rewrite filter_cons_True, lookup_insert_eq.
  - rewrite filter_cons_False by (unfold about; congruence). by rewrite lookup_insert_ne.
Qed.

Lemma wp_read_update rxcap mucap m l (Q : unit -> Market -> Prop) :
  in_step rxcap mucap m l ->
  (forall m', in_step rxcap mucap m' (outline_step rxcap Read l) -> Q tt m') ->
  wp read_update Q m.
Proof.
  intros [Hb Hrx Ho Hrc Hmc Hr Hu Hcp] HQ. unfold read_update. wp_step. apply wp_zoom.
  destruct (pop_spec _ (out_mu _ Ho)) as (q' & Hp & Hq' & Hc' & Hl'). apply wp_ok. do 2 eexists.
  split; [exact Hp|]. pose proof (out_tx _ Ho) as Ht. unfold updates in *.
  destruct (contents (txMarketUpdates_ (out_ (mk_engine m)))) as [|u us]; cbn [fifo_pop fst snd] in *.
  - apply wp_ret, HQ. split; try done; unfold updates; cbn [mk_engine set_updates set_engine set_out out_ txMarketUpdates_].
    + exact (eq_trans Hc' Hmc).
    + cbn. by rewrite Hl', <- Hu.
    + intros i a Ha. rewrite Hl'. by apply Hcp.
  - apply wp_modify, HQ. split; try done; unfold updates; cbn [mk_engine set_updates set_engine set_out out_ txMarketUpdates_].
    + exact (eq_trans Hc' Hmc).
    + cbn. by rewrite Hl', <- Hu.
    + intros i a Ha. rewrite Hl', <- (Hcp i a Ha).
      exact (copy_read i u us _ _ (set_updates q' m) eq_refl).
Qed.

Lemma wp_market_step rxcap mucap x m l (Q : unit -> Market -> Prop) :
  in_step rxcap mucap m l -> outline_ok mucap x l = true ->
  (forall m', in_step rxcap mucap m' (outline_step rxcap x l) -> Q tt m') ->
  wp (market_step x) Q m.
Proof.
  intros Hin Hok HQ. destruct x as [r|now|].
  - destruct Hin as [Hb Hrx Ho Hrc Hmc Hr Hu Hcp]. cbn [market_step]. wp_step. apply wp_zoom.
    destruct (push_spec r _ Hrx) as (q' & Hp & Hq' & Hc' & Hl').
    apply wp_ok. do 2 eexists. split; [exact Hp|]. apply wp_ret, HQ. split; try done.
    + exact (eq_trans Hc' Hrc).
    + cbn. by rewrite <- Hrc, <- Hr.
  - by apply (wp_engine_turn rxcap mucap now m l).
  - by apply (wp_read_update rxcap mucap m l).
Qed.

Lemma wp_market_run rxcap mucap xs : forall m l (Q : unit -> Market -> Prop),
  in_step rxcap mucap m l -> outline_run_ok rxcap mucap xs l = true ->
  (forall m', in_step rxcap mucap m' (outline_run rxcap xs l) -> Q tt m') ->
  wp (market_run xs) Q m.
Proof.
  induction xs as [|x xs IH]; intros m l Q Hin Hok HQ; cbn [market_run outline_run outline_run_ok] in *.
  - by apply wp_ret, HQ.
  - apply andb_true_iff in Hok as [Hx Hok]. wp_step. apply (wp_market_step rxcap mucap x m l); [done|done|].
    intros m1 Hin1. by apply (IH m1 (outline_step rxcap x l)).
Qed.

(** A new engine and a reader that has seen nothing are in step. *)
Lemma new_market rx tx mu :
  queue_ok rx -> queue_ok tx -> queue_ok mu -> contents mu = [] ->
  exists e, newEngine rx tx mu = Ok e /\
    in_step (capacity_ rx) (capacity_ mu) (mkMarket e ∅) (mkOutline (contents rx) 0 fresh_books).
Proof.
  intros Hrx Htx Hmu Hc. destruct (newEngine_spec rx tx mu) as (bs & Hn & Hb).
  eexists. split; [exact Hn|]. split; try done.
  - unfold updates. cbn. by rewrite Hc.
  - intros i a Ha. unfold updates. cbn. rewrite Hc. unfold fresh_books in Ha.
    apply elem_of_list_to_map_2, list_elem_of_fmap in Ha as (j & [= -> ->] & _). done.
Qed.

(** C8. A reader of the market data ends with the exchange's books.  From the
    engine's constructor on, requests arrive, the engine takes its turns and a
    reader takes updates from the engine's queue, in any order.  As long as every
    turn has an acceptable request and room in the queue for the updates it
    causes, nothing faults, and at any time the updates still queued turn the
    reader's copy of each of the eight tickers into what that ticker's book
    shows; once the reader has taken them all the two are equal. *)
Theorem reader_converges rx tx mu xs :
  queue_ok rx -> queue_ok tx -> queue_ok mu -> contents mu = [] ->
  outline_run_ok (capacity_ rx) (capacity_ mu) xs (mkOutline (contents rx) 0 fresh_books) = true ->
  let l := outline_run (capacity_ rx) xs (mkOutline (contents rx) 0 fresh_books) in
  exists e m, newEngine rx tx mu = Ok e /\ market_run xs (mkMarket e ∅) = Ok (tt, m) /\
    Books (mk_engine m) (ol_books l) /\ length (contents (updates m)) = ol_updates l /\
    forall i a, ol_books l !! i = Some a ->
      replay (for_ticker i (contents (updates m))) (copy i m) = shown a /\
      (contents (updates m) = [] -> copy i m = shown a).
Proof.
  intros Hrx Htx Hmu Hc Hok. cbn zeta. destruct (new_market rx tx mu Hrx Htx Hmu Hc) as (e & Hn & Hin).
  assert (Hw : wp (market_run xs) (fun _ m => in_step (capacity_ rx) (capacity_ mu) m
    (outline_run (capacity_ rx) xs (mkOutline (contents rx) 0 fresh_books))) (mkMarket e ∅))
    by by eapply wp_market_run.
  apply wp_ok in Hw as ([] & m & Hrun & [Hb _ _ _ _ _ Hu Hcp]). exists e, m.
  split_and!; [done|done|done|done|]. intros i a Ha. specialize (Hcp i a Ha). split; [done|].
  intros He. by rewrite He in Hcp.
Qed.

End Convergence.

(** *** Witnesses *)
#[local] Existing Instance zeroStray.

(** Partial fills, a remainder that rests and a cancel. *)
Definition demo_session : list request := [New 4 9 Side.BUY 12 3; Cancel 3 1; New 5 1 Side.SELL 9 2].

Lemma market_updates_describe_book_witness :
  exists b b' evs, View b demo_book /\
    run_session 0 demo_session (b, @nil OmeEvent) = Ok (tt, (b', emits [] evs)) /\
    replay (feed evs) (shown demo_book) = {[6 := mkQuote Side.SELL 9 2 1]}.
Proof.
  destruct demo_view as [b Hv].
  destruct (market_updates_describe_book 0 demo_session b (@nil OmeEvent) demo_book Hv)
    as (b' & evs & Hrun & _ & Hr & _); [vm_compute; reflexivity|].
  exists b, b', evs. split; [exact Hv|]. split; [exact Hrun|]. rewrite Hr. vm_compute. reflexivity.
Defined.

Definition demo_acts : list market_act :=
  [Arrive (mkRequest RequestType.NEW 1 0 1 Side.SELL 10 5); Turn "09:00"; Read;
   Arrive (mkRequest RequestType.NEW 1 3 2 Side.BUY 7 4); Arrive (mkRequest RequestType.NEW 2 0 1 Side.BUY 11 3);
   Turn "09:01"; Turn "09:02"; Read; Read; Arrive (mkRequest RequestType.CANCEL 1 3 2 Side.INVALID 0 0);
   Read; Turn "09:03"; Read; Read; Read; Read; Read].

Lemma reader_converges_witness :
  exists e m, newEngine (newQueue 4) (newQueue 4) (newQueue 8) = Ok e /\
    market_run demo_acts (mkMarket e ∅) = Ok (tt, m) /\
    copy 0 m = {[2 := mkQuote Side.BUY 11 3 1]} /\ copy 3 m = ∅.
Proof.
  destruct (reader_converges (newQueue 4) (newQueue 4) (newQueue 8) demo_acts)
    as (e & m & Hn & Hrun & _ & Hl & Hcp).
  1-3: by apply newQueue_ok.
  - reflexivity.
  - vm_compute. reflexivity.
  - exists e, m. split; [exact Hn|]. split; [exact Hrun|].
    assert (Hnil : contents (updates m) = []).
    { apply nil_length_inv. rewrite Hl. vm_compute. reflexivity. }
    split.
    + destruct (Hcp 0 (mkA [(11, [mkOrder 0 2 1 2 Side.BUY 11 3 1 None None])] [] {[(2, 1) := 2]} 3))
        as [_ ->]; [vm_compute; reflexivity|vm_compute; reflexivity|exact Hnil].
    + destruct (Hcp 3 (mkA [] [] ∅ 2)) as [_ ->]; [vm_compute; reflexivity|reflexivity|exact Hnil].
Defined.

(** An update that finds the queue full is lost, and the copy keeps the order. *)
Example lost_update_keeps_order :
  exists e m, newEngine (newQueue 4) (newQueue 4) (newQueue 1) = Ok e /\
    market_run [Arrive (mkRequest RequestType.NEW 1 0 1 Side.SELL 10 5); Turn "09:00";
                Arrive (mkRequest RequestType.CANCEL 1 0 1 Side.INVALID 0 0); Turn "09:01"; Read; Read]
      (mkMarket e ∅) = Ok (tt, m) /\
    copy 0 m = {[1 := mkQuote Side.SELL 10 5 1]} /\ contents (updates m) = [] /\
    asksByPrice_ <$> orderBookForTicker_ (mk_engine m) !! 0 = Some None.
Proof.
  destruct (newEngine (newQueue 4) (newQueue 4) (newQueue 1)) as [e|x] eqn:Hn; [|vm_compute in Hn; done].
  eexists e, _. split; [done|]. vm_compute in Hn. injection Hn as <-.
  split; [vm_compute; reflexivity|]. vm_compute. done.
Qed.
