(* ===== verification/Main.v ===== *)
(** The program: src/src/core/main.cpp.

    main creates the three queues and the engine, starts the engine's thread and
    then only logs and sleeps; SIGINT runs shutdown_handler, which sleeps twice
    and exits.  [main_step] interleaves main's loop, the engine's worker thread
    and the handlers in every order, whichever thread a signal interrupts; a
    further SIGINT may start the handler on another thread. *)

From S2P Require Import Prelude LFQueue MemoryPool Types Messages Logger Ring Orders OrderBook BookLevels BookModel BookRep BookSpec BookTheorems MatchingEngine.
#[local] Open Scope Z_scope.

(** The queues and the engine of main; main creates no gateway. *)
Definition main_engine : res Engine :=
  newEngine (newQueue MAX_CLIENT_UPDATES) (newQueue MAX_CLIENT_UPDATES) (newQueue MAX_MARKET_UPDATES).

(** A running signal handler: how many of its sleeps are left. *)
Record handler := Sleeping { hd_left : nat }.

Record Process := mkProcess {
  pr_engine : econf;
  pr_log : list LogElement;   (* the LOG_INFO calls of main *)
  pr_slept : Z;               (* microseconds main's loop has asked to sleep *)
  pr_handlers : list handler; (* the runs of shutdown_handler *)
  pr_exit : option Z;         (* the status the program exited with *)
}.

Definition set_conf (c : econf) (p : Process) : Process :=
  mkProcess c (pr_log p) (pr_slept p) (pr_handlers p) (pr_exit p).
Definition set_handlers (hs : list handler) (p : Process) : Process :=
  mkProcess (pr_engine p) (pr_log p) (pr_slept p) hs (pr_exit p).

Definition t_sleep : Z := 100 * 1000.
Definition EXIT_SUCCESS : Z := 0.

(** main up to its loop: startMatchingEngine has created the worker. *)
Definition main_start : res Process :=
  match main_engine with
  | Ok e => Ok (mkProcess (mkEConf e Starting Idle false)
                  [mkLog INFO "Starting matching engine..." []] 0 [] None)
  | Err x => Err x
  end.

(** One iteration of the loop. *)
Definition superloop (p : Process) : Process :=
  mkProcess (pr_engine p) (pr_log p ++ [mkLog INFO "Sleeping for some ms..." []])
    (pr_slept p + t_sleep) (pr_handlers p) (pr_exit p).

(** The [i]th run of shutdown_handler, one statement at a time. *)
Definition shutdown_handler (i : nat) (p : Process) : Process :=
  match pr_handlers p !! i with
  | Some (Sleeping (S n)) => set_handlers (<[i := Sleeping n]> (pr_handlers p)) p
  | Some (Sleeping O) => mkProcess (pr_engine p) (pr_log p) (pr_slept p) (pr_handlers p) (Some EXIT_SUCCESS)
  | None => p
  end.

Section Steps.
Context `{StrayMemory OrderBook}.

Inductive main_step : Process -> Process -> Prop :=
  | main_iterates p : pr_exit p = None -> main_step p (superloop p)
  | main_worker p c : pr_exit p = None -> worker_step (pr_engine p) c -> main_step p (set_conf c p)
  | main_sigint p : pr_exit p = None -> main_step p (set_handlers (pr_handlers p ++ [Sleeping 2]) p)
  | main_handler i p : pr_exit p = None -> main_step p (shutdown_handler i p).

(** ** What the program does *)

(** Nothing waits for the engine, nothing was sent, and every book is new. *)
Record unused (c : econf) : Prop := {
  un_requests : queue_ok (rxRequests_ (ec_engine c));
  un_no_request : contents (rxRequests_ (ec_engine c)) = [];
  un_books : Books (ec_engine c) fresh_books;
  un_responses : contents (txResponses_ (out_ (ec_engine c))) = [];
  un_updates : contents (txMarketUpdates_ (out_ (ec_engine c))) = [];
}.

Lemma unused_turn now e e' :
  queue_ok (rxRequests_ e) -> contents (rxRequests_ e) = [] -> engineTurn now e = Ok (tt, e') -> e' = e.
Proof.
  intros Hq Hc. destruct (pop_spec _ Hq) as (q & Hp & _ & _ & _).
  assert (Hn : numElements_ (rxRequests_ e) = 0).
  { pose proof (length_contents _ Hq) as Hl. rewrite Hc in Hl. cbn in Hl. lia. }
  unfold engineTurn, mbind, M_bind, zoom. rewrite pop_empty by done. cbn. intros [= <-]. by destruct e.
Qed.

Lemma unused_worker c c' : unused c -> worker_step c c' -> unused c'.
Proof.
  intros [Hq Hr Hb Ht Hu] Hst.
  destruct Hst as [s o r|s s' o r now Hrun Hturn|s o r Hrun]; cbn [ec_engine] in *.
  - by split.
  - apply unused_turn in Hturn; [subst s'; by split|done|done].
  - by split.
Qed.

Lemma worker_keeps_looping c c' : looping_inv c -> worker_step c c' -> looping_inv c'.
Proof. intros Hi Hs. by eapply looping_inv_step, step_worker. Qed.

Record main_inv (p : Process) : Prop := {
  mi_unused : unused (pr_engine p);
  mi_looping : looping_inv (pr_engine p);
  mi_exit : pr_exit p = None \/ (pr_exit p = Some EXIT_SUCCESS /\ Sleeping 0 ∈ pr_handlers p);
}.

Lemma main_inv_step p p' : main_inv p -> main_step p p' -> main_inv p'.
Proof.
  intros [Hu Hl He] Hst. destruct Hst as [p Hx|p c Hx Hw|p Hx|i p Hx].
  - by split.
  - split; [by eapply unused_worker|by eapply worker_keeps_looping|by left].
  - split; [done|done|by left].
  - unfold shutdown_handler. destruct (pr_handlers p !! i) as [[[|n]]|] eqn:Hh; split; try done; [|by left].
    right. split; [done|]. by eapply list_elem_of_lookup_2.
Qed.

Lemma main_start_inv : exists p, main_start = Ok p /\ main_inv p.
Proof.
  destruct (newEngine_spec (newQueue MAX_CLIENT_UPDATES) (newQueue MAX_CLIENT_UPDATES) (newQueue MAX_MARKET_UPDATES))
    as (m & Hm & Hb).
  unfold main_start, main_engine. rewrite Hm. eexists. split; [done|]. split; [|by split|by left].
  split; [by apply newQueue_ok|done|exact Hb|done|done].
Qed.

(** C35. The program as main builds it serves nobody.  It always starts; in every
    state it can reach, in any interleaving of main's loop, the engine's thread
    and the signal handler, the engine has no request waiting, every book is as
    new and no response or market update was sent, since nothing but main holds
    the queues and main never touches them; the engine's thread never ends; and
    the program exits only with success and only once a handler, which never
    stops the engine, has slept twice. *)
Theorem main_serves_nobody :
  exists p0, main_start = Ok p0 /\ forall p, rtc main_step p0 p ->
    contents (rxRequests_ (ec_engine (pr_engine p))) = [] /\
    Books (ec_engine (pr_engine p)) fresh_books /\
    contents (txResponses_ (out_ (ec_engine (pr_engine p)))) = [] /\
    contents (txMarketUpdates_ (out_ (ec_engine (pr_engine p)))) = [] /\
    ec_worker (pr_engine p) <> Exited /\
    (pr_exit p = None \/ (pr_exit p = Some EXIT_SUCCESS /\ Sleeping 0 ∈ pr_handlers p)).
Proof.
  destruct main_start_inv as (p0 & Hp0 & Hi). exists p0. split; [done|]. intros p Hr.
  assert (Hp : main_inv p).
  { clear Hp0. revert Hi. induction Hr as [p|p p1 p2 Hst _ IH]; [done|].
    intros Hi. apply IH. by eapply main_inv_step. }
  destruct Hp as [[] [] ?]. by split_and!.
Qed.

End Steps.

(** A SIGINT can end the program from every state. *)
Example sigint_exits `{StrayMemory OrderBook} p :
  pr_exit p = None ->
  exists p', rtc main_step p p' /\ pr_exit p' = Some EXIT_SUCCESS /\ pr_engine p' = pr_engine p.
Proof.
  intros Hx. set (i := length (pr_handlers p)).
  assert (Hrun : forall n q, pr_exit q = None -> pr_handlers q !! i = Some (Sleeping n) ->
    exists p', rtc main_step q p' /\ pr_exit p' = Some EXIT_SUCCESS /\ pr_engine p' = pr_engine q).
  { intros n. induction n as [|n IH]; intros q Hq Hh;
      pose proof (main_handler i q Hq) as Hst; unfold shutdown_handler in Hst; rewrite Hh in Hst.
    - eexists. split; [by apply rtc_once|done].
    - destruct (IH (set_handlers (<[i := Sleeping n]> (pr_handlers q)) q)) as (p' & Hr & He); [done| |].
      + apply list_lookup_insert_eq. by eapply lookup_lt_Some.
      + exists p'. split; [by eapply rtc_l|done]. }
  destruct (Hrun 2%nat (set_handlers (pr_handlers p ++ [Sleeping 2]) p)) as (p' & Hr & He); [done| |].
  - by apply list_lookup_middle.
  - exists p'. split; [|done]. eapply rtc_l; [by apply main_sigint|done].
Qed.

(** *** Witness *)
#[local] Existing Instance zeroStray.

Lemma main_serves_nobody_witness :
  exists p0 p, main_start = Ok p0 /\ rtc main_step p0 p /\ pr_exit p = Some EXIT_SUCCESS /\
    contents (txResponses_ (out_ (ec_engine (pr_engine p)))) = [].
Proof.
  destruct main_serves_nobody as (p0 & Hp0 & Hall).
  assert (Hx : pr_exit p0 = None).
  { unfold main_start in Hp0. destruct main_engine; [|discriminate Hp0]. by injection Hp0 as <-. }
  destruct (sigint_exits p0 Hx) as (p & Hr & He & _).
  exists p0, p. split; [exact Hp0|]. split; [exact Hr|]. split; [exact He|].
  destruct (Hall p Hr) as (_ & _ & Ht & _). exact Ht.
Defined.
