(* ===== verification/FIFOSequencer.v ===== *)
(** The sequencer between the gateway and the matching engine:
    src/src/core/gateway/fifo_Sequencer.h.

    Requests are collected with their reception time and published in batches,
    sorted by that time.  std::sort is not stable and its result on equal keys
    is unspecified: it is the parameter [std_sort], of which only what the
    standard promises is assumed ([sort_spec]). *)

From stdpp Require Import sorting.
From S2P Require Import Prelude LFQueue Types Messages Logger.
#[local] Open Scope Z_scope.

(** ** State *)
Record PendingClientRequest := mkPending {
  tRx : Z;
  pd_request : OMEClientRequest;
}.
#[export] Instance PendingClientRequest_default : Default PendingClientRequest :=
  mkPending 0 dflt.

Record FIFOSequencer := mkSequencer {
  sq_rxRequests_ : LFQueue OMEClientRequest;
  pendingRequests_ : list PendingClientRequest;   (* the whole std::array *)
  nPendingRequests_ : Z;
  sq_log : list LogElement;                       (* the Logger::log calls made *)
}.

Definition newSequencer (rx : LFQueue OMEClientRequest) : FIFOSequencer :=
  mkSequencer rx (replicate (Z.to_nat MAX_PENDING_ORDER_REQUESTS) dflt) 0 [].

Definition set_sqRx (q : LFQueue OMEClientRequest) (s : FIFOSequencer) : FIFOSequencer :=
  mkSequencer q (pendingRequests_ s) (nPendingRequests_ s) (sq_log s).
Definition set_pending (l : list PendingClientRequest) (s : FIFOSequencer) : FIFOSequencer :=
  mkSequencer (sq_rxRequests_ s) l (nPendingRequests_ s) (sq_log s).
Definition set_nPending (n : Z) (s : FIFOSequencer) : FIFOSequencer :=
  mkSequencer (sq_rxRequests_ s) (pendingRequests_ s) n (sq_log s).
Definition add_sqLog (c : LogElement) (s : FIFOSequencer) : FIFOSequencer :=
  mkSequencer (sq_rxRequests_ s) (pendingRequests_ s) (nPendingRequests_ s) (sq_log s ++ [c]).

(** The comparator of the sort, as the order it induces. *)
Definition rx_le (a b : PendingClientRequest) : Prop := tRx a <= tRx b.
#[export] Instance rx_le_dec a b : Decision (rx_le a b) := decide (tRx a <= tRx b).
#[export] Instance rx_le_trans : Transitive rx_le.
Proof. intros a b c. unfold rx_le. lia. Qed.
#[export] Instance rx_le_total : Total rx_le.
Proof. intros a b. unfold rx_le. lia. Qed.

(** What the standard says of std::sort with this comparator. *)
Definition sort_spec (std_sort : list PendingClientRequest -> list PendingClientRequest) : Prop :=
  forall l, std_sort l ≡ₚ l /\ StronglySorted rx_le (std_sort l).

(** ** Operations *)
Section Operations.
Context (std_sort : list PendingClientRequest -> list PendingClientRequest).

Definition pushClientRequest (request : OMEClientRequest) (t : Z) : M FIFOSequencer unit :=
  s ← get;
  require (nPendingRequests_ s <? Z.of_nat (length (pendingRequests_ s))) FatalExit;;
  modify (set_pending (<[Z.to_nat (nPendingRequests_ s) := mkPending t request]> (pendingRequests_ s)));;
  modify (set_nPending (u64 (nPendingRequests_ s + 1))).

(** for (i = 0; i < nPendingRequests_; ++i), from iteration [i] with [k] left. *)
Fixpoint publishLoop (k i : nat) : M FIFOSequencer unit :=
  match k with
  | O => mret tt
  | S k' =>
      s ← get;
      match pendingRequests_ s !! i with
      | Some req =>
          modify (add_sqLog (mkLog INFO "Sequencing request: {} at tRx: {}"
            [AString (OMEClientRequest_toStr (pd_request req)); ALong (tRx req)]));;
          _ ← zoom sq_rxRequests_ set_sqRx (push (pd_request req));
          publishLoop k' (S i)
      | None => fail OutOfBounds
      end
  end.

Definition sequenceAndPublish : M FIFOSequencer unit :=
  s ← get;
  let n := Z.to_nat (nPendingRequests_ s) in
  if nPendingRequests_ s =? 0 then mret tt
  else
    modify (set_pending (std_sort (take n (pendingRequests_ s)) ++ drop n (pendingRequests_ s)));;
    publishLoop n 0;;
    modify (set_nPending 0).

End Operations.

(** ** Properties *)
Section Facts.
Implicit Types (s : FIFOSequencer) (ps : list PendingClientRequest).

Definition queued s : list PendingClientRequest := take (Z.to_nat (nPendingRequests_ s)) (pendingRequests_ s).

Record sequencer_ok s : Prop := {
  sk_len : Z.of_nat (length (pendingRequests_ s)) = MAX_PENDING_ORDER_REQUESTS;
  sk_num : 0 <= nPendingRequests_ s <= MAX_PENDING_ORDER_REQUESTS;
  sk_rx : queue_ok (sq_rxRequests_ s);
}.

Lemma newSequencer_ok rx : queue_ok rx -> sequencer_ok (newSequencer rx) /\ queued (newSequencer rx) = [].
Proof. intros Hq. split; [split|]; cbn [newSequencer pendingRequests_ nPendingRequests_]; try done. Qed.

Lemma length_queued s : sequencer_ok s -> Z.of_nat (length (queued s)) = nPendingRequests_ s.
Proof. intros [Hl Hn _]. unfold queued. rewrite length_take. lia. Qed.

Lemma wp_publishLoop : forall k i ps s (Q : unit -> FIFOSequencer -> Prop),
  queue_ok (sq_rxRequests_ s) -> take k (drop i (pendingRequests_ s)) = ps -> length ps = k ->
  (forall s', pendingRequests_ s' = pendingRequests_ s -> nPendingRequests_ s' = nPendingRequests_ s ->
     queue_ok (sq_rxRequests_ s') ->
     contents (sq_rxRequests_ s') =
       kept (capacity_ (sq_rxRequests_ s)) (contents (sq_rxRequests_ s)) (pd_request <$> ps) ->
     Q tt s') ->
  wp (publishLoop k i) Q s.
Proof.
  induction k as [|k IH]; intros i ps s Q Hq Hps Hl HQ; cbn [publishLoop].
  { apply wp_ret. destruct ps; [|done]. apply HQ; [done..|]. cbn [fmap list_fmap]. by rewrite kept_nil. }
  destruct ps as [|p ps]; [done|]. wp_step. apply wp_get.
  destruct (drop i (pendingRequests_ s)) as [|p' tl] eqn:Hd; [done|].
  injection Hps as -> Hps. pose proof (lookup_drop (pendingRequests_ s) i 0) as Hi.
  rewrite Hd, Nat.add_0_r in Hi. cbn in Hi. rewrite <- Hi.
  wp_step. apply wp_modify. wp_step. apply wp_zoom.
  destruct (push_spec (pd_request p) (sq_rxRequests_ s) Hq) as (q' & Hp & Hq' & Hc & Hk).
  apply wp_ok. do 2 eexists. split; [exact Hp|].
  apply (IH (S i) ps); [done| |by injection Hl|].
  - cbn [pendingRequests_ set_sqRx add_sqLog]. rewrite <- Hps. f_equal.
    by rewrite <- Nat.add_1_r, <- drop_drop, Hd.
  - intros s' ? ? ? Hs'. apply HQ; [done..|]. rewrite Hs'. cbn [sq_rxRequests_ set_sqRx add_sqLog].
    rewrite Hc, Hk. cbn [fmap list_fmap]. by rewrite kept_cons by (apply qok_cap; done).
Qed.

Lemma wp_sequenceAndPublish std_sort s (Q : unit -> FIFOSequencer -> Prop) :
  sort_spec std_sort -> sequencer_ok s ->
  (forall s' ps, sequencer_ok s' -> queued s' = [] -> ps = std_sort (queued s) ->
     contents (sq_rxRequests_ s') =
       kept (capacity_ (sq_rxRequests_ s)) (contents (sq_rxRequests_ s)) (pd_request <$> ps) ->
     Q tt s') ->
  wp (sequenceAndPublish std_sort) Q s.
Proof.
  intros Hsort Hs HQ. pose proof Hs as [Hl Hn Hq]. pose proof (length_queued s Hs) as Hlen.
  unfold sequenceAndPublish. wp_step. apply wp_get.
  destruct (Hsort (queued s)) as [Hperm _]. apply Permutation_length in Hperm.
  destruct (Z.eqb_spec (nPendingRequests_ s) 0) as [Hz|Hnz].
  - assert (Hnil : queued s = []) by (unfold queued; by rewrite Hz).
    apply wp_ret. apply (HQ s (std_sort (queued s))); [done|done|done|].
    rewrite Hnil in *. destruct (std_sort []); [|done]. cbn [fmap list_fmap]. by rewrite kept_nil.
  - wp_step. apply wp_modify. wp_step. fold (queued s).
    apply (wp_publishLoop _ _ (std_sort (queued s))); [done| |lia|].
    + cbn [pendingRequests_ set_pending]. rewrite drop_0, take_app_length'; [done|lia].
    + intros s' Hp' Hn' Hq' Hc'. apply wp_modify.
      cbn [pendingRequests_ nPendingRequests_ set_pending sq_rxRequests_] in *.
      apply (HQ _ (std_sort (queued s))); [split|..]; cbn; try done.
      rewrite Hp', length_app, length_drop, Hperm. unfold queued. rewrite length_take. lia.
Qed.

(** C28. sequenceAndPublish publishes every pending request exactly once, in the
    order of their reception times, clears the batch and never reads outside the
    array; what the matching engine's queue has no room for is dropped without
    a trace. *)
Theorem sequencer_publishes_sorted std_sort s :
  sort_spec std_sort -> sequencer_ok s ->
  exists s' ps, sequenceAndPublish std_sort s = Ok (tt, s') /\ sequencer_ok s' /\ queued s' = [] /\
    ps ≡ₚ queued s /\ StronglySorted rx_le ps /\
    contents (sq_rxRequests_ s') =
      kept (capacity_ (sq_rxRequests_ s)) (contents (sq_rxRequests_ s)) (pd_request <$> ps).
Proof.
  intros Hsort Hs. destruct (Hsort (queued s)) as [Hperm Hsorted].
  assert (Hw : wp (sequenceAndPublish std_sort) (fun _ s' => exists ps, sequencer_ok s' /\ queued s' = [] /\
    ps = std_sort (queued s) /\ contents (sq_rxRequests_ s') =
      kept (capacity_ (sq_rxRequests_ s)) (contents (sq_rxRequests_ s)) (pd_request <$> ps)) s).
  { apply wp_sequenceAndPublish; [done|done|]. intros s' ps ? ? ? ?. by exists ps. }
  apply wp_ok in Hw as ([] & s' & Hrun & ps & ? & ? & -> & ?). by exists s', (std_sort (queued s)).
Qed.

(** Requests whose reception times strictly increase are published in the
    order they arrived, whatever the sort does with equal keys. *)
Theorem distinct_times_keep_arrival_order std_sort s :
  sort_spec std_sort -> sequencer_ok s ->
  StronglySorted (fun a b => tRx a < tRx b) (queued s) ->
  exists s', sequenceAndPublish std_sort s = Ok (tt, s') /\
    contents (sq_rxRequests_ s') =
      kept (capacity_ (sq_rxRequests_ s)) (contents (sq_rxRequests_ s)) (pd_request <$> queued s).
Proof.
  intros Hsort Hs Hinc. destruct (Hsort (queued s)) as [Hperm Hsorted].
  assert (Heq : std_sort (queued s) = queued s).
  { apply (StronglySorted_unique_strong rx_le); [|done| |done].
    - intros x y Hx Hy Hxy Hyx. rewrite Hperm in Hx.
      assert (Ht : tRx x = tRx y) by (unfold rx_le in *; lia). clear - Hinc Hx Hy Ht.
      induction Hinc as [|z l _ IH Hz]; [by apply elem_of_nil in Hx|].
      rewrite Forall_forall in Hz. apply elem_of_cons in Hx as [->|Hx], Hy as [->|Hy]; [done| | |by apply IH].
      + specialize (Hz _ Hy). lia.
      + specialize (Hz _ Hx). lia.
    - clear - Hinc. induction Hinc as [|z l _ IH Hz]; constructor; [done|].
      eapply Forall_impl; [exact Hz|]. intros y. unfold rx_le. cbn. lia. }
  assert (Hw : wp (sequenceAndPublish std_sort) (fun _ s' => contents (sq_rxRequests_ s') =
      kept (capacity_ (sq_rxRequests_ s)) (contents (sq_rxRequests_ s)) (pd_request <$> queued s)) s).
  { apply wp_sequenceAndPublish; [done|done|]. intros s' ps _ _ -> Hc. by rewrite Heq in Hc. }
  apply wp_ok in Hw as ([] & s' & Hrun & ?). by exists s'.
Qed.

Lemma pushClientRequest_room request t s :
  sequencer_ok s -> nPendingRequests_ s < MAX_PENDING_ORDER_REQUESTS ->
  exists s', pushClientRequest request t s = Ok (tt, s') /\ sequencer_ok s' /\
    queued s' = queued s ++ [mkPending t request] /\ sq_rxRequests_ s' = sq_rxRequests_ s.
Proof.
  intros Hs Hlt. pose proof Hs as [Hl Hn Hq]. unfold pushClientRequest, mbind, M_bind, get, require, modify.
  rewrite Hl. destruct (Z.ltb_spec (nPendingRequests_ s) MAX_PENDING_ORDER_REQUESTS); [|lia]. cbn [mret M_ret].
  assert (Hb : MAX_PENDING_ORDER_REQUESTS < 2 ^ 64) by done.
  rewrite wrapU_small by lia. eexists. split; [done|].
  split; [split|split]; cbn [set_nPending set_pending pendingRequests_ nPendingRequests_ sq_rxRequests_];
    rewrite ?length_insert; try done; try lia.
  unfold queued. cbn [set_nPending set_pending pendingRequests_ nPendingRequests_].
  replace (Z.to_nat (nPendingRequests_ s + 1)) with (S (Z.to_nat (nPendingRequests_ s))) by lia.
  rewrite (take_S_r _ _ (mkPending t request)); [|rewrite list_lookup_insert_eq by lia; done].
  rewrite take_insert_ge by lia. done.
Qed.

(** pushClientRequest keeps arrival order and the bound: with room, the
    request is appended to the batch; the program exits exactly when 1024
    requests are already pending. *)
Theorem push_client_request_bounded request t s :
  sequencer_ok s ->
  (nPendingRequests_ s < MAX_PENDING_ORDER_REQUESTS /\
   exists s', pushClientRequest request t s = Ok (tt, s') /\ sequencer_ok s' /\
     queued s' = queued s ++ [mkPending t request] /\ sq_rxRequests_ s' = sq_rxRequests_ s) \/
  (nPendingRequests_ s = MAX_PENDING_ORDER_REQUESTS /\ faults (pushClientRequest request t) s FatalExit).
Proof.
  intros Hs. pose proof Hs as [Hl Hn Hq].
  destruct (Z.lt_ge_cases (nPendingRequests_ s) MAX_PENDING_ORDER_REQUESTS) as [Hlt|Hge].
  - left. split; [done|]. by apply pushClientRequest_room.
  - right. split; [lia|]. unfold faults, pushClientRequest, mbind, M_bind, get, require.
    rewrite Hl. destruct (Z.ltb_spec (nPendingRequests_ s) MAX_PENDING_ORDER_REQUESTS); [lia|done].
Qed.

End Facts.

(** *** Two sorts that meet the specification *)
Definition stable_sort : list PendingClientRequest -> list PendingClientRequest := merge_sort rx_le.
Definition reversing_sort (l : list PendingClientRequest) : list PendingClientRequest :=
  merge_sort rx_le (reverse l).

Lemma stable_sort_ok : sort_spec stable_sort.
Proof.
  intros l. split; [apply merge_sort_Permutation|]. apply StronglySorted_merge_sort; apply _.
Qed.
Lemma reversing_sort_ok : sort_spec reversing_sort.
Proof.
  intros l. unfold reversing_sort. split.
  - rewrite merge_sort_Permutation. apply reverse_Permutation.
  - apply StronglySorted_merge_sort; apply _.
Qed.

Definition client_request (c : Z) : OMEClientRequest := mkRequest RequestType.NEW c 0 1 Side.BUY 10 1.

(** Push the requests of clients [cs], all received at time [t]. *)
Definition push_at (t : Z) (cs : list Z) : M FIFOSequencer unit :=
  foldr (fun c m => pushClientRequest (client_request c) t;; m) (mret tt) cs.

(** Requests of one read share its reception time, and for them the order of
    arrival is not kept: two sorts that both meet the standard's specification
    publish the same two requests in opposite orders. *)
Theorem equal_times_order_unspecified :
  sort_spec stable_sort /\ sort_spec reversing_sort /\
  exists s1 s2,
    (push_at 5 [1; 2];; sequenceAndPublish stable_sort) (newSequencer (newQueue 4)) = Ok (tt, s1) /\
    (push_at 5 [1; 2];; sequenceAndPublish reversing_sort) (newSequencer (newQueue 4)) = Ok (tt, s2) /\
    contents (sq_rxRequests_ s1) = [client_request 1; client_request 2] /\
    contents (sq_rxRequests_ s2) = [client_request 2; client_request 1].
Proof.
  split; [apply stable_sort_ok|]. split; [apply reversing_sort_ok|].
  eexists _, _. split_and!; [vm_compute; reflexivity..| |]; vm_compute; reflexivity.
Qed.

(** *** Witnesses *)
Definition demo_pending : list PendingClientRequest :=
  [mkPending 5 (client_request 1); mkPending 3 (client_request 2); mkPending 8 (client_request 3)].
Definition demo_seq (ps : list PendingClientRequest) : FIFOSequencer :=
  mkSequencer (newQueue 2)
    (ps ++ replicate (Z.to_nat MAX_PENDING_ORDER_REQUESTS - length ps) dflt) (Z.of_nat (length ps)) [].

Lemma demo_seq_ok ps : (length ps <= Z.to_nat MAX_PENDING_ORDER_REQUESTS)%nat ->
  sequencer_ok (demo_seq ps) /\ queued (demo_seq ps) = ps.
Proof.
  intros Hl. split; [split|]; cbn [demo_seq pendingRequests_ nPendingRequests_ sq_rxRequests_].
  - rewrite length_app, length_replicate. change MAX_PENDING_ORDER_REQUESTS with 1024 in *. lia.
  - change MAX_PENDING_ORDER_REQUESTS with 1024 in *. lia.
  - by apply newQueue_ok.
  - unfold queued. cbn [demo_seq pendingRequests_ nPendingRequests_]. rewrite Nat2Z.id. apply take_app_length.
Qed.

(** Three requests out of order, and room for two. *)
Example sequencer_publishes_sorted_witness :
  exists s' ps, sequenceAndPublish stable_sort (demo_seq demo_pending) = Ok (tt, s') /\
    ps ≡ₚ demo_pending /\ contents (sq_rxRequests_ s') = take 2 (pd_request <$> ps).
Proof.
  destruct (demo_seq_ok demo_pending) as [Hok Hq]; [apply Nat.leb_le; vm_compute; reflexivity|].
  destruct (sequencer_publishes_sorted stable_sort _ stable_sort_ok Hok)
    as (s' & ps & Hrun & _ & _ & Hp & _ & Hc).
  exists s', ps. rewrite Hq in Hp. split; [exact Hrun|]. split; [exact Hp|exact Hc].
Defined.

Example distinct_times_keep_arrival_order_witness :
  exists s', sequenceAndPublish reversing_sort
      (demo_seq [mkPending 3 (client_request 2); mkPending 5 (client_request 1)]) = Ok (tt, s') /\
    contents (sq_rxRequests_ s') = [client_request 2; client_request 1].
Proof.
  destruct (demo_seq_ok [mkPending 3 (client_request 2); mkPending 5 (client_request 1)]) as [Hok Hq];
    [apply Nat.leb_le; vm_compute; reflexivity|].
  destruct (distinct_times_keep_arrival_order reversing_sort _ reversing_sort_ok Hok)
    as (s' & Hrun & Hc).
  - rewrite Hq. repeat constructor.
  - exists s'. split; [exact Hrun|]. rewrite Hq in Hc. exact Hc.
Defined.

Example push_client_request_bounded_witness :
  (exists s', pushClientRequest (client_request 9) 11 (demo_seq demo_pending) = Ok (tt, s')) /\
  faults (pushClientRequest (client_request 9) 11)
    (demo_seq (replicate 1024 (mkPending 0 (client_request 1)))) FatalExit.
Proof.
  split.
  - destruct (demo_seq_ok demo_pending) as [Hok _]; [apply Nat.leb_le; vm_compute; reflexivity|].
    destruct (push_client_request_bounded (client_request 9) 11 _ Hok)
      as [(_ & s' & Hrun & _)|[Hn _]]; [exists s'; exact Hrun|discriminate Hn].
  - destruct (demo_seq_ok (replicate 1024 (mkPending 0 (client_request 1)))) as [Hok _];
      [apply Nat.leb_le; vm_compute; reflexivity|].
    destruct (push_client_request_bounded (client_request 9) 11 _ Hok) as [[Hlt _]|[_ Hf]];
      [discriminate Hlt|exact Hf].
Defined.
