(* ===== verification/TCPSocket.v ===== *)
(** One TCP connection: src/src/lib/tcp_socket.h and tcp_socket.cpp.

    The two 64 MiB vectors are sparse maps over zero bytes.  The kernel is an
    input: [Kernel] holds the bytes it has for the socket, the receive timestamp
    it attaches, and how many outgoing bytes it has room for.  What it takes is
    kept with the socket, in [wire_].  sendAndRecv is cut
    at the call of recvCallback_, which belongs to the server's client: [recvPart]
    comes before it and [sendPart] after it. *)

From S2P Require Import Prelude Times Types Logger.
#[local] Open Scope Z_scope.

(** ** Byte buffers *)
Abbreviation buffer := (gmap Z Z).
Definition byte_at (m : buffer) (i : Z) : Z := default 0 (m !! i).
Definition read_bytes (m : buffer) (i n : Z) : list Z := byte_at m <$> seqZ i n.
Fixpoint write_bytes (m : buffer) (i : Z) (bs : list Z) : buffer :=
  match bs with
  | [] => m
  | b :: bs' => <[i := b]> (write_bytes m (i + 1) bs')
  end.

Section Buffers.
Implicit Types (m : buffer) (bs : list Z).

Definition blen bs : Z := Z.of_nat (length bs).

Lemma blen_app bs1 bs2 : blen (bs1 ++ bs2) = blen bs1 + blen bs2.
Proof. unfold blen. rewrite length_app. lia. Qed.
Lemma blen_nonneg bs : 0 <= blen bs.
Proof. unfold blen. lia. Qed.

Lemma blen_read m i n : 0 <= n -> blen (read_bytes m i n) = n.
Proof. intros Hn. unfold blen, read_bytes. rewrite length_fmap, length_seqZ. lia. Qed.

Lemma read_bytes_app m i n1 n2 :
  0 <= n1 -> 0 <= n2 -> read_bytes m i (n1 + n2) = read_bytes m i n1 ++ read_bytes m (i + n1) n2.
Proof. intros H1 H2. unfold read_bytes. by rewrite seqZ_app, fmap_app by done. Qed.

Lemma byte_at_write m i bs j :
  byte_at (write_bytes m i bs) j =
    if decide (i <= j < i + blen bs) then default 0 (bs !! Z.to_nat (j - i)) else byte_at m j.
Proof.
  revert i. unfold blen. induction bs as [|b bs IH]; intros i; cbn [write_bytes length].
  { rewrite decide_False by (cbn; lia). done. }
  unfold byte_at in *. rewrite lookup_insert. case_decide as Hij.
  - subst j. rewrite decide_True by lia. by rewrite Z.sub_diag.
  - cbn. rewrite IH. repeat case_decide; try lia; try done.
    replace (Z.to_nat (j - i)) with (S (Z.to_nat (j - (i + 1)))) by lia. done.
Qed.

Lemma read_write_same m i bs : read_bytes (write_bytes m i bs) i (blen bs) = bs.
Proof.
  apply list_eq. intros k. unfold read_bytes. rewrite list_lookup_fmap.
  destruct (decide (k < length bs)%nat) as [Hk|Hk].
  - unfold blen. rewrite lookup_seqZ_lt by lia. cbn. rewrite byte_at_write.
    rewrite decide_True by (unfold blen; lia).
    replace (Z.to_nat (i + Z.of_nat k - i)) with k by lia.
    by destruct (lookup_lt_is_Some_2 bs k Hk) as [b ->].
  - unfold blen. rewrite lookup_seqZ_ge, lookup_ge_None_2 by lia. done.
Qed.

Lemma read_write_other m i bs j n :
  j + n <= i \/ i + blen bs <= j -> read_bytes (write_bytes m i bs) j n = read_bytes m j n.
Proof.
  intros Hd. apply list_fmap_ext. intros k x [-> Hx]%lookup_seqZ.
  rewrite byte_at_write, decide_False by lia. done.
Qed.

(** Appending at the end of the first [n] bytes. *)
Lemma read_append m n bs :
  0 <= n -> read_bytes (write_bytes m n bs) 0 (n + blen bs) = read_bytes m 0 n ++ bs.
Proof.
  intros Hn. rewrite read_bytes_app by (try apply blen_nonneg; lia).
  rewrite read_write_other by lia. by rewrite Z.add_0_l, read_write_same.
Qed.

Lemma read_bytes_sub m i n j k :
  0 <= j -> 0 <= k -> j + k <= n ->
  read_bytes m (i + j) k = take (Z.to_nat k) (drop (Z.to_nat j) (read_bytes m i n)).
Proof.
  intros Hj Hk Hn. replace n with (j + (k + (n - j - k))) by lia.
  rewrite !read_bytes_app by lia.
  rewrite drop_app_length', take_app_length'; [done|..];
    unfold read_bytes; rewrite length_fmap, length_seqZ; lia.
Qed.

End Buffers.

(** ** State *)
Definition TCPBufferSize : Z := 64 * 1024 * 1024.

Record TCPSocket := mkSocket {
  socketFd_ : Z;
  outboundData_ : buffer;
  inboundData_ : buffer;
  nextSendValidIndex_ : Z;
  nextRcvValidIndex_ : Z;
  wire_ : list Z;          (* the bytes ::send has handed to the kernel *)
}.

Definition newTCPSocket : TCPSocket := mkSocket (-1) ∅ ∅ 0 0 [].

Definition setSocketFd (fd : Z) (s : TCPSocket) : TCPSocket :=
  mkSocket fd (outboundData_ s) (inboundData_ s) (nextSendValidIndex_ s) (nextRcvValidIndex_ s)
    (wire_ s).
Definition set_outbound (m : buffer) (n : Z) (s : TCPSocket) : TCPSocket :=
  mkSocket (socketFd_ s) m (inboundData_ s) n (nextRcvValidIndex_ s) (wire_ s).
Definition set_inbound (m : buffer) (n : Z) (s : TCPSocket) : TCPSocket :=
  mkSocket (socketFd_ s) (outboundData_ s) m (nextSendValidIndex_ s) n (wire_ s).
Definition add_wire (bs : list Z) (s : TCPSocket) : TCPSocket :=
  mkSocket (socketFd_ s) (outboundData_ s) (inboundData_ s) (nextSendValidIndex_ s) (nextRcvValidIndex_ s)
    (wire_ s ++ bs).
Definition setNextRcvValidIndex (i : Z) (s : TCPSocket) : TCPSocket := set_inbound (inboundData_ s) i s.

(** The valid bytes of the two buffers. *)
Definition inbound (s : TCPSocket) : list Z := read_bytes (inboundData_ s) 0 (nextRcvValidIndex_ s).
Definition outbound (s : TCPSocket) : list Z := read_bytes (outboundData_ s) 0 (nextSendValidIndex_ s).

(** What the kernel does in one sendAndRecv. *)
Record Kernel := mkKernel {
  k_data : list Z;            (* bytes it could hand over *)
  k_time : option (Z * Z);    (* the SCM_TIMESTAMP timeval, seconds and microseconds *)
  k_room : Z;                 (* bytes it takes from ::send; without room ::send fails *)
}.

(** What ::send returns for [len] bytes, and the bytes the kernel takes. *)
Definition sent_count (k : Kernel) (len : Z) : Z :=
  if 0 <? k_room k then Z.min (k_room k) len else -1.
Definition taken (k : Kernel) (bs : list Z) : list Z := take (Z.to_nat (k_room k)) bs.

(** ** Operations *)

(** memcpy into the outbound buffer, which nothing bounds. *)
Definition send (data : list Z) : M TCPSocket unit :=
  s ← get;
  require (nextSendValidIndex_ s + blen data <=? TCPBufferSize) OutOfBounds;;
  modify (set_outbound (write_bytes (outboundData_ s) (nextSendValidIndex_ s) data)
            (u64 (nextSendValidIndex_ s + blen data))).

Definition kernelTime (k : Kernel) : Z :=
  match k_time k with
  | Some (sec, usec) => s64 (sec * NANOS_TO_SECS + usec * NANOS_TO_MICROS)
  | None => 0
  end.

(** recvmsg into the rest of the inbound buffer; the number of bytes read. *)
Definition recvPart (k : Kernel) : M TCPSocket Z :=
  s ← get;
  let room := TCPBufferSize - nextRcvValidIndex_ s in
  require (0 <=? room) OutOfBounds;;
  let got := take (Z.to_nat room) (k_data k) in
  modify (set_inbound (write_bytes (inboundData_ s) (nextRcvValidIndex_ s) got)
            (u64 (nextRcvValidIndex_ s + blen got)));;
  mret (blen got).

(** ::send of the outbound bytes; the buffer is emptied whatever the kernel
    takes.  The result is what goes to the log. *)
Definition sendPart (k : Kernel) : M TCPSocket (list LogElement) :=
  s ← get;
  ls ← (if 0 <? nextSendValidIndex_ s then
          modify (add_wire (taken k (read_bytes (outboundData_ s) 0 (nextSendValidIndex_ s))));;
          mret [mkLog INFO "Sent {} bytes to socket {}"
                  [ALong (sent_count k (nextSendValidIndex_ s)); AInt (socketFd_ s)]]
        else mret []);
  modify (fun s => set_outbound (outboundData_ s) 0 s);;
  mret ls.

(** ** Facts *)
Record socket_ok (s : TCPSocket) : Prop := {
  so_rcv : 0 <= nextRcvValidIndex_ s <= TCPBufferSize;
  so_snd : 0 <= nextSendValidIndex_ s <= TCPBufferSize;
  so_bytes : Forall is_byte (inbound s);
}.

Section Facts.
Implicit Types (s : TCPSocket).

(** Nothing received and nothing to send. *)
Definition empty_socket (s : TCPSocket) : Prop := inbound s = [] /\ outbound s = [].

Lemma newTCPSocket_ok : socket_ok newTCPSocket.
Proof. split; cbn; done. Qed.

Lemma buffer_bound : TCPBufferSize < 2 ^ 64.
Proof. done. Qed.

Lemma blen_inbound s : socket_ok s -> blen (inbound s) = nextRcvValidIndex_ s.
Proof. intros [Hr _ _]. apply blen_read. lia. Qed.
Lemma blen_outbound s : socket_ok s -> blen (outbound s) = nextSendValidIndex_ s.
Proof. intros [_ Hs _]. apply blen_read. lia. Qed.

Lemma send_spec data s :
  socket_ok s -> blen (outbound s) + blen data <= TCPBufferSize ->
  exists s', send data s = Ok (tt, s') /\ socket_ok s' /\ outbound s' = outbound s ++ data /\
    inboundData_ s' = inboundData_ s /\ nextRcvValidIndex_ s' = nextRcvValidIndex_ s /\
    socketFd_ s' = socketFd_ s /\ wire_ s' = wire_ s.
Proof.
  intros Hs Hb. rewrite blen_outbound in Hb by done. pose proof Hs as [Hr Hn Hby].
  pose proof (blen_nonneg data). pose proof buffer_bound.
  unfold send, mbind, M_bind, get, require, modify.
  rewrite (proj2 (Z.leb_le _ _) Hb). eexists. split; [done|].
  rewrite wrapU_small by lia. split; [split; cbn; try done; lia|]. split; [|done].
  unfold outbound. cbn. by rewrite read_append by lia.
Qed.

Lemma send_overflow data s :
  socket_ok s -> TCPBufferSize < blen (outbound s) + blen data -> faults (send data) s OutOfBounds.
Proof.
  intros Hs Hb. rewrite blen_outbound in Hb by done.
  unfold faults, send, mbind, M_bind, get, require. by rewrite (proj2 (Z.leb_gt _ _) Hb).
Qed.

Lemma recvPart_spec k s :
  socket_ok s -> Forall is_byte (k_data k) ->
  let got := take (Z.to_nat (TCPBufferSize - nextRcvValidIndex_ s)) (k_data k) in
  exists s', recvPart k s = Ok (blen got, s') /\ socket_ok s' /\ inbound s' = inbound s ++ got /\
    outbound s' = outbound s /\ socketFd_ s' = socketFd_ s /\ wire_ s' = wire_ s.
Proof.
  intros Hs Hk. cbn zeta. pose proof Hs as [Hr Hn Hby].
  unfold recvPart, mbind, M_bind, get, require, modify.
  destruct (Z.leb_spec 0 (TCPBufferSize - nextRcvValidIndex_ s)); [|lia]. cbn [mret M_ret].
  set (got := take _ (k_data k)).
  assert (Hl : blen got <= TCPBufferSize - nextRcvValidIndex_ s).
  { unfold got, blen. rewrite length_take. lia. }
  pose proof (blen_nonneg got). pose proof buffer_bound.
  rewrite wrapU_small by lia. eexists. split; [done|].
  assert (Hin : inbound (set_inbound (write_bytes (inboundData_ s) (nextRcvValidIndex_ s) got)
             (nextRcvValidIndex_ s + blen got) s) = inbound s ++ got).
  { unfold inbound. cbn. by rewrite read_append by lia. }
  split; [|done]. split; cbn; try lia. rewrite Hin. apply Forall_app. split; [done|].
  by apply Forall_take.
Qed.

Lemma sendPart_spec k s :
  socket_ok s ->
  exists s' ls, sendPart k s = Ok (ls, s') /\ socket_ok s' /\ outbound s' = [] /\
    inbound s' = inbound s /\ socketFd_ s' = socketFd_ s /\ wire_ s' = wire_ s ++ taken k (outbound s).
Proof.
  intros [Hr Hn Hby]. unfold sendPart, mbind, M_bind, get, modify, mret, M_ret.
  destruct (Z.ltb_spec 0 (nextSendValidIndex_ s)) as [Hpos|Hz]; (eexists _, _; split; [done|]).
  - split; [by split|done].
  - split; [by split|]. split_and!; [done..|]. cbn. unfold outbound, taken.
    replace (nextSendValidIndex_ s) with 0 by lia. change (read_bytes _ 0 0) with (@nil Z).
    by rewrite take_nil, app_nil_r.
Qed.

End Facts.
