(* ===== verification/SocketUtils.v ===== *)
(** Socket creation: src/src/lib/socket_utils.h and TCPSocket::connect of
    tcp_socket.cpp.

    The operating system is a parameter: [answer h c] is what it returns for the
    system call [c] after the calls [h].  The state of a computation is that
    history and the log, so that theorems speak of the exact calls made.
    getaddrinfo, getifaddrs and getnameinfo are parameters too. *)

From S2P Require Import Prelude Types Logger TCPSocket.
#[local] Open Scope Z_scope.

(** ** Configuration *)
Definition MaxTCPServerBacklog : Z := 1024.

Record SocketConfig := mkConfig {
  ipAddress : string;
  interfaceName : string;
  portNumber : Z;
  useUdp : bool;
  isListeningMode : bool;
  enableTimestamp : bool;
}.

(** std::format of a bool. *)
Definition bool_text (b : bool) : string := if b then "true" else "false".

Definition SocketConfig_toString (c : SocketConfig) : string :=
  ("ip:" +:+ ipAddress c +:+ " interface:" +:+ interfaceName c +:+ " port:" +:+ pretty (portNumber c)
   +:+ " udp:" +:+ bool_text (useUdp c) +:+ " listening:" +:+ bool_text (isListeningMode c)
   +:+ " timestamp:" +:+ bool_text (enableTimestamp c))%string.

(** ** The operating system *)
Inductive SockType := SOCK_STREAM | SOCK_DGRAM.
Inductive Protocol := IPPROTO_TCP | IPPROTO_UDP.
Inductive Option := TCP_NODELAY | SO_TIMESTAMP | SO_REUSEADDR | IP_ADD_MEMBERSHIP (group interface : string).

(** An address getaddrinfo found, of the family AF_INET asked for; [ai_addr] is
    opaque. *)
Record AddrInfo := mkAddr { ai_socktype : SockType; ai_protocol : Protocol; ai_addr : Z }.
Record Hints := mkHints { ai_passive : bool; hint_socktype : SockType; hint_protocol : Protocol }.
Record IfAddr := mkIf { ifa_name : string; ifa_inet : option Z }.   (* Some for an AF_INET address *)

Inductive Syscall :=
  | Socket (ty : SockType) (proto : Protocol)
  | GetFlags (fd : Z)
  | SetFlags (fd flags : Z)
  | SetOption (fd : Z) (o : Option)
  | Connect (fd addr : Z)
  | Bind (fd sin_port : Z)           (* to INADDR_ANY *)
  | Listen (fd backlog : Z).

Class Os := {
  answer : list Syscall -> Syscall -> Z;
  getaddrinfo : string -> string -> Hints -> Z * list AddrInfo;
  getifaddrs : option (list IfAddr);
  getnameinfo : Z -> option string;
}.

Record Calls := mkCalls { calls : list Syscall; calls_log : list LogElement }.

(** Linux's O_NONBLOCK, and the byte swap of htons on a little-endian machine. *)
Definition O_NONBLOCK : Z := 2048.
Definition htons (port : Z) : Z := Z.lor (Z.shiftl (Z.land port 255) 8) (Z.land (Z.shiftr port 8) 255).

Section Operations.
Context `{Os}.

Definition sys (c : Syscall) : M Calls Z :=
  h ← get; modify (fun h => mkCalls (calls h ++ [c]) (calls_log h));; mret (answer (calls h) c).

(** ** Operations *)
Definition getIpAddressForInterface (name : string) : string :=
  match getifaddrs with
  | Some l =>
      match list_find (fun i => ifa_name i = name /\ is_Some (ifa_inet i)) l with
      | Some (_, i) => default EmptyString (ifa_inet i ≫= getnameinfo)
      | None => EmptyString
      end
  | None => EmptyString
  end.

Definition setSocketNonBlocking (fd : Z) : M Calls bool :=
  flags ← sys (GetFlags fd);
  if flags =? -1 then mret false
  else r ← sys (SetFlags fd (Z.lor flags O_NONBLOCK)); mret (negb (r =? -1)).

Definition set_option (fd : Z) (o : Option) : M Calls bool :=
  r ← sys (SetOption fd o); mret (negb (r =? -1)).
Definition disableNagleAlgorithm (fd : Z) : M Calls bool := set_option fd TCP_NODELAY.
Definition enableSocketTimestamp (fd : Z) : M Calls bool := set_option fd SO_TIMESTAMP.
Definition joinMulticastGroup (fd : Z) (multicastIp interfaceIp : string) : M Calls bool :=
  set_option fd (IP_ADD_MEMBERSHIP multicastIp interfaceIp).

(** ASSERT_CONDITION on the result of a call. *)
Definition assert_call (m : M Calls bool) : M Calls unit := b ← m; require b AssertFailed.
Definition returns (c : Syscall) (z : Z) : M Calls bool := r ← sys c; mret (r =? z).
Definition only_if (b : bool) (m : M Calls unit) : M Calls unit := if b then m else mret tt.

(** The body of the loop over the addresses.  On a socket that is not for
    listening the code asserts that connect returns -1. *)
Definition setupSocket (cfg : SocketConfig) (rp : AddrInfo) : M Calls Z :=
  fd ← sys (Socket (ai_socktype rp) (ai_protocol rp));
  require (negb (fd =? -1)) AssertFailed;;
  assert_call (setSocketNonBlocking fd);;
  only_if (negb (useUdp cfg)) (assert_call (disableNagleAlgorithm fd));;
  only_if (negb (isListeningMode cfg)) (assert_call (returns (Connect fd (ai_addr rp)) (-1)));;
  only_if (isListeningMode cfg) (assert_call (returns (SetOption fd SO_REUSEADDR) 0));;
  only_if (isListeningMode cfg) (assert_call (returns (Bind fd (htons (portNumber cfg))) 0));;
  only_if (negb (useUdp cfg) && isListeningMode cfg)
    (assert_call (returns (Listen fd MaxTCPServerBacklog) 0));;
  only_if (enableTimestamp cfg) (assert_call (enableSocketTimestamp fd));;
  mret fd.

Fixpoint setupAll (cfg : SocketConfig) (rps : list AddrInfo) (socketFd : Z) : M Calls Z :=
  match rps with
  | [] => mret socketFd
  | rp :: rps' => fd ← setupSocket cfg rp; setupAll cfg rps' fd
  end.

Definition hints_of (cfg : SocketConfig) : Hints :=
  mkHints (isListeningMode cfg) (if useUdp cfg then SOCK_DGRAM else SOCK_STREAM)
    (if useUdp cfg then IPPROTO_UDP else IPPROTO_TCP).
Definition ip_of (cfg : SocketConfig) : string :=
  if decide (ipAddress cfg = EmptyString) then getIpAddressForInterface (interfaceName cfg) else ipAddress cfg.

Definition createSocket (cfg : SocketConfig) : M Calls Z :=
  modify (fun h => mkCalls (calls h)
    (calls_log h ++ [mkLog INFO "Creating socket with configuration:{}" [AString (SocketConfig_toString cfg)]]));;
  let '(rc, result) := getaddrinfo (ip_of cfg) (pretty (portNumber cfg)) (hints_of cfg) in
  require (rc =? 0) AssertFailed;;
  setupAll cfg result (-1).

(** TCPSocket::connect; socketAttrib_, which nothing reads, is not kept. *)
Definition connect (ip interface : string) (port : Z) (isListening : bool) : M (TCPSocket * Calls) Z :=
  fd ← zoom snd (fun h w => (w.1, h)) (createSocket (mkConfig ip interface port false isListening true));
  modify (fun w => (setSocketFd fd w.1, w.2));;
  mret fd.

(** ** What is asked of the system, address by address *)

(** The calls made for the address [rp] after the calls [h], when each one
    succeeds. *)
Definition script (cfg : SocketConfig) (rp : AddrInfo) (h : list Syscall) : list Syscall :=
  let open := Socket (ai_socktype rp) (ai_protocol rp) in
  let fd := answer h open in
  [open; GetFlags fd; SetFlags fd (Z.lor (answer (h ++ [open]) (GetFlags fd)) O_NONBLOCK)]
  ++ (if useUdp cfg then [] else [SetOption fd TCP_NODELAY])
  ++ (if isListeningMode cfg
      then [SetOption fd SO_REUSEADDR; Bind fd (htons (portNumber cfg))]
           ++ (if useUdp cfg then [] else [Listen fd MaxTCPServerBacklog])
      else [Connect fd (ai_addr rp)])
  ++ (if enableTimestamp cfg then [SetOption fd SO_TIMESTAMP] else []).

Fixpoint scripts (cfg : SocketConfig) (rps : list AddrInfo) (fd : Z) (h : list Syscall) : Z * list Syscall :=
  match rps with
  | [] => (fd, h)
  | rp :: rps' =>
      scripts cfg rps' (answer h (Socket (ai_socktype rp) (ai_protocol rp))) (h ++ script cfg rp h)
  end.

(** A system on which every call but connect succeeds. *)
Definition accepts (c : Syscall) (z : Z) : Prop :=
  match c with
  | Socket _ _ | GetFlags _ => 0 <= z
  | Connect _ _ => True
  | _ => z = 0
  end.
Definition cooperative : Prop := forall h c, accepts c (answer h c).

(** What TCPSocket::connect asks createSocket for, and the call of connect on the
    only address [rp]. *)
Definition tcp_config (ip interface : string) (port : Z) (isListening : bool) : SocketConfig :=
  mkConfig ip interface port false isListening true.
Definition connect_answer (h : list Syscall) (rp : AddrInfo) : Z :=
  let open := Socket (ai_socktype rp) (ai_protocol rp) in
  let fd := answer h open in
  let h1 := h ++ [open] in
  answer (h1 ++ [GetFlags fd; SetFlags fd (Z.lor (answer h1 (GetFlags fd)) O_NONBLOCK);
                 SetOption fd TCP_NODELAY])
    (Connect fd (ai_addr rp)).
Definition config_line (cfg : SocketConfig) : LogElement :=
  mkLog INFO "Creating socket with configuration:{}" [AString (SocketConfig_toString cfg)].

End Operations.

Section Facts.
Context `{Os}.
Implicit Types (h : list Syscall) (l : list LogElement) (cfg : SocketConfig) (rp : AddrInfo).

(** A call appends itself to the history. *)
Lemma sys_run {A} (f : Z -> M Calls A) c h l :
  (sys c ≫= f) (mkCalls h l) = f (answer h c) (mkCalls (h ++ [c]) l).
Proof. done. Qed.

(** An assertion on a call that gives what is expected. *)
Lemma assert_returns {A} (f : unit -> M Calls A) c z h l :
  (assert_call (returns c z) ≫= f) (mkCalls h l) =
    if answer h c =? z then f tt (mkCalls (h ++ [c]) l) else Err AssertFailed.
Proof.
  unfold assert_call, returns, sys, mbind, M_bind, get, modify, mret, M_ret. cbn.
  by destruct (answer h c =? z).
Qed.
Lemma assert_option {A} (f : unit -> M Calls A) fd o h l :
  (assert_call (set_option fd o) ≫= f) (mkCalls h l) =
    if negb (answer h (SetOption fd o) =? -1) then f tt (mkCalls (h ++ [SetOption fd o]) l)
    else Err AssertFailed.
Proof.
  unfold assert_call, set_option, sys, mbind, M_bind, get, modify, mret, M_ret. cbn.
  by destruct (_ =? -1).
Qed.
Lemma assert_nonblocking {A} (f : unit -> M Calls A) fd h l :
  cooperative ->
  (assert_call (setSocketNonBlocking fd) ≫= f) (mkCalls h l) =
    f tt (mkCalls (h ++ [GetFlags fd; SetFlags fd (Z.lor (answer h (GetFlags fd)) O_NONBLOCK)]) l).
Proof.
  intros Hc. unfold assert_call, setSocketNonBlocking, sys, mbind, M_bind, get, modify, mret, M_ret. cbn.
  pose proof (Hc h (GetFlags fd)) as H1. cbn in H1.
  rewrite (proj2 (Z.eqb_neq (answer h (GetFlags fd)) (-1))) by lia. cbn.
  pose proof (Hc (h ++ [GetFlags fd]) (SetFlags fd (Z.lor (answer h (GetFlags fd)) O_NONBLOCK))) as H2.
  cbn in H2. rewrite H2. cbn. by rewrite <- app_assoc.
Qed.
Lemma only_if_true {A} (m : M Calls unit) (f : unit -> M Calls A) : (only_if true m ≫= f) = (m ≫= f).
Proof. done. Qed.
Lemma only_if_false {A} (m : M Calls unit) (f : unit -> M Calls A) (w : Calls) : (only_if false m ≫= f) w = f tt w.
Proof. done. Qed.
Lemma require_true {A} (f : unit -> M Calls A) e (w : Calls) : (require true e ≫= f) w = f tt w.
Proof. done. Qed.

End Facts.

(** One step of createSocket on a cooperative system. *)
Ltac call_step Hc :=
  first
    [ rewrite require_true | rewrite only_if_true | rewrite only_if_false
    | rewrite (assert_nonblocking _ _ _ _ Hc)
    | lazymatch goal with
      | |- context [(assert_call (set_option ?fd ?o) ≫= _) (mkCalls ?h _)] =>
          rewrite assert_option, (Hc h (SetOption fd o))
      | |- context [(assert_call (returns (SetOption ?fd ?o) 0) ≫= _) (mkCalls ?h _)] =>
          rewrite assert_returns, (Hc h (SetOption fd o))
      | |- context [(assert_call (returns (Bind ?fd ?p) 0) ≫= _) (mkCalls ?h _)] =>
          rewrite assert_returns, (Hc h (Bind fd p))
      | |- context [(assert_call (returns (Listen ?fd ?p) 0) ≫= _) (mkCalls ?h _)] =>
          rewrite assert_returns, (Hc h (Listen fd p))
      end; cbn [negb Z.eqb] ].

Section Theorems.
Context `{Os} (Hc : cooperative).
Implicit Types (h : list Syscall) (l : list LogElement) (cfg : SocketConfig) (rp : AddrInfo).

Lemma socket_opened {A} (f : unit -> M Calls A) h l rp :
  (require (negb (answer h (Socket (ai_socktype rp) (ai_protocol rp)) =? -1)) AssertFailed ≫= f)
    (mkCalls (h ++ [Socket (ai_socktype rp) (ai_protocol rp)]) l)
  = f tt (mkCalls (h ++ [Socket (ai_socktype rp) (ai_protocol rp)]) l).
Proof.
  pose proof (Hc h (Socket (ai_socktype rp) (ai_protocol rp))) as Hs. cbn in Hs.
  by rewrite (proj2 (Z.eqb_neq _ (-1))) by lia.
Qed.

Lemma setupSocket_listening cfg rp h l :
  isListeningMode cfg = true ->
  setupSocket cfg rp (mkCalls h l)
  = Ok (answer h (Socket (ai_socktype rp) (ai_protocol rp)), mkCalls (h ++ script cfg rp h) l).
Proof.
  intros Hl. unfold setupSocket, script, disableNagleAlgorithm, enableSocketTimestamp.
  rewrite Hl, sys_run, socket_opened. cbn [negb andb].
  destruct (useUdp cfg), (enableTimestamp cfg); cbn [negb andb];
    repeat call_step Hc; by rewrite <- !app_assoc.
Qed.

Lemma setupAll_listening cfg rps : forall fd h l,
  isListeningMode cfg = true ->
  setupAll cfg rps fd (mkCalls h l) =
    Ok ((scripts cfg rps fd h).1, mkCalls (scripts cfg rps fd h).2 l).
Proof.
  induction rps as [|rp rps IH]; intros fd h l Hl; [done|]. cbn [setupAll scripts].
  erewrite bind_ok by (by apply setupSocket_listening). by apply IH.
Qed.

Lemma setupSocket_client ip interface port rp h l :
  setupSocket (tcp_config ip interface port false) rp (mkCalls h l)
  = if connect_answer h rp =? -1
    then Ok (answer h (Socket (ai_socktype rp) (ai_protocol rp)),
             mkCalls (h ++ script (tcp_config ip interface port false) rp h) l)
    else Err AssertFailed.
Proof.
  unfold setupSocket, script, disableNagleAlgorithm, enableSocketTimestamp.
  cbn [tcp_config isListeningMode useUdp enableTimestamp negb andb].
  rewrite sys_run, socket_opened. repeat call_step Hc. rewrite assert_returns.
  unfold connect_answer. rewrite <- !app_assoc. cbn [app].
  destruct (_ =? -1); [|done]. repeat call_step Hc. by rewrite <- !app_assoc.
Qed.

(** A listening socket: one set of calls for each address found, every address
    getting a socket of its own; the last one is returned and the others stay
    open. *)
Lemma createSocket_listening cfg rps h l :
  isListeningMode cfg = true ->
  getaddrinfo (ip_of cfg) (pretty (portNumber cfg)) (hints_of cfg) = (0, rps) ->
  createSocket cfg (mkCalls h l) =
    Ok ((scripts cfg rps (-1) h).1, mkCalls (scripts cfg rps (-1) h).2 (l ++ [config_line cfg])).
Proof.
  intros Hl Ha. unfold createSocket. rewrite (bind_ok _ _ _ tt (mkCalls h (l ++ [config_line cfg]))) by done.
  rewrite Ha. cbn [Z.eqb]. rewrite require_true. by apply setupAll_listening.
Qed.

Lemma createSocket_client ip interface port rp h l (cfg := tcp_config ip interface port false) :
  getaddrinfo (ip_of cfg) (pretty port) (hints_of cfg) = (0, [rp]) ->
  createSocket cfg (mkCalls h l) =
    if connect_answer h rp =? -1
    then Ok (answer h (Socket (ai_socktype rp) (ai_protocol rp)),
             mkCalls (h ++ script cfg rp h) (l ++ [config_line cfg]))
    else Err AssertFailed.
Proof.
  intros Ha. unfold createSocket. rewrite (bind_ok _ _ _ tt (mkCalls h (l ++ [config_line cfg]))) by done.
  cbn [cfg tcp_config portNumber]. fold (tcp_config ip interface port false). fold cfg. rewrite Ha.
  cbn [Z.eqb]. rewrite require_true. cbn [setupAll].
  unfold mbind, M_bind. unfold cfg. rewrite setupSocket_client. by destruct (_ =? -1).
Qed.

End Theorems.

(** C33. On a system where every other call succeeds, TCPSocket::connect in
    listening mode keeps the descriptor of a bound and listening socket, after
    exactly the calls of [script]; as a client it does the same if the system's
    connect fails, and ends the program if it succeeds. *)
Theorem tcp_connect_outcome `{Os} ip interface port isListening (s : TCPSocket) h l rp :
  cooperative ->
  getaddrinfo (ip_of (tcp_config ip interface port isListening)) (pretty port)
    (hints_of (tcp_config ip interface port isListening)) = (0, [rp]) ->
  connect ip interface port isListening (s, mkCalls h l) =
    if isListening || (connect_answer h rp =? -1)
    then let fd := answer h (Socket (ai_socktype rp) (ai_protocol rp)) in
         Ok (fd, (setSocketFd fd s,
                  mkCalls (h ++ script (tcp_config ip interface port isListening) rp h)
                    (l ++ [config_line (tcp_config ip interface port isListening)])))
    else Err AssertFailed.
Proof.
  intros Hc Ha. unfold connect, mbind, M_bind, zoom. cbn [snd fst].
  fold (tcp_config ip interface port isListening). destruct isListening; cbn [orb].
  - by rewrite (createSocket_listening Hc _ [rp]).
  - rewrite (createSocket_client Hc _ _ _ rp) by done. by destruct (_ =? -1).
Qed.

(** A system that gives descriptor 3 and lets connect succeed, or fail as a
    connection in progress does. *)
Definition demo_os (in_progress : bool) : Os := {|
  answer h c := match c with Socket _ _ => 3 | Connect _ _ => if in_progress then -1 else 0 | _ => 0 end;
  getaddrinfo _ _ hints := (0, [mkAddr (hint_socktype hints) (hint_protocol hints) 7]);
  getifaddrs := None;
  getnameinfo _ := None;
|}.
Lemma demo_os_cooperative b : @cooperative (demo_os b).
Proof. intros h []; cbn; lia. Qed.

Lemma tcp_connect_outcome_witness :
  (@connect (demo_os false) "127.0.0.1" "lo" 12345 true (newTCPSocket, mkCalls [] [])
   = Ok (3, (setSocketFd 3 newTCPSocket,
       mkCalls [Socket SOCK_STREAM IPPROTO_TCP; GetFlags 3; SetFlags 3 2048; SetOption 3 TCP_NODELAY;
                SetOption 3 SO_REUSEADDR; Bind 3 14640; Listen 3 1024; SetOption 3 SO_TIMESTAMP]
         [config_line (tcp_config "127.0.0.1" "lo" 12345 true)])))
  /\ @connect (demo_os false) "127.0.0.1" "lo" 12345 false (newTCPSocket, mkCalls [] []) = Err AssertFailed
  /\ is_Ok (@connect (demo_os true) "127.0.0.1" "lo" 12345 false (newTCPSocket, mkCalls [] [])).
Proof.
  split_and!.
  - refine (eq_trans (@tcp_connect_outcome (demo_os false) _ _ _ true _ _ _
      (mkAddr SOCK_STREAM IPPROTO_TCP 7) (demo_os_cooperative _) eq_refl) _). reflexivity.
  - refine (eq_trans (@tcp_connect_outcome (demo_os false) _ _ _ false _ _ _
      (mkAddr SOCK_STREAM IPPROTO_TCP 7) (demo_os_cooperative _) eq_refl) _). reflexivity.
  - rewrite (@tcp_connect_outcome (demo_os true) _ _ _ false _ _ _
      (mkAddr SOCK_STREAM IPPROTO_TCP 7) (demo_os_cooperative _) eq_refl). exact I.
Defined.
