(* ===== verification/TCPServer.v ===== *)
(** The TCP server: src/src/lib/tcp_server.h and tcp_server.cpp (the epoll
    variant).

    Sockets are pointers: to the listener member or into socketPool_.  What the
    operating system answers is an input: the results of epoll_create1 and
    epoll_ctl, the events epoll_wait reports, the connections accept returns, and
    a [Kernel] for every sendAndRecv.  The server's record keeps the interest
    list of its epoll instance, and [reported] is what epoll_wait promises about
    an event: it is for a registered pointer, and only for what was asked.  The two
    callbacks are those of the server's client, seen through the interface
    [ServerClient]; both run on the pair of server and client. *)

From S2P Require Import Prelude MemoryPool Types Logger TCPSocket.
#[local] Open Scope Z_scope.

(** ** State *)
Inductive sockptr := Listener | Pooled (i : Z).
#[export] Instance sockptr_eq_dec : EqDecision sockptr.
Proof. solve_decision. Defined.

(** An entry of the interest list: the descriptor, and the epoll_event given to
    epoll_ctl. *)
Record Interest := mkInterest {
  in_fd : Z;
  in_ptr : sockptr;   (* data.ptr *)
  in_events : Z;
}.

Record TCPServer := mkServer {
  eventFd_ : Z;
  interest : list Interest;     (* of the epoll instance eventFd_ *)
  listenerSocket_ : TCPSocket;
  receiveSockets_ : list sockptr;
  sendSockets_ : list sockptr;
  socketPool_ : MemoryPool TCPSocket;
  net_log : list LogElement;    (* the Logger::log calls made *)
}.

Definition MAX_EVENTS : Z := 1024.

Definition newTCPServer : res TCPServer :=
  match construct MAX_EVENTS with
  | Ok p => Ok (mkServer (-1) [] newTCPSocket [] [] p [])
  | Err e => Err e
  end.

(** A new epoll instance, or none, has an empty interest list. *)
Definition set_eventFd (fd : Z) (v : TCPServer) : TCPServer :=
  mkServer fd [] (listenerSocket_ v) (receiveSockets_ v) (sendSockets_ v) (socketPool_ v) (net_log v).
Definition set_listener (s : TCPSocket) (v : TCPServer) : TCPServer :=
  mkServer (eventFd_ v) (interest v) s (receiveSockets_ v) (sendSockets_ v) (socketPool_ v) (net_log v).
Definition set_receive (l : list sockptr) (v : TCPServer) : TCPServer :=
  mkServer (eventFd_ v) (interest v) (listenerSocket_ v) l (sendSockets_ v) (socketPool_ v) (net_log v).
Definition set_send (l : list sockptr) (v : TCPServer) : TCPServer :=
  mkServer (eventFd_ v) (interest v) (listenerSocket_ v) (receiveSockets_ v) l (socketPool_ v) (net_log v).
Definition set_socketPool (p : MemoryPool TCPSocket) (v : TCPServer) : TCPServer :=
  mkServer (eventFd_ v) (interest v) (listenerSocket_ v) (receiveSockets_ v) (sendSockets_ v) p (net_log v).
Definition add_logs (ls : list LogElement) (v : TCPServer) : TCPServer :=
  mkServer (eventFd_ v) (interest v) (listenerSocket_ v) (receiveSockets_ v) (sendSockets_ v) (socketPool_ v)
    (net_log v ++ ls).

Definition add_interest (x : Interest) (v : TCPServer) : TCPServer :=
  mkServer (eventFd_ v) (interest v ++ [x]) (listenerSocket_ v) (receiveSockets_ v) (sendSockets_ v)
    (socketPool_ v) (net_log v).

(** Through a pointer to a socket. *)
Definition on_cell {T A} (i : Z) (m : M T A) : M (MemoryPool T) A :=
  x ← load i;
  match m x with
  | Ok (a, x') => update i (fun _ => x');; mret a
  | Err e => fail e
  end.
Definition with_socket {A} (p : sockptr) (m : M TCPSocket A) : M TCPServer A :=
  match p with
  | Listener => zoom listenerSocket_ set_listener m
  | Pooled i => zoom socketPool_ set_socketPool (on_cell i m)
  end.
Definition fd_of (p : sockptr) : M TCPServer Z := with_socket p (gets socketFd_).
Definition net (level : LogLevel) (fmt : string) (args : list Any) : M TCPServer unit :=
  modify (add_logs [mkLog level fmt args]).

(** ** Events and connections *)
Definition EPOLLIN : Z := 1.
Definition EPOLLOUT : Z := 4.
Definition EPOLLERR : Z := 8.
Definition EPOLLHUP : Z := 16.
Definition EPOLLET : Z := Z.shiftl 1 31.

Record Event := mkEvent {
  ev_socket : sockptr;   (* data.ptr *)
  ev_events : Z;
}.
Definition has (mask : Z) (e : Event) : bool := negb (Z.land (ev_events e) mask =? 0).
Definition ev_in : Event -> bool := has EPOLLIN.
Definition ev_out : Event -> bool := has EPOLLOUT.
Definition ev_err : Event -> bool := has (Z.lor EPOLLERR EPOLLHUP).

(** epoll_wait reports registered pointers, and besides EPOLLERR and EPOLLHUP
    only the events that were asked for. *)
Definition reported (v : TCPServer) (e : Event) : bool :=
  existsb (fun x => bool_decide (in_ptr x = ev_socket e) &&
    (Z.land (ev_events e) (Z.lnot (Z.lor (in_events x) (Z.lor EPOLLERR EPOLLHUP))) =? 0)) (interest v).

(** [rc] is epoll_ctl's result. *)
Definition addSocketToEventSystem (p : sockptr) (rc : Z) : M TCPServer bool :=
  fd ← fd_of p;
  (if rc =? 0 then modify (add_interest (mkInterest fd p (Z.lor EPOLLET EPOLLIN))) else mret tt);;
  mret (rc =? 0).

Record Accepted := mkAccepted {
  ac_fd : Z;
  ac_configured : bool;   (* setSocketNonBlocking && disableNagleAlgorithm *)
  ac_ctl : Z;             (* epoll_ctl's result for it *)
}.

(** find_if and push_back. *)
Definition push_absent (p : sockptr) (l : list sockptr) : list sockptr :=
  if decide (p ∈ l) then l else l ++ [p].
Definition add_receive (p : sockptr) : M TCPServer unit :=
  modify (fun v => set_receive (push_absent p (receiveSockets_ v)) v).
Definition add_send (p : sockptr) : M TCPServer unit :=
  modify (fun v => set_send (push_absent p (sendSockets_ v)) v).

(** [event_fd], [fd] and [ctl] are the results of epoll_create1,
    listenerSocket_.connect and epoll_ctl. *)
Definition listen (event_fd fd ctl : Z) : M TCPServer unit :=
  modify (set_eventFd event_fd);;
  modify (fun v => set_listener (setSocketFd fd (listenerSocket_ v)) v);;
  require (0 <=? fd) AssertFailed;;
  added ← addSocketToEventSystem Listener ctl;
  require added AssertFailed.

(** close drops the epoll instance. *)
Definition stop : M TCPServer unit :=
  v ← get;
  (if eventFd_ v =? -1 then mret tt else modify (set_eventFd (-1)));;
  modify (set_receive []);; modify (set_send []).

(** The destructor. *)
Definition destroyTCPServer : M TCPServer unit := stop.

(** The body of the loop over the events; true for a new connection. *)
Definition pollEvent (e : Event) : M TCPServer bool :=
  let p := ev_socket e in
  fd ← fd_of p;
  if ev_in e && bool_decide (p = Listener) then
    net INFO "Received EPOLLIN on listener socket:{}" [AInt fd];; mret true
  else
    (if ev_in e then net INFO "Received EPOLLIN on socket:{}" [AInt fd];; add_receive p
     else mret tt);;
    (if ev_out e then net INFO "Received EPOLLOUT on socket:{}" [AInt fd];; add_send p
     else mret tt);;
    (if ev_err e then net INFO "Received EPOLLERR or EPOLLHUP on socket:{}" [AInt fd];; add_receive p
     else mret tt);;
    mret false.

Fixpoint pollEvents (es : list Event) (haveNewConnection : bool) : M TCPServer bool :=
  match es with
  | [] => mret haveNewConnection
  | e :: es' => b ← pollEvent e; pollEvents es' (b || haveNewConnection)
  end.

(** The accept loop, until accept fails. *)
Fixpoint acceptAll (acs : list Accepted) : M TCPServer unit :=
  lfd ← fd_of Listener;
  net INFO "Accepting new connection on listener socket:{}" [AInt lfd];;
  match acs with
  | [] => mret tt
  | ac :: acs' =>
      require (ac_configured ac) AssertFailed;;
      net INFO "Accepted new connection on listener socket:{}. New socket:{}" [AInt lfd; AInt (ac_fd ac)];;
      socket ← zoom socketPool_ set_socketPool (allocate newTCPSocket);
      i ← nonnull socket;
      with_socket (Pooled i) (modify (setSocketFd (ac_fd ac)));;
      added ← addSocketToEventSystem (Pooled i) (ac_ctl ac);
      require added AssertFailed;;
      add_receive (Pooled i);;
      acceptAll acs'
  end.

(** epoll_wait is given maxEvents, but writes its events to an array of
    MAX_EVENTS. *)
Definition maxEvents (v : TCPServer) : Z :=
  1 + Z.of_nat (length (sendSockets_ v)) + Z.of_nat (length (receiveSockets_ v)).
Definition epoll_answer (v : TCPServer) (es : list Event) : Prop :=
  Z.of_nat (length es) <= maxEvents v /\ Forall (fun e => reported v e = true) es.
Definition poll (es : list Event) (acs : list Accepted) : M TCPServer unit :=
  require (Z.of_nat (length es) <=? MAX_EVENTS) OutOfBounds;;
  b ← pollEvents es false;
  if b : bool then acceptAll acs else mret tt.

(** ** Sending and receiving *)
Class ServerClient (G : Type) := {
  recvCallback : sockptr -> Z -> M (TCPServer * G) unit;
  recvFinishedCallback : M (TCPServer * G) unit;
}.

Definition on_server {G A} (m : M TCPServer A) : M (TCPServer * G) A :=
  zoom fst (fun v w => (v, w.2)) m.

Section SendReceive.
Context {G : Type} `{ServerClient G}.

(** TCPSocket::sendAndRecv; only pooled sockets were given a callback. *)
Definition sendAndRecv (p : sockptr) (k : Kernel) : M (TCPServer * G) bool :=
  n ← on_server (with_socket p (recvPart k));
  fd ← on_server (fd_of p);
  (if 0 <? n then
     on_server (net INFO "Received {} bytes from socket {}. xxKernel time: {}"
                  [ALong n; AInt fd; ALong (kernelTime k)]);;
     match p with
     | Pooled _ => recvCallback p (kernelTime k)
     | Listener => mret tt
     end
   else mret tt);;
  ls ← on_server (with_socket p (sendPart k));
  on_server (modify (add_logs ls));;
  mret (0 <? n).

Fixpoint sendAndRecvAll (kernel : sockptr -> Kernel) (ps : list sockptr) : M (TCPServer * G) bool :=
  match ps with
  | [] => mret false
  | p :: ps' =>
      r ← sendAndRecv p (kernel p);
      rs ← sendAndRecvAll kernel ps';
      mret (r || rs)
  end.

(** [kr] answers the pass over receiveSockets_, [ks] the pass over sendSockets_. *)
Definition sendAndReceive (kr ks : sockptr -> Kernel) : M (TCPServer * G) unit :=
  v ← on_server get;
  recv ← sendAndRecvAll kr (receiveSockets_ v);
  (if recv : bool then recvFinishedCallback else mret tt);;
  v ← on_server get;
  _ ← sendAndRecvAll ks (sendSockets_ v);
  mret tt.

End SendReceive.

(** ** Invariant *)
Definition sock (v : TCPServer) (p : sockptr) : option TCPSocket :=
  match p with
  | Listener => Some (listenerSocket_ v)
  | Pooled i => live (socketPool_ v) !! i
  end.

(** Every registered pointer is live and registered for edge-triggered input
    only, so that no socket is ever queued for sending. *)
Record server_ok (v : TCPServer) : Prop := {
  sv_pool : pool_ok (socketPool_ v);
  sv_sock : forall p s, sock v p = Some s -> socket_ok s;
  sv_receive : NoDup (receiveSockets_ v);
  sv_send : sendSockets_ v = [];
  sv_alive : forall p, p ∈ receiveSockets_ v -> is_Some (sock v p);
  sv_interest : forall x, x ∈ interest v ->
    in_events x = Z.lor EPOLLET EPOLLIN /\ is_Some (sock v (in_ptr x));
}.

Definition set_sock (p : sockptr) (s : TCPSocket) (v : TCPServer) : TCPServer :=
  match p with
  | Listener => set_listener s v
  | Pooled i => set_socketPool (updated i (fun _ => s) (socketPool_ v)) v
  end.

Section Facts.
Implicit Types (v : TCPServer) (p : sockptr) (s : TCPSocket).

Lemma newTCPServer_ok : exists v, newTCPServer = Ok v /\ server_ok v /\
  (forall i, sock v (Pooled i) = None) /\ receiveSockets_ v = [] /\
  freeBlocksCount_ (socketPool_ v) = MAX_EVENTS /\ listenerSocket_ v = newTCPSocket.
Proof.
  destruct (construct_ok (T:=TCPSocket) MAX_EVENTS) as (pl & Hc & Hok & Hl & _ & Hf); [done|].
  assert (Hn : forall i, live pl !! i = None) by (intros i; by rewrite Hl).
  unfold newTCPServer. rewrite Hc. eexists. split; [done|]. split; [|by cbn].
  split; cbn; [done| |apply NoDup_nil_2|done|by intros p ?%elem_of_nil|by intros x ?%elem_of_nil].
  intros [|i] s; cbn; [|by rewrite Hn]. intros [= <-]. apply newTCPSocket_ok.
Qed.

Lemma elem_of_push_absent p q l : q ∈ push_absent p l <-> q = p \/ q ∈ l.
Proof.
  unfold push_absent. case_decide.
  - split; [by right|]. by intros [->|?].
  - rewrite elem_of_app, list_elem_of_singleton. tauto.
Qed.
Lemma NoDup_push_absent p l : NoDup l -> NoDup (push_absent p l).
Proof.
  intros Hl. unfold push_absent. case_decide; [done|]. apply NoDup_app. split; [done|].
  split; [|apply NoDup_singleton]. intros x Hx ->%list_elem_of_singleton. done.
Qed.

Lemma live_updated_const {T} i (x x' : T) (pl : MemoryPool T) :
  live pl !! i = Some x -> live (updated i (fun _ => x') pl) = <[i := x']> (live pl).
Proof.
  intros Hx. rewrite live_updated. apply map_eq. intros j.
  rewrite lookup_alter, lookup_insert. case_decide; [|done]. subst. by rewrite Hx.
Qed.

Lemma sock_set_sock p q s s' v :
  sock v p = Some s -> sock (set_sock p s' v) q = if decide (p = q) then Some s' else sock v q.
Proof.
  destruct p as [|i]; cbn; intros Hs; [by destruct q|].
  destruct q as [|j]; cbn; [done|]. rewrite (live_updated_const i s), lookup_insert by done.
  repeat case_decide; congruence.
Qed.

Lemma server_ok_set_sock p s s' v :
  server_ok v -> sock v p = Some s -> socket_ok s' -> server_ok (set_sock p s' v).
Proof.
  intros [Hp Hs Hr Hn Ha Hi] Hsp Hs'.
  assert (Hlists : receiveSockets_ (set_sock p s' v) = receiveSockets_ v /\
    sendSockets_ (set_sock p s' v) = sendSockets_ v /\ interest (set_sock p s' v) = interest v)
    by (by destruct p).
  destruct Hlists as (Hl1 & Hl2 & Hl3). split; rewrite ?Hl1, ?Hl2, ?Hl3; try done.
  - destruct p; cbn; [done|]. by apply pool_ok_updated.
  - intros q x. rewrite (sock_set_sock p q s) by done. case_decide; [by intros [= <-]|apply Hs].
  - intros q Hq. rewrite (sock_set_sock p q s) by done. case_decide; [done|by apply Ha].
  - intros x Hx. rewrite (sock_set_sock p (in_ptr x) s) by done.
    destruct (Hi x Hx). split; [done|]. by case_decide.
Qed.

Lemma wp_with_socket {A} p s (m : M TCPSocket A) (Q : A -> TCPServer -> Prop) v :
  sock v p = Some s -> wp m (fun a s' => Q a (set_sock p s' v)) s -> wp (with_socket p m) Q v.
Proof.
  destruct p as [|i]; cbn; intros Hs Hm; [injection Hs as <-; by apply wp_zoom|].
  apply wp_zoom. unfold on_cell. wp_step. apply (load_live i s); [done|].
  apply wp_ok in Hm as (a & s' & -> & HQ). wp_step. apply update_live; [by eexists|]. by apply wp_ret.
Qed.

Lemma wp_fd_of p s (Q : Z -> TCPServer -> Prop) v :
  sock v p = Some s -> Q (socketFd_ s) (set_sock p s v) -> wp (fd_of p) Q v.
Proof. intros Hs HQ. apply (wp_with_socket p s); [done|]. by apply wp_gets. Qed.

Lemma server_ok_logs ls v : server_ok v -> server_ok (add_logs ls v).
Proof. intros [? ? ? ? ? ?]. by split. Qed.

Lemma server_ok_receive p v :
  server_ok v -> is_Some (sock v p) -> server_ok (set_receive (push_absent p (receiveSockets_ v)) v).
Proof.
  intros [? Hs ? ? Ha ?] Hp. split; cbn; try done; [by apply NoDup_push_absent|].
  intros q. change (sock _ q) with (sock v q). rewrite elem_of_push_absent. intros [->|Hq]; auto.
Qed.
Lemma server_ok_interest fd p v :
  server_ok v -> is_Some (sock v p) ->
  server_ok (add_interest (mkInterest fd p (Z.lor EPOLLET EPOLLIN)) v).
Proof.
  intros [? ? ? ? ? Hi] Hp. split; try done.
  intros x [Hx| ->%list_elem_of_singleton]%elem_of_app; [by apply Hi|done].
Qed.

(** What one step may change: sockets stay as they are, new ones are
    empty, lists only grow. *)
Record grows (v v' : TCPServer) : Prop := {
  gr_ok : server_ok v';
  gr_sock : forall p s, sock v p = Some s -> sock v' p = Some s;
  gr_new : forall p s, sock v' p = Some s -> sock v p = Some s \/ empty_socket s;
  gr_receive : forall p, p ∈ receiveSockets_ v -> p ∈ receiveSockets_ v';
  gr_interest : forall x, x ∈ interest v -> x ∈ interest v';
}.

Lemma grows_refl v : server_ok v -> grows v v.
Proof. split; auto. Qed.
Lemma grows_trans v1 v2 v3 : grows v1 v2 -> grows v2 v3 -> grows v1 v3.
Proof.
  intros [? H1 Hn1 H2 H3] [? H4 Hn2 H5 H6]. split; eauto.
  intros p s Hs. destruct (Hn2 p s Hs) as [?|?]; eauto.
Qed.

Lemma grows_same_sock p s v : server_ok v -> sock v p = Some s -> grows v (set_sock p s v).
Proof.
  intros Hok Hs. split.
  - apply (server_ok_set_sock p s); [done|done|]. by apply (sv_sock _ Hok p).
  - intros q x Hq. rewrite (sock_set_sock p q s) by done. case_decide; congruence.
  - intros q x. rewrite (sock_set_sock p q s) by done. case_decide; [intros [= <-]|]; subst; auto.
  - by destruct p.
  - by destruct p.
Qed.
Lemma grows_logs ls v : server_ok v -> grows v (add_logs ls v).
Proof. intros Hok. split; try done; [by apply server_ok_logs|]. intros p s Hs. by left. Qed.
Lemma grows_receive p v :
  server_ok v -> is_Some (sock v p) -> grows v (set_receive (push_absent p (receiveSockets_ v)) v).
Proof.
  intros Hok Hp. split; try done; [by apply server_ok_receive|intros q s Hs; by left|].
  intros q Hq. apply elem_of_push_absent. by right.
Qed.
Lemma grows_interest fd p v :
  server_ok v -> is_Some (sock v p) ->
  grows v (add_interest (mkInterest fd p (Z.lor EPOLLET EPOLLIN)) v).
Proof.
  intros Hok Hp. split; try done; [by apply server_ok_interest|intros q s Hs; by left|].
  intros x Hx. apply elem_of_app. by left.
Qed.

(** [wp_grow m v Q]: [m] only grows the server, does not allocate, and [Q]. *)
Definition wp_grow {A} (m : M TCPServer A) v (Q : A -> TCPServer -> Prop) : Prop :=
  wp m (fun a v' => grows v v' /\
          freeBlocksCount_ (socketPool_ v') = freeBlocksCount_ (socketPool_ v) /\ Q a v') v.

Lemma wp_grow_bind {A B} (m : M TCPServer A) (f : A -> M TCPServer B) v Q :
  wp_grow m v (fun a v' => wp_grow (f a) v' Q) -> wp_grow (m ≫= f) v Q.
Proof.
  intros Hm. unfold wp_grow. apply wp_bind. eapply wp_mono; [exact Hm|].
  intros a v1 (Hg & Hf & Hk). cbn beta. eapply wp_mono; [exact Hk|].
  intros b v2 (Hg2 & Hf2 & HQ). split; [by eapply grows_trans|]. by rewrite Hf2, Hf.
Qed.
Lemma wp_grow_ret {A} (a : A) v Q : server_ok v -> Q a v -> wp_grow (mret a) v Q.
Proof. intros Hok HQ. split; [by apply grows_refl|done]. Qed.
Lemma wp_grow_net l f a v Q : server_ok v -> (forall v', grows v v' -> Q tt v') -> wp_grow (net l f a) v Q.
Proof. intros Hok HQ. pose proof (grows_logs [mkLog l f a] v Hok) as Hg. split; [done|]. split; [done|]. by apply HQ. Qed.
Lemma wp_grow_receive p v Q :
  server_ok v -> is_Some (sock v p) ->
  (forall v', grows v v' -> p ∈ receiveSockets_ v' -> Q tt v') -> wp_grow (add_receive p) v Q.
Proof.
  intros Hok Hp HQ. pose proof (grows_receive p v Hok Hp) as Hg. split; [done|]. split; [done|].
  apply HQ; [done|]. apply elem_of_push_absent. by left.
Qed.
Lemma wp_grow_fd p v Q :
  server_ok v -> is_Some (sock v p) -> (forall fd v', grows v v' -> Q fd v') -> wp_grow (fd_of p) v Q.
Proof.
  intros Hok [s Hs] HQ. pose proof (grows_same_sock p s v Hok Hs) as Hg. unfold wp_grow.
  apply (wp_fd_of p s); [done|]. split; [done|]. split; [|by apply HQ].
  destruct p as [|i]; cbn; [done|]. apply updated_fields.
Qed.
Lemma alive_grows p v v' : grows v v' -> is_Some (sock v p) -> is_Some (sock v' p).
Proof. intros Hg [s Hs]. exists s. by apply (gr_sock _ _ Hg). Qed.

(** What the handled event leaves in the receive list. *)
Definition event_seen (e : Event) v : Prop :=
  ev_in e && bool_decide (ev_socket e = Listener) = false ->
  ev_in e || ev_err e = true -> ev_socket e ∈ receiveSockets_ v.

Lemma event_seen_grows e v v' : grows v v' -> event_seen e v -> event_seen e v'.
Proof. intros Hg He Hn H. apply (gr_receive _ _ Hg). by apply He. Qed.

(** A reported event is for a live socket, and is not EPOLLOUT. *)
Lemma reported_event v e :
  server_ok v -> reported v e = true -> is_Some (sock v (ev_socket e)) /\ ev_out e = false.
Proof.
  intros Hok (x & Hx & [<-%bool_decide_eq_true Hm%Z.eqb_eq]%andb_true_iff)%existsb_exists.
  apply list_elem_of_In in Hx. destruct (sv_interest _ Hok x Hx) as [He Hp]. split; [done|].
  rewrite He in Hm. unfold ev_out, has.
  replace EPOLLOUT with (Z.land (Z.lnot (Z.lor (Z.lor EPOLLET EPOLLIN) (Z.lor EPOLLERR EPOLLHUP))) EPOLLOUT)
    by done. by rewrite Z.land_assoc, Hm.
Qed.

(** A branch that may add to the receive list. *)
Lemma wp_grow_if_receive (b : bool) l f a p v Q :
  server_ok v -> is_Some (sock v p) ->
  (forall v', grows v v' -> (b = true -> p ∈ receiveSockets_ v') -> Q tt v') ->
  wp_grow (if b then net l f a;; add_receive p else mret tt) v Q.
Proof.
  intros Hok Hp HQ. destruct b; [|apply wp_grow_ret; [done|by apply HQ; [apply grows_refl|]]].
  apply wp_grow_bind, wp_grow_net; [done|]. intros v1 Hg1.
  apply wp_grow_receive; [apply Hg1|by eapply alive_grows|]. intros v2 Hg2 Hin.
  apply HQ; [by eapply grows_trans|done].
Qed.
Lemma wp_pollEvent e v Q :
  server_ok v -> is_Some (sock v (ev_socket e)) -> ev_out e = false ->
  (forall v', grows v v' -> event_seen e v' ->
     Q (ev_in e && bool_decide (ev_socket e = Listener)) v') ->
  wp_grow (pollEvent e) v Q.
Proof.
  intros Hok Hp Hout HQ. unfold pollEvent. apply wp_grow_bind, wp_grow_fd; [done|done|].
  intros fd v1 Hg1. pose proof (alive_grows _ _ _ Hg1 Hp) as Hp1.
  destruct (ev_in e && bool_decide (ev_socket e = Listener)) eqn:Hl.
  - apply wp_grow_bind, wp_grow_net; [apply Hg1|]. intros v2 Hg2.
    apply wp_grow_ret; [apply Hg2|]. apply HQ; [by eapply grows_trans|].
    intros He. congruence.
  - apply wp_grow_bind, wp_grow_if_receive; [apply Hg1|done|]. intros v2 Hg2 Hin.
    pose proof (alive_grows _ _ _ Hg2 Hp1) as Hp2. rewrite Hout.
    apply wp_grow_bind, wp_grow_ret; [apply Hg2|].
    apply wp_grow_bind, wp_grow_if_receive; [apply Hg2|done|]. intros v4 Hg4 Herr.
    apply wp_grow_ret; [apply Hg4|].
    apply HQ; [by eapply grows_trans; [|eapply grows_trans]|].
    intros _ [Hi|He]%orb_true_iff; [|by apply Herr]. by apply (gr_receive _ _ Hg4), Hin.
Qed.

Definition reports_listener (es : list Event) : bool :=
  existsb (fun e => ev_in e && bool_decide (ev_socket e = Listener)) es.

Lemma wp_pollEvents es : forall b v Q,
  server_ok v -> Forall (fun e => is_Some (sock v (ev_socket e)) /\ ev_out e = false) es ->
  (forall v', grows v v' -> Forall (fun e => event_seen e v') es ->
     Q (reports_listener es || b) v') ->
  wp_grow (pollEvents es b) v Q.
Proof.
  induction es as [|e es IH]; intros b v Q Hok Hal HQ; cbn [pollEvents].
  { apply wp_grow_ret; [done|]. apply HQ; [by apply grows_refl|done]. }
  apply Forall_cons in Hal as [[He Ho] Hal].
  apply wp_grow_bind, wp_pollEvent; [done..|]. intros v1 Hg1 Hs1.
  apply IH; [apply Hg1| |].
  { eapply Forall_impl; [exact Hal|]. intros x [Hx ?]. split; [by eapply alive_grows|done]. }
  intros v2 Hg2 Hall. specialize (HQ v2 (grows_trans _ _ _ Hg1 Hg2)).
  unfold reports_listener in *. cbn [existsb] in HQ.
  rewrite orb_assoc, (orb_comm (existsb _ es)). apply HQ.
  constructor; [by eapply event_seen_grows|done].
Qed.

(** A socket for the connection [fd] is registered and in the receive list. *)
Definition connected (fd : Z) v : Prop :=
  exists i s, sock v (Pooled i) = Some s /\ socketFd_ s = fd /\ Pooled i ∈ receiveSockets_ v /\
    mkInterest fd (Pooled i) (Z.lor EPOLLET EPOLLIN) ∈ interest v.

Lemma connected_grows fd v v' : grows v v' -> connected fd v -> connected fd v'.
Proof.
  intros Hg (i & s & Hs & Hf & Hin & Hx). exists i, s.
  split_and!; [by apply (gr_sock _ _ Hg)|done|by apply (gr_receive _ _ Hg)|by apply (gr_interest _ _ Hg)].
Qed.

(** Registering a socket. *)
Lemma wp_grow_add p s v (Q : bool -> TCPServer -> Prop) :
  server_ok v -> sock v p = Some s ->
  (forall v', grows v v' -> mkInterest (socketFd_ s) p (Z.lor EPOLLET EPOLLIN) ∈ interest v' -> Q true v') ->
  wp_grow (addSocketToEventSystem p 0) v Q.
Proof.
  intros Hok Hs HQ. pose proof (grows_same_sock p s v Hok Hs) as Hg.
  assert (Hf : freeBlocksCount_ (socketPool_ (set_sock p s v)) = freeBlocksCount_ (socketPool_ v)).
  { destruct p; [done|]. apply updated_fields. }
  pose proof (grows_interest (socketFd_ s) p _ (gr_ok _ _ Hg) (ex_intro _ _ (gr_sock _ _ Hg p s Hs))) as Hg2.
  unfold wp_grow, addSocketToEventSystem. wp_step. apply (wp_fd_of p s); [done|].
  wp_step. change (0 =? 0) with true. cbn iota. apply wp_modify, wp_ret.
  split; [by eapply grows_trans|]. split; [done|]. apply HQ; [by eapply grows_trans|].
  apply elem_of_app. right. by apply list_elem_of_singleton.
Qed.

(** Allocating a socket for a connection. *)
Lemma wp_new_socket fd v (k : Z -> M TCPServer unit) (Q : unit -> TCPServer -> Prop) :
  server_ok v -> 0 < freeBlocksCount_ (socketPool_ v) ->
  (forall i v', grows v v' -> freeBlocksCount_ (socketPool_ v') = freeBlocksCount_ (socketPool_ v) - 1 ->
     sock v' (Pooled i) = Some (setSocketFd fd newTCPSocket) -> wp (k i) Q v') ->
  wp (socket ← zoom socketPool_ set_socketPool (allocate newTCPSocket);
      i ← nonnull socket;
      with_socket (Pooled i) (modify (setSocketFd fd));; k i) Q v.
Proof.
  intros Hok Hfree HQ. destruct (allocate_fresh newTCPSocket (socketPool_ v) (sv_pool _ Hok) Hfree)
    as (pl & Hal & Hpl & Hnone & Hlive & _ & Hcount). set (i := nextFreeIndex_ (socketPool_ v)) in *.
  wp_step. apply wp_zoom, wp_ok. do 2 eexists. split; [exact Hal|]. wp_step. apply wp_nonnull. wp_step.
  set (v1 := set_socketPool pl v).
  assert (Hnew : sock v1 (Pooled i) = Some newTCPSocket) by (cbn; by rewrite Hlive, lookup_insert_eq).
  assert (Hkeep : forall p s, sock v p = Some s -> sock v1 p = Some s).
  { intros [|j] s; cbn; [done|]. intros Hj. rewrite Hlive, lookup_insert_ne; [done|]. congruence. }
  assert (Hok1 : server_ok v1).
  { destruct Hok as [_ Hs Hr Hn Ha Hi]. split; cbn; try done.
    - intros [|j] s; cbn; [apply (Hs Listener)|]. rewrite Hlive, lookup_insert.
      case_decide; [intros [= <-]; apply newTCPSocket_ok|apply (Hs (Pooled j))].
    - intros p Hp. destruct (Ha p Hp) as [s Hps]. exists s. by apply Hkeep.
    - intros x Hx. destruct (Hi x Hx) as [? [s Hxs]]. split; [done|]. exists s. by apply Hkeep. }
  apply (wp_with_socket _ newTCPSocket); [done|]. apply wp_modify.
  set (s1 := setSocketFd fd newTCPSocket). set (v2 := set_sock (Pooled i) s1 v1).
  assert (Hs2 : forall q, sock v2 q = if decide (Pooled i = q) then Some s1 else sock v1 q).
  { intros q. by apply (sock_set_sock (Pooled i) q newTCPSocket). }
  apply HQ; [|cbn; rewrite <- Hcount; apply updated_fields|by rewrite Hs2, decide_True].
  split; try done.
  - apply (server_ok_set_sock _ newTCPSocket); [done|done|]. by destruct newTCPSocket_ok.
  - intros p s Hp. rewrite Hs2, decide_False; [by apply Hkeep|]. intros <-. cbn in Hp. congruence.
  - intros p s Hp. rewrite Hs2 in Hp.
    case_decide; [injection Hp as <-; by right|]. left. destruct p as [|j]; [done|].
    cbn in Hp |- *. rewrite Hlive, lookup_insert_ne in Hp by congruence. done.
Qed.

Lemma wp_accept_one fd v (k : M TCPServer unit) (Q : unit -> TCPServer -> Prop) :
  server_ok v -> 0 < freeBlocksCount_ (socketPool_ v) ->
  (forall v', grows v v' -> freeBlocksCount_ (socketPool_ v') = freeBlocksCount_ (socketPool_ v) - 1 ->
     connected fd v' -> wp k Q v') ->
  wp (socket ← zoom socketPool_ set_socketPool (allocate newTCPSocket);
      i ← nonnull socket;
      with_socket (Pooled i) (modify (setSocketFd fd));;
      added ← addSocketToEventSystem (Pooled i) 0;
      require added AssertFailed;;
      add_receive (Pooled i);; k) Q v.
Proof.
  intros Hok Hfree HQ.
  apply (wp_new_socket fd v (fun i => added ← addSocketToEventSystem (Pooled i) 0;
    require added AssertFailed;; add_receive (Pooled i);; k)); [done|done|].
  intros i v1 Hg1 Hf1 Hs1. wp_step. eapply wp_mono.
  { apply (wp_grow_add (Pooled i) (setSocketFd fd newTCPSocket) v1 (fun b v2 => b = true /\
      mkInterest fd (Pooled i) (Z.lor EPOLLET EPOLLIN) ∈ interest v2)); [apply Hg1|exact Hs1|done]. }
  intros b v2 (Hg2 & Hf2 & -> & Hin). cbn beta. wp_step. apply wp_require; [done|]. wp_step.
  pose proof (gr_sock _ _ Hg2 _ _ Hs1) as Hs2. eapply wp_mono.
  { apply (wp_grow_receive (Pooled i) v2 (fun _ v3 => Pooled i ∈ receiveSockets_ v3));
      [apply Hg2|by eexists|done]. }
  intros [] v3 (Hg3 & Hf3 & Hr). apply HQ; [by eapply grows_trans; [|eapply grows_trans]|lia|].
  exists i, (setSocketFd fd newTCPSocket).
  split_and!; [by apply (gr_sock _ _ Hg3)|done|done|by apply (gr_interest _ _ Hg3)].
Qed.

Lemma wp_acceptAll acs : forall v (Q : unit -> TCPServer -> Prop),
  server_ok v -> Forall (fun ac => ac_configured ac = true /\ ac_ctl ac = 0) acs ->
  Z.of_nat (length acs) <= freeBlocksCount_ (socketPool_ v) ->
  (forall v', grows v v' -> Forall (fun ac => connected (ac_fd ac) v') acs -> Q tt v') ->
  wp (acceptAll acs) Q v.
Proof.
  induction acs as [|ac acs IH]; intros v Q Hok Hacs Hfree HQ; cbn [acceptAll]; wp_step.
  all: eapply wp_mono; [apply (wp_grow_fd Listener v (fun _ _ => True)); [done|by eexists|done]|].
  all: intros lfd v1 (Hg1 & Hf1 & _); cbn beta; wp_step.
  all: eapply wp_mono; [apply (wp_grow_net _ _ _ v1 (fun _ _ => True)); [apply Hg1|done]|].
  all: intros [] v2 (Hg2 & Hf2 & _); pose proof (grows_trans _ _ _ Hg1 Hg2) as Hg12.
  { apply wp_ret. by apply HQ. }
  apply Forall_cons in Hacs as [[Hc Ha] Hacs]. cbn [length] in Hfree.
  wp_step. apply wp_require; [done|]. wp_step.
  eapply wp_mono; [apply (wp_grow_net _ _ _ v2 (fun _ _ => True)); [apply Hg2|done]|].
  intros [] v3 (Hg3 & Hf3 & _). pose proof (grows_trans _ _ _ Hg12 Hg3) as Hg13.
  rewrite Ha. apply wp_accept_one; [apply Hg3|lia|]. intros v4 Hg4 Hf4 Hcon.
  pose proof (grows_trans _ _ _ Hg13 Hg4) as Hg14.
  apply IH; [apply Hg4|done|lia|]. intros v5 Hg5 Hall. apply HQ; [by eapply grows_trans|].
  constructor; [by eapply connected_grows|done].
Qed.

Lemma wp_poll es acs v :
  server_ok v -> epoll_answer v es -> maxEvents v <= MAX_EVENTS ->
  Forall (fun ac => ac_configured ac = true /\ ac_ctl ac = 0) acs ->
  Z.of_nat (length acs) <= freeBlocksCount_ (socketPool_ v) ->
  wp (poll es acs) (fun _ v' => grows v v' /\ Forall (fun e => event_seen e v') es /\
    (reports_listener es = true -> Forall (fun ac => connected (ac_fd ac) v') acs)) v.
Proof.
  intros Hok [Hlen Hal] Hmax Hacs Hfree.
  unfold poll. wp_step. apply wp_require; [apply Z.leb_le; lia|]. wp_step.
  eapply wp_mono; [apply (wp_pollEvents es false v (fun b v1 =>
    b = reports_listener es /\ Forall (fun e => event_seen e v1) es)); [done|..]|].
  { eapply Forall_impl; [exact Hal|]. intros e. by apply reported_event. }
  { intros v1 _ Hs. by rewrite orb_false_r. }
  intros b v1 (Hg1 & Hf1 & -> & Hs1). cbn beta.
  destruct (reports_listener es); [|by apply wp_ret].
  apply wp_acceptAll; [apply Hg1|done|lia|]. intros v2 Hg2 Hall.
  split; [by eapply grows_trans|]. split; [|done].
  eapply Forall_impl; [exact Hs1|]. intros e. by apply event_seen_grows.
Qed.

(** listen registers the listener on a fresh epoll instance, or the program
    ends. *)
Lemma listen_registers efd fd v :
  server_ok v -> 0 <= fd ->
  exists v', listen efd fd 0 v = Ok (tt, v') /\ server_ok v' /\
    interest v' = [mkInterest fd Listener (Z.lor EPOLLET EPOLLIN)] /\
    receiveSockets_ v' = receiveSockets_ v /\ socketPool_ v' = socketPool_ v.
Proof.
  intros [Hp Hs Hr Hn Ha Hi] Hfd. eexists. unfold listen, addSocketToEventSystem, fd_of, with_socket, gets, modify,
    zoom, require, mbind, M_bind, mret, M_ret. cbn. rewrite (proj2 (Z.leb_le _ _) Hfd). cbn.
  split; [done|]. split; [|done]. split; cbn; try done.
  - intros [|i] s; cbn; [intros [= <-]; by destruct (Hs Listener _ eq_refl)|apply (Hs (Pooled i))].
  - intros [|i] Hq; [by eexists|by apply (Ha (Pooled i))].
  - intros x ->%list_elem_of_singleton. split; [done|by eexists].
Qed.
Lemma listen_fails efd fd ctl v : fd < 0 \/ ctl <> 0 -> faults (listen efd fd ctl) v AssertFailed.
Proof.
  intros Hbad. unfold faults, listen, addSocketToEventSystem, fd_of, with_socket, gets, modify,
    zoom, require, mbind, M_bind, mret, M_ret. cbn. destruct (Z.leb_spec 0 fd); [|done]. cbn.
  destruct (Z.eqb_spec ctl 0); [|done]. lia.
Qed.

(** C22. poll serves every event and every connection.  On what epoll_wait may
    report for the registered sockets, as long as its count stays within the
    event array and the pool has room for the connections, poll runs without a
    fault and keeps the server's invariant: no duplicate and no dangling pointer
    in the receive list or in the interest list, buffers within bounds, and,
    since no socket is registered for output, nothing ever in the send list.  No
    open socket changes; each reported socket is in the receive list; and if the
    listener was reported every accepted connection has a fresh socket, with its
    descriptor, registered and in the receive list. *)
Theorem poll_serves_events_and_connections v es acs :
  server_ok v -> epoll_answer v es -> maxEvents v <= MAX_EVENTS ->
  Forall (fun ac => ac_configured ac = true /\ ac_ctl ac = 0) acs ->
  Z.of_nat (length acs) <= freeBlocksCount_ (socketPool_ v) ->
  exists v', poll es acs v = Ok (tt, v') /\ grows v v' /\ sendSockets_ v' = [] /\
    Forall (fun e => event_seen e v') es /\
    (reports_listener es = true -> Forall (fun ac => connected (ac_fd ac) v') acs).
Proof.
  intros Hok Hes Hmax Hacs Hfree.
  pose proof (wp_poll es acs v Hok Hes Hmax Hacs Hfree) as Hw.
  apply wp_ok in Hw as ([] & v' & Hrun & Hg & ?). exists v'. by pose proof (sv_send _ (gr_ok _ _ Hg)).
Qed.

(** The result of socketPool_.allocate is not checked: with all 1024 sockets
    in use (none is ever given back) the next connection dereferences nullptr. *)
Theorem poll_connection_beyond_pool v ac acs :
  server_ok v -> freeBlocksCount_ (socketPool_ v) = 0 -> ac_configured ac = true ->
  faults (poll [mkEvent Listener EPOLLIN] (ac :: acs)) v NullDeref.
Proof.
  intros Hok Hfull Hc. unfold faults, poll. cbn [length pollEvents].
  unfold pollEvent, fd_of, net, with_socket, gets, modify, zoom, require, mbind, M_bind, mret, M_ret.
  cbn -[allocate]. change (ev_in _) with true. rewrite bool_decide_true by done.
  unfold fd_of, net, with_socket, gets, modify, zoom, require, mbind, M_bind, mret, M_ret.
  cbn -[allocate]. rewrite Hc. cbn -[allocate]. change (Z.of_nat 1 <=? MAX_EVENTS) with true. cbn -[allocate]. by rewrite allocate_full.
Qed.

End Facts.

(** *** Witnesses *)
Definition demo_event : Event := mkEvent Listener EPOLLIN.
Definition demo_accepted (fd : Z) : Accepted := mkAccepted fd true 0.

(** A fresh server listens, then two connections come in one poll. *)
Example poll_serves_events_and_connections_witness :
  exists v0 v v', newTCPServer = Ok v0 /\ listen 3 4 0 v0 = Ok (tt, v) /\
    poll [demo_event] [demo_accepted 7; demo_accepted 8] v = Ok (tt, v') /\
    grows v v' /\ connected 7 v' /\ connected 8 v'.
Proof.
  destruct newTCPServer_ok as (v0 & Hn & Hok0 & _ & Hr0 & Hf & _).
  destruct (listen_registers 3 4 v0 Hok0) as (v & Hl & Hok & Hi & Hr & Hp); [discriminate|].
  destruct (poll_serves_events_and_connections v [demo_event]
    [demo_accepted 7; demo_accepted 8] Hok) as (v' & Hrun & Hg & _ & _ & Hc).
  - split; [cbn; unfold maxEvents; lia|]. constructor; [|constructor]. unfold reported. by rewrite Hi.
  - unfold maxEvents. rewrite (sv_send _ Hok), Hr, Hr0. discriminate.
  - repeat constructor.
  - rewrite Hp, Hf. discriminate.
  - exists v0, v, v'. specialize (Hc eq_refl). apply Forall_cons in Hc as [H7 Hc].
    apply Forall_cons in Hc as [H8 _]. split_and!; done.
Defined.

(** A server whose 1024 blocks are all in use. *)
Definition full_server : TCPServer :=
  mkServer 3 [] newTCPSocket [] []
    (mkPool (gset_to_gmap (mkBlock (Some newTCPSocket) false)
       (list_to_set (seqZ 0 MAX_EVENTS))) MAX_EVENTS 0 0 0) [].

Lemma full_server_ok : server_ok full_server.
Proof.
  assert (Hlive : live (socketPool_ full_server) =
    gset_to_gmap newTCPSocket (list_to_set (seqZ 0 MAX_EVENTS))).
  { unfold live, full_server. cbn [socketPool_ memoryBlocks_]. apply map_eq. intros i.
    rewrite lookup_omap, !lookup_gset_to_gmap. by case_guard. }
  assert (Hin : forall i s, live (socketPool_ full_server) !! i = Some s ->
    0 <= i < MAX_EVENTS /\ s = newTCPSocket).
  { intros i s. rewrite Hlive, lookup_gset_to_gmap_Some. intros [Hi <-].
    apply elem_of_list_to_set, elem_of_seqZ in Hi. split; [lia|done]. }
  split; [split|..].
  - change (0 < 1024 < 2 ^ 64). lia.
  - change (0 <= 0 < 1024). lia.
  - cbn [full_server socketPool_ memoryBlocks_]. intros i b.
    rewrite lookup_gset_to_gmap_Some. by intros [_ <-].
  - intros i x Hx. by apply Hin in Hx as [? _].
  - assert (Hsz : size (live (socketPool_ full_server)) = 1024%nat).
    { rewrite Hlive, <- size_dom, dom_gset_to_gmap, size_list_to_set by apply NoDup_seqZ.
      apply length_seqZ. }
    rewrite Hsz. change (0 = 1024 - 1024). lia.
  - intros Hf. change (0 < 0) in Hf. lia.
  - intros [|i] s; cbn [sock]; [intros [= <-]; apply newTCPSocket_ok|].
    intros Hs. apply Hin in Hs as [_ ->]. apply newTCPSocket_ok.
  - apply NoDup_nil_2.
  - done.
  - intros p Hp. exfalso. by apply (not_elem_of_nil p).
  - intros x Hx. exfalso. by apply (not_elem_of_nil x).
Qed.

Example poll_connection_beyond_pool_witness :
  faults (poll [demo_event] [demo_accepted 9]) full_server NullDeref.
Proof.
  apply (poll_connection_beyond_pool full_server (demo_accepted 9) []).
  - apply full_server_ok.
  - reflexivity.
  - reflexivity.
Defined.
