(* ===== verification/OrderGateway.v ===== *)
(** The order gateway: src/src/core/gateway/order_gateway_server.h and
    order_gateway_server.cpp.

    The gateway is the client of the TCP server ([ServerClient]) and owns the
    sequencer.  Its operations run on the pair of server and gateway; a request
    is read where it stands in a socket's inbound buffer. *)

From S2P Require Import Prelude MemoryPool LFQueue Types Messages Logger FIFOSequencer TCPSocket TCPServer.
#[local] Open Scope Z_scope.

(** ** State *)
Record OrderGatewayServer := mkGateway {
  rxResponses_ : LFQueue OMEClientResponse;
  gw_isRunning_ : bool;
  serverThread_ : bool;                        (* the thread exists *)
  fifo_ : FIFOSequencer;
  mapClientToTxNSeq_ : list Z;
  mapClientToRxNSeq_ : list Z;
  mapClientToSocket_ : gmap Z sockptr;         (* the non-null entries *)
}.
Abbreviation World := (TCPServer * OrderGatewayServer)%type.

Definition newGateway (tx : LFQueue OMEClientRequest) (rx : LFQueue OMEClientResponse) : OrderGatewayServer :=
  mkGateway rx false false (newSequencer tx) (replicate (Z.to_nat MAX_N_CLIENTS) 1)
    (replicate (Z.to_nat MAX_N_CLIENTS) 1) ∅.

Definition set_rxResponses (q : LFQueue OMEClientResponse) (g : OrderGatewayServer) : OrderGatewayServer :=
  mkGateway q (gw_isRunning_ g) (serverThread_ g) (fifo_ g) (mapClientToTxNSeq_ g)
    (mapClientToRxNSeq_ g) (mapClientToSocket_ g).
Definition set_gwRunning (r : bool) (g : OrderGatewayServer) : OrderGatewayServer :=
  mkGateway (rxResponses_ g) r (serverThread_ g) (fifo_ g) (mapClientToTxNSeq_ g)
    (mapClientToRxNSeq_ g) (mapClientToSocket_ g).
Definition set_thread (t : bool) (g : OrderGatewayServer) : OrderGatewayServer :=
  mkGateway (rxResponses_ g) (gw_isRunning_ g) t (fifo_ g) (mapClientToTxNSeq_ g)
    (mapClientToRxNSeq_ g) (mapClientToSocket_ g).
Definition set_fifo (f : FIFOSequencer) (g : OrderGatewayServer) : OrderGatewayServer :=
  mkGateway (rxResponses_ g) (gw_isRunning_ g) (serverThread_ g) f (mapClientToTxNSeq_ g)
    (mapClientToRxNSeq_ g) (mapClientToSocket_ g).
Definition set_txSeq (l : list Z) (g : OrderGatewayServer) : OrderGatewayServer :=
  mkGateway (rxResponses_ g) (gw_isRunning_ g) (serverThread_ g) (fifo_ g) l
    (mapClientToRxNSeq_ g) (mapClientToSocket_ g).
Definition set_rxSeq (l : list Z) (g : OrderGatewayServer) : OrderGatewayServer :=
  mkGateway (rxResponses_ g) (gw_isRunning_ g) (serverThread_ g) (fifo_ g) (mapClientToTxNSeq_ g)
    l (mapClientToSocket_ g).
Definition set_socketMap (m : gmap Z sockptr) (g : OrderGatewayServer) : OrderGatewayServer :=
  mkGateway (rxResponses_ g) (gw_isRunning_ g) (serverThread_ g) (fifo_ g) (mapClientToTxNSeq_ g)
    (mapClientToRxNSeq_ g) m.

Definition on_gateway {A} (m : M OrderGatewayServer A) : M World A :=
  zoom snd (fun g w => (w.1, g)) m.

(** A std::array of MAX_N_CLIENTS entries, indexed without a check. *)
Definition array_get (l : list Z) (c : Z) : M World Z :=
  match l !! Z.to_nat c with
  | Some z => mret z
  | None => fail OutOfBounds
  end.

Definition socket_at (p : option sockptr) : M World sockptr :=
  match p with
  | Some p => mret p
  | None => fail NullDeref
  end.

(** ** Receiving *)
Definition sizeof_OGSClientRequest : Z := 38.

(** The loop's body, for one request of the buffer. *)
Definition handleFrame (socket : sockptr) (t : Z) (req : OGSClientRequest) : M World unit :=
  let r := og_omeRequest req in
  let c := rq_clientId r in
  on_server (net INFO "Received OGSClientRequest: {}" [AString (OGSClientRequest_toStr req)]);;
  require (c <? MAX_N_CLIENTS) OutOfBounds;;
  g ← on_gateway get;
  (match mapClientToSocket_ g !! c with
   | None => on_gateway (modify (set_socketMap (<[c := socket]> (mapClientToSocket_ g))))
   | Some _ => mret tt
   end);;
  g ← on_gateway get;
  if decide (mapClientToSocket_ g !! c <> Some socket) then
    fd ← on_server (fd_of socket);
    p ← socket_at (mapClientToSocket_ g !! c);
    fd' ← on_server (fd_of p);
    on_server (net ERROR "Received request from client: {} on socket: {}! Expected: {}"
                 [AUInt c; AInt fd; AInt fd'])
  else
    nSeqRxNext ← array_get (mapClientToRxNSeq_ g) c;
    if og_nSeq req =? nSeqRxNext then
      on_gateway (modify (set_rxSeq (<[Z.to_nat c := u64 (nSeqRxNext + 1)]> (mapClientToRxNSeq_ g))));;
      on_gateway (zoom fifo_ set_fifo (pushClientRequest r t))
    else
      on_server (net ERROR "Received seq number error! client: {} n_seq expected: {} but received: {}"
                   [AUInt c; ASize nSeqRxNext; ASize (og_nSeq req)]).

(** The for loop from offset [i], one unit of fuel per iteration; the final
    offset. *)
Fixpoint rxLoop (fuel : nat) (socket : sockptr) (t : Z) (i : Z) : M World Z :=
  match fuel with
  | O => fail OutOfFuel
  | S fuel' =>
      s ← on_server (with_socket socket get);
      if i + sizeof_OGSClientRequest <=? nextRcvValidIndex_ s then
        match ogs_request_decode (read_bytes (inboundData_ s) i sizeof_OGSClientRequest) with
        | Ok (req, _) => handleFrame socket t req;; rxLoop fuel' socket t (i + sizeof_OGSClientRequest)
        | Err e => fail e
        end
      else mret i
  end.

(** memcpy(data, data + i, n): undefined when the two ranges overlap. *)
Definition moveFront (i n : Z) : M TCPSocket unit :=
  require (n <=? i) Overlap;;
  modify (fun s => set_inbound (write_bytes (inboundData_ s) 0 (read_bytes (inboundData_ s) i n))
                     (nextRcvValidIndex_ s) s).

Definition rxCallback (socket : sockptr) (t : Z) : M World unit :=
  s ← on_server (with_socket socket get);
  on_server (net INFO "Received {} bytes from socket: {}"
               [ASize (nextRcvValidIndex_ s); AInt (socketFd_ s)]);;
  if sizeof_OGSClientRequest <=? nextRcvValidIndex_ s then
    i ← rxLoop (S (Z.to_nat (nextRcvValidIndex_ s / sizeof_OGSClientRequest))) socket t 0;
    s ← on_server (with_socket socket get);
    on_server (with_socket socket (moveFront i (nextRcvValidIndex_ s - i)));;
    on_server (with_socket socket (modify (setNextRcvValidIndex (nextRcvValidIndex_ s - i))))
  else mret tt.

Definition rxDoneCallback (std_sort : list PendingClientRequest -> list PendingClientRequest)
    : M World unit :=
  on_gateway (zoom fifo_ set_fifo (sequenceAndPublish std_sort)).

#[export] Instance gateway_client
    (std_sort : list PendingClientRequest -> list PendingClientRequest)
    : ServerClient OrderGatewayServer := {
  recvCallback := rxCallback;
  recvFinishedCallback := rxDoneCallback std_sort;
}.

(** ** Responding *)

(** The for loop over rxResponses_, one unit of fuel per iteration. *)
Fixpoint respondLoop (fuel : nat) : M World unit :=
  match fuel with
  | O => fail OutOfFuel
  | S fuel' =>
      g ← on_gateway get;
      match getNextToRead (rxResponses_ g) with
      | Some i =>
          let res := slot (rxResponses_ g) i in
          let c := rs_clientId res in
          nSeqTxNext ← array_get (mapClientToTxNSeq_ g) c;
          on_server (net INFO "Processing client id {} with seq number {} and response: {}"
            [AUInt c; ASize nSeqTxNext; AString (OMEClientResponse_toStr res)]);;
          require (bool_decide (is_Some (mapClientToSocket_ g !! c))) AssertFailed;;
          p ← socket_at (mapClientToSocket_ g !! c);
          on_server (with_socket p (send (le_bytes 8 nSeqTxNext)));;
          on_server (with_socket p (send (response_encode res)));;
          on_gateway (zoom rxResponses_ set_rxResponses updateReadIndex);;
          on_gateway (modify (fun g =>
            set_txSeq (<[Z.to_nat c := u64 (nSeqTxNext + 1)]> (mapClientToTxNSeq_ g)) g));;
          respondLoop fuel'
      | None => mret tt
      end
  end.

(** ** The thread *)
Section Thread.
Context (std_sort : list PendingClientRequest -> list PendingClientRequest).

(** One iteration of run's while loop on the answers of the kernel. *)
Definition gatewayTurn (es : list Event) (acs : list Accepted) (kr ks : sockptr -> Kernel) : M World unit :=
  on_server (poll es acs);;
  sendAndReceive (G := OrderGatewayServer) (H := gateway_client std_sort) kr ks;;
  g ← on_gateway get;
  respondLoop (S (Z.to_nat (LFQueue.size (rxResponses_ g)))).

(** run: the log line and the while loop, for as many iterations as there are
    answers of the kernel. *)
Record Answers := mkAnswers {
  an_events : list Event;
  an_accepted : list Accepted;
  an_receive : sockptr -> Kernel;
  an_send : sockptr -> Kernel;
}.
Fixpoint gatewayLoop (ans : list Answers) : M World unit :=
  match ans with
  | [] => mret tt
  | a :: ans' =>
      g ← on_gateway get;
      if gw_isRunning_ g
      then gatewayTurn (an_events a) (an_accepted a) (an_receive a) (an_send a);; gatewayLoop ans'
      else mret tt
  end.
Definition gatewayRun (ans : list Answers) : M World unit :=
  on_server (net INFO "OrderGatewayServer running order gateway..." []);;
  gatewayLoop ans.

Definition gatewayStart (event_fd fd ctl : Z) : M World unit :=
  on_gateway (modify (set_gwRunning true));;
  on_server (listen event_fd fd ctl);;
  on_gateway (modify (set_thread true)).

(** stop joins the thread through serverThread_, which is null before start. *)
Definition gatewayStop : M World unit :=
  on_gateway (modify (set_gwRunning false));;
  g ← on_gateway get;
  require (serverThread_ g) NullDeref.

(** The destructor: stop, a sleep, and the destruction of the member server_. *)
Definition destroyGateway : M World unit := gatewayStop;; on_server destroyTCPServer.

(** Once isRunning_ is cleared the loop does nothing more. *)
Lemma gatewayLoop_stopped ans w : gw_isRunning_ w.2 = false -> gatewayLoop ans w = Ok (tt, w).
Proof.
  intros Hw. destruct ans; [done|]. cbn [gatewayLoop]. destruct w as [v g].
  rewrite (bind_ok _ _ _ g (v, g)) by done. cbn in Hw. by rewrite Hw.
Qed.

(** A gateway that was never started cannot be destroyed: stop joins through a
    null pointer. *)
Lemma destroy_unstarted_gateway v q1 q2 : faults destroyGateway (v, newGateway q1 q2) NullDeref.
Proof. done. Qed.

End Thread.

(** ** The gate of the requests

    What the checks of rxCallback let through: a client is bound to the socket of
    its first request, and its requests must carry consecutive numbers. *)
Definition frame_client (f : OGSClientRequest) : Z := rq_clientId (og_omeRequest f).

Definition gate_bind (p : sockptr) (c : Z) (m : gmap Z sockptr) : gmap Z sockptr :=
  match m !! c with
  | None => <[c := p]> m
  | Some _ => m
  end.
Definition gate_accepts (p : sockptr) (f : OGSClientRequest) (m : gmap Z sockptr) (rx : list Z) : bool :=
  bool_decide (gate_bind p (frame_client f) m !! frame_client f = Some p) &&
  bool_decide (rx !! Z.to_nat (frame_client f) = Some (og_nSeq f)).
Definition gate_count (p : sockptr) (f : OGSClientRequest) (m : gmap Z sockptr) (rx : list Z) : list Z :=
  if gate_accepts p f m rx then <[Z.to_nat (frame_client f) := u64 (og_nSeq f + 1)]> rx else rx.

(** The accepted requests, the bindings and the next numbers. *)
Fixpoint gate (p : sockptr) (fs : list OGSClientRequest) (m : gmap Z sockptr) (rx : list Z)
    : list OGSClientRequest * gmap Z sockptr * list Z :=
  match fs with
  | [] => ([], m, rx)
  | f :: fs' =>
      let '(acc, m', rx') := gate p fs' (gate_bind p (frame_client f) m) (gate_count p f m rx) in
      ((if gate_accepts p f m rx then f :: acc else acc), m', rx')
  end.

Definition forwarded (t : Z) (fs : list OGSClientRequest) : list PendingClientRequest :=
  (fun f => mkPending t (og_omeRequest f)) <$> fs.

Record gateway_ok (v : TCPServer) (g : OrderGatewayServer) : Prop := {
  go_server : server_ok v;
  go_fifo : sequencer_ok (fifo_ g);
  go_rx : length (mapClientToRxNSeq_ g) = Z.to_nat MAX_N_CLIENTS;
  go_tx : length (mapClientToTxNSeq_ g) = Z.to_nat MAX_N_CLIENTS;
  go_map : forall c p, mapClientToSocket_ g !! c = Some p -> is_Some (sock v p);
  go_responses : queue_ok (rxResponses_ g);
}.

Definition client_ok (c : Z) : Prop := 0 <= c < MAX_N_CLIENTS.

Section Receiving.
Implicit Types (v : TCPServer) (g : OrderGatewayServer) (p : sockptr) (f : OGSClientRequest).

Lemma wp_on_server {G A} (m : M TCPServer A) (Q : A -> TCPServer * G -> Prop) v (g : G) :
  wp m (fun a v' => Q a (v', g)) v -> wp (on_server m) Q (v, g).
Proof. intros Hm. by apply wp_zoom. Qed.
Lemma wp_on_gateway {A} (m : M OrderGatewayServer A) (Q : A -> World -> Prop) v g :
  wp m (fun a g' => Q a (v, g')) g -> wp (on_gateway m) Q (v, g).
Proof. intros Hm. by apply wp_zoom. Qed.

(** A logging step, and the read of a descriptor. *)
Lemma wp_net {G} l fm a (Q : unit -> TCPServer * G -> Prop) v (g : G) :
  server_ok v -> (forall v', grows v v' -> Q tt (v', g)) -> wp (on_server (net l fm a)) Q (v, g).
Proof.
  intros Hok HQ. apply wp_on_server. eapply wp_mono; [apply (wp_grow_net _ _ _ v (fun _ _ => True)); done|].
  intros [] v' (Hg & _). by apply HQ.
Qed.
Lemma wp_logged {G} l fm a (Q : unit -> TCPServer * G -> Prop) v (g : G) :
  (forall ls, Q tt (add_logs ls v, g)) -> wp (on_server (net l fm a)) Q (v, g).
Proof. intros HQ. apply wp_on_server, wp_modify, HQ. Qed.
Lemma wp_fd {G} p (Q : Z -> TCPServer * G -> Prop) v (g : G) :
  server_ok v -> is_Some (sock v p) -> (forall fd v', grows v v' -> Q fd (v', g)) ->
  wp (on_server (fd_of p)) Q (v, g).
Proof.
  intros Hok Hp HQ. apply wp_on_server. eapply wp_mono; [apply (wp_grow_fd p v (fun _ _ => True)); done|].
  intros fd v' (Hg & _). by apply HQ.
Qed.

Lemma gateway_ok_grows v v' g : grows v v' -> gateway_ok v g -> gateway_ok v' g.
Proof.
  intros Hg [_ ? ? ? Hm ?]. split; try done; [apply Hg|].
  intros c p Hp. eapply alive_grows; [done|by eapply Hm].
Qed.

Lemma gate_bind_alive v p c m :
  is_Some (sock v p) -> (forall k q, m !! k = Some q -> is_Some (sock v q)) ->
  forall k q, gate_bind p c m !! k = Some q -> is_Some (sock v q).
Proof.
  intros Hp Hm k q. unfold gate_bind. destruct (m !! c); [apply Hm|].
  rewrite lookup_insert. case_decide; [by intros [= <-]|apply Hm].
Qed.
Lemma gate_bind_some p c m : is_Some (gate_bind p c m !! c).
Proof. unfold gate_bind. destruct (m !! c) eqn:E; [by rewrite E|by rewrite lookup_insert_eq]. Qed.

Lemma length_gate_count p f m rx : length (gate_count p f m rx) = length rx.
Proof. unfold gate_count. destruct (gate_accepts p f m rx); [apply length_insert|done]. Qed.

(** The gateway after a frame. *)
Definition gated (m : gmap Z sockptr) (rx : list Z) (q : FIFOSequencer) (g : OrderGatewayServer)
    : OrderGatewayServer := set_fifo q (set_rxSeq rx (set_socketMap m g)).

(** A client without a socket is bound to the one its request came on. *)
Lemma wp_bind_client p c v g (Q : unit -> World -> Prop) :
  Q tt (v, set_socketMap (gate_bind p c (mapClientToSocket_ g)) g) ->
  wp (match mapClientToSocket_ g !! c with
      | Some _ => mret tt
      | None => on_gateway (modify (set_socketMap (<[c := p]> (mapClientToSocket_ g))))
      end) Q (v, g).
Proof.
  unfold gate_bind. destruct (mapClientToSocket_ g !! c); intros HQ; [|by apply wp_on_gateway, wp_modify].
  apply wp_ret. by destruct g.
Qed.

Lemma wp_handleFrame p t f v g (Q : unit -> World -> Prop) :
  gateway_ok v g -> is_Some (sock v p) -> client_ok (frame_client f) ->
  (gate_accepts p f (mapClientToSocket_ g) (mapClientToRxNSeq_ g) = true ->
     nPendingRequests_ (fifo_ g) < MAX_PENDING_ORDER_REQUESTS) ->
  (forall v' q,
     let g' := gated (gate_bind p (frame_client f) (mapClientToSocket_ g))
                 (gate_count p f (mapClientToSocket_ g) (mapClientToRxNSeq_ g)) q g in
     grows v v' -> gateway_ok v' g' -> sq_rxRequests_ q = sq_rxRequests_ (fifo_ g) ->
     queued q = queued (fifo_ g) ++
       (if gate_accepts p f (mapClientToSocket_ g) (mapClientToRxNSeq_ g) then forwarded t [f] else []) ->
     Q tt (v', g')) ->
  wp (handleFrame p t f) Q (v, g).
Proof.
  intros Hok Hp Hc Hroom HQ. pose proof Hok as [Hv Hf Hrx Htx Hm Hres].
  unfold handleFrame. fold (frame_client f). set (c := frame_client f) in *.
  wp_step. apply wp_net; [done|]. intros v1 Hg1. wp_step.
  apply wp_require; [by apply Z.ltb_lt, Hc|]. wp_step. apply wp_on_gateway, wp_get. wp_step.
  set (m := mapClientToSocket_ g) in *. set (m' := gate_bind p c m) in *.
  apply (wp_bind_client p c v1 g). fold m m'. wp_step. apply wp_on_gateway, wp_get. cbn [mapClientToSocket_ set_socketMap].
  pose proof (alive_grows _ _ _ Hg1 Hp) as Hp1. destruct (gate_bind_some p c m) as [q0 Hq0].
  fold m' in Hq0.
  assert (Hal : forall v', grows v v' -> forall k q, m' !! k = Some q -> is_Some (sock v' q)).
  { intros v' Hg'. apply gate_bind_alive; [by eapply alive_grows|]. intros k q Hkq.
    eapply alive_grows; [done|by apply (Hm k)]. }
  assert (Hrej : forall v', grows v v' -> gate_accepts p f m (mapClientToRxNSeq_ g) = false ->
            Q tt (v', set_socketMap m' g)).
  { intros v' Hg' Ha. specialize (HQ v' (fifo_ g)). unfold gate_count in HQ. rewrite Ha in HQ.
    apply HQ; [done| |done|by rewrite app_nil_r]. split; try done; [apply Hg'|by apply Hal]. }
  unfold gate_accepts in *. fold c m' in Hrej, Hroom, HQ |- *.
  destruct (decide (m' !! c <> Some p)) as [Hne|Hne].
  - rewrite (bool_decide_false (m' !! c = Some p)) in Hrej by done.
    wp_step. apply wp_fd; [apply Hg1|done|]. intros fd v2 Hg2. wp_step.
    rewrite Hq0. apply wp_ret. wp_step.
    pose proof (grows_trans _ _ _ Hg1 Hg2) as Hg12.
    apply wp_fd; [apply Hg2|by apply (Hal v2 Hg12 c)|]. intros fd' v3 Hg3.
    apply wp_net; [apply Hg3|]. intros v4 Hg4. apply Hrej; [|done].
    by eapply grows_trans; [|eapply grows_trans].
  - apply dec_stable in Hne. rewrite (bool_decide_true (m' !! c = Some p)) in Hrej, Hroom by done.
    cbn [mapClientToRxNSeq_ set_socketMap].
    destruct (lookup_lt_is_Some_2 (mapClientToRxNSeq_ g) (Z.to_nat c)) as [nx Hnx];
      [unfold client_ok in Hc; lia|].
    wp_step. unfold array_get. rewrite Hnx. apply wp_ret. rewrite Hnx in Hrej, Hroom.
    destruct (Z.eqb_spec (og_nSeq f) nx) as [<-|Hneq].
    2: { apply wp_net; [apply Hg1|]. intros v2 Hg2. apply Hrej; [by eapply grows_trans|].
         apply bool_decide_false. congruence. }
    rewrite bool_decide_true in Hroom by done.
    wp_step. apply wp_on_gateway, wp_modify, wp_on_gateway, wp_zoom.
    destruct (pushClientRequest_room (og_omeRequest f) t (fifo_ g) Hf (Hroom eq_refl))
      as (q & Hpush & Hq & Hqu & Hsame). apply wp_ok. exists tt, q. split; [exact Hpush|].
    specialize (HQ v1 q). unfold gate_count in HQ. unfold gate_accepts in HQ. fold c m' in HQ.
    rewrite (bool_decide_true (m' !! c = Some p)), Hnx, bool_decide_true in HQ by done.
    apply HQ; [done| |done|done]. split; cbn; try done; [apply Hg1|by rewrite length_insert|by apply Hal].
Qed.

(** Bytes that hold whole requests and a remainder. *)
Definition frames (fs : list OGSClientRequest) : list Z := concat (ogs_request_encode <$> fs).

Lemma blen_frames fs : blen (frames fs) = sizeof_OGSClientRequest * Z.of_nat (length fs).
Proof.
  unfold frames. induction fs as [|f fs IH]; [done|]. cbn [fmap list_fmap concat length].
  rewrite blen_app, IH. unfold blen at 1. rewrite ogs_request_length.
  unfold sizeof_OGSClientRequest. lia.
Qed.

(** Reading the request at an offset. *)
Lemma decode_at s pre f tl :
  0 <= nextRcvValidIndex_ s -> inbound s = pre ++ ogs_request_encode f ++ tl -> ogs_request_ok f ->
  ogs_request_decode (read_bytes (inboundData_ s) (blen pre) sizeof_OGSClientRequest) = Ok (f, []).
Proof.
  intros Hn Hin Hf. pose proof (blen_nonneg pre). pose proof (blen_nonneg tl).
  assert (Hlen : nextRcvValidIndex_ s = blen pre + sizeof_OGSClientRequest + blen tl).
  { rewrite <- (blen_read (inboundData_ s) 0 (nextRcvValidIndex_ s)) by done.
    change (read_bytes _ _ _) with (inbound s). rewrite Hin, !blen_app. unfold blen at 2.
    rewrite ogs_request_length. unfold sizeof_OGSClientRequest. lia. }
  pose proof (read_bytes_sub (inboundData_ s) 0 (nextRcvValidIndex_ s) (blen pre)
    sizeof_OGSClientRequest) as Hsub. rewrite Z.add_0_l in Hsub.
  rewrite Hsub; [|unfold sizeof_OGSClientRequest in *; lia..].
  change (read_bytes _ _ _) with (inbound s). rewrite Hin.
  rewrite drop_app_length' by (unfold blen; lia).
  rewrite take_app_length' by (by rewrite ogs_request_length).
  rewrite <- (app_nil_r (ogs_request_encode f)). by apply ogs_request_decode_encode.
Qed.

Definition room_for (n : nat) (g : OrderGatewayServer) : Prop :=
  nPendingRequests_ (fifo_ g) + Z.of_nat n <= MAX_PENDING_ORDER_REQUESTS.

Lemma gate_cons p f fs m rx :
  gate p (f :: fs) m rx =
    let '(acc, m', rx') := gate p fs (gate_bind p (frame_client f) m) (gate_count p f m rx) in
    ((if gate_accepts p f m rx then [f] else []) ++ acc, m', rx').
Proof. cbn [gate]. destruct (gate _ _ _ _) as [[acc m'] rx']. by destruct (gate_accepts p f m rx). Qed.

Lemma gated_gated m rx q m' rx' q' g : gated m' rx' q' (gated m rx q g) = gated m' rx' q' g.
Proof. done. Qed.
Lemma gated_id g : gated (mapClientToSocket_ g) (mapClientToRxNSeq_ g) (fifo_ g) g = g.
Proof. by destruct g. Qed.

(** The result of a run of the loop over the requests [fs]. *)
Definition gate_result (p : sockptr) (t : Z) (fs : list OGSClientRequest) g (g' : OrderGatewayServer) : Prop :=
  exists acc m rx q,
    gate p fs (mapClientToSocket_ g) (mapClientToRxNSeq_ g) = (acc, m, rx) /\
    g' = gated m rx q g /\ queued q = queued (fifo_ g) ++ forwarded t acc /\
    sq_rxRequests_ q = sq_rxRequests_ (fifo_ g).

(** What the loop does to the gateway after its first request [f]. *)
Definition after_frame (p : sockptr) (t : Z) (f : OGSClientRequest) (q : FIFOSequencer) g (g2 : OrderGatewayServer) : Prop :=
  g2 = gated (gate_bind p (frame_client f) (mapClientToSocket_ g))
         (gate_count p f (mapClientToSocket_ g) (mapClientToRxNSeq_ g)) q g /\
  sq_rxRequests_ q = sq_rxRequests_ (fifo_ g) /\
  queued q = queued (fifo_ g) ++
    (if gate_accepts p f (mapClientToSocket_ g) (mapClientToRxNSeq_ g) then forwarded t [f] else []).

Lemma gate_result_cons p t f fs q g g2 g3 :
  after_frame p t f q g g2 -> gate_result p t fs g2 g3 -> gate_result p t (f :: fs) g g3.
Proof.
  intros (-> & Hsq & Hq) (acc & m & rx & q3 & Hg & -> & Hq3 & Hsq3).
  cbn [mapClientToSocket_ mapClientToRxNSeq_ fifo_ gated set_fifo set_rxSeq set_socketMap] in Hg, Hq3, Hsq3.
  eexists _, m, rx, q3. rewrite gate_cons, Hg. split_and!; [done|done| |congruence].
  rewrite Hq3, Hq, <- app_assoc. f_equal. by destruct (gate_accepts _ _ _ _).
Qed.

(** An accepted request uses one of the places counted by [room_for]. *)
Lemma room_for_cons p t f fs q v g g2 v2 :
  gateway_ok v g -> gateway_ok v2 g2 -> after_frame p t f q g g2 ->
  room_for (length (gate p (f :: fs) (mapClientToSocket_ g) (mapClientToRxNSeq_ g)).1.1) g ->
  room_for (length (gate p fs (mapClientToSocket_ g2) (mapClientToRxNSeq_ g2)).1.1) g2.
Proof.
  intros Hok Hok2 (-> & _ & Hq). rewrite gate_cons.
  cbn [mapClientToSocket_ mapClientToRxNSeq_ gated set_fifo set_rxSeq set_socketMap].
  destruct (gate p fs _ _) as [[acc m] rx]. unfold room_for. cbn [fst]. rewrite length_app.
  pose proof (length_queued q (go_fifo _ _ Hok2)) as Hl2.
  pose proof (length_queued _ (go_fifo _ _ Hok)) as Hl. rewrite Hq, length_app in Hl2.
  change (fifo_ (gated _ _ q g)) with q. destruct (gate_accepts _ _ _ _); cbn in *; lia.
Qed.

Lemma wp_rxLoop p t s : forall fs fuel pre rest v g (Q : Z -> World -> Prop),
  gateway_ok v g -> sock v p = Some s -> (length fs < fuel)%nat ->
  inbound s = pre ++ frames fs ++ rest -> blen rest < sizeof_OGSClientRequest ->
  Forall ogs_request_ok fs -> Forall (fun f => client_ok (frame_client f)) fs ->
  room_for (length (gate p fs (mapClientToSocket_ g) (mapClientToRxNSeq_ g)).1.1) g ->
  (forall v' g', grows v v' -> gateway_ok v' g' -> gate_result p t fs g g' ->
     Q (blen pre + blen (frames fs)) (v', g')) ->
  wp (rxLoop fuel p t (blen pre)) Q (v, g).
Proof.
  induction fs as [|f fs IH]; intros fuel pre rest v g Q Hok Hs Hfuel Hin Hrest Hfs Hcl Hroom HQ;
    (destruct fuel as [|fuel]; [cbn in Hfuel; lia|]); cbn [rxLoop];
    pose proof (sv_sock _ (go_server _ _ Hok) p s Hs) as Hsok;
    pose proof (blen_inbound s Hsok) as Hn; rewrite Hin, !blen_app, blen_frames in Hn;
    pose proof (grows_same_sock p s v (go_server _ _ Hok) Hs) as Hg1;
    wp_step; apply wp_on_server, (wp_with_socket p s); [done| |done|]; apply wp_get.
  - destruct (Z.leb_spec (blen pre + sizeof_OGSClientRequest) (nextRcvValidIndex_ s));
      [cbn in Hn; lia|]. apply wp_ret. rewrite Z.add_0_r in HQ. apply HQ; [done|by eapply gateway_ok_grows|].
    exists [], (mapClientToSocket_ g), (mapClientToRxNSeq_ g), (fifo_ g).
    split_and!; [done|by rewrite gated_id|by rewrite app_nil_r|done].
  - apply Forall_cons in Hfs as [Hf Hfs]. apply Forall_cons in Hcl as [Hc Hcl].
    destruct (Z.leb_spec (blen pre + sizeof_OGSClientRequest) (nextRcvValidIndex_ s));
      [|pose proof (blen_nonneg rest); unfold sizeof_OGSClientRequest in *; cbn [length] in *; lia].
    cbn [frames fmap list_fmap concat] in Hin. rewrite <- app_assoc in Hin.
    rewrite (decode_at s pre f (frames fs ++ rest)); [|by destruct Hsok; lia|exact Hin|done].
    wp_step. apply wp_handleFrame; [by eapply gateway_ok_grows|by exists s; apply (gr_sock _ _ Hg1)|done| |].
    { intros Ha. rewrite gate_cons, Ha in Hroom. unfold room_for in Hroom.
      destruct (gate p fs _ _) as [[acc m'] rx']. cbn in Hroom. lia. }
    intros v2 q g2 Hg2 Hok2 Hsq Hq. assert (Hgf : after_frame p t f q g g2) by done.
    clearbody g2. pose proof (blen_app pre (ogs_request_encode f)) as Hpre. unfold blen at 3 in Hpre.
    rewrite ogs_request_length in Hpre. change (Z.of_nat 38) with sizeof_OGSClientRequest in Hpre.
    rewrite <- Hpre. eapply (IH fuel _ rest); [exact Hok2| |cbn in Hfuel; lia| |done|done|done| |].
    + by apply (gr_sock _ _ Hg2), (gr_sock _ _ Hg1).
    + rewrite Hin. by rewrite <- !app_assoc.
    + by apply (room_for_cons p t f fs q v g g2 v2).
    + intros v3 g3 Hg3 Hok3 Hres. rewrite Hpre. specialize (HQ v3 g3).
      replace (blen (frames (f :: fs))) with (sizeof_OGSClientRequest + blen (frames fs)) in HQ
        by (rewrite !blen_frames; unfold sizeof_OGSClientRequest; cbn [length]; lia).
      rewrite Z.add_assoc in HQ. apply HQ; [by eapply grows_trans; [|eapply grows_trans]|done|].
      by apply (gate_result_cons p t f fs q g g2).
Qed.

Lemma gateway_ok_set_sock p s s' v g :
  gateway_ok v g -> sock v p = Some s -> socket_ok s' -> gateway_ok (set_sock p s' v) g.
Proof.
  intros [Hv ? ? ? Hm ?] Hs Hs'. split; try done; [by eapply server_ok_set_sock|].
  intros c q Hq. rewrite (sock_set_sock p q s) by done. case_decide; [done|by eapply Hm].
Qed.

(** The sockets other than [p] are as in [v]; what is new is empty. *)
Definition others (p : sockptr) v v' : Prop :=
  (forall q x, q <> p -> sock v q = Some x -> sock v' q = Some x) /\
  (forall q x, q <> p -> sock v' q = Some x -> sock v q = Some x \/ empty_socket x).

Lemma others_grows p v v1 v2 : others p v v1 -> grows v1 v2 -> others p v v2.
Proof.
  intros [Ho1 Ho2] Hg. split; intros q x Hq Hx; [by apply (gr_sock _ _ Hg), Ho1|].
  destruct (gr_new _ _ Hg q x Hx) as [?|?]; [by apply Ho2|by right].
Qed.
Lemma others_refl p v : others p v v.
Proof. split; auto. Qed.
Lemma others_trans p v v1 v2 : others p v v1 -> others p v1 v2 -> others p v v2.
Proof.
  intros [Ho1 Ho2] [Ho3 Ho4]. split; intros q x Hq Hx; [by apply Ho3, Ho1|].
  destruct (Ho4 q x Hq Hx); [by apply Ho2|by right].
Qed.
Lemma others_set_sock p s s' v v1 : others p v v1 -> sock v1 p = Some s -> others p v (set_sock p s' v1).
Proof.
  intros [Ho1 Ho2] Hs. split; intros q x Hq; rewrite (sock_set_sock p q s), decide_False by done;
    [by apply Ho1|by apply Ho2].
Qed.

(** Only the socket [p] changes, and of it only the inbound bytes, to [rest]. *)
Definition consumed (p : sockptr) (s : TCPSocket) (rest : list Z) v v' : Prop :=
  (exists s', sock v' p = Some s' /\ inbound s' = rest /\ outbound s' = outbound s /\
              socketFd_ s' = socketFd_ s /\ wire_ s' = wire_ s) /\
  others p v v'.

Lemma grows_consumed p s v v' :
  grows v v' -> sock v p = Some s -> consumed p s (inbound s) v v'.
Proof.
  intros Hg Hs. split; [exists s; split; [by apply (gr_sock _ _ Hg)|done]|].
  eapply others_grows; [apply others_refl|exact Hg].
Qed.

(** The end of rxCallback: the [n] bytes after the first [i] move to the front. *)
Lemma wp_compact p s i rest v g (Q : unit -> World -> Prop) :
  gateway_ok v g -> sock v p = Some s -> 0 <= i -> blen rest <= i ->
  (exists pre, inbound s = pre ++ rest /\ blen pre = i) ->
  (forall v', gateway_ok v' g -> consumed p s rest v v' -> Q tt (v', g)) ->
  wp (on_server (with_socket p (moveFront i (nextRcvValidIndex_ s - i)));;
      on_server (with_socket p (modify (setNextRcvValidIndex (nextRcvValidIndex_ s - i))))) Q (v, g).
Proof.
  intros Hok Hs Hi Hri (pre & Hin & Hpre) HQ.
  pose proof (sv_sock _ (go_server _ _ Hok) p s Hs) as Hsok.
  pose proof (blen_inbound s Hsok) as Hn. rewrite Hin, blen_app, Hpre in Hn.
  replace (nextRcvValidIndex_ s - i) with (blen rest) by lia.
  assert (Hrd : read_bytes (inboundData_ s) i (blen rest) = rest).
  { pose proof (read_bytes_app (inboundData_ s) 0 i (blen rest) Hi (blen_nonneg rest)) as Ha.
    rewrite Hn, Z.add_0_l in Ha. change (read_bytes _ _ (nextRcvValidIndex_ s)) with (inbound s) in Ha.
    rewrite Hin in Ha. apply app_inj_1 in Ha as [_ Ha]; [done|].
    pose proof (blen_read (inboundData_ s) 0 i Hi) as Hl. unfold blen in Hl, Hpre. lia. }
  set (data := write_bytes (inboundData_ s) 0 rest).
  set (s1 := set_inbound data (nextRcvValidIndex_ s) s).
  set (s2 := setNextRcvValidIndex (blen rest) s1).
  assert (Hin2 : inbound s2 = rest) by apply read_write_same.
  assert (Hs2 : socket_ok s2).
  { destruct Hsok as [Hr Hsn Hb]. pose proof (blen_nonneg rest). split; [cbn; lia|done|].
    rewrite Hin2. rewrite Hin in Hb. by apply Forall_app in Hb as [_ Hb]. }
  wp_step. apply wp_on_server, (wp_with_socket p s); [done|]. unfold moveFront. wp_step.
  apply wp_require; [by apply Z.leb_le|]. apply wp_modify. rewrite Hrd. fold data s1.
  assert (Hs1 : sock (set_sock p s1 v) p = Some s1)
    by (rewrite (sock_set_sock p p s) by done; by rewrite decide_True).
  apply wp_on_server, (wp_with_socket p s1); [done|]. apply wp_modify. fold s2.
  assert (Hsock : forall q, sock (set_sock p s2 (set_sock p s1 v)) q
                    = if decide (p = q) then Some s2 else sock v q).
  { intros q. rewrite (sock_set_sock p q s1), (sock_set_sock p q s) by done. by case_decide. }
  apply HQ.
  - destruct Hok as [[Hp Hsk Hr Hsn Ha Hit] ? ? ? Hm ?].
    assert (Hl : receiveSockets_ (set_sock p s2 (set_sock p s1 v)) = receiveSockets_ v /\
                 sendSockets_ (set_sock p s2 (set_sock p s1 v)) = sendSockets_ v /\
                 interest (set_sock p s2 (set_sock p s1 v)) = interest v) by (by destruct p).
    destruct Hl as (Hl1 & Hl2 & Hl3). split; try done; [split; rewrite ?Hl1, ?Hl2, ?Hl3; try done|].
    + destruct p; cbn; [done|]. by do 2 apply pool_ok_updated.
    + intros q x. rewrite Hsock. case_decide; [by intros [= <-]|apply Hsk].
    + intros q Hq. rewrite Hsock. case_decide; [done|by apply Ha].
    + intros x Hx. rewrite Hsock. destruct (Hit x Hx). split; [done|]. by case_decide.
    + intros c q Hq. rewrite Hsock. case_decide; [done|by eapply Hm].
  - split; [|split; intros q x Hq; rewrite Hsock, decide_False; auto].
    exists s2. rewrite Hsock, decide_True by done. done.
Qed.

Lemma wp_rxCallback p t s fs rest v g (Q : unit -> World -> Prop) :
  gateway_ok v g -> sock v p = Some s ->
  inbound s = frames fs ++ rest -> blen rest < sizeof_OGSClientRequest ->
  Forall ogs_request_ok fs -> Forall (fun f => client_ok (frame_client f)) fs ->
  room_for (length (gate p fs (mapClientToSocket_ g) (mapClientToRxNSeq_ g)).1.1) g ->
  (forall v' g', gateway_ok v' g' -> consumed p s rest v v' -> gate_result p t fs g g' -> Q tt (v', g')) ->
  wp (rxCallback p t) Q (v, g).
Proof.
  intros Hok Hs Hin Hrest Hfs Hcl Hroom HQ.
  pose proof (sv_sock _ (go_server _ _ Hok) p s Hs) as Hsok.
  pose proof (blen_inbound s Hsok) as Hn. rewrite Hin, blen_app, blen_frames in Hn.
  pose proof (blen_nonneg rest) as Hr0.
  unfold rxCallback. wp_step. apply wp_on_server, (wp_with_socket p s); [done|]. apply wp_get.
  pose proof (grows_same_sock p s v (go_server _ _ Hok) Hs) as Hg1.
  wp_step. apply wp_net; [apply Hg1|]. intros v1 Hg1'. pose proof (grows_trans _ _ _ Hg1 Hg1') as Hg01.
  destruct (Z.leb_spec sizeof_OGSClientRequest (nextRcvValidIndex_ s)).
  2: { assert (fs = []) as -> by (destruct fs; [done|]; unfold sizeof_OGSClientRequest in *; cbn [length] in *; lia).
       apply wp_ret. apply HQ; [by eapply gateway_ok_grows| |].
       - pose proof (grows_consumed p s v v1 Hg01 Hs) as Hc. by rewrite Hin in Hc.
       - exists [], (mapClientToSocket_ g), (mapClientToRxNSeq_ g), (fifo_ g).
         split_and!; [done|by rewrite gated_id|by rewrite app_nil_r|done]. }
  wp_step.
  apply (wp_rxLoop p t s fs _ [] rest); [by eapply gateway_ok_grows|by apply (gr_sock _ _ Hg01)| |done|done|done|done|done|].
  { enough (Z.of_nat (length fs) <= nextRcvValidIndex_ s / sizeof_OGSClientRequest) by lia.
    apply Z.div_le_lower_bound; unfold sizeof_OGSClientRequest in *; lia. }
  intros v2 g2 Hg2 Hok2 Hres. change (blen []) with 0. rewrite Z.add_0_l.
  pose proof (grows_trans _ _ _ Hg01 Hg2) as Hg02. pose proof (gr_sock _ _ Hg02 p s Hs) as Hs2.
  wp_step. apply wp_on_server, (wp_with_socket p s); [done|]. apply wp_get.
  pose proof (grows_same_sock p s v2 (go_server _ _ Hok2) Hs2) as Hg3.
  pose proof (grows_trans _ _ _ Hg02 Hg3) as Hg03.
  apply (wp_compact p s _ rest); [by apply (gateway_ok_grows v2)|by apply (gr_sock _ _ Hg03)|apply blen_nonneg| |by exists (frames fs)|].
  { rewrite blen_frames. unfold sizeof_OGSClientRequest in *. lia. }
  intros v4 Hok4 [Hc1 Hc2]. apply HQ; [done| |done]. split; [done|].
  eapply others_trans; [|exact Hc2]. eapply others_grows; [apply others_refl|exact Hg03].
Qed.
(** *** Consecutive numbers *)
Definition of_client (c : Z) (fs : list OGSClientRequest) : list OGSClientRequest :=
  filter (fun f => frame_client f = c) fs.

Lemma gate_sublist p fs : forall m rx acc m' rx',
  gate p fs m rx = (acc, m', rx') -> acc `sublist_of` fs /\ length rx' = length rx.
Proof.
  induction fs as [|f fs IH]; intros m rx acc m' rx'.
  { by intros [= <- <- <-]. }
  rewrite gate_cons. destruct (gate p fs _ _) as [[acc1 m1] rx1] eqn:Hg. intros [= <- <- <-].
  apply IH in Hg as [Hs Hl]. rewrite length_gate_count in Hl. split; [|done].
  destruct (gate_accepts p f m rx); cbn; [by apply sublist_skip|by apply sublist_cons].
Qed.

Lemma gate_consecutive p c fs : forall m rx acc m' rx' n,
  Forall (fun f => client_ok (frame_client f)) fs -> client_ok c ->
  gate p fs m rx = (acc, m', rx') -> rx !! Z.to_nat c = Some n ->
  n + Z.of_nat (length fs) < 2 ^ 64 -> 0 <= n ->
  og_nSeq <$> of_client c acc = seqZ n (Z.of_nat (length (of_client c acc))) /\
  rx' !! Z.to_nat c = Some (n + Z.of_nat (length (of_client c acc))).
Proof.
  induction fs as [|f fs IH]; intros m rx acc m' rx' n Hcl Hc.
  { intros [= <- <- <-] Hn _ _. by rewrite Z.add_0_r. }
  apply Forall_cons in Hcl as [Hf Hcl].
  rewrite gate_cons. destruct (gate p fs _ _) as [[acc1 m1] rx1] eqn:Hg. intros [= <- <- <-] Hn Hb Hn0.
  cbn [length] in Hb. unfold gate_count in Hg.
  destruct (gate_accepts p f m rx) eqn:Ha; cbn [app].
  2: { apply (IH _ _ _ _ _ n Hcl Hc Hg Hn); lia. }
  unfold gate_accepts in Ha. apply andb_true_iff in Ha as [_ Ha%bool_decide_eq_true].
  assert (Hlt : (Z.to_nat (frame_client f) < length rx)%nat) by (by eapply lookup_lt_Some).
  unfold of_client. destruct (decide (frame_client f = c)) as [Hfc|Hfc].
  - rewrite filter_cons_True by done. cbn [fmap list_fmap length]. rewrite Hfc in *.
    rewrite Hn in Ha. injection Ha as Hnf. rewrite <- Hnf in Hg |- *.
    destruct (IH _ _ _ _ _ (n + 1) Hcl Hc Hg) as [He Hr]; [|lia|lia|].
    { rewrite wrapU_small by lia. by rewrite list_lookup_insert_eq. }
    fold (of_client c acc1). rewrite He, Hr, (seqZ_cons n) by lia. split; [|f_equal; lia].
    do 2 f_equal; lia.
  - rewrite filter_cons_False by done. fold (of_client c acc1).
    apply (IH _ _ _ _ _ n Hcl Hc Hg); [|lia|lia].
    rewrite list_lookup_insert_ne; [done|]. unfold client_ok in *. lia.
Qed.

(** The requests that carry the next number, from [n] on. *)
Fixpoint in_sequence (n : Z) (fs : list OGSClientRequest) : list OGSClientRequest :=
  match fs with
  | [] => []
  | f :: fs' => if og_nSeq f =? n then f :: in_sequence (n + 1) fs' else in_sequence n fs'
  end.

(** What the gate does for one client: nothing for a client bound to another
    socket, and for any other it lets the requests in sequence through. *)
Lemma gate_client p c fs : forall m rx acc m' rx' n,
  Forall (fun f => client_ok (frame_client f)) fs -> client_ok c ->
  gate p fs m rx = (acc, m', rx') -> rx !! Z.to_nat c = Some n ->
  n + Z.of_nat (length fs) < 2 ^ 64 -> 0 <= n ->
  of_client c acc =
    (if decide (gate_bind p c m !! c = Some p) then in_sequence n (of_client c fs) else []) /\
  m' !! c = (if decide (of_client c fs = []) then m else gate_bind p c m) !! c.
Proof.
  induction fs as [|f fs IH]; intros m rx acc m' rx' n Hcl Hc.
  { intros [= <- <- <-] _ _ _. cbn. by case_decide. }
  apply Forall_cons in Hcl as [Hf Hcl].
  rewrite gate_cons. destruct (gate p fs _ _) as [[acc1 m1] rx1] eqn:Hg. intros [= <- <- <-] Hn Hb Hn0.
  cbn [length] in Hb. unfold of_client. rewrite filter_app, filter_cons. fold (of_client c acc1) (of_client c fs).
  destruct (decide (frame_client f = c)) as [Hfc|Hfc].
  - rewrite (decide_False (P := _ :: _ = [])) by done. cbn [in_sequence]. rewrite Hfc in *.
    assert (Hbb : gate_bind p c (gate_bind p c m) !! c = gate_bind p c m !! c).
    { unfold gate_bind at 1. destruct (gate_bind_some p c m) as [q Hq]. by rewrite Hq. }
    assert (Ha : gate_accepts p f m rx = bool_decide (gate_bind p c m !! c = Some p) && (og_nSeq f =? n)).
    { unfold gate_accepts. rewrite Hfc, Hn. f_equal. case_bool_decide as He.
      - injection He as ->. by rewrite Z.eqb_refl.
      - symmetry. apply Z.eqb_neq. congruence. }
    destruct (IH _ _ _ _ _ (if gate_accepts p f m rx then n + 1 else n) Hcl Hc Hg) as [He Hm];
      [|destruct (gate_accepts p f m rx); lia..|].
    { unfold gate_count. destruct (gate_accepts p f m rx); [|done]. rewrite Hfc.
      symmetry in Ha. apply andb_true_iff in Ha as [_ ->%Z.eqb_eq]. rewrite wrapU_small by lia.
      apply list_lookup_insert_eq. by eapply lookup_lt_Some. }
    split.
    + rewrite He, Hbb, Ha. destruct (decide (gate_bind p c m !! c = Some p)) as [Hp|Hp];
        [rewrite bool_decide_true by done|by rewrite bool_decide_false by done].
      cbn [andb]. destruct (og_nSeq f =? n); [|done]. by rewrite filter_cons_True.
    + rewrite Hm. case_decide; [done|]. exact Hbb.
  - assert (Hbc : gate_bind p (frame_client f) m !! c = m !! c).
    { unfold gate_bind. destruct (m !! frame_client f); [done|]. by rewrite lookup_insert_ne. }
    assert (Hbb : gate_bind p c (gate_bind p (frame_client f) m) !! c = gate_bind p c m !! c).
    { unfold gate_bind at 1 3. rewrite Hbc. destruct (m !! c) eqn:E; [by rewrite Hbc|by rewrite !lookup_insert_eq]. }
    destruct (IH _ _ _ _ _ n Hcl Hc Hg) as [He Hm]; [|lia..|].
    { unfold gate_count. destruct (gate_accepts p f m rx); [|done].
      rewrite list_lookup_insert_ne; [done|]. unfold client_ok in *. lia. }
    split; [|rewrite Hm; by case_decide].
    replace (filter _ (if gate_accepts p f m rx then [f] else [])) with (@nil OGSClientRequest)
      by (destruct (gate_accepts p f m rx); [by rewrite filter_cons_False|done]).
    cbn [app]. by rewrite He, Hbb.
Qed.

(** C18. rxCallback on a buffer of whole requests [fs] followed by an incomplete
    one [rest].  Without a fault (the copy to the front never overlaps) exactly
    [rest] stays in the buffer, at its start, and the sequencer gets, in order and
    with the reception time, exactly the requests the gate lets through: of a
    client bound to another socket none, and of any other client the ones that
    carry its next number, which then advances; a client without a socket is
    bound to this one by its first request. *)
Theorem rx_callback_forwards_in_sequence p t s fs rest v g :
  gateway_ok v g -> sock v p = Some s ->
  inbound s = frames fs ++ rest -> blen rest < sizeof_OGSClientRequest ->
  Forall ogs_request_ok fs -> Forall (fun f => client_ok (frame_client f)) fs ->
  room_for (length (gate p fs (mapClientToSocket_ g) (mapClientToRxNSeq_ g)).1.1) g ->
  exists v' g' acc, rxCallback p t (v, g) = Ok (tt, (v', g')) /\
    gateway_ok v' g' /\ consumed p s rest v v' /\
    queued (fifo_ g') = queued (fifo_ g) ++ forwarded t acc /\
    gate p fs (mapClientToSocket_ g) (mapClientToRxNSeq_ g)
      = (acc, mapClientToSocket_ g', mapClientToRxNSeq_ g') /\ acc `sublist_of` fs /\
    forall c n, client_ok c -> mapClientToRxNSeq_ g !! Z.to_nat c = Some n ->
      0 <= n -> n + Z.of_nat (length fs) < 2 ^ 64 ->
      of_client c acc =
        (if decide (mapClientToSocket_ g !! c = None \/ mapClientToSocket_ g !! c = Some p)
         then in_sequence n (of_client c fs) else []) /\
      og_nSeq <$> of_client c acc = seqZ n (Z.of_nat (length (of_client c acc))) /\
      mapClientToRxNSeq_ g' !! Z.to_nat c = Some (n + Z.of_nat (length (of_client c acc))) /\
      mapClientToSocket_ g' !! c =
        (if decide (of_client c fs = []) then mapClientToSocket_ g !! c
         else Some (default p (mapClientToSocket_ g !! c))).
Proof.
  intros Hok Hs Hin Hrest Hfs Hcl Hroom.
  assert (Hw : wp (rxCallback p t) (fun _ w => gateway_ok w.1 w.2 /\ consumed p s rest v w.1 /\
    gate_result p t fs g w.2) (v, g)).
  { apply (wp_rxCallback p t s fs rest); [done..|]. by intros v' g' ? ? ?. }
  apply wp_ok in Hw as ([] & [v' g'] & Hrun & Hok' & Hcons & acc & m & rx & q & Hg & Hg' & Hq & _).
  cbn [fst snd] in *. exists v', g', acc. rewrite Hg'. split; [by rewrite Hg' in Hrun|].
  split; [by rewrite Hg' in Hok'|]. split_and!; [done..|by eapply gate_sublist|]. intros c n Hc Hn Hn0 Hb.
  destruct (gate_consecutive p c fs _ _ acc m rx n Hcl Hc Hg Hn Hb Hn0) as [Hse Hnx].
  destruct (gate_client p c fs _ _ acc m rx n Hcl Hc Hg Hn Hb Hn0) as [He Hm].
  change (mapClientToSocket_ (gated m rx q g)) with m. rewrite He, Hm. rewrite He in Hse, Hnx.
  unfold gate_bind in *. destruct (mapClientToSocket_ g !! c) as [p'|] eqn:E.
  - rewrite E in *. split; [by repeat case_decide; naive_solver|].
    split_and!; [done|done|by case_decide].
  - rewrite lookup_insert_eq in *. split; [by repeat case_decide; naive_solver|].
    split_and!; [done|done|]. case_decide; [done|by rewrite lookup_insert_eq].
Qed.

(** *** A stream cut anywhere *)
Lemma stream_split n : forall bs,
  (length bs <= n)%nat -> Forall is_byte bs ->
  exists fs rest, bs = frames fs ++ rest /\ blen rest < sizeof_OGSClientRequest /\ Forall ogs_request_ok fs.
Proof.
  induction n as [|n IH]; intros bs Hl Hb.
  - exists [], bs. split; [done|]. split; [unfold blen, sizeof_OGSClientRequest; lia|done].
  - destruct (decide (length bs < 38)%nat) as [Hs|Hs].
    { exists [], bs. split; [done|]. split; [unfold blen, sizeof_OGSClientRequest; lia|done]. }
    destruct (ogs_request_window (take 38 bs)) as (f & _ & Hf & He);
      [rewrite length_take; lia|by apply Forall_take|].
    destruct (IH (drop 38 bs)) as (fs & rest & Hd & Hr & Hfs);
      [rewrite length_drop; lia|by apply Forall_drop|].
    exists (f :: fs), rest. cbn [frames fmap list_fmap concat].
    rewrite He, <- app_assoc. fold (frames fs). rewrite <- Hd, take_drop. split; [done|]. split; [done|]. by constructor.
Qed.

(** The requests and the remainder are determined by the bytes. *)
Lemma stream_unique fs : forall fs' rest rest',
  frames fs ++ rest = frames fs' ++ rest' -> Forall ogs_request_ok fs -> Forall ogs_request_ok fs' ->
  blen rest < sizeof_OGSClientRequest -> blen rest' < sizeof_OGSClientRequest ->
  fs = fs' /\ rest = rest'.
Proof.
  induction fs as [|f fs IH]; intros [|f' fs'] rest rest' He Hf Hf' Hr Hr'.
  - done.
  - apply (f_equal blen) in He. rewrite !blen_app, !blen_frames in He. pose proof (blen_nonneg rest').
    cbn [length] in He. unfold sizeof_OGSClientRequest in *. lia.
  - apply (f_equal blen) in He. rewrite !blen_app, !blen_frames in He. pose proof (blen_nonneg rest).
    cbn [length] in He. unfold sizeof_OGSClientRequest in *. lia.
  - cbn [frames fmap list_fmap concat] in He. rewrite <- !app_assoc in He.
    apply Forall_cons in Hf as [Hf1 Hf]. apply Forall_cons in Hf' as [Hf1' Hf'].
    apply app_inj_1 in He as [Hh Ht]; [|by rewrite !ogs_request_length].
    destruct (IH fs' rest rest' Ht Hf Hf' Hr Hr') as [-> ->]. split; [|done]. f_equal.
    pose proof (ogs_request_decode_encode f [] Hf1) as Hd.
    rewrite Hh, (ogs_request_decode_encode f' [] Hf1') in Hd. congruence.
Qed.

Lemma frames_app fs1 fs2 : frames (fs1 ++ fs2) = frames fs1 ++ frames fs2.
Proof. unfold frames. by rewrite fmap_app, concat_app. Qed.

Lemma gate_app p fs1 : forall fs2 m rx,
  gate p (fs1 ++ fs2) m rx =
    let '(acc1, m1, rx1) := gate p fs1 m rx in
    let '(acc2, m2, rx2) := gate p fs2 m1 rx1 in (acc1 ++ acc2, m2, rx2).
Proof.
  induction fs1 as [|f fs1 IH]; intros fs2 m rx; cbn [app].
  { cbn [gate]. by destruct (gate p fs2 m rx) as [[? ?] ?]. }
  rewrite !gate_cons, IH. destruct (gate p fs1 _ _) as [[acc1 m1] rx1].
  destruct (gate p fs2 m1 rx1) as [[acc2 m2] rx2]. by rewrite app_assoc.
Qed.

Section Stream.
Context (std_sort : list PendingClientRequest -> list PendingClientRequest).

(** sendAndRecv on one socket, once per answer of the kernel. *)
Fixpoint receiveAll (p : sockptr) (ks : list Kernel) : M World unit :=
  match ks with
  | [] => mret tt
  | k :: ks' =>
      _ ← sendAndRecv (G := OrderGatewayServer) (H := gateway_client std_sort) p k; receiveAll p ks'
  end.

Definition chunk_ok (k : Kernel) : Prop :=
  Forall is_byte (k_data k) /\ blen (k_data k) <= TCPBufferSize - sizeof_OGSClientRequest.

(** What reached the sequencer, the reception times aside. *)
Definition sequenced (g : OrderGatewayServer) : list OMEClientRequest := pd_request <$> queued (fifo_ g).

(** The gateway let [fs] through: the requests, the bindings, the numbers. *)
Definition let_through (p : sockptr) (fs : list OGSClientRequest) g (g' : OrderGatewayServer) : Prop :=
  exists acc, gate p fs (mapClientToSocket_ g) (mapClientToRxNSeq_ g)
                = (acc, mapClientToSocket_ g', mapClientToRxNSeq_ g') /\
    sequenced g' = sequenced g ++ (og_omeRequest <$> acc).

Lemma gate_result_let p t fs g g' : gate_result p t fs g g' -> let_through p fs g g'.
Proof.
  intros (acc & m & rx & q & Hg & -> & Hq & _). exists acc. split; [done|].
  unfold sequenced, gated, set_fifo. cbn [fifo_]. rewrite Hq, fmap_app. f_equal.
  unfold forwarded. rewrite <- list_fmap_compose. by apply list_fmap_ext.
Qed.

(** What sendAndRecv on the socket [p], which was [s], leaves: the incomplete rest
    in the inbound buffer and nothing in the outbound one, of which the kernel got
    what it had room for; the other sockets and the queues to and from the engine
    are as they were. *)
Record read_on (p : sockptr) (k : Kernel) (s : TCPSocket) (rest : list Z) v g v' g' : Prop := {
  ro_sock : exists s', sock v' p = Some s' /\ inbound s' = rest /\ outbound s' = [] /\
    wire_ s' = wire_ s ++ taken k (outbound s);
  ro_others : others p v v';
  ro_requests : sq_rxRequests_ (fifo_ g') = sq_rxRequests_ (fifo_ g);
  ro_responses : rxResponses_ g' = rxResponses_ g;
  ro_tx : mapClientToTxNSeq_ g' = mapClientToTxNSeq_ g;
}.

(** The end of sendAndRecv, from a state that a callback has left. *)
Lemma wp_send_end p k b s s1 rest fs v g v1 g1 (Q : bool -> World -> Prop) :
  gateway_ok v1 g1 -> sock v1 p = Some s1 -> inbound s1 = rest ->
  outbound s1 = outbound s /\ wire_ s1 = wire_ s -> others p v v1 ->
  sq_rxRequests_ (fifo_ g1) = sq_rxRequests_ (fifo_ g) -> rxResponses_ g1 = rxResponses_ g ->
  mapClientToTxNSeq_ g1 = mapClientToTxNSeq_ g -> let_through p fs g g1 ->
  (forall v' g', gateway_ok v' g' -> read_on p k s rest v g v' g' -> let_through p fs g g' -> Q b (v', g')) ->
  wp (ls ← on_server (with_socket p (sendPart k)); on_server (modify (add_logs ls));; mret b) Q (v1, g1).
Proof.
  intros Hok Hs Hin [Hout1 Hw1] Ho Hrq Hrs Htx Hlt HQ.
  destruct (sendPart_spec k s1 (sv_sock _ (go_server _ _ Hok) p s1 Hs)) as (s2 & ls & Hsend & Hs2 & Hout & Hin2 & _ & Hw2).
  wp_step. apply wp_on_server, (wp_with_socket p s1); [done|]. apply wp_ok. do 2 eexists.
  split; [exact Hsend|]. wp_step. apply wp_on_server, wp_modify, wp_ret.
  pose proof (gateway_ok_set_sock p s1 s2 v1 g1 Hok Hs Hs2) as Hok2.
  apply HQ; [eapply gateway_ok_grows; [|exact Hok2]; by apply grows_logs, Hok2| |done].
  split; [|by apply (others_set_sock p s1)|done..].
  exists s2. split; [|by rewrite Hin2, Hw2, Hout1, Hw1].
  change (sock (set_sock p s2 v1) p = Some s2). rewrite (sock_set_sock p p s1) by done. by rewrite decide_True.
Qed.

Lemma wp_sendAndRecv (i : Z) k s fs rest v g (Q : bool -> World -> Prop) :
  gateway_ok v g -> sock v (Pooled i) = Some s -> chunk_ok k ->
  blen (inbound s) < sizeof_OGSClientRequest ->
  inbound s ++ k_data k = frames fs ++ rest -> blen rest < sizeof_OGSClientRequest ->
  Forall ogs_request_ok fs -> Forall (fun f => client_ok (frame_client f)) fs ->
  room_for (length (gate (Pooled i) fs (mapClientToSocket_ g) (mapClientToRxNSeq_ g)).1.1) g ->
  (forall b v' g', gateway_ok v' g' -> read_on (Pooled i) k s rest v g v' g' ->
     let_through (Pooled i) fs g g' -> Q b (v', g')) ->
  wp (sendAndRecv (G := OrderGatewayServer) (H := gateway_client std_sort) (Pooled i) k) Q (v, g).
Proof.
  intros Hok Hs [Hkb Hkl] Hlen Hin Hrest Hfs Hcl Hroom HQ. set (p := Pooled i) in *.
  pose proof (sv_sock _ (go_server _ _ Hok) p s Hs) as Hsok.
  assert (Hgot : take (Z.to_nat (TCPBufferSize - nextRcvValidIndex_ s)) (k_data k) = k_data k).
  { apply take_ge. rewrite blen_inbound in Hlen by done. unfold blen in Hkl. lia. }
  destruct (recvPart_spec k s Hsok Hkb) as (s1 & Hrecv & Hs1 & Hin1 & Hout1 & _ & Hw1).
  rewrite Hgot in Hrecv, Hin1. rewrite Hin in Hin1.
  unfold sendAndRecv. wp_step. apply wp_on_server, (wp_with_socket p s); [done|].
  apply wp_ok. do 2 eexists. split; [exact Hrecv|].
  pose proof (gateway_ok_set_sock p s s1 v g Hok Hs Hs1) as Hok1.
  assert (Ho1 : others p v (set_sock p s1 v)) by (apply (others_set_sock p s); [apply others_refl|done]).
  assert (Hsv1 : sock (set_sock p s1 v) p = Some s1) by (rewrite (sock_set_sock p p s) by done; by rewrite decide_True).
  wp_step. apply wp_fd; [apply Hok1|by eexists|]. intros fd v2 Hg2.
  pose proof (gateway_ok_grows _ _ _ Hg2 Hok1) as Hok2. pose proof (gr_sock _ _ Hg2 p s1 Hsv1) as Hsv2.
  pose proof (others_grows _ _ _ _ Ho1 Hg2) as Ho2.
  destruct (Z.ltb_spec 0 (blen (k_data k))) as [Hpos|Hzero].
  - wp_step. wp_step. apply wp_net; [apply Hok2|]. intros v3 Hg3.
    apply (wp_rxCallback p (kernelTime k) s1 fs rest);
      [by eapply gateway_ok_grows|by apply (gr_sock _ _ Hg3)|done|done|done|done|done|].
    intros v4 g4 Hok4 [(s4 & Hs4 & Hin4 & Hout4 & _ & Hw4) Hoth] Hres.
    pose proof Hres as (acc & m & rx & q & _ & Hg4 & _ & Hqs).
    apply (wp_send_end p k true s s4 rest fs v g); try by rewrite Hg4.
    + done.
    + done.
    + done.
    + by rewrite Hout4, Hw4.
    + eapply others_trans; [|exact Hoth]. by eapply others_grows.
    + by eapply gate_result_let.
    + apply HQ.
  - assert (Hnil : k_data k = []) by (destruct (k_data k); [done|unfold blen in Hzero; cbn in Hzero; lia]).
    rewrite Hnil, app_nil_r in Hin.
    destruct (stream_unique [] fs (inbound s) rest) as [<- Hri]; [by rewrite Hin|done|done|done|done|].
    wp_step. apply wp_ret. apply (wp_send_end p k false s s1 rest [] v g); try done.
    { exists []. split; [done|]. by rewrite app_nil_r. }
    apply HQ.
Qed.

Lemma let_through_app p fs1 fs2 g g1 g2 :
  let_through p fs1 g g1 -> let_through p fs2 g1 g2 -> let_through p (fs1 ++ fs2) g g2.
Proof.
  intros (acc1 & Hg1 & Hs1) (acc2 & Hg2 & Hs2). exists (acc1 ++ acc2).
  rewrite gate_app, Hg1, Hg2. split; [done|]. by rewrite Hs2, Hs1, fmap_app, app_assoc.
Qed.

Lemma let_through_room v v' p fs1 n g g1 :
  gateway_ok v g -> gateway_ok v' g1 -> let_through p fs1 g g1 ->
  room_for (length fs1 + n) g -> room_for n g1.
Proof.
  intros Hok Hok1 (acc & Hg & Hs) Hr. unfold room_for in *.
  pose proof (length_queued _ (go_fifo _ _ Hok)) as Hl.
  pose proof (length_queued _ (go_fifo _ _ Hok1)) as Hl1.
  apply (f_equal length) in Hs. unfold sequenced in Hs. rewrite length_app, !length_fmap in Hs.
  apply gate_sublist in Hg as [Hsub%sublist_length _]. lia.
Qed.

Lemma gate_length p fs m rx : (length (gate p fs m rx).1.1 <= length fs)%nat.
Proof.
  destruct (gate p fs m rx) as [[acc m'] rx'] eqn:Hg. by apply gate_sublist in Hg as [?%sublist_length _].
Qed.

(** What a sequence of reads of one socket leaves. *)
Lemma receive_all_ok i ks : forall s fs rest v g,
  gateway_ok v g -> sock v (Pooled i) = Some s -> blen (inbound s) < sizeof_OGSClientRequest ->
  Forall chunk_ok ks ->
  inbound s ++ concat (k_data <$> ks) = frames fs ++ rest -> blen rest < sizeof_OGSClientRequest ->
  Forall ogs_request_ok fs -> Forall (fun f => client_ok (frame_client f)) fs ->
  room_for (length fs) g ->
  exists v' g' s', receiveAll (Pooled i) ks (v, g) = Ok (tt, (v', g')) /\
    sock v' (Pooled i) = Some s' /\ inbound s' = rest /\ let_through (Pooled i) fs g g' /\
    match ks with
    | [] => s' = s
    | k :: _ => outbound s' = [] /\ wire_ s' = wire_ s ++ taken k (outbound s)
    end.
Proof.
  induction ks as [|k ks IH]; intros s fs rest v g Hok Hs Hlen Hks Hin Hrest Hfs Hcl Hroom.
  { cbn in Hin. rewrite app_nil_r in Hin.
    destruct (stream_unique [] fs (inbound s) rest) as [<- Hri]; [by rewrite Hin|done|done|done|done|].
    exists v, g, s. split_and!; [done|done|done| |done]. exists []. split; [done|]. by rewrite app_nil_r. }
  apply Forall_cons in Hks as [Hk Hks]. cbn [fmap list_fmap concat] in Hin. rewrite app_assoc in Hin.
  assert (Hsb : Forall is_byte (inbound s ++ k_data k)).
  { apply Forall_app. split; [|by apply Hk]. by apply (so_bytes _ (sv_sock _ (go_server _ _ Hok) _ _ Hs)). }
  destruct (stream_split _ _ (Nat.le_refl _) Hsb) as (fs1 & rest1 & Hin1 & Hrest1 & Hfs1).
  assert (Htb : Forall is_byte (rest1 ++ concat (k_data <$> ks))).
  { apply Forall_app. split; [by rewrite Hin1 in Hsb; apply Forall_app in Hsb as [_ ?]|].
    apply Forall_concat, Forall_fmap. eapply Forall_impl; [exact Hks|]. by intros x [? _]. }
  destruct (stream_split _ _ (Nat.le_refl _) Htb) as (fs2 & rest2 & Hin2 & Hrest2 & Hfs2).
  rewrite Hin1, <- app_assoc, Hin2, app_assoc, <- frames_app in Hin.
  destruct (stream_unique _ _ _ _ Hin) as [<- ->]; [by apply Forall_app|done|done|done|].
  apply Forall_app in Hcl as [Hcl1 Hcl2]. rewrite length_app in Hroom.
  assert (Hw : wp (receiveAll (Pooled i) (k :: ks)) (fun _ w => exists s',
    sock w.1 (Pooled i) = Some s' /\ inbound s' = rest /\ let_through (Pooled i) (fs1 ++ fs2) g w.2 /\
    outbound s' = [] /\ wire_ s' = wire_ s ++ taken k (outbound s)) (v, g)).
  { cbn [receiveAll]. wp_step. apply (wp_sendAndRecv i k s fs1 rest1); try done.
    { pose proof (gate_length (Pooled i) fs1 (mapClientToSocket_ g) (mapClientToRxNSeq_ g)).
      unfold room_for in *. lia. }
    intros b v1 g1 Hok1 [(s1 & Hs1 & Hi1 & Ho1 & Hw1) _ _ _ _] Hl1.
    destruct (IH s1 fs2 rest v1 g1) as (v2 & g2 & s2 & Hrun & Hs2 & Hi2 & Hl2 & Hend); try done.
    { by rewrite Hi1. }
    { by rewrite Hi1. }
    { by apply (let_through_room v v1 (Pooled i) fs1 _ g). }
    apply wp_ok. exists tt, (v2, g2). split; [exact Hrun|]. exists s2.
    assert (Hend2 : outbound s2 = [] /\ wire_ s2 = wire_ s1).
    { destruct ks as [|k2 ks]; [by rewrite Hend|]. destruct Hend as [? Hw]. unfold taken in Hw.
      by rewrite Ho1, take_nil, app_nil_r in Hw. }
    destruct Hend2 as [? Hw2]. split_and!; [done|done|by eapply let_through_app|done|by rewrite Hw2]. }
  apply wp_ok in Hw as ([] & [v' g'] & Hrun & s' & ? & ? & ? & ? & ?). exists v', g', s'. by split_and!.
Qed.

(** C19. TCP may cut the stream anywhere.  However the bytes of a connection are
    split over the reads of sendAndRecv, whole requests straddling two reads
    included, the sequencer receives the same requests in the same order, and
    the same incomplete tail is left, as the gate computes from the whole
    stream. *)
Theorem stream_cut_anywhere i ks : forall s fs rest v g,
  gateway_ok v g -> sock v (Pooled i) = Some s -> blen (inbound s) < sizeof_OGSClientRequest ->
  Forall chunk_ok ks ->
  inbound s ++ concat (k_data <$> ks) = frames fs ++ rest -> blen rest < sizeof_OGSClientRequest ->
  Forall ogs_request_ok fs -> Forall (fun f => client_ok (frame_client f)) fs ->
  room_for (length fs) g ->
  exists v' g' s', receiveAll (Pooled i) ks (v, g) = Ok (tt, (v', g')) /\
    sock v' (Pooled i) = Some s' /\ inbound s' = rest /\ let_through (Pooled i) fs g g'.
Proof.
  intros s fs rest v g Hok Hs Hlen Hks Hin Hrest Hfs Hcl Hroom.
  destruct (receive_all_ok i ks s fs rest v g) as (v' & g' & s' & ? & ? & ? & ? & _); [done..|].
  exists v', g', s'. by split_and!.
Qed.

(** C21. What the kernel does not take is lost.  The bytes that wait for a socket
    are handed to ::send once, by the next sendAndRecv, whatever the reads bring:
    the kernel gets as many as it has room for, the rest is dropped, and no later
    pass sends it.  The stream the client sees is complete exactly when the kernel
    has room for all of them. *)
Theorem unsent_bytes_are_lost i k ks s fs rest v g :
  gateway_ok v g -> sock v (Pooled i) = Some s -> blen (inbound s) < sizeof_OGSClientRequest ->
  Forall chunk_ok (k :: ks) ->
  inbound s ++ concat (k_data <$> k :: ks) = frames fs ++ rest -> blen rest < sizeof_OGSClientRequest ->
  Forall ogs_request_ok fs -> Forall (fun f => client_ok (frame_client f)) fs ->
  room_for (length fs) g ->
  exists v' g' s', receiveAll (Pooled i) (k :: ks) (v, g) = Ok (tt, (v', g')) /\
    sock v' (Pooled i) = Some s' /\ outbound s' = [] /\
    wire_ s' = wire_ s ++ take (Z.to_nat (k_room k)) (outbound s) /\
    (wire_ s' = wire_ s ++ outbound s <-> blen (outbound s) <= k_room k \/ outbound s = []).
Proof.
  intros Hok Hs Hlen Hks Hin Hrest Hfs Hcl Hroom.
  destruct (receive_all_ok i (k :: ks) s fs rest v g) as (v' & g' & s' & Hrun & Hs' & _ & _ & Ho & Hw); [done..|].
  exists v', g', s'. split_and!; [done..|]. rewrite Hw. unfold taken, blen. split.
  - intros Ht%app_inv_head. apply (f_equal length) in Ht. rewrite length_take in Ht.
    destruct (outbound s); [by right|]. left. cbn [length] in *. lia.
  - intros [Hl| ->]; [|by rewrite take_nil]. by rewrite take_ge by lia.
Qed.

End Stream.

(** The client id of a request comes from the wire and is not checked: a
    buffer whose first request carries an id of MAX_N_CLIENTS or more makes
    rxCallback index its arrays out of bounds. *)
Theorem rx_client_id_unchecked p t s f tl v g :
  gateway_ok v g -> sock v p = Some s -> inbound s = ogs_request_encode f ++ tl -> ogs_request_ok f ->
  MAX_N_CLIENTS <= frame_client f -> faults (rxCallback p t) (v, g) OutOfBounds.
Proof.
  intros Hok Hs Hin Hf Hc. pose proof (sv_sock _ (go_server _ _ Hok) p s Hs) as Hsok.
  pose proof (blen_inbound s Hsok) as Hn. rewrite Hin, blen_app in Hn. unfold blen at 1 in Hn.
  rewrite ogs_request_length in Hn. pose proof (blen_nonneg tl).
  pose proof (grows_same_sock p s v (go_server _ _ Hok) Hs) as Hg1.
  unfold rxCallback. apply faults_bind, wp_on_server, (wp_with_socket p s); [done|]. apply wp_get.
  apply faults_bind, wp_net; [apply Hg1|]. intros v2 Hg2.
  pose proof (grows_trans _ _ _ Hg1 Hg2) as Hg02. pose proof (gr_sock _ _ Hg02 p s Hs) as Hs2.
  pose proof (grows_same_sock p s v2 (gr_ok _ _ Hg02) Hs2) as Hg3.
  rewrite (proj2 (Z.leb_le _ _)) by (unfold sizeof_OGSClientRequest; lia).
  apply faults_bind_l. cbn [rxLoop].
  apply faults_bind, wp_on_server, (wp_with_socket p s); [done|]. apply wp_get.
  rewrite (proj2 (Z.leb_le _ _)) by (unfold sizeof_OGSClientRequest; lia).
  change 0 with (blen []) at 1. rewrite (decode_at s [] f tl); [|lia|done|done].
  apply faults_bind_l. unfold handleFrame. fold (frame_client f).
  apply faults_bind, wp_net; [apply Hg3|]. intros v4 _.
  by rewrite (proj2 (Z.ltb_ge _ _) Hc).
Qed.

End Receiving.

(** ** Responses *)
Definition ogs_response_encode (r : OGSClientResponse) : list Z :=
  le_bytes 8 (ogr_nSeq r) ++ response_encode (ogr_omeResponse r).

(** The bytes that responses put on the socket [p]: each one goes to its
    client's socket behind the client's next number. *)
Fixpoint response_frames (m : gmap Z sockptr) (p : sockptr) (tx : list Z) (rs : list OMEClientResponse)
    : list Z :=
  match rs with
  | [] => []
  | r :: rs' =>
      let c := rs_clientId r in
      let n := default 0 (tx !! Z.to_nat c) in
      (if decide (m !! c = Some p) then ogs_response_encode (mkOGSResponse n r) else []) ++
      response_frames m p (<[Z.to_nat c := u64 (n + 1)]> tx) rs'
  end.

Section Responding.
Implicit Types (v : TCPServer) (g : OrderGatewayServer) (p : sockptr) (r : OMEClientResponse).

Definition responds_to (m : gmap Z sockptr) r : Prop :=
  client_ok (rs_clientId r) /\ is_Some (m !! rs_clientId r).

Lemma length_ogs_response n r : blen (ogs_response_encode (mkOGSResponse n r)) = 50.
Proof.
  unfold ogs_response_encode. rewrite blen_app. unfold blen. cbn [ogr_nSeq ogr_omeResponse].
  by rewrite length_le_bytes, response_length.
Qed.

(** [v'] is [v] but for the outbound buffers, which grew by [out p]. *)
Definition sent_on (out : sockptr -> list Z) v v' : Prop :=
  (forall p s, sock v p = Some s -> exists s', sock v' p = Some s' /\
    outbound s' = outbound s ++ out p /\ inbound s' = inbound s /\ socketFd_ s' = socketFd_ s /\
    wire_ s' = wire_ s) /\
  (forall p, sock v p = None -> sock v' p = None).

(** Every client's socket has room for [n] more bytes. *)
Definition room_out (m : gmap Z sockptr) (n : Z) v : Prop :=
  forall c p s, m !! c = Some p -> sock v p = Some s -> blen (outbound s) + n <= TCPBufferSize.

(** Two sends of one response on its socket. *)
Lemma wp_send_response p s n r v g (Q : unit -> World -> Prop) (k : M World unit) :
  gateway_ok v g -> sock v p = Some s -> blen (outbound s) + 50 <= TCPBufferSize ->
  (forall v', gateway_ok v' g ->
     sent_on (fun q => if decide (p = q) then ogs_response_encode (mkOGSResponse n r) else []) v v' ->
     wp k Q (v', g)) ->
  wp (on_server (with_socket p (send (le_bytes 8 n)));;
      on_server (with_socket p (send (response_encode r)));; k) Q (v, g).
Proof.
  intros Hok Hs Hroom HQ. pose proof (sv_sock _ (go_server _ _ Hok) p s Hs) as Hsok.
  pose proof (length_ogs_response n r) as Hl. unfold ogs_response_encode in Hl. cbn [ogr_nSeq ogr_omeResponse] in Hl.
  rewrite blen_app in Hl. pose proof (blen_nonneg (response_encode r)). pose proof (blen_nonneg (le_bytes 8 n)).
  destruct (send_spec (le_bytes 8 n) s Hsok) as (s1 & Hr1 & Hok1 & Ho1 & Hi1 & Hn1 & Hf1 & Hw1); [lia|].
  destruct (send_spec (response_encode r) s1 Hok1) as (s2 & Hr2 & Hok2 & Ho2 & Hi2 & Hn2 & Hf2 & Hw2);
    [rewrite Ho1, blen_app; lia|].
  wp_step. apply wp_on_server, (wp_with_socket p s); [done|]. apply wp_ok. do 2 eexists. split; [exact Hr1|].
  pose proof (gateway_ok_set_sock p s s1 v g Hok Hs Hok1) as Hg1. set (v1 := set_sock p s1 v) in *.
  assert (Hs1 : sock v1 p = Some s1) by (unfold v1; rewrite (sock_set_sock p p s) by done; by rewrite decide_True).
  wp_step. apply wp_on_server, (wp_with_socket p s1); [done|]. apply wp_ok. do 2 eexists. split; [exact Hr2|].
  apply HQ; [by eapply gateway_ok_set_sock|]. split.
  2: { intros q Hq. unfold v1. rewrite (sock_set_sock p q s1), (sock_set_sock p q s) by done.
       repeat case_decide; congruence. }
  intros q x Hx. rewrite (sock_set_sock p q s1) by done. case_decide as Hpq.
  - subst q. assert (x = s) as -> by congruence. exists s2. split; [done|].
    unfold inbound. rewrite Ho2, Ho1, Hi2, Hi1, Hn2, Hn1, Hf2, Hf1, Hw2, Hw1, <- app_assoc. done.
  - exists x. unfold v1. rewrite (sock_set_sock p q s), decide_False by done. by rewrite app_nil_r.
Qed.

Lemma wp_respondLoop : forall rs fuel v g (Q : unit -> World -> Prop),
  gateway_ok v g -> contents (rxResponses_ g) = rs -> (length rs < fuel)%nat ->
  Forall (responds_to (mapClientToSocket_ g)) rs -> room_out (mapClientToSocket_ g) (50 * Z.of_nat (length rs)) v ->
  (forall v' g', gateway_ok v' g' -> contents (rxResponses_ g') = [] ->
     sent_on (fun p => response_frames (mapClientToSocket_ g) p (mapClientToTxNSeq_ g) rs) v v' ->
     mapClientToSocket_ g' = mapClientToSocket_ g -> mapClientToRxNSeq_ g' = mapClientToRxNSeq_ g ->
     fifo_ g' = fifo_ g -> Q tt (v', g')) ->
  wp (respondLoop fuel) Q (v, g).
Proof.
  induction rs as [|r rs IH]; intros fuel v g Q Hok Hc Hfuel Hrs Hroom HQ;
    (destruct fuel as [|fuel]; [cbn in Hfuel; lia|]); cbn [respondLoop];
    pose proof (go_responses _ _ Hok) as Hq; pose proof (length_contents _ Hq) as Hlen; rewrite Hc in Hlen;
    wp_step; apply wp_on_gateway, wp_get; unfold getNextToRead.
  { destruct (Z.ltb_spec 0 (numElements_ (rxResponses_ g))); [cbn in Hlen; lia|].
    apply wp_ret. apply HQ; try done. split; [|done]. intros p s Hs. exists s. by rewrite app_nil_r. }
  destruct (Z.ltb_spec 0 (numElements_ (rxResponses_ g))); [|cbn in Hlen; lia].
  rewrite contents_cons in Hc by done. injection Hc as Hhead Htail.
  rewrite Hhead. apply Forall_cons in Hrs as [[Hcl [p Hp]] Hrs]. set (c := rs_clientId r) in *.
  destruct (lookup_lt_is_Some_2 (mapClientToTxNSeq_ g) (Z.to_nat c)) as [n Hn];
    [pose proof (go_tx _ _ Hok); unfold client_ok in Hcl; lia|].
  wp_step. unfold array_get. rewrite Hn. apply wp_ret.
  wp_step. apply wp_logged. intros ls. set (v1 := add_logs ls v).
  pose proof (grows_logs ls v (go_server _ _ Hok)) as Hg1. pose proof (gateway_ok_grows _ _ _ Hg1 Hok) as Hok1.
  wp_step. apply wp_require; [by apply bool_decide_true; rewrite Hp|]. rewrite Hp. wp_step. apply wp_ret.
  destruct (go_map _ _ Hok c p Hp) as [s Hs]. pose proof (gr_sock _ _ Hg1 p s Hs) as Hs1.
  cbn [length] in Hroom. apply (wp_send_response p s n r); [done|done|specialize (Hroom c p s Hp Hs); lia|].
  intros v2 Hok2 [Hsent2 Hnone2].
  destruct (updateReadIndex_spec (rxResponses_ g)) as (q' & Hupd & Hq' & Hcq & _); [done|lia|].
  wp_step. apply wp_on_gateway, wp_zoom, wp_ok. do 2 eexists. split; [exact Hupd|].
  wp_step. apply wp_on_gateway, wp_modify.
  assert (Hcont : contents q' = rs).
  { rewrite contents_cons in Hcq by (done || lia). injection Hcq as Hcq. by rewrite <- Hcq, Htail. }
  apply (IH _ _ _ Q).
  - destruct Hok2 as [? ? ? Htx ? ?]. split; try done. cbn. by rewrite length_insert.
  - exact Hcont.
  - cbn in Hfuel. lia.
  - exact Hrs.
  - intros k q x Hk Hx. destruct (go_map _ _ Hok k q Hk) as [y Hy].
    destruct (Hsent2 q y (gr_sock _ _ Hg1 q y Hy)) as (x' & Hx' & Ho & _).
    assert (x' = x) as -> by congruence. specialize (Hroom k q y Hk Hy). rewrite Ho, blen_app.
    case_decide; [rewrite length_ogs_response|change (blen []) with 0]; lia.
  - intros v3 g3 Hok3 Hc3 [Hsent3 Hnone3] Hm3 Hrx3 Hfi3. apply HQ; [done|done| |done|done|done].
    split; [|by intros q Hq0; apply Hnone3, Hnone2].
    intros q y Hy. destruct (Hsent2 q y (gr_sock _ _ Hg1 q y Hy)) as (y2 & Hy2 & Ho2 & Hi2 & Hf2 & Hw2).
    destruct (Hsent3 q y2 Hy2) as (y3 & Hy3 & Ho3 & Hi3 & Hf3 & Hw3). exists y3. split; [done|].
    rewrite Ho3, Ho2, Hi3, Hi2, Hf3, Hf2, Hw3, Hw2, <- app_assoc. split; [|done]. f_equal.
    cbn [response_frames]. fold c. rewrite Hp, Hn. cbn [default]. f_equal.
    repeat case_decide; try done; congruence.
Qed.

(** C20. The responses of one turn.  When every response is for a client with a
    socket that has room, the loop of run takes all of them from the queue,
    oldest first, and appends to each socket exactly the encodings of its
    clients' responses in that order, each behind that client's next sequence
    number; nothing else changes on any socket. *)
Theorem responses_reach_their_sockets v g rs :
  gateway_ok v g -> contents (rxResponses_ g) = rs ->
  Forall (responds_to (mapClientToSocket_ g)) rs ->
  room_out (mapClientToSocket_ g) (50 * Z.of_nat (length rs)) v ->
  exists v' g', respondLoop (S (Z.to_nat (LFQueue.size (rxResponses_ g)))) (v, g) = Ok (tt, (v', g')) /\
    gateway_ok v' g' /\ contents (rxResponses_ g') = [] /\
    sent_on (fun p => response_frames (mapClientToSocket_ g) p (mapClientToTxNSeq_ g) rs) v v'.
Proof.
  intros Hok Hc Hrs Hroom.
  assert (Hw : wp (respondLoop (S (Z.to_nat (LFQueue.size (rxResponses_ g))))) (fun _ w =>
    gateway_ok w.1 w.2 /\ contents (rxResponses_ w.2) = [] /\
    sent_on (fun p => response_frames (mapClientToSocket_ g) p (mapClientToTxNSeq_ g) rs) v w.1) (v, g)).
  { apply (wp_respondLoop rs); try done.
    pose proof (length_contents _ (go_responses _ _ Hok)) as Hl. rewrite Hc in Hl. unfold LFQueue.size. lia. }
  apply wp_ok in Hw as ([] & [v' g'] & Hrun & ? & ? & ?). by exists v', g'.
Qed.

(** A response for a client without a socket ends the process: the loop
    asserts that the socket is there. *)
Theorem response_without_socket_asserts v g r rs :
  gateway_ok v g -> contents (rxResponses_ g) = r :: rs -> client_ok (rs_clientId r) ->
  mapClientToSocket_ g !! rs_clientId r = None ->
  faults (respondLoop (S (Z.to_nat (LFQueue.size (rxResponses_ g))))) (v, g) AssertFailed.
Proof.
  intros Hok Hc Hcl Hm. pose proof (go_responses _ _ Hok) as Hq.
  pose proof (length_contents _ Hq) as Hlen. rewrite Hc in Hlen. cbn [length] in Hlen.
  cbn [respondLoop]. apply faults_bind, wp_on_gateway, wp_get. unfold getNextToRead.
  destruct (Z.ltb_spec 0 (numElements_ (rxResponses_ g))); [|lia].
  rewrite contents_cons in Hc by done. injection Hc as Hhead _. rewrite Hhead.
  destruct (lookup_lt_is_Some_2 (mapClientToTxNSeq_ g) (Z.to_nat (rs_clientId r))) as [n Hn];
    [pose proof (go_tx _ _ Hok); unfold client_ok in Hcl; lia|].
  apply faults_bind. unfold array_get. rewrite Hn. apply wp_ret.
  apply faults_bind, wp_net; [apply Hok|]. intros v1 _. rewrite Hm. done.
Qed.

End Responding.

(** *** Witnesses *)
Definition demo_frame (c n : Z) : OGSClientRequest :=
  mkOGSRequest n (mkRequest RequestType.NEW c 0 n Side.BUY 100 5).
(** Client 3 skips number 2. *)
Definition demo_fs : list OGSClientRequest := [demo_frame 3 1; demo_frame 3 3; demo_frame 4 1].
Definition demo_rest : list Z := [1; 0; 0].

Definition socket_with (bs : list Z) : TCPSocket :=
  mkSocket 7 ∅ (write_bytes ∅ 0 bs) 0 (blen bs) [].

(** A server with one connection. *)
Definition server_with (s : TCPSocket) : TCPServer :=
  mkServer 3 [mkInterest 4 Listener (Z.lor EPOLLET EPOLLIN); mkInterest 7 (Pooled 0) (Z.lor EPOLLET EPOLLIN)]
    newTCPSocket [Pooled 0] []
    (mkPool {[0 := mkBlock (Some s) false]} MAX_EVENTS 1 (MAX_EVENTS - 1) 0) [].

Definition demo_gateway : OrderGatewayServer := newGateway (newQueue 8) (newQueue 8).
Lemma socket_with_ok bs :
  Forall is_byte bs -> blen bs <= TCPBufferSize ->
  socket_ok (socket_with bs) /\ inbound (socket_with bs) = bs.
Proof.
  intros Hb Hl. pose proof (blen_nonneg bs).
  assert (Hi : inbound (socket_with bs) = bs) by apply read_write_same.
  split; [|done]. split; [cbn; lia|cbn; done|by rewrite Hi].
Qed.

Lemma server_with_ok s : socket_ok s -> server_ok (server_with s) /\ sock (server_with s) (Pooled 0) = Some s.
Proof.
  intros Hs. assert (Hlive : live (socketPool_ (server_with s)) = {[0 := s]}).
  { apply map_eq. intros i. unfold live. cbn [server_with socketPool_ memoryBlocks_].
    rewrite lookup_omap, !lookup_singleton. by case_decide. }
  assert (Hin : forall i x, live (socketPool_ (server_with s)) !! i = Some x -> i = 0 /\ x = s).
  { intros i x. rewrite Hlive, lookup_singleton_Some. by intros [<- <-]. }
  split; [|cbn [sock]; by rewrite Hlive, lookup_singleton_eq].
  split; [split|..].
  - change (0 < 1024 < 2 ^ 64). lia.
  - change (0 <= 1 < 1024). lia.
  - intros i b. cbn [server_with socketPool_ memoryBlocks_]. rewrite lookup_singleton_Some.
    by intros [_ <-].
  - intros i x [-> _]%Hin. change (0 <= 0 < 1024). lia.
  - rewrite Hlive, map_size_singleton. change (1023 = 1024 - 1). lia.
  - intros _. rewrite Hlive. apply lookup_singleton_ne. cbn. lia.
  - intros [|i] x; cbn [sock]; [intros [= <-]; apply newTCPSocket_ok|]. by intros [_ ->]%Hin.
  - apply NoDup_singleton.
  - done.
  - intros p ->%list_elem_of_singleton. exists s. cbn [sock]. by rewrite Hlive, lookup_singleton_eq.
  - intros x [-> | ->%list_elem_of_singleton]%elem_of_cons; (split; [done|]); [by eexists|].
    exists s. cbn [in_ptr sock]. by rewrite Hlive, lookup_singleton_eq.
Qed.

Lemma gateway_with_ok q m s :
  queue_ok q -> (forall c p, m !! c = Some p -> p = Pooled 0) -> socket_ok s ->
  gateway_ok (server_with s) (set_rxResponses q (set_socketMap m demo_gateway)).
Proof.
  intros Hq Hm Hs. destruct (server_with_ok s Hs) as [Hv Hsock].
  split; cbn [fifo_ mapClientToRxNSeq_ mapClientToTxNSeq_ mapClientToSocket_ rxResponses_
    set_rxResponses set_socketMap demo_gateway newGateway]; try done.
  intros c p Hp. rewrite (Hm c p Hp). by exists s.
Qed.

Definition fresh_gateway : OrderGatewayServer :=
  set_rxResponses (newQueue 8) (set_socketMap ∅ demo_gateway).

Lemma fresh_gateway_ok s : socket_ok s -> gateway_ok (server_with s) fresh_gateway.
Proof.
  intros Hs. apply gateway_with_ok; [|intros c p Hp; by rewrite lookup_empty in Hp|exact Hs].
  apply newQueue_ok. lia.
Qed.

Lemma demo_fs_ok : Forall ogs_request_ok demo_fs /\ Forall (fun f => client_ok (frame_client f)) demo_fs.
Proof.
  split; repeat (apply Forall_cons; split); try apply Forall_nil_2; try done;
    repeat split; cbn; lia.
Qed.
Lemma demo_bytes_ok : Forall is_byte (frames demo_fs ++ demo_rest).
Proof.
  apply Forall_app. split; [|by repeat constructor]. apply Forall_concat, Forall_fmap, Forall_true.
  intros f. apply ogs_request_bytes.
Qed.

Example rx_callback_forwards_in_sequence_witness :
  let s := socket_with (frames demo_fs ++ demo_rest) in
  exists v' g' acc, rxCallback (Pooled 0) 9
      (server_with s, fresh_gateway) = Ok (tt, (v', g')) /\
    consumed (Pooled 0) s demo_rest (server_with s) v' /\ acc `sublist_of` demo_fs /\
    of_client 3 acc = [demo_frame 3 1] /\ of_client 4 acc = [demo_frame 4 1].
Proof.
  cbn zeta. destruct (socket_with_ok (frames demo_fs ++ demo_rest) demo_bytes_ok) as [Hs Hin];
    [discriminate|].
  destruct (rx_callback_forwards_in_sequence (Pooled 0) 9 (socket_with (frames demo_fs ++ demo_rest))
    demo_fs demo_rest (server_with (socket_with (frames demo_fs ++ demo_rest)))
    fresh_gateway)
    as (v' & g' & acc & Hrun & _ & Hc & _ & _ & Hsub & Hseq).
  - exact (fresh_gateway_ok _ Hs).
  - exact (proj2 (server_with_ok _ Hs)).
  - exact Hin.
  - reflexivity.
  - apply demo_fs_ok.
  - apply demo_fs_ok.
  - vm_compute. discriminate.
  - exists v', g', acc. split; [exact Hrun|]. split; [exact Hc|]. split; [exact Hsub|].
    split; [refine (proj1 (Hseq 3 1 _ _ _ _))|refine (proj1 (Hseq 4 1 _ _ _ _))];
      solve [split; [discriminate|reflexivity]|vm_compute; reflexivity|discriminate|reflexivity].
Defined.

(** The same stream, cut inside the second request. *)
Example stream_cut_anywhere_witness :
  let bs := frames demo_fs ++ demo_rest in
  let g := fresh_gateway in
  exists v' g' s', receiveAll stable_sort (Pooled 0)
      [mkKernel (take 50 bs) (Some (1, 5)) 0; mkKernel (drop 50 bs) None 0]
      (server_with (socket_with []), g) = Ok (tt, (v', g')) /\
    inbound s' = demo_rest /\ let_through (Pooled 0) demo_fs g g'.
Proof.
  cbn zeta. destruct (socket_with_ok [] (Forall_nil_2 _)) as [Hs Hin]; [discriminate|].
  destruct (stream_cut_anywhere stable_sort 0
    [mkKernel (take 50 (frames demo_fs ++ demo_rest)) (Some (1, 5)) 0;
     mkKernel (drop 50 (frames demo_fs ++ demo_rest)) None 0]
    (socket_with []) demo_fs demo_rest (server_with (socket_with []))
    fresh_gateway)
    as (v' & g' & s' & Hrun & _ & Hi & Hl).
  - exact (fresh_gateway_ok _ Hs).
  - exact (proj2 (server_with_ok _ Hs)).
  - reflexivity.
  - repeat (apply Forall_cons; split); [| |apply Forall_nil_2].
    + split; [apply Forall_take, demo_bytes_ok|discriminate].
    + split; [apply Forall_drop, demo_bytes_ok|discriminate].
  - rewrite Hin. cbn [fmap list_fmap concat k_data app]. by rewrite app_nil_r, take_drop.
  - reflexivity.
  - apply demo_fs_ok.
  - apply demo_fs_ok.
  - vm_compute. discriminate.
  - exists v', g', s'. split; [exact Hrun|]. split; [exact Hi|exact Hl].
Defined.

(** Fifty bytes wait, and the kernel has room for 20 of them, then for all. *)
Example unsent_bytes_are_lost_witness :
  let s := mkSocket 7 (write_bytes ∅ 0 (replicate 50 1)) ∅ 50 0 [] in
  exists v' g' s', receiveAll stable_sort (Pooled 0) [mkKernel [] None 20; mkKernel [] None 1000]
      (server_with s, fresh_gateway) = Ok (tt, (v', g')) /\
    sock v' (Pooled 0) = Some s' /\ outbound s' = [] /\ wire_ s' = replicate 20 1.
Proof.
  cbn zeta. set (s := mkSocket 7 (write_bytes ∅ 0 (replicate 50 1)) ∅ 50 0 []).
  assert (Hs : socket_ok s) by (split; done).
  destruct (unsent_bytes_are_lost stable_sort 0 (mkKernel [] None 20) [mkKernel [] None 1000] s [] []
    (server_with s) fresh_gateway) as (v' & g' & s' & Hrun & Hs' & Ho & Hw & _).
  - exact (fresh_gateway_ok _ Hs).
  - exact (proj2 (server_with_ok _ Hs)).
  - reflexivity.
  - by repeat constructor.
  - reflexivity.
  - reflexivity.
  - constructor.
  - constructor.
  - vm_compute. discriminate.
  - exists v', g', s'. split; [exact Hrun|]. split; [exact Hs'|]. split; [exact Ho|].
    rewrite Hw. vm_compute. reflexivity.
Defined.

Example rx_client_id_unchecked_witness :
  faults (rxCallback (Pooled 0) 9)
    (server_with (socket_with (ogs_request_encode (demo_frame 300 1) ++ demo_rest)),
     fresh_gateway) OutOfBounds.
Proof.
  destruct (socket_with_ok (ogs_request_encode (demo_frame 300 1) ++ demo_rest)) as [Hs Hin];
    [apply Forall_app; split; [apply ogs_request_bytes|by repeat constructor]|discriminate|].
  apply (rx_client_id_unchecked (Pooled 0) 9
    (socket_with (ogs_request_encode (demo_frame 300 1) ++ demo_rest)) (demo_frame 300 1) demo_rest).
  - exact (fresh_gateway_ok _ Hs).
  - exact (proj2 (server_with_ok _ Hs)).
  - exact Hin.
  - repeat split; cbn; done || lia.
  - discriminate.
Defined.

Definition demo_responses : list OMEClientResponse :=
  [mkResponse ResponseType.ACCEPTED 3 0 1 1 Side.BUY 100 0 5;
   mkResponse ResponseType.CANCELLED 3 0 1 1 Side.BUY 100 4294967295 5].
Definition demo_queue : LFQueue OMEClientResponse :=
  match run_qcalls (QPush <$> demo_responses) (newQueue 8) with Ok (_, q) => q | Err _ => newQueue 8 end.
Lemma demo_queue_ok : queue_ok demo_queue /\ contents demo_queue = demo_responses.
Proof. split; [|vm_compute; reflexivity]. split; vm_compute; try done; intros; by split. Qed.

(** Two responses for client 3, bound to the connection. *)
Example responses_reach_their_sockets_witness :
  let g := set_rxResponses demo_queue (set_socketMap {[3 := Pooled 0]} demo_gateway) in
  let v := server_with (socket_with []) in
  exists v' g' s', respondLoop (S (Z.to_nat (LFQueue.size (rxResponses_ g)))) (v, g) = Ok (tt, (v', g')) /\
    sock v' (Pooled 0) = Some s' /\
    outbound s' = ogs_response_encode (mkOGSResponse 1 (default dflt (demo_responses !! 0%nat))) ++
                  ogs_response_encode (mkOGSResponse 2 (default dflt (demo_responses !! 1%nat))).
Proof.
  cbn zeta. destruct (socket_with_ok [] (Forall_nil_2 _)) as [Hs Hin]; [discriminate|].
  destruct (server_with_ok (socket_with []) Hs) as [_ Hsock].
  destruct (responses_reach_their_sockets (server_with (socket_with []))
    (set_rxResponses demo_queue (set_socketMap {[3 := Pooled 0]} demo_gateway)) demo_responses)
    as (v' & g' & Hrun & _ & _ & Hsent).
  - apply gateway_with_ok; [apply demo_queue_ok| |done].
    intros c p. rewrite lookup_singleton_Some. by intros [_ <-].
  - apply demo_queue_ok.
  - repeat (apply Forall_cons; split); [| |apply Forall_nil_2];
      (split; [split; [discriminate|reflexivity]|by eexists]).
  - intros c p s Hp. change (({[3 := Pooled 0]} : gmap Z sockptr) !! c = Some p) in Hp.
    apply lookup_singleton_Some in Hp as [_ <-]. rewrite Hsock. intros [= <-].
    vm_compute. discriminate.
  - destruct (proj1 Hsent _ _ Hsock) as (s' & Hs' & Ho & _). exists v', g', s'.
    split; [exact Hrun|]. split; [exact Hs'|]. rewrite Ho. vm_compute. reflexivity.
Defined.

Example response_without_socket_asserts_witness :
  faults (respondLoop (S (Z.to_nat (LFQueue.size demo_queue))))
    (server_with (socket_with []), set_rxResponses demo_queue (set_socketMap ∅ demo_gateway)) AssertFailed.
Proof.
  destruct (socket_with_ok [] (Forall_nil_2 _)) as [Hs Hin]; [discriminate|].
  apply (response_without_socket_asserts (server_with (socket_with []))
    (set_rxResponses demo_queue (set_socketMap ∅ demo_gateway))
    (default dflt (demo_responses !! 0%nat)) [default dflt (demo_responses !! 1%nat)]).
  - apply gateway_with_ok; [apply demo_queue_ok|done|done].
  - apply demo_queue_ok.
  - split; [discriminate|reflexivity].
  - reflexivity.
Defined.
