(* ===== verification/System.v ===== *)
(** The exchange as a whole: the gateway's thread and the engine's thread on the
    queues they share (src/src/core/gateway and src/src/core/matching_engine).

    The order gateway and the matching engine hold references to the same two
    queues.  Their state is kept once, in the gateway's records, and the engine
    runs on it.  An execution is a sequence of [action]s: the calls that make up
    an iteration of the gateway's loop, and turns of the engine's loop, in any
    interleaving.  Inside an action the queues behave as in LFQueue.v; LFQueueLin.v
    shows that one producer's pushes and one consumer's pops are atomic. *)

From S2P Require Import Prelude MemoryPool LFQueue Types Messages Logger Ring Orders OrderBook BookLevels BookModel BookRep BookSpec BookTheorems BookTyping MatchingEngine Main FIFOSequencer TCPSocket TCPServer OrderGateway.
#[local] Open Scope Z_scope.

Record System := mkSystem {
  sy_server : TCPServer;
  sy_gateway : OrderGatewayServer;
  sy_engine : Engine;
}.

(** The engine with the shared queues in place. *)
Definition engine_of (s : System) : Engine :=
  let e := sy_engine s in
  mkEngine (orderBookForTicker_ e) (sq_rxRequests_ (fifo_ (sy_gateway s)))
    (mkOut (rxResponses_ (sy_gateway s)) (txMarketUpdates_ (out_ e)) (log_ (out_ e))) (isRunning_ e).
Definition set_engine (e : Engine) (s : System) : System :=
  mkSystem (sy_server s)
    (set_rxResponses (txResponses_ (out_ e))
       (set_fifo (set_sqRx (rxRequests_ e) (fifo_ (sy_gateway s))) (sy_gateway s))) e.
Definition on_engine {A} (m : M Engine A) : M System A := zoom engine_of set_engine m.

Definition world_of (s : System) : World := (sy_server s, sy_gateway s).
Definition on_world {A} (m : M World A) : M System A :=
  zoom world_of (fun w s => mkSystem w.1 w.2 (sy_engine s)) m.

(** ** Actions *)
Inductive action :=
  | Poll (es : list Event) (acs : list Accepted)   (* server_.poll() *)
  | Receive (p : sockptr) (k : Kernel)             (* sendAndRecv of one socket *)
  | Publish                                        (* recvFinishedCallback_ *)
  | Respond                                        (* the loop over rxResponses_ *)
  | EngineTurn (now : string).

Section Actions.
Context `{StrayMemory OrderBook}.
Context (std_sort : list PendingClientRequest -> list PendingClientRequest).

Definition receive (p : sockptr) (k : Kernel) : M World unit :=
  _ ← sendAndRecv (G := OrderGatewayServer) (H := gateway_client std_sort) p k; mret tt.
Definition respond_all : M World unit :=
  g ← on_gateway get;
  respondLoop (S (Z.to_nat (LFQueue.size (rxResponses_ g)))).

Definition act (a : action) : M System unit :=
  match a with
  | Poll es acs => on_world (on_server (poll es acs))
  | Receive p k => on_world (receive p k)
  | Publish => on_world (rxDoneCallback std_sort)
  | Respond => on_world respond_all
  | EngineTurn now => on_engine (engineTurn now)
  end.

Fixpoint run (acts : list action) : M System unit :=
  match acts with
  | [] => mret tt
  | a :: acts' => act a;; run acts'
  end.

(** ** Invariant *)

(** The client is in range and has a socket. *)
Definition bound (m : gmap Z sockptr) (c : Z) : Prop := client_ok c /\ is_Some (m !! c).
Definition requests (s : System) : list OMEClientRequest := contents (sq_rxRequests_ (fifo_ (sy_gateway s))).
Definition sockets (s : System) : gmap Z sockptr := mapClientToSocket_ (sy_gateway s).

(** Besides the components' own invariants: no socket's buffer holds a whole
    request between the actions, and every client with an order in a book, a
    request on its way or a response on its way has a socket. *)
Record system_ok (s : System) (am : gmap Z ABook) : Prop := {
  ss_gateway : gateway_ok (sy_server s) (sy_gateway s);
  ss_rest : forall p x, sock (sy_server s) p = Some x -> blen (inbound x) < sizeof_OGSClientRequest;
  ss_updates : queue_ok (txMarketUpdates_ (out_ (sy_engine s)));
  ss_books : Books (engine_of s) am;
  ss_orders : forall i a o, am !! i = Some a -> o ∈ all_orders a -> bound (sockets s) (o_clientId o);
  ss_pending : Forall (fun r => bound (sockets s) (rq_clientId r)) (sequenced (sy_gateway s));
  ss_requests : Forall (fun r => bound (sockets s) (rq_clientId r)) (requests s);
  ss_responses : Forall (fun r => bound (sockets s) (rs_clientId r)) (contents (rxResponses_ (sy_gateway s)));
}.

(** What the action relies on: the outside world (events, connections, bytes),
    the ranges nobody checks, and room in the fixed buffers. *)
Definition act_ok (a : action) (s : System) (am : gmap Z ABook) : Prop :=
  match a with
  | Poll es acs =>
      epoll_answer (sy_server s) es /\ maxEvents (sy_server s) <= MAX_EVENTS /\
      Forall (fun ac => ac_configured ac = true /\ ac_ctl ac = 0) acs /\
      Z.of_nat (length acs) <= freeBlocksCount_ (socketPool_ (sy_server s))
  | Receive p k =>
      chunk_ok k /\ exists i x, p = Pooled i /\ sock (sy_server s) p = Some x /\
      forall fs rest, inbound x ++ k_data k = frames fs ++ rest ->
        blen rest < sizeof_OGSClientRequest -> Forall ogs_request_ok fs ->
        Forall (fun f => client_ok (frame_client f)) fs /\ room_for (length fs) (sy_gateway s)
  | Publish => True
  | Respond =>
      room_out (sockets s) (50 * Z.of_nat (length (contents (rxResponses_ (sy_gateway s))))) (sy_server s)
  | EngineTurn _ =>
      match requests s with r :: _ => engine_acceptable r am = true | [] => True end
  end.

Definition next (a : action) (s : System) (am : gmap Z ABook) : gmap Z ABook :=
  match a with
  | EngineTurn _ => match requests s with r :: _ => engine_model r am | [] => am end
  | _ => am
  end.

Fixpoint run_ok (acts : list action) (s : System) (am : gmap Z ABook) : Prop :=
  match acts with
  | [] => True
  | a :: acts' =>
      act_ok a s am /\ forall s', act a s = Ok (tt, s') -> run_ok acts' s' (next a s am)
  end.

(** The states of the reference model along an execution. *)
Fixpoint follows (acts : list action) (s : System) (am am' : gmap Z ABook) : Prop :=
  match acts with
  | [] => am' = am
  | a :: acts' => exists s1, act a s = Ok (tt, s1) /\ follows acts' s1 (next a s am) am'
  end.
End Actions.

(** ** Messages to clients *)
Section Clients.
Context `{StrayMemory OrderBook}.
Implicit Types (m : gmap Z sockptr) (a : ABook) (t : Taker).

Definition event_bound m (ev : OmeEvent) : Prop :=
  match ev with Resp r => bound m (rs_clientId r) | Upd _ => True end.

Lemma events_bound_responses m evs :
  Forall (event_bound m) evs -> Forall (fun r => bound m (rs_clientId r)) (omap resp_of evs).
Proof.
  induction 1 as [|ev evs Hev _ IH]; [constructor|]. destruct ev; cbn; [by constructor|done].
Qed.

Lemma sweep_fills_Forall (P : Order -> Prop) qty os :
  Forall P os -> Forall (fun f => P f.1) (sweep_fills qty os).
Proof.
  intros Hos. unfold sweep_fills. induction Hos as [|o os Ho _ IH]; [constructor|].
  cbn [fmap list_fmap concat]. apply Forall_app. split; [|done].
  unfold order_fills. apply Forall_fmap, Forall_forall. done.
Qed.

Lemma match_events_bound m t fs ws :
  bound m (t_client t) -> Forall (fun f => bound m (o_clientId f.1)) fs ->
  Forall (event_bound m) (match_events t fs ws).
Proof.
  intros Ht Hf. revert ws. induction Hf as [|f fs Hf _ IH]; intros ws; [constructor|].
  destruct ws as [|w ws]; [constructor|]. rewrite match_events_cons. apply Forall_app. split; [|apply IH].
  destruct f as [o [fill rem]]. cbn in Hf. unfold fill_events.
  destruct (rem =? 0); repeat (apply Forall_cons; split); by try apply Forall_nil_2.
Qed.

(** A book only writes to the client of the request and to the clients of its
    orders. *)
Lemma sends_bound m b ticker q a evs :
  View b a -> (forall o, o ∈ all_orders a -> bound m (o_clientId o)) ->
  match q with New c _ _ _ _ | Cancel c _ => bound m c end ->
  acceptable ticker q a = true ->
  sends ticker q a evs -> Forall (event_bound m) evs.
Proof.
  intros Hv Ho Hc Hacc Hs. destruct q as [client oid side price qty|client oid]; cbn [sends] in Hs.
  - destruct Hs as (ws & -> & _ & _). apply acceptable_new in Hacc as (Hsd & _).
    set (t := taker_of ticker a client oid side price qty). unfold add_events.
    apply Forall_cons. split; [done|]. apply Forall_app. split.
    + apply match_events_bound; [done|]. apply (sweep_fills_Forall (fun o => bound m (o_clientId o))).
      apply Forall_forall. intros o Hin. apply Ho. by apply (matched_incl t (set_a_next (a_next a + 1) a)).
    + destruct (t_qty t =? 0); repeat (apply Forall_cons; split); by try apply Forall_nil_2.
  - destruct (a_clients a !! (client, oid)) as [moid|] eqn:Hk.
    + destruct (view_client_order b a client oid moid Hv Hk) as (o & Hin & Hm & Hkey).
      rewrite (Hs o Hin Hm Hkey). unfold cancel_events.
      repeat (apply Forall_cons; split); by try apply Forall_nil_2.
    + subst evs. repeat (apply Forall_cons; split); by try apply Forall_nil_2.
Qed.

(** The orders after a request are the old ones and the request's own. *)
Lemma run_model_bound m ticker q a :
  (forall o, o ∈ all_orders a -> bound m (o_clientId o)) ->
  match q with New c _ _ _ _ | Cancel c _ => bound m c end -> acceptable ticker q a = true ->
  forall o, o ∈ all_orders (run_model ticker q a) -> bound m (o_clientId o).
Proof.
  intros Ho Hc Hacc o Hin. destruct q as [client oid side price qty|client oid]; cbn [run_model] in Hin.
  - apply acceptable_new in Hacc as (Hsd & _).
    set (t := taker_of ticker a client oid side price qty) in *. unfold a_add in Hin.
    destruct (t_qty t =? 0).
    + apply (elem_of_match t) in Hin; [by apply Ho|done].
    + apply elem_of_rest in Hin as [->|Hin]; [done| |done].
      apply (elem_of_match t) in Hin; [by apply Ho|done].
  - apply elem_of_cancel in Hin as [Hin _]. by apply Ho.
Qed.

End Clients.

(** ** Preservation *)
Section Preservation.
Context `{StrayMemory OrderBook}.
Context (std_sort : list PendingClientRequest -> list PendingClientRequest) (Hsort : sort_spec std_sort).
Implicit Types (s : System) (am : gmap Z ABook).

Lemma Forall_kept {A} (P : A -> Prop) cap old new : Forall P old -> Forall P new -> Forall P (kept cap old new).
Proof. intros Ho Hn. unfold kept. apply Forall_app. split; [done|]. by apply Forall_take. Qed.

Lemma wp_on_world {A} (m : M World A) (Q : A -> System -> Prop) s :
  wp m (fun x w => Q x (mkSystem w.1 w.2 (sy_engine s))) (sy_server s, sy_gateway s) ->
  wp (on_world m) Q s.
Proof. intros Hm. apply wp_zoom. exact Hm. Qed.

(** A change of the server that keeps or empties every buffer. *)
Lemma rest_grows v v' :
  grows v v' -> (forall p x, sock v p = Some x -> blen (inbound x) < sizeof_OGSClientRequest) ->
  forall p x, sock v' p = Some x -> blen (inbound x) < sizeof_OGSClientRequest.
Proof. intros Hg Hr p x Hx. destruct (gr_new _ _ Hg p x Hx) as [?|[-> _]]; [by eapply Hr|done]. Qed.

Lemma poll_step es acs s am :
  system_ok s am -> act_ok (Poll es acs) s am ->
  wp (act std_sort (Poll es acs)) (fun _ s' => system_ok s' am) s.
Proof.
  intros [Hg Hr Hu Hb Ho Hp Hq Hs] (Hes & Hmax & Hacs & Hfree). cbn [act].
  apply wp_on_world, wp_on_server. eapply wp_mono; [by apply (wp_poll es acs _ (go_server _ _ Hg))|].
  intros [] v' (Hgr & _). cbn beta. split; try done; [by eapply gateway_ok_grows|by eapply rest_grows].
Qed.

Lemma publish_step s am :
  system_ok s am -> wp (act std_sort Publish) (fun _ s' => system_ok s' am) s.
Proof.
  intros [[Hv Hf ? ? ? ?] Hr Hu Hb Ho Hp Hq Hs]. cbn [act].
  apply wp_on_world, wp_on_gateway, wp_zoom. apply wp_sequenceAndPublish; [done|done|].
  intros f' ps Hok Hnil -> Hc. split; try done.
  - change (Forall (fun r => bound (sockets s) (rq_clientId r)) (pd_request <$> queued f')).
    rewrite Hnil. constructor.
  - change (Forall (fun r => bound (sockets s) (rq_clientId r)) (contents (sq_rxRequests_ f'))).
    rewrite Hc. apply Forall_kept; [done|].
    destruct (Hsort (queued (fifo_ (sy_gateway s)))) as [Hperm _]. by rewrite Hperm.
Qed.

Lemma respond_step s am :
  system_ok s am -> act_ok Respond s am ->
  wp (act std_sort Respond) (fun _ s' => system_ok s' am) s.
Proof.
  intros [Hg Hr Hu Hb Ho Hp Hq Hs] Hroom. cbn [act act_ok] in *.
  apply wp_on_world. unfold respond_all. wp_step. apply wp_on_gateway, wp_get.
  apply (wp_respondLoop (contents (rxResponses_ (sy_gateway s)))); try done.
  { pose proof (length_contents _ (go_responses _ _ Hg)) as Hl. unfold LFQueue.size. lia. }
  intros v' g' Hok Hc [Hsent Hnone] Hm Hrx Hf. split; cbn; try done.
  - intros p x Hx. destruct (sock (sy_server s) p) as [y|] eqn:Hy; [|by rewrite (Hnone p Hy) in Hx].
    destruct (Hsent p y Hy) as (y' & Hy' & _ & Hi & _). assert (y' = x) as -> by congruence.
    rewrite Hi. by apply (Hr p).
  - intros i a o. unfold sockets. cbn. rewrite Hm. apply Ho.
  - unfold sockets, sequenced. cbn. by rewrite Hm, Hf.
  - unfold sockets, requests. cbn. by rewrite Hm, Hf.
  - rewrite Hc. constructor.
Qed.

(** The gate only adds bindings, and binds every client it lets through. *)
Lemma gate_bindings p fs : forall m rx acc m' rx',
  gate p fs m rx = (acc, m', rx') ->
  (forall c, is_Some (m !! c) -> is_Some (m' !! c)) /\
  Forall (fun f => is_Some (m' !! frame_client f)) acc.
Proof.
  induction fs as [|f fs IH]; intros m rx acc m' rx'; cbn [gate]; [by intros [= <- <- <-]|].
  destruct (gate p fs (gate_bind p (frame_client f) m) (gate_count p f m rx)) as [[acc1 m1] rx1] eqn:Hg.
  destruct (IH _ _ _ _ _ Hg) as [Hmono Hacc]. intros [= <- <- <-]. split.
  - intros c Hc. apply Hmono. unfold gate_bind. destruct (m !! frame_client f); [done|].
    rewrite lookup_insert. by case_decide.
  - destruct (gate_accepts p f m rx); [|done]. constructor; [|done]. apply Hmono, gate_bind_some.
Qed.

Lemma Forall_bound_mono {A} (f : A -> Z) m m' l :
  (forall c, is_Some (m !! c) -> is_Some (m' !! c)) ->
  Forall (fun x => bound m (f x)) l -> Forall (fun x => bound m' (f x)) l.
Proof. intros Hm Hl. eapply Forall_impl; [exact Hl|]. intros x [? ?]. split; auto. Qed.

Lemma receive_step p k s am :
  system_ok s am -> act_ok (Receive p k) s am ->
  wp (act std_sort (Receive p k)) (fun _ s' => system_ok s' am) s.
Proof.
  intros [Hg Hr Hu Hb Ho Hp Hq Hs] (Hk & i & x & -> & Hx & Hfr). cbn [act].
  pose proof (sv_sock _ (go_server _ _ Hg) _ _ Hx) as Hsok.
  assert (Hbytes : Forall is_byte (inbound x ++ k_data k)).
  { apply Forall_app. split; [by apply so_bytes|by apply Hk]. }
  destruct (stream_split _ _ (Nat.le_refl _) Hbytes) as (fs & rest & Hin & Hrest & Hfs).
  destruct (Hfr fs rest Hin Hrest Hfs) as [Hcl Hroom].
  apply wp_on_world. unfold receive. wp_step.
  apply (wp_sendAndRecv std_sort i k x fs rest); try done; [by eapply Hr| |].
  { pose proof (gate_length (Pooled i) fs (mapClientToSocket_ (sy_gateway s)) (mapClientToRxNSeq_ (sy_gateway s))).
    unfold room_for in *. lia. }
  intros b v' g' Hok [(x' & Hx' & Hi' & _) [_ Hothers] Hrq Hrs _] (acc & Hgate & Hseq). apply wp_ret.
  destruct (gate_bindings _ _ _ _ _ _ _ Hgate) as [Hmono Hacc].
  apply gate_sublist in Hgate as [Hsub _]. split; cbn; try done.
  - intros p y Hy. destruct (decide (p = Pooled i)) as [->|Hne].
    + assert (y = x') as -> by congruence. by rewrite Hi'.
    + destruct (Hothers p y Hne Hy) as [?|[-> _]]; [by eapply Hr|done].
  - intros j a o Hj Hin'. destruct (Ho j a o Hj Hin') as [? ?]. split; [done|]. by apply Hmono.
  - rewrite Hseq. apply Forall_app. split; [by eapply Forall_bound_mono|]. apply Forall_fmap.
    rewrite Forall_forall in Hcl, Hacc. apply Forall_forall. intros f Hf. split; [|by apply Hacc].
    apply Hcl. eapply elem_of_sublist; done.
  - unfold requests. cbn. rewrite Hrq. by eapply Forall_bound_mono.
  - rewrite Hrs. by eapply Forall_bound_mono.
Qed.

Lemma request_bound m r q :
  request_of r = Some q -> bound m (rq_clientId r) ->
  match q with New c _ _ _ _ | Cancel c _ => bound m c end.
Proof. unfold request_of. by destruct (rq_type r); intros [= <-]. Qed.

(** After a turn the orders of the books and the responses are still those of
    bound clients. *)
Lemma turn_bound m r am e evs :
  Books e am -> (forall i a o, am !! i = Some a -> o ∈ all_orders a -> bound m (o_clientId o)) ->
  bound m (rq_clientId r) -> engine_acceptable r am = true -> turn_sends r am evs ->
  Forall (event_bound m) evs /\
  (forall i a o, engine_model r am !! i = Some a -> o ∈ all_orders a -> bound m (o_clientId o)).
Proof.
  intros Hb Ho Hr Hacc Hs. unfold engine_acceptable, engine_model, turn_sends in *.
  destruct (request_of r) as [q|] eqn:Hq; [|subst evs; split; [constructor|done]].
  destruct (am !! rq_tickerId r) as [a|] eqn:Ha; [|done].
  pose proof (request_bound m r q Hq Hr) as Hqb.
  assert (Hoa : forall o, o ∈ all_orders a -> bound m (o_clientId o)) by (intros o; by apply Ho with (rq_tickerId r)).
  pose proof (Hb (rq_tickerId r)) as Hbk. rewrite Ha in Hbk. inversion Hbk as [b a' Hv E1 E2|]. subst a'.
  split; [by eapply sends_bound|]. intros i a' o. rewrite lookup_insert. case_decide.
  - intros [= <-]. by apply run_model_bound.
  - apply Ho.
Qed.

Lemma engine_step_ok now s am :
  system_ok s am -> act_ok (EngineTurn now) s am ->
  wp (act std_sort (EngineTurn now)) (fun _ s' => system_ok s' (next (EngineTurn now) s am)) s.
Proof.
  intros [Hg Hr Hu Hb Ho Hp Hq Hs] Hacc. cbn [act act_ok next] in *.
  apply wp_zoom. apply (wp_turn_sends now (engine_of s) am); try done.
  { apply (sk_rx _ (go_fifo _ _ Hg)). }
  { split; [apply (go_responses _ _ Hg)|done]. }
  intros e' evs Hq' [Ht' Hm'] _ Hc' Hb' Hs' _ _ Hresp _. cbn [engine_of rxRequests_ out_ txResponses_] in *.
  fold (requests s) in *.
  assert (Hbd : Forall (event_bound (sockets s)) evs /\ forall i a o,
    match requests s with r :: _ => engine_model r am | [] => am end !! i = Some a ->
    o ∈ all_orders a -> bound (sockets s) (o_clientId o)).
  { destruct (requests s) as [|r rs]; [rewrite Hs'; split; [constructor|done]|].
    apply Forall_cons in Hq as [Hr1 _]. by eapply turn_bound. }
  destruct Hbd as [Hev Hord]. split; cbn; try done.
  - destruct Hg as [? [? ? ?] ? ? ? ?]. by split.
  - change (Forall (fun r => bound (sockets s) (rq_clientId r)) (contents (rxRequests_ e'))).
    rewrite Hc'. destruct (requests s); [done|]. by apply Forall_cons in Hq as [_ ?].
  - rewrite Hresp. apply Forall_kept; [done|]. by apply events_bound_responses.
Qed.

(** Every action preserves the invariant and faults nowhere. *)
Lemma act_preserves a s am :
  system_ok s am -> act_ok a s am ->
  wp (act std_sort a) (fun _ s' => system_ok s' (next a s am)) s.
Proof.
  intros Hs Ha. destruct a; [by apply poll_step|by apply receive_step|by apply publish_step|
    by apply respond_step|by apply engine_step_ok].
Qed.

(** C6. Safety of the exchange.  Whatever the interleaving of the gateway's calls
    with turns of the engine, as long as the bytes from outside name clients in
    range, the fixed buffers have room and the requests that reach a book are
    acceptable to it, nothing faults: in particular no response ever lacks its
    client's socket, no whole request is left unread in a buffer, every pool,
    queue and list keeps its invariant, and the books show what the reference
    model makes of the requests the engine took. *)
Theorem system_never_faults acts : forall s am,
  system_ok s am -> run_ok std_sort acts s am ->
  exists s' am', run std_sort acts s = Ok (tt, s') /\ follows std_sort acts s am am' /\ system_ok s' am'.
Proof.
  induction acts as [|a acts IH]; intros s am Hs Hok; [by exists s, am|].
  destruct Hok as [Ha Hrest]. pose proof (act_preserves a s am Hs Ha) as Hw.
  apply wp_ok in Hw as ([] & s1 & Hact & Hs1).
  destruct (IH s1 (next a s am) Hs1 (Hrest s1 Hact)) as (s' & am' & Hrun & Hf & Hs').
  exists s', am'. split; [|by split; [exists s1|]]. cbn [run]. by rewrite (bind_ok _ _ _ _ _ Hact).
Qed.

(** ** The gateway's loop *)
Lemma run_app acts1 acts2 s s1 :
  run std_sort acts1 s = Ok (tt, s1) -> run std_sort (acts1 ++ acts2) s = run std_sort acts2 s1.
Proof.
  revert s. induction acts1 as [|a acts1 IH]; intros s; cbn [run app]; [by intros [= <-]|].
  intros ([] & s2 & Ha & Hr)%bind_inv. rewrite (bind_ok _ _ _ _ _ Ha). by apply IH.
Qed.

Lemma on_world_ok {A} (m : M World A) w e x w' :
  m w = Ok (x, w') -> on_world m (mkSystem w.1 w.2 e) = Ok (x, mkSystem w'.1 w'.2 e).
Proof. intros Hm. unfold on_world, zoom. destruct w. cbn. unfold world_of. cbn. by rewrite Hm. Qed.

Lemma receive_all_run (kernel : sockptr -> Kernel) e ps : forall w r w',
  sendAndRecvAll (G := OrderGatewayServer) (H := gateway_client std_sort) kernel ps w = Ok (r, w') ->
  run std_sort ((fun p => Receive p (kernel p)) <$> ps) (mkSystem w.1 w.2 e) = Ok (tt, mkSystem w'.1 w'.2 e).
Proof.
  induction ps as [|p ps IH]; intros w r w'; cbn [sendAndRecvAll]; [by intros [= <- <-]|].
  intros (r1 & w1 & H1 & (r2 & w2 & H2 & [= _ <-])%bind_inv)%bind_inv. cbn [fmap list_fmap run act].
  rewrite (bind_ok _ _ _ tt (mkSystem w1.1 w1.2 e)); [by apply (IH w1 r2)|].
  apply on_world_ok. unfold receive. by rewrite (bind_ok _ _ _ _ _ H1).
Qed.

(** An iteration of run's loop is the sequence of actions it is written as: a
    poll, one read of every socket in the receive list, the publication if any
    of them got bytes, one read of every socket in the send list, the responses. *)
Lemma gateway_turn_is_actions es acs kr ks s s' :
  on_world (gatewayTurn std_sort es acs kr ks) s = Ok (tt, s') ->
  exists s1 s2 (got : bool),
    act std_sort (Poll es acs) s = Ok (tt, s1) /\
    run std_sort (((fun p => Receive p (kr p)) <$> receiveSockets_ (sy_server s1)) ++
                  (if got then [Publish] else [])) s1 = Ok (tt, s2) /\
    run std_sort (((fun p => Receive p (ks p)) <$> sendSockets_ (sy_server s2)) ++ [Respond]) s2 = Ok (tt, s').
Proof.
  destruct s as [v g e]. unfold on_world, zoom. change (world_of (mkSystem v g e)) with (v, g).
  destruct (gatewayTurn std_sort es acs kr ks (v, g)) as [[[] w']|] eqn:Ht; [|discriminate]. intros [= <-].
  unfold gatewayTurn in Ht. apply bind_inv in Ht as ([] & w1 & Hpoll & Ht).
  apply bind_inv in Ht as ([] & w4 & Hsr & Hresp). unfold sendAndReceive in Hsr.
  apply bind_inv in Hsr as (v1 & w1' & Hget & Hsr). injection Hget as <- <-.
  apply bind_inv in Hsr as (got & w2 & Hrecv & Hsr). apply bind_inv in Hsr as ([] & w3 & Hfin & Hsr).
  apply bind_inv in Hsr as (v3 & w3' & Hget & Hsr). injection Hget as <- <-.
  apply bind_inv in Hsr as (r & w5 & Hsend & Hret). injection Hret as <-.
  exists (mkSystem w1.1 w1.2 e), (mkSystem w3.1 w3.2 e), got.
  split; [by apply (on_world_ok (on_server (poll es acs)) (v, g) e)|]. destruct w1 as [v1 g1], w3 as [v3 g3].
  split.
  - rewrite (run_app _ _ _ _ (receive_all_run kr e _ _ _ _ Hrecv)). destruct got.
    + cbn [run act]. rewrite (bind_ok _ _ _ tt (mkSystem v3 g3 e)); [done|].
      by apply (on_world_ok (rxDoneCallback std_sort) w2 e tt (v3, g3)).
    + by injection Hfin as ->.
  - rewrite (run_app _ _ _ _ (receive_all_run ks e _ _ _ _ Hsend)).
    cbn [run act]. rewrite (bind_ok _ _ _ tt (mkSystem w'.1 w'.2 e)); [done|].
    by apply (on_world_ok respond_all w5 e tt w').
Qed.

(** ** Answers *)

(** As many turns as there are queued requests. *)
Lemma run_turns clock : forall s am,
  system_ok s am -> engine_acceptable_session (requests s) am = true ->
  length clock = length (requests s) ->
  exists s' evs, run std_sort (EngineTurn <$> clock) s = Ok (tt, s') /\
    system_ok s' (engine_session (requests s) am) /\ requests s' = [] /\
    session_sends (requests s) am evs /\
    sy_server s' = sy_server s /\ sockets s' = sockets s /\
    mapClientToTxNSeq_ (sy_gateway s') = mapClientToTxNSeq_ (sy_gateway s) /\
    capacity_ (rxResponses_ (sy_gateway s')) = capacity_ (rxResponses_ (sy_gateway s)) /\
    contents (rxResponses_ (sy_gateway s')) =
      kept (capacity_ (rxResponses_ (sy_gateway s))) (contents (rxResponses_ (sy_gateway s))) (omap resp_of evs).
Proof.
  induction clock as [|now clock IH]; intros s am Hs Hacc Hlen.
  { destruct (requests s) as [|r rs] eqn:Hr; [|done]. exists s, [].
    split_and!; try done. cbn. by rewrite kept_nil. }
  destruct (requests s) as [|r rs] eqn:Hr; [done|]. cbn in Hlen. injection Hlen as Hlen.
  apply andb_true_iff in Hacc as [Ha Hacc].
  assert (Hok : act_ok (EngineTurn now) s am) by (cbn; by rewrite Hr).
  pose proof (engine_step_ok now s am Hs Hok) as Hw. cbn [next] in Hw. rewrite Hr in Hw.
  assert (Hw2 : wp (act std_sort (EngineTurn now)) (fun _ s1 => exists evs1,
      requests s1 = rs /\ turn_sends r am evs1 /\ sy_server s1 = sy_server s /\ sockets s1 = sockets s /\
      mapClientToTxNSeq_ (sy_gateway s1) = mapClientToTxNSeq_ (sy_gateway s) /\
      capacity_ (rxResponses_ (sy_gateway s1)) = capacity_ (rxResponses_ (sy_gateway s)) /\
      contents (rxResponses_ (sy_gateway s1)) = kept (capacity_ (rxResponses_ (sy_gateway s)))
        (contents (rxResponses_ (sy_gateway s))) (omap resp_of evs1)) s).
  { destruct Hs as [Hg _ Hu Hb _ _ _ _]. cbn [act]. apply wp_zoom.
    apply (wp_turn_sends now (engine_of s) am); try done.
    - apply (sk_rx _ (go_fifo _ _ Hg)).
    - split; [apply (go_responses _ _ Hg)|done].
    - intros e' evs _ _ _ Hc _ Hse Hcap _ Hre _. exists evs.
      change (contents (rxRequests_ (engine_of s))) with (requests s) in *. rewrite Hr in *. by split_and!. }
  apply wp_ok in Hw as ([] & s1 & Hrun & Hs1). unfold wp in Hw2. rewrite Hrun in Hw2.
  destruct Hw2 as (evs1 & Hr1 & He1 & Hv1 & Hm1 & Ht1 & Hc1 & Hre1).
  destruct (IH s1 (engine_model r am) Hs1) as (s' & evs2 & Hrun2 & Hs' & Hr2 & He2 & Hv2 & Hm2 & Ht2 & Hc2 & Hre2);
    [by rewrite Hr1..|]. rewrite Hr1 in *.
  exists s', (evs1 ++ evs2). cbn [fmap list_fmap run]. rewrite (bind_ok _ _ _ _ _ Hrun).
  split_and!; [done|done|done|by exists evs1, evs2|congruence..|].
  rewrite Hre2, Hre1, Hc1, kept_app, omap_app by apply (qok_cap _ (go_responses _ _ (ss_gateway _ _ Hs))). done.
Qed.

Lemma turns_then_respond clock s am :
  system_ok s am -> engine_acceptable_session (requests s) am = true ->
  length clock = length (requests s) ->
  room_out (sockets s) (50 * capacity_ (rxResponses_ (sy_gateway s))) (sy_server s) ->
  exists s' evs, run std_sort ((EngineTurn <$> clock) ++ [Respond]) s = Ok (tt, s') /\
    system_ok s' (engine_session (requests s) am) /\
    requests s' = [] /\ contents (rxResponses_ (sy_gateway s')) = [] /\
    session_sends (requests s) am evs /\
    sent_on (fun p => response_frames (sockets s) p (mapClientToTxNSeq_ (sy_gateway s))
      (kept (capacity_ (rxResponses_ (sy_gateway s))) (contents (rxResponses_ (sy_gateway s)))
         (omap resp_of evs)))
      (sy_server s) (sy_server s').
Proof.
  intros Hs Hacc Hlen Hroom.
  destruct (run_turns clock s am Hs Hacc Hlen) as (s1 & evs & Hrun & Hs1 & Hr1 & He & Hv1 & Hm1 & Ht1 & Hc1 & Hre1).
  pose proof (length_kept _ (omap resp_of evs) (go_responses _ _ (ss_gateway _ _ Hs))) as Hlk.
  pose proof (qok_cap _ (go_responses _ _ (ss_gateway _ _ Hs))) as Hcap.
  assert (Hroom1 : act_ok Respond s1 (engine_session (requests s) am)).
  { cbn [act_ok]. rewrite Hm1, Hv1, Hre1. intros c p x Hp Hx. specialize (Hroom c p x Hp Hx). lia. }
  pose proof (respond_step s1 _ Hs1 Hroom1) as Hw.
  assert (Hw2 : wp (act std_sort Respond) (fun _ s' =>
    requests s' = [] /\ contents (rxResponses_ (sy_gateway s')) = [] /\
    sent_on (fun p => response_frames (sockets s1) p (mapClientToTxNSeq_ (sy_gateway s1))
      (contents (rxResponses_ (sy_gateway s1)))) (sy_server s1) (sy_server s')) s1).
  { pose proof (ss_gateway _ _ Hs1) as Hg. cbn [act act_ok] in *. apply wp_on_world. unfold respond_all.
    wp_step. apply wp_on_gateway, wp_get.
    apply (wp_respondLoop (contents (rxResponses_ (sy_gateway s1)))); try done.
    - pose proof (length_contents _ (go_responses _ _ Hg)) as Hl. unfold LFQueue.size. lia.
    - apply (ss_responses _ _ Hs1).
    - intros v' g' _ Hc Hsent _ _ Hf. split_and!; try done.
      unfold requests. cbn. rewrite Hf. exact Hr1. }
  apply wp_ok in Hw as ([] & s' & Hresp & Hs'). unfold wp in Hw2. rewrite Hresp in Hw2.
  destruct Hw2 as (Hr' & Hc' & Hsent). rewrite Hm1, Ht1, Hre1, Hv1 in Hsent. exists s', evs.
  rewrite (run_app _ _ _ _ Hrun). cbn [run]. rewrite (bind_ok _ _ _ _ _ Hresp). by split_and!.
Qed.

(** C9. Queued requests are answered.  When all requests of the queue are
    acceptable, as many turns of the engine and one pass of the response loop
    leave both shared queues empty and every book at the model's state.  What has
    then been appended to each client's outbound buffer, numbered from the
    client's next sequence number on, are exactly the responses that were waiting
    and the first of those the books send for the requests, in order, as many as
    fit the response queue; the books' responses beyond its capacity are dropped. *)
Theorem queued_requests_are_answered clock s am :
  system_ok s am -> engine_acceptable_session (requests s) am = true ->
  length clock = length (requests s) ->
  room_out (sockets s) (50 * capacity_ (rxResponses_ (sy_gateway s))) (sy_server s) ->
  exists s' evs, run std_sort ((EngineTurn <$> clock) ++ [Respond]) s = Ok (tt, s') /\
    system_ok s' (engine_session (requests s) am) /\
    requests s' = [] /\ contents (rxResponses_ (sy_gateway s')) = [] /\
    session_sends (requests s) am evs /\
    sent_on (fun p => response_frames (sockets s) p (mapClientToTxNSeq_ (sy_gateway s))
      (kept (capacity_ (rxResponses_ (sy_gateway s))) (contents (rxResponses_ (sy_gateway s)))
         (omap resp_of evs)))
      (sy_server s) (sy_server s').
Proof. apply turns_then_respond. Qed.

(** ** A request from the wire *)

(** Nothing is on its way. *)
Definition idle s : Prop :=
  sequenced (sy_gateway s) = [] /\ requests s = [] /\ contents (rxResponses_ (sy_gateway s)) = [].

(** Reading the bytes of one request that the gate accepts. *)
Lemma receive_one i k x f s am :
  system_ok s am -> sequenced (sy_gateway s) = [] ->
  sock (sy_server s) (Pooled i) = Some x -> inbound x = [] ->
  chunk_ok k -> k_data k = ogs_request_encode f -> ogs_request_ok f -> client_ok (frame_client f) ->
  gate_accepts (Pooled i) f (sockets s) (mapClientToRxNSeq_ (sy_gateway s)) = true ->
  exists s', act std_sort (Receive (Pooled i) k) s = Ok (tt, s') /\ system_ok s' am /\
    read_on (Pooled i) k x [] (sy_server s) (sy_gateway s) (sy_server s') (sy_gateway s') /\
    sequenced (sy_gateway s') = [og_omeRequest f] /\
    sockets s' = gate_bind (Pooled i) (frame_client f) (sockets s).
Proof.
  intros Hs Hseq Hx Hin Hk Hdata Hf Hc Hacc. pose proof (ss_gateway _ _ Hs) as Hg.
  assert (Hbytes : inbound x ++ k_data k = frames [f] ++ []).
  { rewrite Hin, Hdata, app_nil_r. cbn. by rewrite app_nil_r. }
  assert (Hroom : room_for 1 (sy_gateway s)).
  { pose proof (length_queued _ (go_fifo _ _ Hg)) as Hl. unfold sequenced in Hseq.
    apply fmap_nil_inv in Hseq. rewrite Hseq in Hl. unfold room_for. rewrite <- Hl. done. }
  assert (Hok : act_ok (Receive (Pooled i) k) s am).
  { split; [done|]. exists i, x. split; [done|]. split; [done|]. intros fs rest Hfs Hrest Hfok.
    rewrite Hbytes in Hfs. destruct (stream_unique [f] fs [] rest Hfs) as [<- _]; [by apply Forall_singleton|done|done|done|].
    split; [by apply Forall_singleton|done]. }
  pose proof (receive_step (Pooled i) k s am Hs Hok) as Hw.
  assert (Hw2 : wp (act std_sort (Receive (Pooled i) k)) (fun _ s' =>
    read_on (Pooled i) k x [] (sy_server s) (sy_gateway s) (sy_server s') (sy_gateway s') /\
    let_through (Pooled i) [f] (sy_gateway s) (sy_gateway s')) s).
  { cbn [act]. apply wp_on_world. unfold receive. wp_step.
    apply (wp_sendAndRecv std_sort i k x [f] []); try done; try (by apply Forall_singleton); [by rewrite Hin|].
    pose proof (gate_length (Pooled i) [f] (mapClientToSocket_ (sy_gateway s)) (mapClientToRxNSeq_ (sy_gateway s))).
    unfold room_for in *. cbn [length] in *. lia. }
  apply wp_ok in Hw as ([] & s' & Hrun & Hs'). unfold wp in Hw2. rewrite Hrun in Hw2.
  destruct Hw2 as [Hread (acc & Hgate & Hsq)]. exists s'. split; [done|]. split; [done|]. split; [done|].
  rewrite gate_cons in Hgate. cbn [gate] in Hgate. unfold sockets in Hacc. rewrite Hacc in Hgate.
  injection Hgate as <- Hm _. rewrite Hsq, Hseq. by split.
Qed.

(** Publishing a single request. *)
Lemma publish_one r s am :
  system_ok s am -> sequenced (sy_gateway s) = [r] -> requests s = [] ->
  0 < capacity_ (sq_rxRequests_ (fifo_ (sy_gateway s))) ->
  exists s', act std_sort Publish s = Ok (tt, s') /\ system_ok s' am /\ requests s' = [r] /\
    sy_server s' = sy_server s /\ sockets s' = sockets s /\ rxResponses_ (sy_gateway s') = rxResponses_ (sy_gateway s) /\
    mapClientToTxNSeq_ (sy_gateway s') = mapClientToTxNSeq_ (sy_gateway s).
Proof.
  intros Hs Hseq Hnil Hcap. pose proof (publish_step s am Hs) as Hw.
  assert (Hw2 : wp (act std_sort Publish) (fun _ s' => requests s' = [r] /\
    sy_server s' = sy_server s /\ sockets s' = sockets s /\ rxResponses_ (sy_gateway s') = rxResponses_ (sy_gateway s) /\
    mapClientToTxNSeq_ (sy_gateway s') = mapClientToTxNSeq_ (sy_gateway s)) s).
  { cbn [act]. apply wp_on_world, wp_on_gateway, wp_zoom.
    apply wp_sequenceAndPublish; [done|apply (go_fifo _ _ (ss_gateway _ _ Hs))|].
    intros f' ps _ _ -> Hc. split_and!; try done.
    unfold requests in *. cbn. rewrite Hc, Hnil. unfold sequenced in Hseq.
    destruct (Hsort (queued (fifo_ (sy_gateway s)))) as [Hperm _].
    destruct (queued (fifo_ (sy_gateway s))) as [|p [|? ?]]; try done. injection Hseq as Hp.
    apply Permutation_singleton_r in Hperm. rewrite Hperm. cbn. rewrite Hp.
    unfold kept. cbn [app length]. rewrite take_ge; [done|]. cbn. lia. }
  apply wp_ok in Hw as ([] & s' & Hrun & Hs'). unfold wp in Hw2. rewrite Hrun in Hw2.
  destruct Hw2 as (? & ? & ? & ? & ?). exists s'. by split_and!.
Qed.

(** Binding a client to a socket that has nothing to send leaves the room. *)
Lemma room_after p c m n v v' :
  n <= TCPBufferSize -> room_out m n v -> others p v v' ->
  (exists x, sock v' p = Some x /\ outbound x = []) -> room_out (gate_bind p c m) n v'.
Proof.
  intros Hn Hroom [_ Hoth] (x & Hx & Hout) c' q y Hq Hy. destruct (decide (q = p)) as [->|Hne].
  { assert (y = x) as -> by congruence. rewrite Hout. exact Hn. }
  destruct (Hoth q y Hne Hy) as [Hy'|[_ ->]]; [|exact Hn].
  apply (Hroom c' q y); [|done]. unfold gate_bind in Hq. destruct (m !! c) eqn:Hmc; [done|].
  rewrite lookup_insert in Hq. case_decide; [by injection Hq as ->|done].
Qed.

(** A pass over sockets that have nothing to read, and whose kernel takes all. *)
Definition flush (ks : sockptr -> Kernel) (qs : list sockptr) : list action :=
  (fun q => Receive q (ks q)) <$> qs.
Definition takes_all (k : Kernel) : Prop := k_data k = [] /\ TCPBufferSize <= k_room k.

Lemma flush_one i k x s am :
  system_ok s am -> sock (sy_server s) (Pooled i) = Some x -> takes_all k ->
  exists s', act std_sort (Receive (Pooled i) k) s = Ok (tt, s') /\ system_ok s' am /\
    requests s' = requests s /\ rxResponses_ (sy_gateway s') = rxResponses_ (sy_gateway s) /\
    (exists x', sock (sy_server s') (Pooled i) = Some x' /\ outbound x' = [] /\
       wire_ x' = wire_ x ++ outbound x) /\
    forall q y, q <> Pooled i -> sock (sy_server s) q = Some y -> sock (sy_server s') q = Some y.
Proof.
  intros Hs Hx [Hd Hk]. pose proof (ss_gateway _ _ Hs) as Hg. pose proof (ss_rest _ _ Hs _ _ Hx) as Hlen.
  assert (Hchunk : chunk_ok k) by (split; rewrite Hd; [constructor|done]).
  assert (Hbytes : inbound x ++ k_data k = frames [] ++ inbound x) by (by rewrite Hd, app_nil_r).
  assert (Hroom : room_for 0 (sy_gateway s)).
  { pose proof (sk_num _ (go_fifo _ _ Hg)). unfold room_for. lia. }
  assert (Hok : act_ok (Receive (Pooled i) k) s am).
  { split; [done|]. exists i, x. split; [done|]. split; [done|]. intros fs rest Hfs Hrest Hfok.
    rewrite Hbytes in Hfs. destruct (stream_unique [] fs (inbound x) rest Hfs) as [<- _]; [done..|].
    by split. }
  pose proof (receive_step (Pooled i) k s am Hs Hok) as Hw.
  assert (Hw2 : wp (act std_sort (Receive (Pooled i) k)) (fun _ s' =>
    read_on (Pooled i) k x (inbound x) (sy_server s) (sy_gateway s) (sy_server s') (sy_gateway s')) s).
  { cbn [act]. apply wp_on_world. unfold receive. wp_step.
    by apply (wp_sendAndRecv std_sort i k x [] (inbound x)). }
  apply wp_ok in Hw as ([] & s' & Hrun & Hs'). unfold wp in Hw2. rewrite Hrun in Hw2.
  destruct Hw2 as [(x' & Hx' & _ & Ho & Hwi) [Hoth _] Hrq Hrs _]. exists s'.
  split_and!; [done|done|unfold requests; by rewrite Hrq|done| |by intros q y Hq; apply Hoth].
  exists x'. split_and!; [done|done|]. rewrite Hwi. unfold taken. f_equal. apply take_ge.
  pose proof (sv_sock _ (go_server _ _ Hg) _ _ Hx) as Hsok. pose proof (blen_outbound x Hsok) as Hl.
  pose proof (so_snd _ Hsok). unfold blen in Hl. lia.
Qed.

Lemma flush_all ks qs : forall s am,
  system_ok s am ->
  Forall (fun q => (exists i, q = Pooled i) /\ is_Some (sock (sy_server s) q) /\ takes_all (ks q)) qs ->
  exists s', run std_sort (flush ks qs) s = Ok (tt, s') /\ system_ok s' am /\
    requests s' = requests s /\ rxResponses_ (sy_gateway s') = rxResponses_ (sy_gateway s) /\
    forall q y, sock (sy_server s) q = Some y -> exists y', sock (sy_server s') q = Some y' /\
      wire_ y' ++ outbound y' = wire_ y ++ outbound y /\ (q ∈ qs -> outbound y' = []) /\
      (outbound y = [] -> outbound y' = []).
Proof.
  induction qs as [|p qs IH]; intros s am Hs Hqs.
  { exists s. split_and!; [done..|]. intros q y Hy. exists y. split_and!; try done. by intros ?%elem_of_nil. }
  apply Forall_cons in Hqs as [((i & ->) & [x Hx] & Hk) Hqs].
  destruct (flush_one i (ks (Pooled i)) x s am Hs Hx Hk) as (s1 & Hrun1 & Hs1 & Hrq1 & Hrs1 & (x1 & Hx1 & Ho1 & Hw1) & Hoth).
  destruct (IH s1 am Hs1) as (s2 & Hrun2 & Hs2 & Hrq2 & Hrs2 & Hend).
  { eapply Forall_impl; [exact Hqs|]. intros q (Hq & [y Hy] & Hkq). split_and!; [done| |done].
    destruct (decide (q = Pooled i)) as [->|Hne]; [by exists x1|exists y; by apply Hoth]. }
  exists s2. split_and!; [|done|congruence|congruence|].
  { unfold flush. cbn [fmap list_fmap run]. by rewrite (bind_ok _ _ _ _ _ Hrun1). }
  intros q y Hy. destruct (decide (q = Pooled i)) as [->|Hne].
  - assert (y = x) as -> by congruence. destruct (Hend _ _ Hx1) as (y' & Hy' & He & _ & Hn).
    exists y'. split_and!; [done|by rewrite He, Ho1, app_nil_r, Hw1|auto|auto].
  - destruct (Hend _ _ (Hoth q y Hne Hy)) as (y' & Hy' & He & Hin & Hn). exists y'.
    split_and!; [done|done| |done]. intros [?|?]%elem_of_cons; [done|auto].
Qed.

(** C5. From the wire to the wire.  On an idle exchange, the bytes of a request
    that is the next of its client and acceptable to its book, read from the
    client's socket, are taken through the gate, the sequencer, the engine, the
    response loop and a pass over the sockets [qs] without a fault: the books move
    to the reference model's next state, nothing stays on its way, and after what
    waited for a socket before come exactly the responses of the request's book
    that are for the clients of that socket, numbered from the client's next
    number on (as many as the response queue holds): on the wire for the sockets
    of the pass, in the outbound buffer for others.  Of what waited on the
    client's own socket the kernel gets what it had room for. *)
Theorem lone_request_is_answered now i k x f ks qs s am :
  system_ok s am -> idle s ->
  sock (sy_server s) (Pooled i) = Some x -> inbound x = [] ->
  chunk_ok k -> k_data k = ogs_request_encode f -> ogs_request_ok f -> client_ok (frame_client f) ->
  gate_accepts (Pooled i) f (sockets s) (mapClientToRxNSeq_ (sy_gateway s)) = true ->
  engine_acceptable (og_omeRequest f) am = true ->
  0 < capacity_ (sq_rxRequests_ (fifo_ (sy_gateway s))) ->
  50 * capacity_ (rxResponses_ (sy_gateway s)) <= TCPBufferSize ->
  room_out (sockets s) (50 * capacity_ (rxResponses_ (sy_gateway s))) (sy_server s) ->
  Forall (fun q => (exists i, q = Pooled i) /\ is_Some (sock (sy_server s) q) /\ takes_all (ks q)) qs ->
  exists s' evs,
    run std_sort ([Receive (Pooled i) k; Publish; EngineTurn now; Respond] ++ flush ks qs) s = Ok (tt, s') /\
    system_ok s' (engine_model (og_omeRequest f) am) /\ turn_sends (og_omeRequest f) am evs /\
    requests s' = [] /\ contents (rxResponses_ (sy_gateway s')) = [] /\
    forall q y, sock (sy_server s) q = Some y -> exists y', sock (sy_server s') q = Some y' /\
      wire_ y' ++ outbound y' =
        wire_ y ++ (if decide (q = Pooled i) then taken k (outbound y) else outbound y) ++
        response_frames (gate_bind (Pooled i) (frame_client f) (sockets s)) q (mapClientToTxNSeq_ (sy_gateway s))
          (take (Z.to_nat (capacity_ (rxResponses_ (sy_gateway s)))) (omap resp_of evs)) /\
      (q ∈ qs -> outbound y' = []).
Proof.
  intros Hs (Hseq & Hreq & Hresp) Hx Hin Hk Hd Hf Hc Hga Hacc Hcap Hbuf Hroom Hqs.
  destruct (receive_one i k x f s am) as (s1 & Hrun1 & Hs1 & [(x1 & Hx1 & _ & Hout1 & Hw1) [Hkeep Hoth] Hrq1 Hrs1 Htx1] & Hseq1 & Hm1);
    [done..|].
  assert (Hreq1 : requests s1 = []) by (unfold requests in *; by rewrite Hrq1).
  destruct (publish_one (og_omeRequest f) s1 am) as (s2 & Hrun2 & Hs2 & Hreq2 & Hv2 & Hm2 & Hrs2 & Htx2);
    [done..|by rewrite Hrq1|].
  destruct (turns_then_respond [now] s2 am) as (s3 & evs & Hrun3 & Hs3 & Hreq3 & Hresp3 & Hse & Hsent & _);
    [done|by rewrite Hreq2; cbn; rewrite Hacc|by rewrite Hreq2| |].
  { rewrite Hm2, Hm1, Hrs2, Hrs1, Hv2. apply (room_after _ _ _ _ (sy_server s)); [done|done|done|by exists x1]. }
  rewrite Hreq2 in *. cbn [session_sends engine_session] in *.
  destruct Hse as (evs1 & ? & -> & Hse & ->). rewrite app_nil_r in *.
  rewrite Hm2, Hm1, Htx2, Htx1, Hrs2, Hrs1, Hv2, Hresp in Hsent. unfold kept in Hsent.
  cbn [length app] in Hsent. rewrite Nat.sub_0_r in Hsent.
  assert (Hat : forall q y, sock (sy_server s) q = Some y -> exists y', sock (sy_server s1) q = Some y' /\
    wire_ y' ++ outbound y' = wire_ y ++ (if decide (q = Pooled i) then taken k (outbound y) else outbound y)).
  { intros q y Hy. destruct (decide (q = Pooled i)) as [->|Hq]; [|by exists y; split; [apply Hkeep|]].
    exists x1. assert (y = x) as -> by congruence. split; [done|]. by rewrite Hout1, app_nil_r. }
  destruct (flush_all ks qs s3 _ Hs3) as (s4 & Hrun4 & Hs4 & Hreq4 & Hrs4 & Hend).
  { eapply Forall_impl; [exact Hqs|]. intros q (Hq & [y Hy] & Hkq). split_and!; [done| |done].
    destruct (Hat q y Hy) as (y1 & Hy1 & _). destruct (Hsent q y1 Hy1) as (y3 & Hy3 & _). by exists y3. }
  exists s4, evs1. split_and!; try done; [|by rewrite Hreq4|by rewrite Hrs4|].
  - rewrite (run_app _ (flush ks qs) s s3); [exact Hrun4|].
    cbn [run fmap list_fmap app] in *. rewrite (bind_ok _ _ _ _ _ Hrun1), (bind_ok _ _ _ _ _ Hrun2). exact Hrun3.
  - intros q y Hy. destruct (Hat q y Hy) as (y1 & Hy1 & He1).
    destruct (Hsent q y1 Hy1) as (y3 & Hy3 & Ho3 & _ & _ & Hw3). destruct (Hend q y3 Hy3) as (y4 & Hy4 & He4 & Hin4 & _).
    exists y4. split_and!; [done| |done]. by rewrite He4, Hw3, Ho3, app_assoc, He1, <- !app_assoc.
Qed.

End Preservation.

(** ** Construction *)

(** The engine of main and a gateway on its two queues. *)
Definition newSystem : res System :=
  match newTCPServer, main_engine with
  | Ok v, Ok e => Ok (mkSystem v (newGateway (rxRequests_ e) (txResponses_ (out_ e))) e)
  | Err f, _ | _, Err f => Err f
  end.

Lemma fresh_books_empty i a : fresh_books !! i = Some a -> a = empty_book.
Proof.
  unfold fresh_books. intros Hi%elem_of_list_to_map_2.
  by apply list_elem_of_fmap in Hi as (j & [= -> ->] & _).
Qed.

Lemma newSystem_ok : exists s, newSystem = Ok s /\ system_ok s fresh_books /\ requests s = [].
Proof.
  destruct newTCPServer_ok as (v & Hv & Hok & Hnone & _ & _ & Hl).
  destruct (newEngine_spec (newQueue MAX_CLIENT_UPDATES) (newQueue MAX_CLIENT_UPDATES) (newQueue MAX_MARKET_UPDATES))
    as (m & Hm & Hb).
  unfold newSystem, main_engine. rewrite Hv, Hm. eexists. split; [done|]. split; [|done].
  assert (Hq : forall T (d : Default T), queue_ok (newQueue (T:=T) MAX_CLIENT_UPDATES)).
  { intros T d. by apply newQueue_ok. }
  split; cbn [sy_server sy_gateway sy_engine rxRequests_ txResponses_ out_ txMarketUpdates_]; try done.
  - intros [|i] x Hx; [|by rewrite Hnone in Hx]. cbn in Hx. rewrite Hl in Hx. injection Hx as <-.
    change (0 < 38). lia.
  - intros i a o Ha%fresh_books_empty. subst. by intros ?%elem_of_nil.
Qed.

(** *** Witnesses *)
#[local] Existing Instance zeroStray.

(** A request of client 3, bound to the connection, waits for the engine. *)
Definition demo_order : OMEClientRequest := mkRequest RequestType.NEW 3 0 1 Side.BUY 100 5.
Definition demo_requests_queue : LFQueue OMEClientRequest :=
  match push demo_order (newQueue 8) with Ok (_, q) => q | Err _ => newQueue 8 end.
Definition demo_system (q : LFQueue OMEClientRequest) (m : gmap Z OrderBook) : System :=
  mkSystem (server_with (socket_with []))
    (set_fifo (newSequencer q)
       (set_rxResponses (newQueue 8) (set_socketMap {[3 := Pooled 0]} demo_gateway)))
    (mkEngine m (newQueue 8) (mkOut (newQueue 8) (newQueue 8) []) true).

Lemma demo_queue_contents : queue_ok demo_requests_queue /\ contents demo_requests_queue = [demo_order].
Proof. split; [|vm_compute; reflexivity]. split; vm_compute; try done; intros; by split. Qed.

Lemma demo_system_ok q :
  queue_ok q -> Forall (fun r => r = demo_order) (contents q) ->
  exists m, system_ok (demo_system q m) fresh_books.
Proof.
  intros Hq Hrs.
  destruct (newEngine_spec (newQueue 8) (newQueue 8) (newQueue 8)) as (m & _ & Hb). exists m.
  destruct (socket_with_ok [] (Forall_nil_2 _)) as [Hs Hin]; [discriminate|].
  destruct (server_with_ok (socket_with []) Hs) as [Hv Hsock].
  assert (Hq8 : forall T (d : Default T), queue_ok (newQueue (T:=T) 8)) by (intros T d; by apply newQueue_ok).
  split; cbn [demo_system sy_server sy_gateway sy_engine]; try done.
  - destruct (gateway_with_ok (newQueue 8) {[3 := Pooled 0]} (socket_with [])) as [H1 H2 H3 H4 H5 H6];
      [done|intros c p; rewrite lookup_singleton_Some; by intros [_ <-]|done|].
    by split.
  - intros [|i] x Hx; [injection Hx as <-; done|].
    change (live (socketPool_ (server_with (socket_with []))) !! i = Some x) in Hx.
    unfold live in Hx. cbn [server_with socketPool_ memoryBlocks_] in Hx.
    rewrite lookup_omap, lookup_singleton in Hx. case_decide; [|done]. injection Hx as <-. by rewrite Hin.
  - intros i a o Ha%fresh_books_empty. subst. by intros ?%elem_of_nil.
  - change (Forall (fun r => bound {[3 := Pooled 0]} (rq_clientId r)) (contents q)).
    eapply Forall_impl; [exact Hrs|]. intros r ->. split; [split; [discriminate|reflexivity]|by eexists].
Qed.

(** The same order as it arrives on the connection. *)
Definition wire_order : OGSClientRequest := mkOGSRequest 1 demo_order.
Definition demo_read : Kernel := mkKernel (ogs_request_encode wire_order) None 0.
Definition demo_room : Kernel := mkKernel [] None TCPBufferSize.

Lemma wire_order_ok : ogs_request_ok wire_order /\ client_ok (frame_client wire_order) /\ chunk_ok demo_read.
Proof.
  split; [|split].
  - repeat split; by vm_compute.
  - split; [discriminate|reflexivity].
  - split; [apply ogs_request_bytes|vm_compute; discriminate].
Qed.

Definition queued_system (m : gmap Z OrderBook) : System := demo_system demo_requests_queue m.
Definition idle_system (m : gmap Z OrderBook) : System := demo_system (newQueue 8) m.

Lemma queued_system_ok : exists m, system_ok (queued_system m) fresh_books /\ requests (queued_system m) = [demo_order].
Proof.
  destruct demo_queue_contents as [Hq Hc]. destruct (demo_system_ok demo_requests_queue Hq) as [m Hm].
  - rewrite Hc. by apply Forall_singleton.
  - by exists m.
Qed.
Lemma idle_system_ok :
  exists m, system_ok (idle_system m) fresh_books /\ idle (idle_system m) /\
    sock (sy_server (idle_system m)) (Pooled 0) = Some (socket_with []).
Proof.
  destruct (demo_system_ok (newQueue 8)) as [m Hm]; [by apply newQueue_ok|by apply Forall_nil_2|].
  exists m. split; [done|]. by split_and!.
Qed.

Lemma system_never_faults_witness :
  (exists s, system_ok s fresh_books /\ requests s = [demo_order] /\
   exists s' am', run stable_sort
     [Poll [demo_event] [demo_accepted 9]; EngineTurn "09:30:00"; Publish] s = Ok (tt, s') /\
     system_ok s' am') /\
  (exists s, idle s /\ exists s' am', run stable_sort [Receive (Pooled 0) demo_read; Publish] s = Ok (tt, s') /\
     system_ok s' am').
Proof.
  split.
  - destruct queued_system_ok as (m & Hs & Hr). exists (queued_system m). split; [done|]. split; [done|].
    destruct (system_never_faults stable_sort stable_sort_ok
      [Poll [demo_event] [demo_accepted 9]; EngineTurn "09:30:00"; Publish] _ fresh_books Hs)
      as (s' & am' & Hrun & _ & Hok); [split|by exists s', am'].
    { split; [split; [discriminate|by repeat constructor]|]. split; [discriminate|].
      split; [by repeat constructor|done]. }
    intros s1 H1. assert (Hg : sy_gateway s1 = sy_gateway (queued_system m)).
    { cbn [act] in H1. unfold on_world, on_server, zoom in H1.
      destruct (poll _ _ _) as [[[] v]|]; [|done]. by injection H1 as <-. }
    split; [|done]. cbn [act_ok next]. unfold requests in *. rewrite Hg, Hr. vm_compute. reflexivity.
  - destruct idle_system_ok as (m & Hs & Hi & Hx). destruct wire_order_ok as (Hf & Hc & Hk).
    exists (idle_system m). split; [done|].
    destruct (system_never_faults stable_sort stable_sort_ok [Receive (Pooled 0) demo_read; Publish] _ fresh_books Hs)
      as (s' & am' & Hrun & _ & Hok); [|exists s', am'; split; [exact Hrun|exact Hok]].
    split; [|intros s1 _; split; [exact I|intros s2 _; exact I]].
    split; [exact Hk|]. exists 0, (socket_with []). split; [reflexivity|]. split; [exact Hx|]. intros fs rest Hfs Hrest Hfok.
    rewrite (eq_refl : inbound (socket_with []) = []), app_nil_l in Hfs.
    rewrite (eq_refl : k_data demo_read = frames [wire_order]), <- (app_nil_r (frames [wire_order])) in Hfs.
    apply (stream_unique [wire_order]) in Hfs as [<- _];
      [|exact (proj2 (Forall_singleton _ _) Hf)|exact Hfok|reflexivity|exact Hrest].
    split; [constructor; [exact Hc|constructor]|vm_compute; discriminate].
Defined.

Lemma lone_request_is_answered_witness :
  exists s, idle s /\ exists s' evs,
    run stable_sort [Receive (Pooled 0) demo_read; Publish; EngineTurn "09:30:00"; Respond;
      Receive (Pooled 0) demo_room] s = Ok (tt, s') /\
    turn_sends demo_order fresh_books evs /\ requests s' = [] /\
    exists y', sock (sy_server s') (Pooled 0) = Some y' /\ outbound y' = [] /\
      wire_ y' = response_frames {[3 := Pooled 0]} (Pooled 0) (replicate 256 1) (take 8 (omap resp_of evs)).
Proof.
  destruct idle_system_ok as (m & Hs & Hi & Hx). destruct wire_order_ok as (Hf & Hc & Hk).
  exists (idle_system m). split; [done|].
  destruct (lone_request_is_answered stable_sort stable_sort_ok "09:30:00" 0 demo_read (socket_with []) wire_order
    (fun _ => demo_room) [Pooled 0] (idle_system m) fresh_books Hs Hi Hx eq_refl Hk eq_refl Hf Hc)
    as (s' & evs & Hrun & _ & Hse & Hr & _ & Hend).
  - reflexivity.
  - vm_compute. reflexivity.
  - reflexivity.
  - vm_compute. discriminate.
  - intros c p x Hp Hpx. change (({[3 := Pooled 0]} : gmap Z sockptr) !! c = Some p) in Hp.
    apply lookup_singleton_Some in Hp as [_ <-]. rewrite Hx in Hpx. injection Hpx as <-. vm_compute. discriminate.
  - apply Forall_singleton. split; [by exists 0|]. split; [by eexists|done].
  - exists s', evs. split; [exact Hrun|]. split; [exact Hse|]. split; [exact Hr|].
    destruct (Hend _ _ Hx) as (y' & Hy' & Hw & Ho). specialize (Ho (list_elem_of_here _ _)).
    exists y'. split; [exact Hy'|]. split; [exact Ho|]. by rewrite Ho, app_nil_r in Hw.
Defined.

Lemma queued_requests_are_answered_witness :
  exists s, requests s = [demo_order] /\
  exists s' evs, run stable_sort [EngineTurn "09:30:00"; Respond] s = Ok (tt, s') /\
    requests s' = [] /\ session_sends [demo_order] fresh_books evs.
Proof.
  destruct queued_system_ok as (m & Hs & Hr). exists (queued_system m). split; [done|].
  destruct (queued_requests_are_answered stable_sort ["09:30:00"%string] (queued_system m) fresh_books Hs)
    as (s' & evs & Hrun & _ & Hq & _ & Hse & _).
  - rewrite Hr. vm_compute. reflexivity.
  - by rewrite Hr.
  - intros c p x Hp Hx. change (({[3 := Pooled 0]} : gmap Z sockptr) !! c = Some p) in Hp.
    apply lookup_singleton_Some in Hp as [_ <-]. destruct (socket_with_ok [] (Forall_nil_2 _)) as [Hsok _]; [discriminate|].
    destruct (server_with_ok (socket_with []) Hsok) as [_ Hsock].
    cbn [queued_system demo_system sy_server] in Hx. rewrite Hsock in Hx. injection Hx as <-. vm_compute. discriminate.
  - exists s', evs. rewrite Hr in Hse. by split_and!.
Defined.
