(* ===== verification/Exchange.v ===== *)
(** The exchange with somebody who reads its market data: System.v's gateway and
    engine, and MarketData.v's reader on the third queue, in any interleaving.

    main hands the engine a queue of market updates that it leaves to another
    component to read; the repository has none.  The reader of MarketData.v stands
    for it: it owns a copy of the visible orders of every ticker and takes one
    update at a time from the engine's queue. *)

From S2P Require Import Prelude LFQueue Types Messages OrderBook BookModel BookSpec BookTheorems MatchingEngine MarketData FIFOSequencer TCPSocket TCPServer OrderGateway System.
#[local] Open Scope Z_scope.

Record Exchange := mkExchange {
  ex_system : System;
  ex_copies : gmap Z depth;
}.

(** What the reader and the engine share. *)
Definition market_of (x : Exchange) : Market := mkMarket (engine_of (ex_system x)) (ex_copies x).
Definition set_market (m : Market) (x : Exchange) : Exchange :=
  mkExchange (set_engine (mk_engine m) (ex_system x)) (mk_copies m).
Definition queued_updates (x : Exchange) : list OMEMarketUpdate := contents (updates (market_of x)).

Inductive exchange_act :=
  | Act (a : action)
  | Take.

Section Steps.
Context `{StrayMemory OrderBook}.
Context (std_sort : list PendingClientRequest -> list PendingClientRequest).

Definition exchange_step (x : exchange_act) : M Exchange unit :=
  match x with
  | Act a => zoom ex_system (fun s x => mkExchange s (ex_copies x)) (act std_sort a)
  | Take => zoom market_of set_market read_update
  end.

Fixpoint exchange_run (xs : list exchange_act) : M Exchange unit :=
  match xs with
  | [] => mret tt
  | x :: xs' => exchange_step x;; exchange_run xs'
  end.

(** System.v's condition on an action; a turn also needs room for its updates. *)
Definition exchange_act_ok (x : exchange_act) (w : Exchange) (am : gmap Z ABook) : Prop :=
  match x with
  | Act a =>
      act_ok a (ex_system w) am /\
      match a with
      | EngineTurn _ =>
          Z.of_nat (length (queued_updates w) + feed_size (requests (ex_system w)) am) <=
            capacity_ (updates (market_of w))
      | _ => True
      end
  | Take => True
  end.
Definition exchange_next (x : exchange_act) (w : Exchange) (am : gmap Z ABook) : gmap Z ABook :=
  match x with
  | Act a => next a (ex_system w) am
  | Take => am
  end.

Fixpoint exchange_run_ok (xs : list exchange_act) (w : Exchange) (am : gmap Z ABook) : Prop :=
  match xs with
  | [] => True
  | x :: xs' =>
      exchange_act_ok x w am /\
      forall w', exchange_step x w = Ok (tt, w') -> exchange_run_ok xs' w' (exchange_next x w am)
  end.

(** The reference model along a run. *)
Fixpoint exchange_follows (xs : list exchange_act) (w : Exchange) (am am' : gmap Z ABook) : Prop :=
  match xs with
  | [] => am' = am
  | x :: xs' => exists w1, exchange_step x w = Ok (tt, w1) /\ exchange_follows xs' w1 (exchange_next x w am) am'
  end.

End Steps.

(** The updates on their way complete the reader's copies. *)
Definition tracked (w : Exchange) (am : gmap Z ABook) : Prop :=
  forall i a, am !! i = Some a -> replay (for_ticker i (queued_updates w)) (copy i (market_of w)) = shown a.

Record exchange_ok (w : Exchange) (am : gmap Z ABook) : Prop := {
  eo_system : system_ok (ex_system w) am;
  eo_tracked : tracked w am;
}.

Section Preservation.
Context `{StrayMemory OrderBook}.
Context (std_sort : list PendingClientRequest -> list PendingClientRequest) (Hsort : sort_spec std_sort).
Implicit Types (w : Exchange) (s : System) (am : gmap Z ABook).

(** The exchange seen by MarketData.v. *)
Lemma exchange_in_step w am :
  exchange_ok w am ->
  in_step (capacity_ (requests_in (market_of w))) (capacity_ (updates (market_of w))) (market_of w)
    (mkOutline (requests (ex_system w)) (length (queued_updates w)) am).
Proof.
  intros [[Hg _ Hu Hb _ _ _ _] Ht]. split; try done.
  - apply (sk_rx _ (go_fifo _ _ Hg)).
  - split; [apply (go_responses _ _ Hg)|done].
Qed.

Lemma engine_of_set e s : engine_of (set_engine e s) = e.
Proof. by destruct e as [? ? [] ?]. Qed.

(** The gateway's actions do not touch the engine's own state. *)
Lemma act_engine a s s' :
  match a with EngineTurn _ => False | _ => True end ->
  act std_sort a s = Ok (tt, s') -> sy_engine s' = sy_engine s.
Proof.
  intros Ha. destruct a; try done; cbn [act]; unfold on_world, zoom;
    (match goal with |- context [match ?m with Ok _ => _ | Err _ => _ end] => destruct m as [[[] [? ?]]|] end);
    by intros [= <-].
Qed.

Lemma gateway_act_ok a w am :
  match a with EngineTurn _ => False | _ => True end ->
  exchange_ok w am -> act_ok a (ex_system w) am ->
  wp (exchange_step std_sort (Act a)) (fun _ w' => exchange_ok w' (next a (ex_system w) am)) w.
Proof.
  intros Ha [Hs Ht] Hok. cbn [exchange_step]. apply wp_zoom.
  pose proof (act_preserves std_sort Hsort a _ am Hs Hok) as Hw. apply wp_ok in Hw as ([] & s' & Hact & Hs').
  apply wp_ok. exists tt, s'. split; [done|]. split; [done|].
  assert (Hn : next a (ex_system w) am = am) by (by destruct a). rewrite Hn.
  unfold tracked, queued_updates, market_of, updates, engine_of in *. cbn [ex_system ex_copies mk_engine] in *.
  by rewrite (act_engine a _ _ Ha Hact).
Qed.

Lemma turn_act_ok now w am :
  exchange_ok w am -> exchange_act_ok (Act (EngineTurn now)) w am ->
  wp (exchange_step std_sort (Act (EngineTurn now)))
    (fun _ w' => exchange_ok w' (next (EngineTurn now) (ex_system w) am)) w.
Proof.
  intros Hw [Hacc Hroom]. pose proof Hw as [Hs Ht]. cbn [exchange_step]. apply wp_zoom.
  pose proof (act_preserves std_sort Hsort (EngineTurn now) _ am Hs Hacc) as Hact.
  apply wp_ok in Hact as ([] & s' & Hact & Hs'). apply wp_ok. exists tt, s'. split; [done|]. split; [done|].
  assert (Hm : wp (market_step (Turn now)) (fun _ m' => in_step (capacity_ (requests_in (market_of w)))
    (capacity_ (updates (market_of w))) m' (outline_step (capacity_ (requests_in (market_of w))) (Turn now)
      (mkOutline (requests (ex_system w)) (length (queued_updates w)) am))) (market_of w)).
  { eapply wp_engine_turn; [by apply exchange_in_step| |done].
    apply andb_true_iff. split; [|by apply Z.leb_le]. cbn in Hacc |- *. by destruct (requests (ex_system w)). }
  apply wp_ok in Hm as ([] & m' & Hturn & Hin). cbn [act] in Hact. cbn [market_step] in Hturn.
  unfold on_engine, zoom in Hact, Hturn. cbn [mk_engine market_of] in Hturn.
  destruct (engineTurn now (engine_of (ex_system w))) as [[[] e']|]; [|done].
  injection Hact as <-. injection Hturn as <-. intros i a Ha.
  pose proof (is_copy _ _ _ _ Hin i a) as Hc. cbn [outline_step ol_books ol_requests] in Hc.
  unfold queued_updates, market_of. cbn [ex_system ex_copies]. rewrite engine_of_set. apply Hc.
  cbn [next] in Ha. unfold head_model. by destruct (requests (ex_system w)).
Qed.

(** Reading changes the queue of updates and the copies. *)
Lemma read_update_frame m :
  queue_ok (updates m) ->
  wp read_update (fun _ m' => exists q, queue_ok q /\ mk_engine m' = mk_engine (set_updates q m)) m.
Proof.
  intros Hq. unfold read_update. wp_step. apply wp_zoom.
  destruct (pop_spec _ Hq) as (q' & Hp & Hq' & _). apply wp_ok. do 2 eexists. split; [exact Hp|].
  destruct (fifo_pop _).1; [apply wp_modify|apply wp_ret]; by exists q'.
Qed.

Lemma take_ok w am :
  exchange_ok w am -> wp (exchange_step std_sort Take) (fun _ w' => exchange_ok w' am) w.
Proof.
  intros Hw. pose proof (exchange_in_step w am Hw) as Hin. destruct Hw as [Hs Ht].
  cbn [exchange_step]. apply wp_zoom.
  pose proof (read_update_frame (market_of w) (ss_updates _ _ Hs)) as Hf.
  assert (Hr : wp read_update (fun _ m' => in_step (capacity_ (requests_in (market_of w)))
    (capacity_ (updates (market_of w))) m' (outline_step (capacity_ (requests_in (market_of w))) Read
      (mkOutline (requests (ex_system w)) (length (queued_updates w)) am))) (market_of w))
    by (by eapply wp_read_update).
  pose proof (wp_conj _ _ _ _ Hf Hr) as Hwp. apply wp_ok in Hwp as ([] & m' & Hrun & (q & Hq & He) & Hin').
  apply wp_ok. exists tt, m'. split; [done|]. pose proof (is_books _ _ _ _ Hin') as Hb. split.
  - cbn [set_market ex_system]. rewrite He in *. destruct Hs. split; try done.
    destruct ss_gateway as [? [? ? ?] ? ? ? ?]. by split.
  - intros i a Ha. pose proof (is_copy _ _ _ _ Hin' i a Ha) as Hc.
    unfold queued_updates, market_of. cbn [ex_system ex_copies set_market]. by rewrite engine_of_set; destruct m'.
Qed.

Lemma exchange_step_ok x w am :
  exchange_ok w am -> exchange_act_ok x w am ->
  wp (exchange_step std_sort x) (fun _ w' => exchange_ok w' (exchange_next x w am)) w.
Proof.
  intros Hw Hx. destruct x as [a|]; [|by apply take_ok].
  destruct a; try (apply gateway_act_ok; [done|done|apply Hx]). by apply turn_act_ok.
Qed.

Lemma exchange_run_keeps xs : forall w am,
  exchange_ok w am -> exchange_run_ok std_sort xs w am ->
  exists w' am', exchange_run std_sort xs w = Ok (tt, w') /\ exchange_follows std_sort xs w am am' /\
    exchange_ok w' am'.
Proof.
  induction xs as [|x xs IH]; intros w am Hw Hok; [by exists w, am|]. destruct Hok as [Hx Hrest].
  pose proof (exchange_step_ok x w am Hw Hx) as Hst. apply wp_ok in Hst as ([] & w1 & Hrun & Hw1).
  destruct (IH w1 _ Hw1 (Hrest w1 Hrun)) as (w' & am' & Hrun' & Hf & Hw').
  exists w', am'. split; [|by split; [exists w1|]]. cbn [exchange_run]. by rewrite (bind_ok _ _ _ _ _ Hrun).
Qed.

(** C7. From the wire to the market data.  Let the gateway's calls, the engine's
    turns and a reader of the market updates run in any interleaving, from a state
    in which the updates on their way complete the reader's copies.  As long as
    the outside world is as in the safety theorem of the exchange and no turn
    finds the queue of updates too full, nothing faults, and at the end the
    updates still queued turn the copy of every ticker into what that ticker's
    book shows, the book being what the reference model makes of the requests
    the engine took; when no update is queued, copy and book are equal. *)
Theorem exchange_feeds_reader xs w am :
  system_ok (ex_system w) am -> tracked w am -> exchange_run_ok std_sort xs w am ->
  exists w' am', exchange_run std_sort xs w = Ok (tt, w') /\ exchange_follows std_sort xs w am am' /\
    system_ok (ex_system w') am' /\
    forall i a, am' !! i = Some a ->
      (exists b, orderBookForTicker_ (sy_engine (ex_system w')) !! i = Some b /\ View b a) /\
      replay (for_ticker i (queued_updates w')) (copy i (market_of w')) = shown a /\
      (queued_updates w' = [] -> copy i (market_of w') = shown a).
Proof.
  intros Hs Ht Hok. destruct (exchange_run_keeps xs w am) as (w' & am' & Hrun & Hf & [Hs' Ht']); [by split|done|].
  exists w', am'. split_and!; [done|done|done|]. intros i a Ha. specialize (Ht' i a Ha). split_and!.
  - pose proof (ss_books _ _ Hs' i) as Hb. rewrite Ha in Hb. inversion Hb as [b ? Hv Hbk|]; subst. by exists b.
  - done.
  - intros He. by rewrite He in Ht'.
Qed.

End Preservation.

(** *** Witness *)
#[local] Existing Instance zeroStray.

(** The engine takes the queued order of client 3, and the reader its update. *)
Lemma exchange_feeds_reader_witness :
  exists w, requests (ex_system w) = [demo_order] /\ exists w' a,
    exchange_run stable_sort [Act (EngineTurn "09:30:00"); Take; Take] w = Ok (tt, w') /\
    shown a = {[1 := mkQuote Side.BUY 100 5 1]} /\
    replay (for_ticker 0 (queued_updates w')) (copy 0 (market_of w')) = shown a.
Proof.
  destruct queued_system_ok as (m & Hs & Hr). exists (mkExchange (queued_system m) ∅). split; [exact Hr|].
  destruct (exchange_feeds_reader stable_sort stable_sort_ok [Act (EngineTurn "09:30:00"); Take; Take]
    (mkExchange (queued_system m) ∅) fresh_books Hs) as (w' & am' & Hrun & (w1 & _ & w2 & _ & w3 & _ & Ham) & _ & Hcp).
  - intros i a Ha. apply fresh_books_empty in Ha. by subst a.
  - split; [|intros w1 _; split; [exact I|intros w2 _; split; [exact I|intros w3 _; exact I]]].
    cbn [exchange_act_ok ex_system act_ok]. rewrite Hr. split; [vm_compute; reflexivity|].
    vm_compute. discriminate.
  - cbn [exchange_next next ex_system] in Ham. rewrite Hr in Ham.
    destruct (engine_model demo_order fresh_books !! 0) as [a|] eqn:Ha; [|by vm_compute in Ha].
    exists w', a. split; [exact Hrun|]. split; [vm_compute in Ha; injection Ha as <-; vm_compute; reflexivity|].
    apply (Hcp 0 a). rewrite Ham. exact Ha.
Defined.
